(* ===== verification/_CoqProject ===== *)
-Q . S2P
Prelude.v
PyStr.v
Base64.v
Json.v
Config.v
External.v
PyStd.v
Sha256.v
Xml.v
Models.v
Coro.v
Crash.v
Prog.v
Nonce.v
Jws.v
Ip.v
Http01.v
Schemas.v
Ownership.v
LeClient.v
Worker.v
Orders.v
Routes.v
Main.v
Effects.v
System.v
Safety.v
Scenario.v
Pool.v
Theorems.v
Handlers.v
Accounts.v
Credits.v
Outcomes.v
Settle.v
Races.v
Ceiling.v
Departures.v
Os.v
RelayCert.v
Net.v
AcmeClient.v
DnsJson.v
Namecheap.v
Route53.v
Loader.v
Loops.v
Serve.v
Schema.v
Engine.v
Upgrade.v
Env.v
Lifespan.v
Dns01.v
DnsStore.v
CloudflareZone.v
Route53Zone.v
PorkbunZone.v
Providers.v
Renewal.v
Rows.v
