(* ===== verification/Prelude.v ===== *)
(** * Jackdaw, an ACME relay: a verification library

    Jackdaw is an ACME server for internal clients and an ACME client of Let's
    Encrypt.  A client registers an account, places an order for one domain,
    proves control of it by HTTP-01, and finalizes the order with a CSR; the
    relay then obtains the certificate from the CA by DNS-01 and hands it out.
    Every authenticated request is a JWS with a single-use nonce.  The code is
    under [src/src/jackdaw/]; names below are relative to it.

    ** Files, in dependency order

    Vocabulary and the language's library:
    - [Prelude]: texts and octets as lists of code points, shared tactics and
      list lemmas;
    - [PyStr]: methods of [str]; [Base64]: Python's base64 codecs and
      [b64url_decode] of [_util.py]; [Json]: [json.dumps], [json.loads],
      [canonical_jwk] of [_util.py]; [PyStd]: UTF codecs, [json.loads] on bytes,
      [repr], ISO timestamps; [Ip]: the [ipaddress] module; [Sha256]: hashlib's
      SHA-256 and HMAC; [Xml]: element trees and [xml.sax.saxutils];
    - [External]: a type class for what the program imports from josepy,
      cryptography and pydantic, and a concrete instance [toy] for witnesses.

    Coroutines:
    - [Coro]: trees of effects over any signature, [execs] under interference,
      [run] on a supply of answers, rely-guarantee assertions ([rg], [safe]), and
      sums of signatures; [Crash]: where the process may die ([crashes], [wpc]);
      [Loops]: loops that may never end, as interaction trees;
    - three worlds of effects: [Prog] (database, clock, locks, the CA's [sign]),
      [Os] (files, with failures and torn writes, and the live TLS context),
      [Net] (HTTP and the CA as the client's protocol steps see them).

    The server:
    - [Config]: [config.py], [acme_errors.py];
    - [Models]: [db/models.py], exceptions, and transactions on the tables;
    - [Nonce]: [services/nonce.py]; [Jws]: [services/jws.py];
      [Http01]: [services/http01.py]; [Schemas]: [schemas/acme.py];
      [Ownership]: [services/ownership.py]; [Worker]: [services/cert_store.py] and
      [worker.py]; [Orders]: [routes/order.py]; [Routes]: the other routes;
    - [LeClient]: [services/le_client.py] as the server calls it; [AcmeClient]: its
      protocol steps, DNS-01 hooks, lock registry and account key;
    - [Main]: [main.py], that is the router, the header middleware ([dispatch]),
      start-up recovery ([reset_stmt]), the prune timer, and the server:
      [entry] says which coroutines arrive (any request, the timer), [restart]
      that the process may die at any point, [reachable] which states follow.

    Around the server:
    - [DnsJson]: [dns/base.py] (the class [DNSProvider] is in [Net]),
      [dns/providers/null.py], [porkbun.py], [cloudflare.py]; [Namecheap],
      [Route53]: the providers of these names; [Loader]: [dns/loader.py];
    - [RelayCert]: [services/relay_cert.py]; [Serve]: [serve.py] and the renewal
      loop; [Schema]: SQLite's definition statements, [migrations/versions/] and
      the ORM's metadata; [Engine]: [db/engine.py]; [Upgrade]: its start-up as
      a list of commits, cut anywhere; [Env]: [migrations/env.py], which implements
      the class [DbTools] that [Engine] uses; [Lifespan]: [lifespan] of [main.py];
      [Rows]: the rows of the tables by column.

    Whole-system proofs:
    - [System]: the invariant of tables and history, and the relation [shared]
      that every coroutine guarantees and relies on; [Safety]: each handler and
      task keeps it; [Scenario]: a complete issuance executed, whose end state
      the witnesses use; [Theorems]: what holds in every reachable state;
    - [Handlers], [Accounts]: what each kind of request establishes;
    - [Effects]: which effects each coroutine may perform; [Pool]: the coroutines
      left alone, their locks; [Settle]: who attends to a row in progress;
      [Races]: a scheduler, and interleavings that go wrong; [Ceiling]: the nonces
      stored when requests overlap; [Departures]: executions the documentation
      excludes;
    - [Credits]: counting finalizations and calls of the CA against claims;
    - [Outcomes]: the exact effect of the background tasks and of the recovery;
    - [Dns01]: the interface [ZoneProvider] between the client's hooks and a
      provider, kept by [Namecheap]; [CloudflareZone], [PorkbunZone], [Route53Zone]:
      and by the other providers, over records with ids ([DnsStore]) or record
      sets; [Providers]: the loader, its provider and the hooks composed;
      [Renewal]: the rounds of the renewal loop composed.

    ** State

    [Models.db] has one finite map per table, keyed by primary key.  A
    transaction ([tx]) is a function from tables to a result and new tables and
    stores nothing when it raises.  A [world] is the tables, the domain locks
    held, and the history of events (transactions with the tables before and
    after, resolutions, HTTP requests, tasks started, calls of the CA).  An
    exception is a value of [exn]; Python code without database or network
    access is a function into [res].  A handler or task is a [prog]; between any
    two of its effects the rest of the system may act.

    The relay's own files are an [os_state] (files with their modes, directories,
    the certificate and key the TLS context presents); the outbound side is a
    [net_state] (the outside of any type, the captured order URLs, the providers'
    locks, the requests and pauses so far); the schema is a [database] of tables
    and indexes.  Code that touches several of them runs on a sum of signatures
    and a product of states.  [Models.db] and [Schema.database] describe the same
    file, its rows as the handlers see them and its schema as migrations do.

    ** Theorems

    - Issuance ([Theorems], [Credits], [Orders]): the CA is asked only for
      domains whose control an exchange in the history proves; ready orders are
      proved, valid orders have their certificate; each claim of an order pays
      for one finalization and one call of the CA; a claim is won once.
    - Authentication ([Jws], [Nonce], [Handlers]): an accepted request is signed
      by the key it names, for its URL, and has itself spent its nonce; no nonce
      is accepted more often than issued; resources are served to their owner;
      every response carries the index link, and a fresh nonce.
    - HTTP-01 ([Http01], [Theorems]): a success has seen the key authorization at
      a vetted address; every request goes to a vetted address; the number of
      requests is bounded; the blocked IPv4 ranges in octets.
    - Accounts and certificates ([Accounts], [Json]): registration is idempotent
      and registers the signing key; key rollover is signed by both keys; the
      certificate search by serial number is exact; equal canonical key texts
      are equal keys.
    - Tasks and recovery ([Outcomes]): the tables after each task, for every
      answer of the network; what a restart changes.
    - Progress ([Pool], [Settle]): without new arrivals every schedule of the
      server is finite and free of deadlock; when the coroutines have ended, no
      order or authorization is in progress unless a task died of an exception.
      [Races] shows what is not prevented: a valid order reopened by a late
      validation and issued again, one key registered twice; [Ceiling] bounds by how
      much overlapping requests exceed the nonce ceiling; [Departures] has an order of
      no account, an account of no key, an expired order issued.
    - Codecs and checks ([Base64], [Config], [Orders], [LeClient]): round trips,
      domain policy, rate limit, identifiers, apex zones, release of the lock.
    - The CA client ([AcmeClient]): polling returns a certificate exactly when the
      order becomes valid in time, and is bounded; an order finalized elsewhere is
      recovered; orders do not disturb each other; the account key is created
      once, but not atomically.
    - DNS ([Providers], [Dns01], the providers' files): whichever provider is
      configured, but the null one, a fulfilled challenge is in the zone and
      clearing removes it (clearing: Cloudflare up to one page of its listing, Porkbun where no deletion
      is refused), but Route 53's record blocks the next one while it is there;
      concurrent calls of the whole-zone API refine an atomic
      specification; no value changes the structure of a request document; the
      signed query string parses back to the texts it was built from; deletion deletes every record.
    - The relay's certificate ([RelayCert], [Serve], [Renewal]): the files survive
      any failure and crash; boot ends exactly when some attempt succeeds, with
      the exact schedule of its pauses; HTTPS is offered only on a matching pair;
      the renewal loop runs for ever; what a pair separated by a crash does.
    - Start-up ([Engine], [Upgrade], [Env], [Lifespan]): the migrations bring every
      database to the ORM's schema and keep its rows, also after any number of
      crashes, but for the torn states a crash inside a revision leaves; they act on
      the file the application opens; a downgrade undoes its upgrade; the rows the handlers hold fit the migrated columns ([Rows]); the application
      serves only after a complete start.

    ** Fuel and bounds

    The JSON scanner runs with the length of its text as fuel, which
    [Json.loads_dumps] shows enough for every text the program writes; decimal
    and hexadecimal printers use [log2 n + 1] digits of fuel, enough by
    [digits_spec] and [hex_digits_spec].  All other recursion is structural; the
    validation and polling loops count their attempts down.  The loops without a
    bound (boot's retries, renewal, pruning) are interaction trees: what they
    return, or that they never do, is proved of the trees ([Loops.loop_returns],
    [Loops.loop_spins]), and [Loops.rounds] executes any number of rounds.  Timestamps are microseconds as
    integers; Python's integers are unbounded, and a parameter beyond 64 bits is
    refused by the driver as in SQLite.

    ** Assumptions of the model

    - SQLite isolates a transaction from its first write to its commit; reads
      outside are separate steps.  Foreign keys are not enforced, as the engine
      is configured.  Loading an object that no variable holds any more selects
      it again, after flushing pending assignments.
    - The clock, random values and the network answer anything of the right
      shape: nothing is assumed about the freshness of tokens and identifiers.
    - gufo-acme's [sign] is one effect with an arbitrary answer; its other
      operations, josepy and the XML parser are classes ([Gufo], [KeyExt],
      [XmlParser]) with the laws the proofs use ([KeyLaws]).  The protocol steps
      of [AcmeClient] that [sign] calls back are proved by themselves.
    - The texts the client reads in the CA's JSON answers are texts: another value
      raises a [TypeError] where it is read.
    - [os.replace] is atomic; any other call on a file may fail, and a write that
      fails or is interrupted leaves any prefix.  Nothing else writes the relay's
      directory.
    - The outside answers any request in any way; what a DNS service does with a
      request is assumed only in [HostService], [RecordService], [PorkbunService] and
      [RecordSetService].
    - Alembic and SQLAlchemy do what [AlembicLaws] says (from which [Env] proves
      the [DbLaws] of the engine) for a URL without a percent sign; SQLite commits each definition statement by
      itself, and identifiers are lower case.
    - [str.lower] and [str.upper] act on ASCII letters; the days a certificate has
      left are compared as exact microseconds.
    - uvicorn is the list of servers it was asked to run; while the process boots
      nothing else of it acts on its files.
    - FastAPI turns an [HTTPException] into a JSON answer and any other exception
      into a plain 500; the path parameter of a route is any text.
    - The value of a stored identifier is a text, as its schema makes it.

    ** Not modelled

    The interleaving of the protocol steps of one [sign] with the server's tables
    (they share no state), logging
    (but for [log_safe] and the level), [_get_client] of [services/le_client.py]
    and [get_db] of [db/engine.py], which only build objects, the classes
    [JWSEnvelope] and [AcmeError] of [schemas/acme.py], which nothing uses, and the
    [client_factory] test seam of [services/http01.py]. *)
From Stdlib Require Export ZArith Lia Bool String Ascii.
From stdpp Require Export base tactics list gmap strings fin_maps relations sorting.
#[global] Open Scope Z_scope.

(** ** Python text and binary data *)

(** A Python [str] is the list of its code points, a Python [bytes] object
    the list of its octets. *)
Abbreviation str := (list Z).
Abbreviation bytes := (list Z).

(** [u "text"] is the Python literal ["text"] (ASCII literals only). *)
Definition u (s : string) : str :=
  (λ a, Z.of_nat (nat_of_ascii a)) <$> list_ascii_of_string s.

(** ** Tactics *)

(** Splits on the scrutinee of a [match] or [if] in the goal or a hypothesis. *)
Ltac split_match :=
  match goal with
  | H : context [match ?x with _ => _ end] |- _ =>
      lazymatch x with context [match _ with _ => _ end] => fail | _ => idtac end;
      let E := fresh "E" in destruct x eqn:E
  | |- context [match ?x with _ => _ end] =>
      lazymatch x with context [match _ with _ => _ end] => fail | _ => idtac end;
      let E := fresh "E" in destruct x eqn:E
  end.

(** Turns boolean tests of the code into the propositions they decide. *)
Ltac bool_to_prop :=
  repeat match goal with
  | H : _ && _ = true |- _ => apply andb_true_iff in H; destruct H
  | H : _ || _ = false |- _ => apply orb_false_iff in H; destruct H
  | H : negb _ = true |- _ => apply negb_true_iff in H
  | H : negb _ = false |- _ => apply negb_false_iff in H
  | H : bool_decide _ = true |- _ => apply bool_decide_eq_true in H
  | H : bool_decide _ = false |- _ => apply bool_decide_eq_false in H
  | H : (_ =? _) = true |- _ => apply Z.eqb_eq in H
  | H : (_ =? _) = false |- _ => apply Z.eqb_neq in H
  | H : (_ <=? _) = true |- _ => apply Z.leb_le in H
  | H : (_ <=? _) = false |- _ => apply Z.leb_gt in H
  | H : (_ <? _) = true |- _ => apply Z.ltb_lt in H
  | H : (_ <? _) = false |- _ => apply Z.ltb_ge in H
  end.

(** Computes the length of appends and conses in a hypothesis. *)
Ltac len_simpl H := repeat first [rewrite length_app in H | progress cbn [length] in H].

(** ** Lists and options *)

(** Hints of the shared list lemmas. *)
Create HintDb jackdaw discriminated.

Lemma suffix_split {A} (l k : list A) :
  k `suffix_of` l → l = take (length l - length k) l ++ k.
Proof.
  intros [p ->]. rewrite length_app, Nat.add_sub.
  by rewrite take_app_length.
Qed.

Lemma lookup_reverse_last {A} (l : list A) : last l = head (reverse l).
Proof. by rewrite head_reverse. Qed.

Lemma filter_every {A} (P : A → Prop) `{∀ x, Decision (P x)} (l : list A) : (∀ x, x ∈ l → P x) → filter P l = l.
Proof.
  induction l as [|x l IH]; intros Hl; [done|]. rewrite filter_cons_True by (apply Hl; left).
  f_equal. apply IH. intros y Hy. apply Hl. by right.
Qed.
Lemma filter_none {A} (P : A → Prop) `{∀ x, Decision (P x)} (l : list A) : (∀ x, x ∈ l → ¬ P x) → filter P l = [].
Proof.
  induction l as [|x l IH]; intros Hl; [done|]. rewrite filter_cons_False by (apply Hl; left).
  apply IH. intros y Hy. apply Hl. by right.
Qed.
Lemma Forall_snoc_inv {A} (P : A → Prop) l x : Forall P (l ++ [x]) ↔ Forall P l ∧ P x.
Proof. rewrite Forall_app, Forall_singleton. done. Qed.

Lemma drop_nonempty {A} n (l : list A) : (n < length l)%nat → drop n l ≠ [].
Proof. intros Hn Hd. apply (f_equal length) in Hd. rewrite length_drop in Hd. simpl in Hd. lia. Qed.

Lemma option_bind_Some {A B} (f : A → option B) (o : option A) b :
  o ≫= f = Some b ↔ ∃ a, o = Some a ∧ f a = Some b.
Proof. destruct o; simpl; split; [eauto|by intros (? & [= ->] & ?)|done|by intros (? & ? & ?)]. Qed.

Lemma mapM_cons_Some {A B} (f : A → option B) x y l k :
  f x = Some y → mapM f l = Some k → mapM f (x :: l) = Some (y :: k).
Proof. intros Hx Hl. simpl. rewrite Hx. simpl. by rewrite Hl. Qed.

(** Induction three elements at a time. *)
Lemma list_ind3 {A} (P : list A → Prop) :
  P [] → (∀ a, P [a]) → (∀ a b, P [a; b]) → (∀ a b c l, P l → P (a :: b :: c :: l)) →
  ∀ l, P l.
Proof.
  intros H0 H1 H2 H3 l. remember (length l) as n eqn:Hn. revert l Hn.
  induction (lt_wf n) as [n _ IH]. intros [|a [|b [|c l]]] ->; auto.
  apply H3. eapply (IH (length l)); simpl; [lia|done].
Qed.

(** ** Bit operations on octets *)

Lemma lor_shiftl_add x y n :
  0 ≤ n → 0 ≤ y < 2 ^ n → Z.lor (Z.shiftl x n) y = x * 2 ^ n + y.
Proof.
  intros Hn Hy. rewrite <- Z.shiftl_mul_pow2 by done.
  symmetry. rewrite Z.add_nocarry_lxor, Z.lxor_lor; try done.
  all: apply Z.bits_inj'; intros i Hi; rewrite Z.bits_0, Z.land_spec.
  all: destruct (Z.lt_ge_cases i n) as [Hlt|Hge]; [by rewrite Z.shiftl_spec_low|].
  all: rewrite (proj1 (Z.bounded_iff_bits_nonneg' n y Hn ltac:(lia)) Hy i Hge).
  all: by rewrite andb_false_r.
Qed.

Lemma land_mask x n : 0 ≤ n → Z.land x (2 ^ n - 1) = x `mod` 2 ^ n.
Proof. intros Hn. rewrite <- Z.land_ones by done. by rewrite Z.ones_equiv, Z.sub_1_r. Qed.

(** An octet. *)
Definition is_octet (b : Z) : Prop := 0 ≤ b < 256.
