(* ===== verification/PyStr.v ===== *)
(** * Python [str] operations

    The methods of Python's [str] the program calls ([startswith],
    [endswith], [strip], [rstrip], [split], [join], [removesuffix],
    [replace]), over lists of code points, with the lemmas the other
    files use. *)
From S2P Require Import Prelude.

(** ** Definitions *)

Definition startswith (s p : str) : bool := bool_decide (p `prefix_of` s).
Definition endswith (s p : str) : bool := bool_decide (p `suffix_of` s).

Fixpoint lstrip_by (f : Z → bool) (s : str) : str :=
  match s with
  | [] => []
  | c :: r => if f c then lstrip_by f r else s
  end.
Definition rstrip_by (f : Z → bool) (s : str) : str := reverse (lstrip_by f (reverse s)).

(** [str.isspace] on one code point. *)
Definition is_space (c : Z) : bool :=
  ((9 <=? c) && (c <=? 13)) || ((28 <=? c) && (c <=? 32)) || (c =? 133) || (c =? 160)
  || (c =? 5760) || ((8192 <=? c) && (c <=? 8202)) || (c =? 8232) || (c =? 8233)
  || (c =? 8239) || (c =? 8287) || (c =? 12288).

(** [s.strip()] and [s.rstrip(chars)]. *)
Definition strip (s : str) : str := rstrip_by is_space (lstrip_by is_space s).
Definition rstrip (s chars : str) : str := rstrip_by (λ c, bool_decide (c ∈ chars)) s.

(** [s.lower()] on ASCII letters. *)
Definition lower (s : str) : str := (λ c, if (65 <=? c) && (c <=? 90) then c + 32 else c) <$> s.

(** [s.split(sep)] for a one-character separator. *)
Fixpoint split (sep : Z) (s : str) : list str :=
  match s with
  | [] => [[]]
  | c :: r =>
      if c =? sep then [] :: split sep r
      else match split sep r with
           | [] => [[c]]
           | w :: ws => (c :: w) :: ws
           end
  end.

(** [sep.join(ws)]. *)
Fixpoint join (sep : str) (ws : list str) : str :=
  match ws with
  | [] => []
  | w :: ws' => match ws' with [] => w | _ => w ++ sep ++ join sep ws' end
  end.

Definition removesuffix (s suf : str) : str :=
  if endswith s suf then take (length s - length suf) s else s.

(** [s.replace(c, new)] for a one-character pattern. *)
Definition replace_char (c : Z) (new : str) (s : str) : str :=
  s ≫= λ x, if x =? c then new else [x].

(** [sub in s]. *)
Fixpoint str_contains (sub s : str) : bool :=
  startswith s sub || match s with [] => false | _ :: r => str_contains sub r end.

(** [l[-n:]]. *)
Definition last_n {A} (n : nat) (l : list A) : list A := drop (length l - n) l.

(** [max(ws, key=len)]: the first of the longest elements. *)
Fixpoint longest_from (best : str) (ws : list str) : str :=
  match ws with
  | [] => best
  | w :: ws' => longest_from (if (length best <? length w)%nat then w else best) ws'
  end.
Definition longest (ws : list str) : option str :=
  match ws with [] => None | w :: ws' => Some (longest_from w ws') end.

(** [str(n)] for an [int]: the decimal digits, by repeated division; the
    fuel [log2 n + 1] bounds the number of digits. *)
Fixpoint digits (fuel : nat) (n : Z) : str :=
  match fuel with
  | O => []
  | S fuel => if n <? 10 then [48 + n] else digits fuel (n / 10) ++ [48 + n mod 10]
  end.
Definition str_of_nonneg (n : Z) : str := digits (S (Z.to_nat (Z.log2 n))) n.
Definition str_of_int (n : Z) : str :=
  if n <? 0 then 45 :: str_of_nonneg (- n) else str_of_nonneg n.

(** [int(s)] on a string of ASCII digits. *)
Definition is_digit (c : Z) : bool := (48 <=? c) && (c <=? 57).
Definition int_of_digits (s : str) : Z := foldl (λ acc c, 10 * acc + (c - 48)) 0 s.

(** Python's order on [str]: lexicographic on code points. *)
Fixpoint str_leb (s t : str) : bool :=
  match s, t with
  | [], _ => true
  | _ :: _, [] => false
  | c :: s', d :: t' => if c <? d then true else if c =? d then str_leb s' t' else false
  end.
Definition str_le (s t : str) : Prop := str_leb s t = true.
#[export] Instance str_le_dec : RelDecision str_le.
Proof. intros s t. unfold str_le. apply _. Defined.

(** ** Order on strings *)

#[export] Instance str_le_trans : Transitive str_le.
Proof.
  unfold str_le. intros s. induction s as [|c s IH]; intros [|d t] [|e v]; simpl; try done.
  intros H1 H2. repeat case_match; bool_to_prop; try done; try lia. by eapply IH.
Qed.
#[export] Instance str_le_total : Total str_le.
Proof.
  unfold str_le. intros s. induction s as [|c s IH]; intros [|d t]; simpl; auto.
  destruct (Z.lt_trichotomy c d) as [H|[->|H]].
  - left. by rewrite (proj2 (Z.ltb_lt _ _) H).
  - rewrite Z.ltb_irrefl, Z.eqb_refl. apply IH.
  - right. by rewrite (proj2 (Z.ltb_lt _ _) H).
Qed.
#[export] Instance str_le_antisym : AntiSymm (=) str_le.
Proof.
  unfold str_le. intros s. induction s as [|c s IH]; intros [|d t]; simpl; try done.
  intros H1 H2. repeat case_match; bool_to_prop; try lia; try done.
  subst. f_equal. by apply IH.
Qed.

(** ** Prefixes, suffixes and stripping *)

Lemma startswith_true s p : startswith s p = true ↔ ∃ r, s = p ++ r.
Proof. unfold startswith. by rewrite bool_decide_eq_true. Qed.

Lemma endswith_true s p : endswith s p = true ↔ ∃ r, s = r ++ p.
Proof. unfold endswith. by rewrite bool_decide_eq_true. Qed.

Lemma removesuffix_app s p : removesuffix (s ++ p) p = s.
Proof.
  unfold removesuffix, endswith. rewrite bool_decide_true by (by exists s).
  by rewrite length_app, Nat.add_sub, take_app_length.
Qed.

Lemma lstrip_by_split f s : ∃ p, s = p ++ lstrip_by f s ∧ Forall (λ c, f c = true) p.
Proof.
  induction s as [|c s IH]; simpl; [by exists []|].
  destruct (f c) eqn:E; [|by exists []].
  destruct IH as (p & Hp & HF). exists (c :: p). split; [by rewrite Hp at 1|by constructor].
Qed.

Lemma lstrip_by_head f s c : head (lstrip_by f s) = Some c → f c = false.
Proof.
  induction s as [|d s IH]; simpl; [done|]. destruct (f d) eqn:E; [done|].
  simpl. by intros [= <-].
Qed.

Lemma rstrip_by_split f s : ∃ q, s = rstrip_by f s ++ q ∧ Forall (λ c, f c = true) q.
Proof.
  destruct (lstrip_by_split f (reverse s)) as (p & Hp & HF).
  exists (reverse p). unfold rstrip_by. split; [|by apply Forall_reverse].
  rewrite <- reverse_app, <- Hp. by rewrite reverse_involutive.
Qed.

Lemma rstrip_by_last f s c : last (rstrip_by f s) = Some c → f c = false.
Proof.
  unfold rstrip_by. rewrite last_reverse. apply lstrip_by_head.
Qed.

Lemma lstrip_by_app_all f p s :
  Forall (λ c, f c = true) p → lstrip_by f (p ++ s) = lstrip_by f s.
Proof. induction 1 as [|c p Hc _ IH]; simpl; [done|]. by rewrite Hc. Qed.

Lemma rstrip_by_app_all f s q :
  Forall (λ c, f c = true) q → rstrip_by f (s ++ q) = rstrip_by f s.
Proof.
  intros HF. unfold rstrip_by. rewrite reverse_app, lstrip_by_app_all; [done|].
  by apply Forall_reverse.
Qed.

Lemma rstrip_by_id f s : (∀ c, last s = Some c → f c = false) → rstrip_by f s = s.
Proof.
  intros H. unfold rstrip_by. destruct (reverse s) as [|c r] eqn:E; simpl.
  - apply (f_equal reverse) in E. by rewrite reverse_involutive in E.
  - rewrite H; [by rewrite <- E, reverse_involutive|].
    rewrite <- head_reverse, E. done.
Qed.

Lemma rstrip_last s chars c : last (rstrip s chars) = Some c → c ∉ chars.
Proof. intros H%rstrip_by_last. by apply bool_decide_eq_false in H. Qed.

Lemma rstrip_prefix s chars : rstrip s chars `prefix_of` s.
Proof. destruct (rstrip_by_split (λ c, bool_decide (c ∈ chars)) s) as (q & Hq & _). by exists q. Qed.

(** ** Splitting and joining *)

Lemma split_nonempty sep s : split sep s ≠ [].
Proof. destruct s as [|c s]; simpl; [done|]. repeat case_match; done. Qed.

Lemma join_cons sep w ws : ws ≠ [] → join sep (w :: ws) = w ++ sep ++ join sep ws.
Proof. by destruct ws. Qed.

Lemma join_split sep s : join [sep] (split sep s) = s.
Proof.
  induction s as [|c s IH]; [done|]. cbn [split].
  pose proof (split_nonempty sep s) as Hne.
  destruct (Z.eqb_spec c sep) as [->|Hc].
  - rewrite join_cons by done. by rewrite IH.
  - destruct (split sep s) as [|w ws]; [done|].
    destruct ws as [|w' ws]; simpl in *; by f_equal.
Qed.

Lemma split_app_sep sep a b : split sep (a ++ sep :: b) = split sep a ++ split sep b.
Proof.
  induction a as [|c a IH]; simpl; [by rewrite Z.eqb_refl|].
  rewrite IH. destruct (c =? sep); [done|].
  pose proof (split_nonempty sep a). by destruct (split sep a).
Qed.

Lemma split_no_sep sep s : sep ∉ s → split sep s = [s].
Proof.
  induction s as [|c s IH]; [done|]. rewrite not_elem_of_cons. intros [Hc Hs].
  simpl. rewrite IH by done. by destruct (Z.eqb_spec c sep); [subst|].
Qed.

Lemma split_join sep ws :
  ws ≠ [] → Forall (λ w, sep ∉ w) ws → split sep (join [sep] ws) = ws.
Proof.
  intros Hne HF. induction HF as [|w ws Hw HF IH]; [done|].
  destruct (decide (ws = [])) as [->|Hws]; [by apply split_no_sep|].
  rewrite join_cons by done. simpl.
  by rewrite split_app_sep, split_no_sep, IH.
Qed.

Lemma split_Forall_no_sep sep s : Forall (λ w, sep ∉ w) (split sep s).
Proof.
  induction s as [|c s IH]; simpl; [repeat constructor; apply not_elem_of_nil|].
  destruct (Z.eqb_spec c sep); [constructor; [apply not_elem_of_nil|done]|].
  destruct (split sep s) as [|w ws]; inversion_clear IH; repeat constructor; try done;
    rewrite not_elem_of_cons; split; try done; apply not_elem_of_nil.
Qed.

Lemma join_app sep ws vs :
  ws ≠ [] → vs ≠ [] → join sep (ws ++ vs) = join sep ws ++ sep ++ join sep vs.
Proof.
  intros Hws Hvs. induction ws as [|w ws IH]; [done|].
  destruct ws as [|w' ws]; [by destruct vs|].
  rewrite (join_cons sep w (w' :: ws)) by done.
  change ((w :: w' :: ws) ++ vs) with (w :: ((w' :: ws) ++ vs)).
  rewrite join_cons, IH by done. by rewrite <- !app_assoc.
Qed.

(** A string equals [base] or ends with [sep ++ base] exactly when the
    pieces of [base] end the pieces of the string: the string test is a test
    on whole pieces (DNS labels, when [sep] is a dot). *)
Lemma suffix_pieces sep v base :
  v = base ∨ endswith v (sep :: base) = true ↔ split sep base `suffix_of` split sep v.
Proof.
  split.
  - intros [->|[r ->]%endswith_true]; [done|]. rewrite split_app_sep. by exists (split sep r).
  - intros [l Hl]. apply (f_equal (join [sep])) in Hl. rewrite join_split in Hl.
    destruct (decide (l = [])) as [->|Hne].
    + left. by rewrite Hl, app_nil_l, join_split.
    + right. apply endswith_true. exists (join [sep] l).
      rewrite Hl, join_app, join_split by (done || apply split_nonempty). done.
Qed.

(** ** Longest element *)

Lemma longest_from_spec best ws :
  longest_from best ws ∈ best :: ws ∧
  (length best ≤ length (longest_from best ws))%nat ∧
  Forall (λ w, (length w ≤ length (longest_from best ws))%nat) ws.
Proof.
  revert best. induction ws as [|w ws IH]; intros best; cbn [longest_from].
  { split_and!; [left|done|constructor]. }
  destruct (IH (if (length best <? length w)%nat then w else best)) as (H1 & H2 & H3).
  rewrite !elem_of_cons in *.
  destruct (Nat.ltb_spec (length best) (length w)); (split; [intuition|split; [lia|]]);
    (constructor; [lia|done]).
Qed.

Lemma longest_spec ws m :
  longest ws = Some m → m ∈ ws ∧ Forall (λ w, (length w ≤ length m)%nat) ws.
Proof.
  destruct ws as [|w ws]; simpl; [done|]. intros [= <-].
  destruct (longest_from_spec w ws) as (H1 & H2 & H3).
  split; [done|by constructor].
Qed.

(** ** Decimal numbers *)

Lemma digits_spec fuel n : 0 ≤ n → Z.log2 n < Z.of_nat fuel →
  int_of_digits (digits fuel n) = n ∧ Forall (λ c, is_digit c = true) (digits fuel n) ∧
  ∃ c r, digits fuel n = c :: r ∧ (c = 48 → n = 0 ∧ r = []).
Proof.
  revert n. induction fuel as [|fuel IH]; intros n Hn Hf.
  { pose proof (Z.log2_nonneg n). lia. }
  cbn [digits]. destruct (Z.ltb_spec n 10) as [Hlt|Hge].
  - unfold int_of_digits, is_digit. simpl. split_and!; [lia|repeat constructor; lia|].
    exists (48 + n), []. split; [done|]. intros Hc. split; [lia|done].
  - assert (Z.log2 (n / 10) < Z.of_nat fuel) as Hl.
    { assert (Z.log2 (n / 10) ≤ Z.log2 (n / 2)) by (apply Z.log2_le_mono, Z.div_le_compat_l; lia).
      assert (1 ≤ Z.log2 n) by (apply (Z.log2_le_mono 2); lia).
      assert (Z.log2 (n / 2) = Z.log2 n - 1).
      { rewrite <- Z.div2_div, Z.div2_spec, Z.log2_shiftr by lia. lia. }
      lia. }
    pose proof (Z.mod_pos_bound n 10). pose proof (Z.div_mod n 10).
    destruct (IH (n / 10)) as (H1 & H2 & c & r & H3 & H4); [apply Z.div_pos; lia|done|].
    unfold int_of_digits in *. rewrite foldl_app, H1. simpl. split_and!; [lia| |].
    + apply Forall_app; split; [done|]. repeat constructor. unfold is_digit. lia.
    + rewrite H3. exists c, (r ++ [48 + n mod 10]). split; [done|].
      intros Hc. destruct (H4 Hc). assert (1 ≤ n / 10) by (apply Z.div_le_lower_bound; lia). lia.
Qed.

Lemma str_of_nonneg_spec n : 0 ≤ n →
  int_of_digits (str_of_nonneg n) = n ∧ Forall (λ c, is_digit c = true) (str_of_nonneg n) ∧
  ∃ c r, str_of_nonneg n = c :: r ∧ (c = 48 → n = 0 ∧ r = []).
Proof. intros Hn. apply digits_spec; [done|]. pose proof (Z.log2_nonneg n). lia. Qed.

Lemma str_of_nonneg_head n : 0 ≤ n → ∃ c t, str_of_nonneg n = c :: t ∧ is_digit c = true.
Proof.
  intros Hn. destruct (str_of_nonneg_spec n Hn) as (_ & HF & c & t & Heq & _).
  rewrite Heq in HF. apply Forall_cons in HF as [Hc _]. by exists c, t.
Qed.

#[export] Hint Resolve split_nonempty : jackdaw.
