(* ===== verification/Base64.v ===== *)
(** * Base64 as Python's [base64] and [binascii] modules implement it

    [urlsafe_b64encode], [urlsafe_b64decode] (with the lenient
    [binascii.a2b_base64] scanner behind it: characters outside the alphabet
    are skipped, parsing stops at a complete padding), and the program's own
    [b64url_decode] of [_util.py], which restores absent padding.  The round
    trip through the unpadded encoding is the property the JWS layer, the
    key authorizations and the DNS-01 values rely on. *)
From S2P Require Import Prelude PyStr.
#[local] Ltac Zify.zify_post_hook ::= Z.to_euclidean_division_equations.

(** ** Alphabets *)

(** The standard alphabet and its inverse table ([binascii]'s
    [table_a2b_base64]). *)
Definition b64_char (v : Z) : Z :=
  if v <? 26 then v + 65 else if v <? 52 then v + 71 else if v <? 62 then v - 4
  else if v =? 62 then 43 else 47.
Definition b64_val (c : Z) : option Z :=
  if (65 <=? c) && (c <=? 90) then Some (c - 65)
  else if (97 <=? c) && (c <=? 122) then Some (c - 71)
  else if (48 <=? c) && (c <=? 57) then Some (c + 4)
  else if c =? 43 then Some 62 else if c =? 47 then Some 63 else None.

(** The [str.maketrans] tables of the URL-safe variant. *)
Definition urlsafe_encode_char (c : Z) : Z := if c =? 43 then 45 else if c =? 47 then 95 else c.
Definition urlsafe_decode_char (c : Z) : Z := if c =? 45 then 43 else if c =? 95 then 47 else c.

(** ** Encoding *)

(** [binascii.b2a_base64] on the octets, before the ["="] padding. *)
Fixpoint b2a_body (bs : bytes) : bytes :=
  match bs with
  | [] => []
  | [a] => [b64_char (Z.shiftr a 2); b64_char (Z.shiftl (Z.land a 3) 4)]
  | [a; b] =>
      [b64_char (Z.shiftr a 2); b64_char (Z.lor (Z.shiftl (Z.land a 3) 4) (Z.shiftr b 4));
       b64_char (Z.shiftl (Z.land b 15) 2)]
  | a :: b :: c :: r =>
      [b64_char (Z.shiftr a 2); b64_char (Z.lor (Z.shiftl (Z.land a 3) 4) (Z.shiftr b 4));
       b64_char (Z.lor (Z.shiftl (Z.land b 15) 2) (Z.shiftr c 6)); b64_char (Z.land c 63)]
      ++ b2a_body r
  end.

(** The number of padding characters. *)
Fixpoint b2a_pad (bs : bytes) : nat :=
  match bs with
  | [] => 0
  | [_] => 2
  | [_; _] => 1
  | _ :: _ :: _ :: r => b2a_pad r
  end.

Definition b64encode (bs : bytes) : bytes := b2a_body bs ++ replicate (b2a_pad bs) 61.
Definition urlsafe_b64encode (bs : bytes) : bytes := urlsafe_encode_char <$> b64encode bs.

(** [base64.urlsafe_b64encode(x).rstrip(b"=").decode("ascii")]. *)
Definition b64url_encode (bs : bytes) : str := rstrip (urlsafe_b64encode bs) (u "=").

(** ** Decoding *)

(** [binascii.a2b_base64] in its lenient mode: [quad_pos] is the position in
    the current group of four, [leftchar] the bits left over, [pads] the
    padding characters seen, [out] the octets produced so far. *)
Fixpoint a2b_base64 (s : bytes) (quad_pos leftchar pads : Z) (out : bytes) : option bytes :=
  match s with
  | [] => if quad_pos =? 0 then Some out else None
  | c :: r =>
      if c =? 61 then
        if 2 <=? quad_pos then
          if 4 <=? quad_pos + (pads + 1) then Some out
          else a2b_base64 r quad_pos leftchar (pads + 1) out
        else a2b_base64 r quad_pos leftchar pads out
      else match b64_val c with
      | None => a2b_base64 r quad_pos leftchar pads out
      | Some v =>
          if quad_pos =? 0 then a2b_base64 r 1 v 0 out
          else if quad_pos =? 1 then
            a2b_base64 r 2 (Z.land v 15) 0 (out ++ [Z.lor (Z.shiftl leftchar 2) (Z.shiftr v 4)])
          else if quad_pos =? 2 then
            a2b_base64 r 3 (Z.land v 3) 0 (out ++ [Z.lor (Z.shiftl leftchar 4) (Z.shiftr v 2)])
          else a2b_base64 r 0 0 0 (out ++ [Z.lor (Z.shiftl leftchar 6) v])
      end
  end.

(** [base64.urlsafe_b64decode] on a [str]: a non-ASCII string is refused. *)
Definition urlsafe_b64decode (s : str) : option bytes :=
  if forallb (λ c, c <? 128) s
  then a2b_base64 (urlsafe_decode_char <$> s) 0 0 0 []
  else None.

(** [_util.b64url_decode]; [None] is the [binascii.Error] or [ValueError]. *)
Definition b64url_decode (s : str) : option bytes :=
  let rem := (length s mod 4)%nat in
  let s := if (rem =? 0)%nat then s else s ++ replicate (4 - rem) 61 in
  urlsafe_b64decode s.

(** ** The alphabet tables are inverse to each other *)

Lemma b64_val_char v : 0 ≤ v < 64 → b64_val (b64_char v) = Some v.
Proof.
  intros Hv. unfold b64_val, b64_char.
  repeat case_match; bool_to_prop; try lia; f_equal; try lia;
    repeat match goal with H : (_ && _) = false |- _ => apply andb_false_iff in H; destruct H end;
    bool_to_prop; lia.
Qed.

(** One sextet through the URL-safe alphabet: decoding gives it back, and
    the character is ASCII and not the padding character. *)
Lemma urlsafe_sextet v : 0 ≤ v < 64 →
  let c := urlsafe_encode_char (b64_char v) in
  b64_val (urlsafe_decode_char c) = Some v ∧ (urlsafe_decode_char c =? 61) = false ∧
  (c <? 128) = true ∧ c ≠ 61.
Proof.
  intros Hv. cbv zeta.
  assert (forallb (λ v, let c := urlsafe_encode_char (b64_char v) in
    bool_decide (b64_val (urlsafe_decode_char c) = Some v) &&
    negb (urlsafe_decode_char c =? 61) && (c <? 128) && negb (c =? 61)) (seqZ 0 64) = true) as HF
    by by vm_compute.
  rewrite forallb_forall in HF. specialize (HF v).
  rewrite <- list_elem_of_In, elem_of_seqZ in HF. specialize (HF ltac:(lia)).
  cbv beta zeta in HF. bool_to_prop.
  split_and!; [done|by apply Z.eqb_neq|by apply Z.ltb_lt|done].
Qed.

(** ** Round trip *)

(** A sextet of the scanner's input, as both translations leave it. *)
#[local] Abbreviation sx v := (urlsafe_decode_char (urlsafe_encode_char (b64_char v))).

Lemma a2b_sextet v r qp l p out : 0 ≤ v < 64 →
  a2b_base64 (sx v :: r) qp l p out =
  if qp =? 0 then a2b_base64 r 1 v 0 out
  else if qp =? 1 then a2b_base64 r 2 (Z.land v 15) 0 (out ++ [Z.lor (Z.shiftl l 2) (Z.shiftr v 4)])
  else if qp =? 2 then a2b_base64 r 3 (Z.land v 3) 0 (out ++ [Z.lor (Z.shiftl l 4) (Z.shiftr v 2)])
  else a2b_base64 r 0 0 0 (out ++ [Z.lor (Z.shiftl l 6) v]).
Proof. intros Hv. destruct (urlsafe_sextet v Hv) as (H1 & H2 & _). simpl. by rewrite H2, H1. Qed.

Lemma land_3 x : Z.land x 3 = x mod 4.
Proof. apply (land_mask x 2). lia. Qed.
Lemma land_15 x : Z.land x 15 = x mod 16.
Proof. apply (land_mask x 4). lia. Qed.
Lemma land_63 x : Z.land x 63 = x mod 64.
Proof. apply (land_mask x 6). lia. Qed.

(** Turns shifts and masks into divisions and remainders. *)
Ltac bits_to_arith :=
  rewrite ?land_3, ?land_15, ?land_63, ?Z.shiftr_div_pow2 by lia;
  change (2 ^ 2) with 4; change (2 ^ 4) with 16; change (2 ^ 6) with 64;
  repeat (rewrite lor_shiftl_add by lia);
  rewrite ?Z.shiftl_mul_pow2 by lia;
  change (2 ^ 2) with 4; change (2 ^ 4) with 16; change (2 ^ 6) with 64.

(** Equality of two explicit lists of octets, by arithmetic. *)
Ltac octets_eq := repeat (apply (f_equal2 cons); [lia|]); reflexivity.

Lemma a2b_group3 a b c r out : is_octet a → is_octet b → is_octet c →
  a2b_base64 ((λ x, urlsafe_decode_char (urlsafe_encode_char x)) <$> b2a_body [a; b; c] ++ r)
    0 0 0 out =
  a2b_base64 ((λ x, urlsafe_decode_char (urlsafe_encode_char x)) <$> r) 0 0 0 (out ++ [a; b; c]).
Proof.
  unfold is_octet. intros Ha Hb Hc. cbn [b2a_body app]. bits_to_arith. cbn [fmap list_fmap].
  rewrite !a2b_sextet by lia. simpl. bits_to_arith.
  rewrite <- !(assoc_L (++)). simpl. f_equal. f_equal. octets_eq.
Qed.

Lemma a2b_group2 a b out : is_octet a → is_octet b →
  a2b_base64 ((λ x, urlsafe_decode_char (urlsafe_encode_char x)) <$> b64encode [a; b])
    0 0 0 out = Some (out ++ [a; b]).
Proof.
  unfold is_octet. intros Ha Hb. cbn [b64encode b2a_body b2a_pad app replicate].
  unfold b64encode. cbn [b2a_body b2a_pad app replicate]. bits_to_arith. cbn [fmap list_fmap].
  rewrite !a2b_sextet by lia. simpl. bits_to_arith.
  rewrite <- !(assoc_L (++)). simpl. f_equal. f_equal. octets_eq.
Qed.

Lemma a2b_group1 a out : is_octet a →
  a2b_base64 ((λ x, urlsafe_decode_char (urlsafe_encode_char x)) <$> b64encode [a])
    0 0 0 out = Some (out ++ [a]).
Proof.
  unfold is_octet. intros Ha. unfold b64encode. cbn [b2a_body b2a_pad app replicate].
  bits_to_arith. cbn [fmap list_fmap].
  rewrite !a2b_sextet by lia. simpl. bits_to_arith. f_equal. f_equal. octets_eq.
Qed.

Lemma b64encode_cons3 a b c l : b64encode (a :: b :: c :: l) = b2a_body [a; b; c] ++ b64encode l.
Proof. done. Qed.

Lemma a2b_b64encode bs out : Forall is_octet bs →
  a2b_base64 ((λ x, urlsafe_decode_char (urlsafe_encode_char x)) <$> b64encode bs) 0 0 0 out
  = Some (out ++ bs).
Proof.
  revert out. induction bs as [|a|a b|a b c l IH] using list_ind3; intros out HF.
  - simpl. by rewrite app_nil_r.
  - inversion_clear HF. by apply a2b_group1.
  - inversion_clear HF as [|?? Ha HF']. inversion_clear HF'. by apply a2b_group2.
  - inversion_clear HF as [|?? Ha HF1]. inversion_clear HF1 as [|?? Hb HF2].
    inversion_clear HF2 as [|?? Hc HF3]. rewrite b64encode_cons3, a2b_group3 by done.
    rewrite IH by done. by rewrite <- (assoc_L (++)).
Qed.

(** Every character of an encoding is an ASCII sextet or the padding. *)
Lemma b2a_body_sextets bs : Forall is_octet bs →
  Forall (λ c, ∃ v, 0 ≤ v < 64 ∧ c = b64_char v) (b2a_body bs).
Proof.
  unfold is_octet. intros HF. induction bs as [|a|a b|a b c l IH] using list_ind3;
    repeat match goal with H : Forall _ (_ :: _) |- _ => apply Forall_cons in H as [? H] end;
    cbn [b2a_body app]; bits_to_arith; repeat (constructor; [eexists; split; [|reflexivity]; lia|]).
  all: first [constructor|by apply IH].
Qed.

Lemma b64encode_pad bs :
  (b2a_pad bs ≤ 2)%nat ∧ ((length (b2a_body bs) + b2a_pad bs) mod 4 = 0)%nat.
Proof.
  induction bs as [|a|a b|a b c l IH] using list_ind3; try (simpl; lia).
  cbn [b2a_pad b2a_body app length]. split; [apply IH|]. destruct IH as [_ IH].
  etrans; [|exact IH]. rewrite <- (Nat.Div0.mod_add (length (b2a_body l) + b2a_pad l) 1 4). f_equal. lia.
Qed.

Lemma mod4_pad n p : (p ≤ 2)%nat → ((n + p) mod 4 = 0)%nat →
  p = if (n mod 4 =? 0)%nat then 0%nat else (4 - n mod 4)%nat.
Proof.
  intros Hp H. pose proof (Nat.Div0.div_mod n 4). pose proof (Nat.Div0.div_mod (n + p) 4).
  pose proof (Nat.mod_upper_bound n 4). destruct (Nat.eqb_spec (n mod 4) 0); lia.
Qed.

Lemma urlsafe_b64encode_split bs : Forall is_octet bs →
  urlsafe_b64encode bs = b64url_encode bs ++ replicate (b2a_pad bs) 61 ∧
  b64url_encode bs = urlsafe_encode_char <$> b2a_body bs.
Proof.
  intros HF.
  assert (urlsafe_b64encode bs
    = (urlsafe_encode_char <$> b2a_body bs) ++ replicate (b2a_pad bs) 61) as ->.
  { unfold urlsafe_b64encode, b64encode. rewrite fmap_app, fmap_replicate. done. }
  assert (b64url_encode bs = urlsafe_encode_char <$> b2a_body bs) as Heq; [|by rewrite Heq].
  unfold b64url_encode, urlsafe_b64encode, b64encode.
  rewrite fmap_app, fmap_replicate. change (urlsafe_encode_char 61) with 61.
  unfold rstrip. rewrite rstrip_by_app_all; [|by apply Forall_replicate].
  apply rstrip_by_id. intros c Hc. apply bool_decide_eq_false.
  apply b2a_body_sextets in HF. rewrite Forall_forall in HF.
  apply last_Some_elem_of, list_elem_of_fmap in Hc as (d & -> & Hd).
  destruct (HF d Hd) as (v & Hv & ->). destruct (urlsafe_sextet v Hv) as (_ & _ & _ & Hne).
  intros Hin. apply Hne. by apply list_elem_of_singleton in Hin.
Qed.

(** Decoding the unpadded URL-safe encoding of any octets gives them back. *)
Lemma b64url_roundtrip bs : Forall is_octet bs → b64url_decode (b64url_encode bs) = Some bs.
Proof.
  intros HF. destruct (urlsafe_b64encode_split bs HF) as [Hsplit Hbody].
  destruct (b64encode_pad bs) as [Hp Hlen].
  assert (urlsafe_b64decode (urlsafe_b64encode bs) = Some bs) as Hdec.
  { unfold urlsafe_b64decode.
    assert (forallb (λ c, c <? 128) (urlsafe_b64encode bs) = true) as ->.
    { rewrite Hsplit, Hbody. rewrite forallb_app. apply andb_true_iff; split.
      - apply forallb_forall. intros c Hc%list_elem_of_In.
        apply list_elem_of_fmap in Hc as (d & -> & Hd).
        apply b2a_body_sextets in HF. rewrite Forall_forall in HF.
        destruct (HF d Hd) as (v & Hv & ->). by apply urlsafe_sextet.
      - apply forallb_forall. intros c Hc%list_elem_of_In.
        by apply elem_of_replicate in Hc as [-> _]. }
    unfold urlsafe_b64encode. rewrite <- list_fmap_compose. by apply a2b_b64encode. }
  unfold b64url_decode.
  assert (length (b64url_encode bs) = length (b2a_body bs)) as -> by (rewrite Hbody; apply length_fmap).
  pose proof (mod4_pad _ _ Hp Hlen) as Hpad.
  destruct (length (b2a_body bs) mod 4 =? 0)%nat.
  - rewrite Hpad, app_nil_r in Hsplit. by rewrite <- Hsplit.
  - by rewrite <- Hpad, <- Hsplit.
Qed.

(** ** Properties *)

(** The decoder of the JWS fields inverts the encoder of challenge tokens and
    thumbprints: decoding the unpadded URL-safe base64 of any octets gives them
    back. *)
Theorem b64url_decode_encode bs :
  Forall is_octet bs → b64url_decode (b64url_encode bs) = Some bs.
Proof. apply b64url_roundtrip. Qed.

Lemma b64url_decode_encode_witness : b64url_decode (b64url_encode [255; 0; 7]) = Some [255; 0; 7].
Proof. apply b64url_decode_encode. repeat constructor; unfold is_octet; lia. Defined.
