(* ===== verification/Json.v ===== *)
(** * JSON values, [json.dumps] and [json.loads]

    The JSON texts the program writes to the database (identifiers, contacts,
    problem documents, canonical keys) and reads back, and the ones it
    receives in JWS fields.  [dumps] follows Python's encoder
    ([ensure_ascii=True], optional [sort_keys], the two separators the program
    uses), [loads] its decoder (strict strings, surrogate pairs, the number
    grammar, last duplicate key wins).  A float is carried by its literal
    text. *)
From S2P Require Import Prelude PyStr.

(** ** Values *)

Inductive json :=
| JNull
| JBool (b : bool)
| JInt (n : Z)
| JFloat (text : str)
| JStr (s : str)
| JArr (l : list json)
| JObj (kvs : list (str * json)).

(** Induction with the hypothesis on the elements of arrays and objects. *)
Lemma json_ind' (P : json → Prop) :
  P JNull → (∀ b, P (JBool b)) → (∀ n, P (JInt n)) → (∀ t, P (JFloat t)) → (∀ s, P (JStr s)) →
  (∀ l, Forall P l → P (JArr l)) → (∀ kvs, Forall (λ kv, P kv.2) kvs → P (JObj kvs)) →
  ∀ j, P j.
Proof.
  intros H1 H2 H3 H4 H5 H6 H7. fix go 1. intros [|b|n|t|s|l|kvs];
    [exact H1|apply H2|apply H3|apply H4|apply H5| |].
  - apply H6. induction l; constructor; [apply go|done].
  - apply H7. induction kvs as [|[k v] kvs IH]; constructor; [apply go|done].
Qed.

#[export] Instance json_eq_dec : EqDecision json.
Proof.
  refine (fix go (x y : json) {struct x} : Decision (x = y) :=
    match x, y with
    | JNull, JNull => left eq_refl
    | JBool a, JBool b => cast_if (decide (a = b))
    | JInt a, JInt b => cast_if (decide (a = b))
    | JFloat a, JFloat b => cast_if (decide (a = b))
    | JStr a, JStr b => cast_if (decide (a = b))
    | JArr a, JArr b => cast_if (@list_eq_dec _ go a b)
    | JObj a, JObj b => cast_if (@list_eq_dec _ (@prod_eq_dec _ _ _ go) a b)
    | _, _ => right _
    end); clear go; abstract congruence.
Defined.

(** ** Objects as dictionaries *)

(** [d.get(k)]. *)
Fixpoint dict_get (k : str) (d : list (str * json)) : option json :=
  match d with
  | [] => None
  | (k', v) :: d' => if decide (k = k') then Some v else dict_get k d'
  end.

(** [d[k] = v]: an existing key keeps its position. *)
Fixpoint dict_set (k : str) (v : json) (d : list (str * json)) : list (str * json) :=
  match d with
  | [] => [(k, v)]
  | (k', v') :: d' => if decide (k = k') then (k, v) :: d' else (k', v') :: dict_set k v d'
  end.

(** [dict(pairs)]. *)
Definition dict_of (kvs : list (str * json)) : list (str * json) :=
  foldl (λ d kv, dict_set kv.1 kv.2 d) [] kvs.

(** ** [json.dumps] *)

Definition hex_digit (d : Z) : Z := if d <? 10 then 48 + d else 87 + d.
(** ['\\u{0:04x}'.format(n)] *)
Definition u_escape (n : Z) : str :=
  u "\u" ++ [hex_digit (n / 4096); hex_digit (n / 256 mod 16);
             hex_digit (n / 16 mod 16); hex_digit (n mod 16)].

(** [json.encoder.py_encode_basestring_ascii] on one code point. *)
Definition escape_char (c : Z) : str :=
  if c =? 34 then [92; 34] else if c =? 92 then [92; 92]
  else if c =? 10 then [92; 110] else if c =? 13 then [92; 114] else if c =? 9 then [92; 116]
  else if c =? 12 then [92; 102] else if c =? 8 then [92; 98]
  else if (32 <=? c) && (c <=? 126) then [c]
  else if c <? 65536 then u_escape c
  else let n := c - 65536 in u_escape (55296 + n / 1024) ++ u_escape (56320 + n mod 1024).
Definition dumps_str (s : str) : str := [34] ++ (s ≫= escape_char) ++ [34].

(** Order of the items of a sorted object: by key. *)
Definition key_le {A} (x y : str * A) : Prop := str_le x.1 y.1.
#[export] Instance key_le_dec {A} (x y : str * A) : Decision (key_le x y).
Proof. unfold key_le. apply _. Defined.

(** [json.dumps(j, sort_keys=sort, separators=("," + sp, ":" + sp))]. *)
Fixpoint dumps (sort : bool) (sp : str) (j : json) : str :=
  match j with
  | JNull => u "null"
  | JBool true => u "true"
  | JBool false => u "false"
  | JInt n => str_of_int n
  | JFloat t => t
  | JStr s => dumps_str s
  | JArr l => [91] ++ join (44 :: sp) (dumps sort sp <$> l) ++ [93]
  | JObj kvs =>
      let items := (λ kv, (kv.1, dumps sort sp kv.2)) <$> kvs in
      let items := if sort then merge_sort key_le items else items in
      [123] ++ join (44 :: sp) ((λ kt, dumps_str kt.1 ++ 58 :: sp ++ kt.2) <$> items) ++ [125]
  end.

(** [json.dumps(x)]. *)
Definition json_dumps (j : json) : str := dumps false (u " ") j.
(** [_util.canonical_jwk]. *)
Definition canonical_jwk (jwk_data : json) : str := dumps true [] jwk_data.

(** ** [json.loads] *)

Definition is_ws (c : Z) : bool := (c =? 32) || (c =? 9) || (c =? 10) || (c =? 13).
Definition skip_ws (s : str) : str := lstrip_by is_ws s.

Definition hex_val (c : Z) : option Z :=
  if is_digit c then Some (c - 48)
  else if (97 <=? c) && (c <=? 102) then Some (c - 87)
  else if (65 <=? c) && (c <=? 70) then Some (c - 55) else None.
Definition hex4_val (a b c d : Z) : option Z :=
  a ← hex_val a; b ← hex_val b; c ← hex_val c; d ← hex_val d;
  Some (4096 * a + 256 * b + 16 * c + d).
Definition is_high_surrogate (c : Z) : bool := (55296 <=? c) && (c <=? 56319).
Definition is_low_surrogate (c : Z) : bool := (56320 <=? c) && (c <=? 57343).

(** The one-character escapes. *)
Definition unescape (e : Z) : option Z :=
  if e =? 34 then Some 34 else if e =? 92 then Some 92 else if e =? 47 then Some 47
  else if e =? 98 then Some 8 else if e =? 102 then Some 12 else if e =? 110 then Some 10
  else if e =? 114 then Some 13 else if e =? 116 then Some 9 else None.

Definition cons_fst (c : Z) (x : option (str * str)) : option (str * str) :=
  match x with Some (t, r) => Some (c :: t, r) | None => None end.

(** [json.decoder.scanstring], after the opening quote. *)
Fixpoint scan_string (s : str) : option (str * str) :=
  match s with
  | [] => None
  | c :: r =>
      if c =? 34 then Some ([], r)
      else if c <? 32 then None
      else if negb (c =? 92) then cons_fst c (scan_string r)
      else match r with
      | [] => None
      | e :: r1 =>
          if negb (e =? 117) then
            match unescape e with Some x => cons_fst x (scan_string r1) | None => None end
          else match r1 with
          | h1 :: h2 :: h3 :: h4 :: r2 =>
              match hex4_val h1 h2 h3 h4 with
              | None => None
              | Some hi =>
                  match r2 with
                  | b :: v :: l1 :: l2 :: l3 :: l4 :: r3 =>
                      if is_high_surrogate hi && (b =? 92) && (v =? 117) then
                        match hex4_val l1 l2 l3 l4 with
                        | None => None
                        | Some lo =>
                            if is_low_surrogate lo
                            then cons_fst (65536 + (hi - 55296) * 1024 + (lo - 56320))
                                   (scan_string r3)
                            else cons_fst hi (scan_string r2)
                        end
                      else cons_fst hi (scan_string r2)
                  | _ => cons_fst hi (scan_string r2)
                  end
              end
          | _ => None
          end
      end
  end.

(** The longest prefix of characters satisfying [f], and the rest. *)
Fixpoint span (f : Z → bool) (s : str) : str * str :=
  match s with
  | c :: r => if f c then let '(a, b) := span f r in (c :: a, b) else ([], s)
  | [] => ([], [])
  end.

(** The fraction and exponent of a number; empty when absent or malformed. *)
Definition scan_frac (s : str) : str * str :=
  match s with
  | 46 :: r => let '(ds, r') := span is_digit r in
               match ds with [] => ([], s) | _ => (46 :: ds, r') end
  | _ => ([], s)
  end.
Definition scan_exp (s : str) : str * str :=
  match s with
  | e :: r =>
      if (e =? 101) || (e =? 69) then
        let '(sign, r1) := match r with
          | c :: r' => if (c =? 43) || (c =? 45) then ([c], r') else ([], r)
          | [] => ([], r) end in
        let '(ds, r2) := span is_digit r1 in
        match ds with [] => ([], s) | _ => (e :: sign ++ ds, r2) end
      else ([], s)
  | [] => ([], s)
  end.

(** [NUMBER_RE]: an [int] without fraction and exponent, else a [float]. *)
Definition scan_number (s : str) : option (json * str) :=
  let '(neg, s1) := match s with
    | c :: r => if c =? 45 then (true, r) else (false, s)
    | [] => (false, s) end in
  match s1 with
  | [] => None
  | c :: r =>
      if negb (is_digit c) then None
      else
        let '(ds, r1) := if c =? 48 then ([c], r) else span is_digit s1 in
        let '(frac, r2) := scan_frac r1 in
        let '(ex, r3) := scan_exp r2 in
        match frac ++ ex with
        | [] => Some (JInt (if neg then - int_of_digits ds else int_of_digits ds), r3)
        | fe => Some (JFloat ((if neg then [45] else []) ++ ds ++ fe), r3)
        end
  end.

(** [s[i:i+len(w)] == w], and the text after it. *)
Definition accept (w : str) (s : str) : option str :=
  if startswith s w then Some (drop (length w) s) else None.

(** [json.scanner.scan_once]: a value at the head of the text and the rest.
    The fuel bounds the recursion; the length of the text is enough. *)
Fixpoint scan_once (fuel : nat) (s : str) {struct fuel} : option (json * str) :=
  match fuel with
  | O => None
  | S fuel =>
      match s with
      | [] => None
      | c :: r =>
          if c =? 34 then '(t, r') ← scan_string r; Some (JStr t, r')
          else if c =? 123 then
            let r1 := skip_ws r in
            match accept [125] r1 with
            | Some r2 => Some (JObj [], r2)
            | None => '(kvs, r2) ← scan_members fuel r1; Some (JObj (dict_of kvs), r2)
            end
          else if c =? 91 then
            let r1 := skip_ws r in
            match accept [93] r1 with
            | Some r2 => Some (JArr [], r2)
            | None => '(l, r2) ← scan_elems fuel r1; Some (JArr l, r2)
            end
          else match accept (u "null") s with Some r' => Some (JNull, r') | None =>
          match accept (u "true") s with Some r' => Some (JBool true, r') | None =>
          match accept (u "false") s with Some r' => Some (JBool false, r') | None =>
          match accept (u "NaN") s with Some r' => Some (JFloat (u "NaN"), r') | None =>
          match accept (u "Infinity") s with Some r' => Some (JFloat (u "Infinity"), r') | None =>
          match accept (u "-Infinity") s with Some r' => Some (JFloat (u "-Infinity"), r') | None =>
          scan_number s end end end end end end
      end
  end
with scan_elems (fuel : nat) (s : str) {struct fuel} : option (list json * str) :=
  match fuel with
  | O => None
  | S fuel =>
      '(v, r) ← scan_once fuel s;
      match skip_ws r with
      | c :: r1 =>
          if c =? 93 then Some ([v], r1)
          else if c =? 44 then '(l, r2) ← scan_elems fuel (skip_ws r1); Some (v :: l, r2)
          else None
      | [] => None
      end
  end
with scan_members (fuel : nat) (s : str) {struct fuel} : option (list (str * json) * str) :=
  match fuel with
  | O => None
  | S fuel =>
      s1 ← accept [34] s;
      '(k, r) ← scan_string s1;
      r1 ← accept [58] (skip_ws r);
      '(v, r2) ← scan_once fuel (skip_ws r1);
      match skip_ws r2 with
      | c :: r3 =>
          if c =? 125 then Some ([(k, v)], r3)
          else if c =? 44 then
            '(kvs, r4) ← scan_members fuel (skip_ws r3); Some ((k, v) :: kvs, r4)
          else None
      | [] => None
      end
  end.

(** [json.loads(s)] on a [str]; [None] is the [JSONDecodeError]. *)
Definition loads (s : str) : option json :=
  if startswith s [65279] then None
  else
    let s1 := skip_ws s in
    '(j, r) ← scan_once (S (length s1)) s1;
    match skip_ws r with [] => Some j | _ => None end.

(** [u'] reads an apostrophe as a double quote, for JSON literals. *)
Definition u' (s : string) : str := (λ c, if c =? 39 then 34 else c) <$> u s.

Example loads_ex : loads (u' "{'a' : [1, -20, true], 'b':'x\n\u00e9', 'a': null}") =
  Some (JObj [(u "a", JNull); (u "b", JStr [120; 10; 233])]).
Proof. vm_compute. reflexivity. Qed.
Example canonical_ex :
  canonical_jwk (JObj [(u "kty", JStr (u "EC")); (u "crv", JArr [JInt (-5); JBool true])])
  = u' "{'crv':[-5,true],'kty':'EC'}".
Proof. vm_compute. reflexivity. Qed.

(** ** Strings: [scan_string] inverts the encoder *)

(** A Unicode scalar value: what a text without lone surrogates holds. *)
Definition is_scalar (c : Z) : bool :=
  (0 <=? c) && (c <? 1114112) && negb ((55296 <=? c) && (c <=? 57343)).

Lemma hex_val_digit d : 0 ≤ d < 16 → hex_val (hex_digit d) = Some d.
Proof.
  intros Hd. unfold hex_val, hex_digit, is_digit.
  destruct (Z.ltb_spec d 10).
  - replace ((48 <=? 48 + d) && (48 + d <=? 57)) with true by lia. f_equal. lia.
  - replace ((48 <=? 87 + d) && (87 + d <=? 57)) with false by lia.
    replace ((97 <=? 87 + d) && (87 + d <=? 102)) with true by lia. f_equal. lia.
Qed.

Lemma hex4_val_escape n : 0 ≤ n < 65536 →
  hex4_val (hex_digit (n / 4096)) (hex_digit (n / 256 mod 16))
    (hex_digit (n / 16 mod 16)) (hex_digit (n mod 16)) = Some n.
Proof.
  intros Hn. unfold hex4_val.
  assert (0 ≤ n / 4096 < 16 ∧ 0 ≤ n / 256 mod 16 < 16 ∧ 0 ≤ n / 16 mod 16 < 16
    ∧ 0 ≤ n mod 16 < 16) as (? & ? & ? & ?) by (Z.to_euclidean_division_equations; lia).
  rewrite !hex_val_digit by lia. simpl. f_equal. Z.to_euclidean_division_equations. lia.
Qed.

Lemma scan_u_escape n r : 0 ≤ n < 65536 → is_high_surrogate n = false →
  scan_string (u_escape n ++ r) = cons_fst n (scan_string r).
Proof.
  intros Hn Hs. unfold u_escape. cbn [u fmap list_fmap list_ascii_of_string app].
  simpl. rewrite hex4_val_escape by done. rewrite Hs. simpl.
  destruct r as [|b [|v [|l1 [|l2 [|l3 [|l4 r]]]]]]; reflexivity.
Qed.

Lemma scan_u_escape_pair n r : 0 ≤ n < 1048576 →
  scan_string (u_escape (55296 + n / 1024) ++ u_escape (56320 + n mod 1024) ++ r)
  = cons_fst (65536 + n) (scan_string r).
Proof.
  intros Hn. assert (0 ≤ n / 1024 < 1024 ∧ 0 ≤ n mod 1024 < 1024) as [??]
    by (Z.to_euclidean_division_equations; lia).
  unfold u_escape at 1. unfold u_escape at 1. cbn [u fmap list_fmap list_ascii_of_string app].
  simpl. rewrite !hex4_val_escape by lia.
  replace (is_high_surrogate (55296 + n / 1024)) with true by (unfold is_high_surrogate; lia).
  replace (is_low_surrogate (56320 + n mod 1024)) with true by (unfold is_low_surrogate; lia).
  simpl. f_equal. Z.to_euclidean_division_equations. lia.
Qed.

Lemma scan_escape_char c r : is_scalar c = true →
  scan_string (escape_char c ++ r) = cons_fst c (scan_string r).
Proof.
  unfold is_scalar. intros Hc. bool_to_prop. unfold escape_char.
  repeat match goal with |- context [if ?x =? ?n then _ else _] =>
    destruct (Z.eqb_spec x n) as [->|]; [done|] end.
  destruct ((32 <=? c) && (c <=? 126)) eqn:Hp.
  { bool_to_prop. simpl. repeat match goal with |- context [?x =? ?n] =>
      rewrite (proj2 (Z.eqb_neq x n)) by done end.
    by rewrite (proj2 (Z.ltb_ge c 32)) by done. }
  destruct (Z.ltb_spec c 65536).
  - apply scan_u_escape; [lia|]. unfold is_high_surrogate. lia.
  - cbv zeta. rewrite <- (assoc_L (++)), scan_u_escape_pair by lia. f_equal. lia.
Qed.

Lemma scan_string_dumps s r : forallb is_scalar s = true →
  scan_string ((s ≫= escape_char) ++ 34 :: r) = Some (s, r).
Proof.
  induction s as [|c s IH]; [done|]. cbn [forallb]. intros [Hc Hs]%andb_true_iff.
  by rewrite bind_cons, <- (assoc_L (++)), scan_escape_char, IH by done.
Qed.

(** ** Numbers *)

Definition num_end (r : str) : Prop :=
  match r with [] => True | c :: _ => is_digit c = false ∧ c ≠ 46 ∧ c ≠ 101 ∧ c ≠ 69 end.

Lemma span_app f a r : Forall (λ c, f c = true) a →
  match r with [] => True | c :: _ => f c = false end → span f (a ++ r) = (a, r).
Proof.
  induction 1 as [|c a Hc _ IH]; intros Hr; simpl.
  - destruct r as [|c r]; simpl; [done|]. by rewrite Hr.
  - rewrite Hc, IH by done. done.
Qed.

Lemma scan_tail_end r : num_end r → scan_frac r = ([], r) ∧ scan_exp r = ([], r).
Proof.
  destruct r as [|c r]; simpl; [done|]. intros (Hd & H1 & H2 & H3).
  rewrite (proj2 (Z.eqb_neq c 101)), (proj2 (Z.eqb_neq c 69)) by done. split; [|done].
  destruct c as [|p|p]; try done. repeat (destruct p as [p|p|]; try done).
Qed.

Lemma scan_number_int n r : num_end r → scan_number (str_of_int n ++ r) = Some (JInt n, r).
Proof.
  intros Hr. destruct (scan_tail_end r Hr) as [Hfr Hex].
  assert (∀ m, 0 ≤ m → ∃ c t, str_of_nonneg m ++ r = c :: t ∧ is_digit c = true ∧
    (let '(ds, r1) := if c =? 48 then ([c], t) else span is_digit (c :: t) in
     ds = str_of_nonneg m ∧ r1 = r)) as Hds.
  { intros m Hm. destruct (str_of_nonneg_spec m Hm) as (_ & HF & c & t & Heq & Hz).
    exists c, (t ++ r). rewrite Heq in *. inversion_clear HF.
    split_and!; [done|done|]. destruct (Z.eqb_spec c 48) as [E|E].
    - destruct (Hz E) as [_ ->]. done.
    - change (c :: t ++ r) with ((c :: t) ++ r). rewrite span_app; [done|by constructor|].
      destruct r; [done|]. apply Hr. }
  unfold scan_number, str_of_int. destruct (Z.ltb_spec n 0) as [Hn|Hn].
  - cbn [app]. rewrite Z.eqb_refl. destruct (Hds (- n)) as (c & t & Heq & Hd & Hs); [lia|].
    rewrite Heq, Hd. cbn [negb]. case_match. destruct Hs as [-> ->]. rewrite Hfr, Hex. simpl.
    do 3 f_equal. destruct (str_of_nonneg_spec (- n)) as [-> _]; lia.
  - destruct (Hds n) as (c & t & Heq & Hd & Hs); [lia|]. rewrite Heq.
    assert ((c =? 45) = false) as -> by (unfold is_digit in Hd; lia).
    rewrite Hd. cbn [negb]. case_match. destruct Hs as [-> ->]. rewrite Hfr, Hex. simpl.
    do 3 f_equal. by destruct (str_of_nonneg_spec n) as [-> _].
Qed.

(** ** Round trip *)

(** Texts of Unicode scalars, distinct keys in every object, no floats. *)
Fixpoint json_wf (j : json) : bool :=
  match j with
  | JNull | JBool _ | JInt _ => true
  | JFloat _ => false
  | JStr s => forallb is_scalar s
  | JArr l => forallb json_wf l
  | JObj kvs => bool_decide (NoDup kvs.*1) &&
                forallb (λ kv, forallb is_scalar kv.1 && json_wf kv.2) kvs
  end.

Lemma accept_nil s : accept [] s = Some s.
Proof. unfold accept, startswith. rewrite bool_decide_true; [done|apply prefix_nil]. Qed.

Lemma accept_cons a w c s :
  accept (a :: w) (c :: s) = if a =? c then accept w s else None.
Proof.
  unfold accept, startswith. destruct (Z.eqb_spec a c) as [->|Hne].
  - case_bool_decide as H; case_bool_decide as H'; simpl; try done.
    + apply prefix_cons_inv_2 in H. done.
    + destruct H. by apply prefix_cons.
  - case_bool_decide as H; [|done]. by apply prefix_cons_inv_1 in H.
Qed.

Lemma accept_app w s : accept w (w ++ s) = Some s.
Proof.
  unfold accept, startswith. rewrite bool_decide_true by (by exists s).
  by rewrite drop_app_length.
Qed.

Lemma skip_ws_id s : match s with [] => True | c :: _ => is_ws c = false end → skip_ws s = s.
Proof. unfold skip_ws. destruct s as [|c s]; cbn [lstrip_by]; [done|]. by intros ->. Qed.

Lemma skip_ws_app sp s : forallb is_ws sp = true →
  match s with [] => True | c :: _ => is_ws c = false end → skip_ws (sp ++ s) = s.
Proof.
  intros Hsp Hs. unfold skip_ws. rewrite lstrip_by_app_all; [by apply skip_ws_id|].
  apply Forall_forall. intros c Hc. rewrite forallb_forall in Hsp. by apply Hsp, list_elem_of_In.
Qed.

Lemma dict_set_fresh k v d : k ∉ d.*1 → dict_set k v d = d ++ [(k, v)].
Proof.
  induction d as [|[k' v'] d IH]; simpl; [done|]. rewrite not_elem_of_cons. intros [H1 H2].
  by rewrite decide_False, IH.
Qed.

Lemma dict_of_nodup kvs : NoDup kvs.*1 → dict_of kvs = kvs.
Proof.
  intros Hnd. unfold dict_of.
  enough (∀ d, NoDup (d ++ kvs).*1 → foldl (λ d kv, dict_set kv.1 kv.2 d) d kvs = d ++ kvs) as H
    by (by rewrite H).
  clear Hnd. induction kvs as [|[k v] kvs IH]; intros d Hnd; simpl; [by rewrite app_nil_r|].
  rewrite fmap_app in Hnd. simpl in Hnd. rewrite dict_set_fresh.
  - rewrite IH; [by rewrite <- (assoc_L (++))|]. by rewrite <- (assoc_L (++)), fmap_app.
  - apply NoDup_app in Hnd as (_ & Hnd & _). intros Hin. destruct (Hnd k Hin). left.
Qed.

(** First characters of printed values. *)
Lemma dumps_head sort sp j : json_wf j = true →
  ∃ c t, dumps sort sp j = c :: t ∧ is_ws c = false ∧ c ≠ 93 ∧ c ≠ 65279.
Proof.
  destruct j as [|[]|n|?|s|l|kvs]; intros Hwf; try discriminate;
    try (eexists _, _; split; [reflexivity|]; done).
  cbn [dumps]. unfold str_of_int. destruct (Z.ltb_spec n 0); [by eexists _, _|].
  destruct (str_of_nonneg_head n) as (c & t & -> & Hc); [done|]. exists c, t. unfold is_digit in Hc. bool_to_prop.
  split_and!; [done| |lia|lia]. unfold is_ws. lia.
Qed.

Lemma scan_once_int n fuel r : num_end r →
  scan_once (S fuel) (str_of_int n ++ r) = Some (JInt n, r).
Proof.
  intros Hr. rewrite <- (scan_number_int n r Hr).
  assert (∀ c, is_digit c = true → c = 48 ∨ c = 49 ∨ c = 50 ∨ c = 51 ∨ c = 52 ∨ c = 53 ∨ c = 54
    ∨ c = 55 ∨ c = 56 ∨ c = 57) as Hd by (unfold is_digit; lia).
  unfold str_of_int. destruct (Z.ltb_spec n 0).
  - destruct (str_of_nonneg_head (- n)) as (c & t & -> & Hc%Hd); [lia|]. by destruct_or! Hc; subst c.
  - destruct (str_of_nonneg_head n) as (c & t & -> & Hc%Hd); [lia|]. by destruct_or! Hc; subst c.
Qed.

(** The scanner reads back the text of [j] (followed by [r]) with enough fuel. *)
Definition scans (sp : str) (j : json) : Prop := ∀ n r,
  (length (dumps false sp j) ≤ n)%nat → num_end r →
  scan_once n (dumps false sp j ++ r) = Some (j, r).

Section roundtrip.
Context (sp : str) (Hsp : forallb is_ws sp = true).
#[local] Abbreviation text := (dumps false sp).
#[local] Abbreviation elems_text l := (join (44 :: sp) (text <$> l)).
#[local] Abbreviation item := (λ kv : str * json, dumps_str kv.1 ++ 58 :: sp ++ text kv.2).
#[local] Abbreviation items_text kvs := (join (44 :: sp) (item <$> kvs)).

Lemma scan_elems_dumps l n r : l ≠ [] → Forall (scans sp) l → forallb json_wf l = true →
  (length (elems_text l) < n)%nat →
  scan_elems n (elems_text l ++ 93 :: r) = Some (l, r).
Proof.
  intros Hne HF. revert n Hne. induction HF as [|x l Hx HF IH]; intros n Hne Hwf Hlen; [done|].
  cbn [forallb] in Hwf. apply andb_true_iff in Hwf as [Hwx Hwl].
  destruct n as [|n]; [lia|]. cbn [scan_elems fmap list_fmap].
  destruct l as [|y l].
  - cbn [join fmap list_fmap] in *. rewrite Hx by (simpl; done || lia). done.
  - cbn [fmap list_fmap] in *. rewrite join_cons in * by done.
    len_simpl Hlen.
    rewrite <- !(assoc_L (++)), Hx by (simpl; done || lia). cbn [mbind option_bind app].
    destruct (dumps_head false sp y) as (c & t & Hc & Hws & _ & _);
      [by apply andb_true_iff in Hwl as [? _]|].
    change (skip_ws (44 :: ?x)) with (44 :: x). cbn [Z.eqb Pos.eqb].
    rewrite skip_ws_app; [|done|by destruct l; rewrite Hc].
    rewrite IH by (done || lia). done.
Qed.

(** One member: key, colon and value are read, the next character decides. *)
Lemma scan_member_step k v n r : forallb is_scalar k = true → json_wf v = true →
  scans sp v → (length (text v) ≤ n)%nat → num_end r →
  scan_members (S n) ((dumps_str k ++ 58 :: sp ++ text v) ++ r) =
  match skip_ws r with
  | c :: r3 =>
      if c =? 125 then Some ([(k, v)], r3)
      else if c =? 44 then
        '(kvs, r4) ← scan_members n (skip_ws r3); Some ((k, v) :: kvs, r4)
      else None
  | [] => None
  end.
Proof.
  intros Hk Hwv Hv Hn Hr. cbn [scan_members]. unfold dumps_str.
  rewrite <- !(assoc_L (++)), accept_app. cbn [mbind option_bind].
  change ([34] ++ ?x) with (34 :: x). rewrite scan_string_dumps by done.
  cbn [mbind option_bind app]. change (skip_ws (58 :: ?x)) with (58 :: x).
  rewrite accept_cons, accept_nil. cbn [Z.eqb Pos.eqb mbind option_bind].
  destruct (dumps_head false sp v Hwv) as (c & t & Hc & Hws & _).
  rewrite <- (assoc_L (++)), skip_ws_app; [|done|by rewrite Hc]. by rewrite Hv.
Qed.

Lemma scan_members_dumps kvs n r : kvs ≠ [] → Forall (λ kv, scans sp kv.2) kvs →
  forallb (λ kv, forallb is_scalar kv.1 && json_wf kv.2) kvs = true →
  (length (items_text kvs) < n)%nat →
  scan_members n (items_text kvs ++ 125 :: r) = Some (kvs, r).
Proof.
  intros Hne HF. revert n Hne. induction HF as [|[k v] l Hx HF IH]; intros n Hne Hwf Hlen; [done|].
  cbn [forallb fst snd] in Hwf. apply andb_true_iff in Hwf as [[Hk Hwx]%andb_true_iff Hwl].
  destruct n as [|n]; [lia|]. cbn [fmap list_fmap].
  destruct l as [|y l].
  - cbn [join fmap list_fmap fst snd] in *. len_simpl Hlen.
    rewrite scan_member_step by (done || lia). done.
  - cbn [fmap list_fmap fst snd] in *. rewrite join_cons in * by done.
    len_simpl Hlen.
    rewrite <- (assoc_L (++) (dumps_str k ++ _)), scan_member_step by (done || lia).
    cbn [app]. change (skip_ws (44 :: ?x)) with (44 :: x). cbn [Z.eqb Pos.eqb].
    rewrite <- (assoc_L (++)), skip_ws_app; [|done|by destruct l].
    rewrite IH by (done || lia). done.
Qed.

Lemma dumps_obj kvs : text (JObj kvs) = [123] ++ items_text kvs ++ [125].
Proof. cbn [dumps]. by rewrite <- list_fmap_compose. Qed.

Lemma scan_dumps j : json_wf j = true → scans sp j.
Proof.
  induction j as [|b|m|t|s|l IH|kvs IH] using json_ind'; intros Hwf n r Hn Hr;
    (destruct n as [|n]; [destruct (dumps_head false sp _ Hwf) as (? & ? & E & _);
                          rewrite E in Hn; simpl in Hn; lia|]).
  - done.
  - by destruct b.
  - by apply scan_once_int.
  - done.
  - cbn [dumps scan_once]. unfold dumps_str. rewrite <- !(assoc_L (++)). cbn [app].
    cbn [Z.eqb Pos.eqb]. by rewrite scan_string_dumps.
  - cbn [dumps json_wf] in *. rewrite <- !(assoc_L (++)). cbn [app scan_once Z.eqb Pos.eqb].
    destruct (decide (l = [])) as [->|Hne]; [done|].
    len_simpl Hn.
    assert (Forall (scans sp) l) as HF.
    { rewrite forallb_forall in Hwf. rewrite Forall_forall in *. intros x Hx.
      by apply IH, Hwf, list_elem_of_In. }
    destruct l as [|x l]; [done|]. cbn [forallb] in Hwf. apply andb_true_iff in Hwf as Hwf'.
    destruct (dumps_head false sp x) as (c & t & Hc & Hws & Hc93 & _); [apply Hwf'|].
    assert (∃ t', elems_text (x :: l) ++ 93 :: r = c :: t') as [t' Ht'].
    { cbn [fmap list_fmap]. rewrite Hc. destruct l; by eexists. }
    rewrite skip_ws_id by (by rewrite Ht').
    rewrite Ht', accept_cons, (proj2 (Z.eqb_neq 93 c)) by done. rewrite <- Ht'.
    by rewrite scan_elems_dumps by (done || lia).
  - rewrite dumps_obj in *. cbn [json_wf] in Hwf. rewrite <- !(assoc_L (++)).
    cbn [app scan_once Z.eqb Pos.eqb].
    destruct (decide (kvs = [])) as [->|Hne]; [done|].
    len_simpl Hn.
    apply andb_true_iff in Hwf as [Hnd%bool_decide_eq_true Hwf].
    assert (Forall (λ kv, scans sp kv.2) kvs) as HF.
    { rewrite forallb_forall in Hwf. rewrite Forall_forall in *. intros x Hx.
      apply IH; [done|]. apply list_elem_of_In, Hwf in Hx. by apply andb_true_iff in Hx as [_ ?]. }
    assert (∃ t', items_text kvs ++ 125 :: r = 34 :: t') as [t' Ht'].
    { destruct kvs as [|? kvs]; [done|]. destruct kvs; by eexists. }
    rewrite skip_ws_id by (by rewrite Ht').
    rewrite Ht', accept_cons. cbn [Z.eqb Pos.eqb]. rewrite <- Ht'.
    rewrite scan_members_dumps by (done || lia). cbn [mbind option_bind].
    by rewrite dict_of_nodup.
Qed.
End roundtrip.

(** [json.loads] reads back what [json.dumps] wrote, with either separators. *)
Lemma loads_dumps sp j : forallb is_ws sp = true → json_wf j = true →
  loads (dumps false sp j) = Some j.
Proof.
  intros Hsp Hwf. unfold loads.
  destruct (dumps_head false sp j Hwf) as (c & t & Hc & Hws & _ & Hbom).
  assert (startswith (dumps false sp j) [65279] = false) as ->.
  { apply bool_decide_eq_false. rewrite Hc. intros H%prefix_cons_inv_1. congruence. }
  rewrite skip_ws_id by (by rewrite Hc).
  pose proof (scan_dumps sp Hsp j Hwf (S (length (dumps false sp j))) [] ltac:(lia) I) as Hs.
  rewrite app_nil_r in Hs. by rewrite Hs.
Qed.

(** ** Canonical form *)

(** The value with the members of every object sorted by key. *)
Fixpoint sort_keys (j : json) : json :=
  match j with
  | JArr l => JArr (sort_keys <$> l)
  | JObj kvs => JObj (merge_sort key_le ((λ kv, (kv.1, sort_keys kv.2)) <$> kvs))
  | j => j
  end.

(** Equality of values up to the order of the members of objects: what
    comparing two parsed dictionaries means. *)
Fixpoint json_eqb (a b : json) {struct a} : bool :=
  match a, b with
  | JNull, JNull => true
  | JBool x, JBool y => Bool.eqb x y
  | JInt x, JInt y => x =? y
  | JFloat x, JFloat y | JStr x, JStr y => bool_decide (x = y)
  | JArr l, JArr m =>
      (fix go (l m : list json) : bool :=
         match l, m with
         | [], [] => true
         | x :: l, y :: m => json_eqb x y && go l m
         | _, _ => false
         end) l m
  | JObj k1, JObj k2 =>
      (length k1 =? length k2)%nat &&
      forallb (λ kv, match dict_get kv.1 k2 with Some v => json_eqb kv.2 v | None => false end) k1
  | _, _ => false
  end.

#[export] Instance key_le_trans {A} : Transitive (@key_le A).
Proof. intros x y z. unfold key_le. apply str_le_trans. Qed.
#[export] Instance key_le_total {A} : Total (@key_le A).
Proof. intros x y. unfold key_le. apply str_le_total. Qed.

Lemma nodup_key_inj {A} (l : list (str * A)) x y :
  NoDup l.*1 → x ∈ l → y ∈ l → x.1 = y.1 → x = y.
Proof.
  intros Hnd. induction l as [|z l IH]; [by intros ?%elem_of_nil|].
  cbn [fmap list_fmap] in Hnd. apply NoDup_cons in Hnd as [Hz Hnd]. rewrite !elem_of_cons.
  intros [->|Hx] [->|Hy] He; [done|..|by apply IH].
  - destruct Hz. rewrite He. by apply list_elem_of_fmap_2.
  - destruct Hz. rewrite <- He. by apply list_elem_of_fmap_2.
Qed.

Lemma sorted_perm_unique {A} (l1 l2 : list (str * A)) :
  NoDup l1.*1 → l1 ≡ₚ l2 → StronglySorted key_le l1 → StronglySorted key_le l2 → l1 = l2.
Proof.
  intros Hnd Hp H1 H2. apply (StronglySorted_unique_strong key_le); try done.
  intros x y Hx Hy Hxy Hyx. apply (nodup_key_inj l1); [done|done|by rewrite Hp|].
  by apply (anti_symm str_le).
Qed.

Lemma merge_sort_perm {A} (l1 l2 : list (str * A)) :
  NoDup l1.*1 → l1 ≡ₚ l2 → merge_sort key_le l1 = merge_sort key_le l2.
Proof.
  intros Hnd Hp. apply sorted_perm_unique; try apply (StronglySorted_merge_sort key_le).
  - by rewrite merge_sort_Permutation.
  - by rewrite !merge_sort_Permutation.
Qed.

(** Applying a function to the values of a dictionary. *)
#[local] Abbreviation on_values f := (λ kv, (kv.1, f kv.2)).

Lemma on_values_keys {A B} (f : A → B) (l : list (str * A)) : (on_values f <$> l).*1 = l.*1.
Proof. rewrite <- list_fmap_compose. by apply list_fmap_ext. Qed.

Lemma merge_sort_on_values {A B} (f : A → B) (l : list (str * A)) : NoDup l.*1 →
  merge_sort key_le (on_values f <$> l) = on_values f <$> merge_sort key_le l.
Proof.
  intros Hnd. apply sorted_perm_unique.
  - rewrite merge_sort_Permutation. by rewrite on_values_keys.
  - by rewrite !merge_sort_Permutation.
  - apply (StronglySorted_merge_sort key_le).
  - pose proof (StronglySorted_merge_sort key_le l) as Hs.
    induction Hs as [|x k _ IH HF]; constructor; [done|].
    apply Forall_fmap. by eapply Forall_impl.
Qed.

Lemma forallb_perm {A} (f : A → bool) l1 l2 : l1 ≡ₚ l2 → forallb f l1 = forallb f l2.
Proof.
  induction 1; simpl; try congruence. by rewrite !andb_assoc, (andb_comm (f _) (f _)).
Qed.

Lemma dumps_sort_keys sp j : json_wf j = true → dumps true sp j = dumps false sp (sort_keys j).
Proof.
  induction j as [|b|m|t|s|l IH|kvs IH] using json_ind'; intros Hwf; try done.
  - cbn [dumps sort_keys json_wf] in *. do 3 f_equal. rewrite <- list_fmap_compose.
    apply list_fmap_ext. intros i x Hx%list_elem_of_lookup_2. rewrite Forall_forall in IH.
    apply IH; [done|]. rewrite forallb_forall in Hwf. by apply Hwf, list_elem_of_In.
  - cbn [dumps sort_keys json_wf] in *.
    apply andb_true_iff in Hwf as [Hnd%bool_decide_eq_true Hwf].
    rewrite <- (merge_sort_on_values (dumps false sp)), <- list_fmap_compose
      by (by rewrite on_values_keys).
    do 5 f_equal. apply list_fmap_ext. intros i [k v] Hx%list_elem_of_lookup_2. cbn.
    f_equal. rewrite Forall_forall in IH. apply (IH _ Hx). rewrite forallb_forall in Hwf.
    apply list_elem_of_In, Hwf in Hx. by apply andb_true_iff in Hx as [_ ?].
Qed.

Lemma json_wf_sort_keys j : json_wf j = true → json_wf (sort_keys j) = true.
Proof.
  induction j as [|b|m|t|s|l IH|kvs IH] using json_ind'; intros Hwf; try done;
    cbn [sort_keys json_wf] in *; rewrite Forall_forall in IH.
  - rewrite !forallb_forall in *. intros x Hx%list_elem_of_In.
    apply list_elem_of_fmap in Hx as (y & -> & Hy). apply IH; [done|]. by apply Hwf, list_elem_of_In.
  - apply andb_true_iff in Hwf as [Hnd%bool_decide_eq_true Hwf]. apply andb_true_iff; split.
    + apply bool_decide_eq_true. rewrite merge_sort_Permutation. by rewrite on_values_keys.
    + erewrite forallb_perm by apply merge_sort_Permutation.
      rewrite !forallb_forall in *. intros x Hx%list_elem_of_In.
      apply list_elem_of_fmap in Hx as ([k v] & -> & Hy). pose proof Hy as Hy'.
      apply list_elem_of_In, Hwf, andb_true_iff in Hy as [Hk Hv]. cbn in *.
      apply andb_true_iff; split; [done|]. by apply (IH _ Hy').
Qed.

Lemma dict_get_elem k v d : NoDup d.*1 → dict_get k d = Some v ↔ (k, v) ∈ d.
Proof.
  induction d as [|[k' v'] d IH]; cbn [dict_get fmap list_fmap fst]; intros Hnd.
  - by split; [|intros ?%elem_of_nil].
  - apply NoDup_cons in Hnd as [Hk Hnd]. rewrite elem_of_cons. case_decide as Hd.
    + subst k'. split; [intros [= ->]; by left|]. intros [[= ->]|Hin]; [done|].
      destruct Hk. by apply (list_elem_of_fmap_2 fst) in Hin.
    + rewrite (IH Hnd). split; [by right|]. intros [[= -> ->]|?]; done.
Qed.

(** Two objects have the same sorted form when their members agree up to order. *)
Lemma sort_keys_objects k1 k2 : NoDup k1.*1 → NoDup k2.*1 →
  sort_keys (JObj k1) = sort_keys (JObj k2) ↔
  (on_values sort_keys <$> k1) ≡ₚ (on_values sort_keys <$> k2).
Proof.
  intros H1 H2. cbn [sort_keys]. split.
  - intros [= E]. rewrite <- (merge_sort_Permutation key_le (on_values sort_keys <$> k1)), E.
    by rewrite merge_sort_Permutation.
  - intros Hp. f_equal. apply merge_sort_perm; [|done]. by rewrite on_values_keys.
Qed.

Lemma json_eqb_arr l m : json_eqb (JArr l) (JArr m) = true ↔ Forall2 (λ x y, json_eqb x y = true) l m.
Proof.
  cbn [json_eqb]. revert m. induction l as [|x l IH]; intros [|y m].
  - split; [constructor|done].
  - by split; [|inversion 1].
  - by split; [|inversion 1].
  - rewrite andb_true_iff, IH. split; [intros [??]; by constructor|by inversion 1].
Qed.

Lemma json_eqb_obj k1 k2 : NoDup k2.*1 →
  json_eqb (JObj k1) (JObj k2) = true ↔
  length k1 = length k2 ∧
  ∀ k v, (k, v) ∈ k1 → ∃ v', (k, v') ∈ k2 ∧ json_eqb v v' = true.
Proof.
  intros Hnd. cbn [json_eqb]. rewrite andb_true_iff, Nat.eqb_eq, forallb_forall. f_equiv.
  split.
  - intros H k v Hin%list_elem_of_In. apply H in Hin. cbn [fst snd] in Hin.
    destruct (dict_get k k2) as [v'|] eqn:E; [|done]. exists v'. by rewrite <- dict_get_elem.
  - intros H [k v] Hin%list_elem_of_In. destruct (H k v Hin) as (v' & Hv' & E).
    apply dict_get_elem in Hv'; [|done]. cbn [fst snd]. by rewrite Hv'.
Qed.

(** The two permutation criteria agree, given the claim on the members. *)
Lemma objects_eqb k1 k2 : NoDup k1.*1 → NoDup k2.*1 →
  (∀ k v v', (k, v) ∈ k1 → (k, v') ∈ k2 →
     sort_keys v = sort_keys v' ↔ json_eqb v v' = true) →
  (on_values sort_keys <$> k1) ≡ₚ (on_values sort_keys <$> k2) ↔
  json_eqb (JObj k1) (JObj k2) = true.
Proof.
  intros H1 H2 Hval. rewrite json_eqb_obj by done. split.
  - intros Hp. pose proof (Permutation_length Hp) as Hl. rewrite !length_fmap in Hl.
    split; [done|]. intros k v Hin.
    assert ((k, sort_keys v) ∈ on_values sort_keys <$> k2) as Hin2.
    { rewrite <- Hp. by apply (list_elem_of_fmap_2 (on_values sort_keys) k1 (k, v)). }
    apply list_elem_of_fmap in Hin2 as ([k' v'] & [= -> E] & Hin2). exists v'.
    split; [done|]. by apply (Hval k').
  - intros [Hl Hsub]. apply submseteq_length_Permutation; [|by rewrite !length_fmap, Hl].
    apply NoDup_submseteq.
    + apply (NoDup_fmap_1 fst). by rewrite on_values_keys.
    + intros x Hx. apply list_elem_of_fmap in Hx as ([k v] & -> & Hin).
      destruct (Hsub k v Hin) as (v' & Hin' & E%(Hval k)); [|done|done]. cbn. rewrite E.
      by apply (list_elem_of_fmap_2 (on_values sort_keys) k2 (k, v')).
Qed.

Lemma sort_keys_eqb a b : json_wf a = true → json_wf b = true →
  sort_keys a = sort_keys b ↔ json_eqb a b = true.
Proof.
  revert b. induction a as [|x|m|t|s|l IH|kvs IH] using json_ind'; intros b Ha Hb;
    try (destruct b; cbn [sort_keys json_eqb]; try done;
         rewrite ?eqb_true_iff, ?Z.eqb_eq, ?bool_decide_eq_true; split; congruence).
  - destruct b as [| | | | |m|]; try done. rewrite json_eqb_arr. cbn [sort_keys].
    cbn [json_wf] in *. trans (sort_keys <$> l = sort_keys <$> m); [split; congruence|].
    revert m Hb. induction IH as [|x l Hx _ IHl]; intros [|y m] Hb; cbn [fmap list_fmap forallb] in *.
    + split; [constructor|done].
    + by split; [|inversion 1].
    + by split; [|inversion 1].
    + apply andb_true_iff in Ha as [Ha1 Ha2], Hb as [Hb1 Hb2].
      specialize (Hx y Ha1 Hb1). specialize (IHl Ha2 m Hb2). split.
      * intros [= E1 E2]. constructor; [by apply Hx|by apply IHl].
      * inversion 1; subst. f_equal; [by apply Hx|by apply IHl].
  - destruct b as [| | | | | |k2]; try done. cbn [json_wf] in Ha, Hb.
    apply andb_true_iff in Ha as [Hn1%bool_decide_eq_true Ha], Hb as [Hn2%bool_decide_eq_true Hb].
    rewrite sort_keys_objects by done. apply objects_eqb; [done..|]. intros k v v' Hin Hin'.
    rewrite Forall_forall in IH. rewrite forallb_forall in Ha, Hb.
    apply (IH _ Hin).
    + apply list_elem_of_In, Ha, andb_true_iff in Hin as [_ ?]. done.
    + apply list_elem_of_In, Hb, andb_true_iff in Hin' as [_ ?]. done.
Qed.

(** Two keys have the same stored form exactly when they are equal as
    dictionaries. *)
Lemma canonical_jwk_eqb a b : json_wf a = true → json_wf b = true →
  canonical_jwk a = canonical_jwk b ↔ json_eqb a b = true.
Proof.
  intros Ha Hb. rewrite <- sort_keys_eqb by done. unfold canonical_jwk.
  rewrite !dumps_sort_keys by done. split; [|by intros ->]. intros E.
  apply (f_equal loads) in E. rewrite !loads_dumps in E by (done || by apply json_wf_sort_keys).
  congruence.
Qed.

(** ** The fuel is enough

    A successful scan consumes at least one character, and succeeds alike with
    any fuel that is at least the number of characters it consumes. *)
Definition consumes {A} (n : nat) (scan : nat → str → option (A * str)) : Prop :=
  ∀ s v r, scan n s = Some (v, r) →
    (length r < length s)%nat ∧
    ∀ m, (length s - length r ≤ m)%nat → scan m s = Some (v, r).

Lemma lstrip_by_length f s : (length (lstrip_by f s) ≤ length s)%nat.
Proof. induction s as [|c s IH]; cbn [lstrip_by]; [done|]. destruct (f c); simpl; lia. Qed.

Lemma skip_ws_length s : (length (skip_ws s) ≤ length s)%nat.
Proof. apply lstrip_by_length. Qed.

Lemma accept_length w s r : accept w s = Some r → length s = (length w + length r)%nat.
Proof.
  unfold accept, startswith. case_bool_decide as H; [|done]. intros [= <-].
  destruct H as [k ->]. by rewrite drop_app_length, length_app.
Qed.

Lemma cons_fst_Some c x t r : cons_fst c x = Some (t, r) → ∃ t', x = Some (t', r).
Proof. destruct x as [[t' r']|]; [|done]. cbn. intros [= <- <-]. by exists t'. Qed.

Lemma scan_string_length s t r : scan_string s = Some (t, r) → (length r < length s)%nat.
Proof.
  revert t. induction s as [s IH] using (induction_ltof1 _ length). unfold ltof in IH.
  intros t H. destruct s as [|c s]; [done|]. cbn [scan_string] in H.
  repeat split_match; simplify_eq; cbn [length] in *; try done; try lia;
    match goal with H : cons_fst _ _ = _ |- _ => apply cons_fst_Some in H as [t' Ht'] end;
    apply IH in Ht'; cbn [length] in *; lia.
Qed.

Lemma span_length f s a b : span f s = (a, b) → length s = (length a + length b)%nat.
Proof.
  revert a b. induction s as [|c s IH]; intros a b; cbn [span]; [by intros [= <- <-]|].
  destruct (f c); [|by intros [= <- <-]]. destruct (span f s) as [a' b'].
  intros [= <- <-]. simpl. by rewrite (IH a' b').
Qed.

Lemma scan_frac_length s a b : scan_frac s = (a, b) → (length b ≤ length s)%nat.
Proof.
  unfold scan_frac. intros H. repeat split_match; simplify_eq; try done.
  match goal with H : span _ _ = _ |- _ => apply span_length in H end. simpl in *. lia.
Qed.

Lemma scan_exp_length s a b : scan_exp s = (a, b) → (length b ≤ length s)%nat.
Proof.
  unfold scan_exp. intros H. repeat split_match; simplify_eq; try done;
  match goal with H : span _ _ = _ |- _ => apply span_length in H end; simpl in *; lia.
Qed.

Lemma scan_number_length s v r : scan_number s = Some (v, r) → (length r < length s)%nat.
Proof.
  intros H. unfold scan_number in H.
  destruct (match s with c :: r => if c =? 45 then (true, r) else (false, s) | [] => (false, s) end)
    as [neg s1] eqn:E1.
  assert (length s1 ≤ length s)%nat by (repeat split_match; simplify_eq; simpl; lia).
  destruct s1 as [|c s1]; [done|]. destruct (negb (is_digit c)) eqn:Hd; [done|].
  destruct (if c =? 48 then ([c], s1) else span is_digit (c :: s1)) as [ds r1] eqn:E2.
  assert (length r1 < length (c :: s1))%nat.
  { destruct (c =? 48); [simplify_eq; simpl; lia|]. cbn [span] in E2.
    apply negb_false_iff in Hd. rewrite Hd in E2.
    destruct (span is_digit s1) as [a b] eqn:E3. apply span_length in E3. simplify_eq. simpl. lia. }
  destruct (scan_frac r1) as [fr r2] eqn:E4. apply scan_frac_length in E4.
  destruct (scan_exp r2) as [ex r3] eqn:E5. apply scan_exp_length in E5.
  assert (r = r3) as -> by (destruct (fr ++ ex); congruence). lia.
Qed.

Lemma scan_elems_fuel n : consumes n scan_once → consumes n scan_elems → consumes (S n) scan_elems.
Proof.
  intros IHo IHe s v r H. cbn [scan_elems] in H.
  apply option_bind_Some in H as ([x r0] & Hx & H). apply IHo in Hx as [Hl Hx].
  pose proof (skip_ws_length r0) as Hws.
  assert (∀ m, (length s - length r ≤ m)%nat → (length r < length (skip_ws r0))%nat →
    ∃ m', m = S m' ∧ scan_once m' s = Some (x, r0) ∧
          (length (skip_ws r0) - length r ≤ S m')%nat) as Hm.
  { intros m Hm Hr. destruct m as [|m]; [lia|]. exists m. split_and!; [done|apply Hx; lia|lia]. }
  destruct (skip_ws r0) as [|c r1] eqn:Er; [done|]. cbn [length] in *.
  destruct (c =? 93) eqn:E1.
  - injection H as <- <-. split; [lia|]. intros m (m' & -> & Hs & _)%Hm; [|lia].
    cbn [scan_elems]. rewrite Hs. cbn [mbind option_bind]. by rewrite Er, E1.
  - destruct (c =? 44) eqn:E2; [|done].
    apply option_bind_Some in H as ([l r2] & He & [= <- <-]). apply IHe in He as [Hl2 He].
    pose proof (skip_ws_length r1). split; [lia|].
    intros m Hmr. destruct (Hm m Hmr) as (m' & -> & Hs & _); [lia|].
    cbn [scan_elems]. rewrite Hs. cbn [mbind option_bind]. rewrite Er, E1, E2, He by lia. done.
Qed.

Lemma scan_members_fuel n :
  consumes n scan_once → consumes n scan_members → consumes (S n) scan_members.
Proof.
  intros IHo IHe s v r H. cbn [scan_members] in H.
  apply option_bind_Some in H as (s1 & Hs1 & H).
  apply option_bind_Some in H as ([k r0] & Hk & H).
  apply option_bind_Some in H as (r1 & Hr1 & H).
  apply option_bind_Some in H as ([x r2] & Hx & H). apply IHo in Hx as [Hl Hx].
  pose proof (accept_length _ _ _ Hs1) as L1. pose proof (accept_length _ _ _ Hr1) as L2.
  pose proof (scan_string_length _ _ _ Hk) as L3. cbn [length] in *.
  pose proof (skip_ws_length r0). pose proof (skip_ws_length r1). pose proof (skip_ws_length r2).
  destruct (skip_ws r2) as [|c r3] eqn:Er; [done|]. cbn [length] in *.
  pose proof (skip_ws_length r3).
  assert (∀ m, (length (skip_ws r1) - length r2 ≤ m)%nat →
    scan_members (S m) s =
    if c =? 125 then Some ([(k, x)], r3)
    else if c =? 44 then
      '(kvs, r4) ← scan_members m (skip_ws r3); Some ((k, x) :: kvs, r4)
    else None) as Hstep.
  { intros m Hm. cbn [scan_members]. rewrite Hs1. cbn [mbind option_bind]. rewrite Hk.
    cbn [mbind option_bind]. rewrite Hr1. cbn [mbind option_bind]. rewrite Hx by done.
    cbn [mbind option_bind]. by rewrite Er. }
  destruct (c =? 125) eqn:E1.
  - injection H as <- <-. split; [lia|]. intros [|m] Hm; [lia|]. apply Hstep. lia.
  - destruct (c =? 44) eqn:E2; [|done].
    apply option_bind_Some in H as ([l r4] & He & [= <- <-]). apply IHe in He as [Hl2 He].
    split; [lia|]. intros [|m] Hm; [lia|]. rewrite Hstep by lia. by rewrite He by lia.
Qed.

Lemma scan_once_fuel n :
  consumes n scan_elems → consumes n scan_members → consumes (S n) scan_once.
Proof.
  intros IHe IHm s v r H. destruct s as [|c s]; [done|].
  pose proof (skip_ws_length s) as Hws. cbn [scan_once] in H.
  destruct (c =? 34) eqn:E1.
  { apply option_bind_Some in H as ([t r'] & Ht & [= <- <-]).
    pose proof (scan_string_length _ _ _ Ht). cbn [length]. split; [lia|].
    intros [|m] Hm; [lia|]. cbn [scan_once]. by rewrite E1, Ht. }
  destruct (c =? 123) eqn:E2.
  { destruct (accept [125] (skip_ws s)) as [r2|] eqn:Ea.
    - injection H as <- <-. pose proof (accept_length _ _ _ Ea). cbn [length] in *.
      split; [lia|]. intros [|m] Hm; [lia|]. cbn [scan_once]. by rewrite E1, E2, Ea.
    - apply option_bind_Some in H as ([l r4] & He & [= <- <-]). apply IHm in He as [Hl2 He].
      cbn [length]. split; [lia|]. intros [|m] Hm; [lia|]. cbn [scan_once].
      rewrite E1, E2, Ea, He by lia. done. }
  destruct (c =? 91) eqn:E3.
  { destruct (accept [93] (skip_ws s)) as [r2|] eqn:Ea.
    - injection H as <- <-. pose proof (accept_length _ _ _ Ea). cbn [length] in *.
      split; [lia|]. intros [|m] Hm; [lia|]. cbn [scan_once]. by rewrite E1, E2, E3, Ea.
    - apply option_bind_Some in H as ([l r4] & He & [= <- <-]). apply IHe in He as [Hl2 He].
      cbn [length]. split; [lia|]. intros [|m] Hm; [lia|]. cbn [scan_once].
      rewrite E1, E2, E3, Ea, He by lia. done. }
  assert (length r < length (c :: s))%nat as Hlen.
  { clear E1 E2 E3. repeat match type of H with match ?x with _ => _ end = _ => destruct x eqn:?E end;
      try (by apply scan_number_length in H); injection H as <- <-;
      match goal with E : accept _ _ = Some _ |- _ => apply accept_length in E end;
      match goal with E : length _ = (length ?w + _)%nat |- _ =>
        let n := eval vm_compute in (length w) in change (length w) with n in E end; lia. }
  split; [done|]. intros [|m] Hm; [lia|]. cbn [scan_once]. by rewrite E1, E2, E3.
Qed.

Lemma scan_fuel n : consumes n scan_once ∧ consumes n scan_elems ∧ consumes n scan_members.
Proof.
  induction n as [|n (IHo & IHe & IHm)]; [by split_and!; intros ???|].
  split_and!; auto using scan_once_fuel, scan_elems_fuel, scan_members_fuel.
Qed.

(** [loads] accepts what the scanner accepts with any fuel. *)
Lemma loads_fuel n s j r : startswith s [65279] = false →
  scan_once n (skip_ws s) = Some (j, r) → skip_ws r = [] → loads s = Some j.
Proof.
  intros Hb H Hr. apply scan_fuel in H as [_ H]. unfold loads. rewrite Hb.
  rewrite H by lia. cbn [mbind option_bind]. by rewrite Hr.
Qed.

(** ** Properties *)

(** C39: [canonical_jwk] is a faithful name for a key: two JWK values have the
    same canonical text exactly when they are equal as dictionaries, whatever
    the order of their members (at every depth). *)
Theorem canonical_jwk_spec a b : json_wf a = true → json_wf b = true →
  canonical_jwk a = canonical_jwk b ↔ json_eqb a b = true.
Proof. apply canonical_jwk_eqb. Qed.

Lemma canonical_jwk_spec_witness :
  canonical_jwk (JObj [(u "kty", JStr (u "RSA")); (u "e", JStr (u "AQAB"))])
  = canonical_jwk (JObj [(u "e", JStr (u "AQAB")); (u "kty", JStr (u "RSA"))]).
Proof. apply canonical_jwk_spec; vm_compute; reflexivity. Defined.
