(* ===== verification/Config.v ===== *)
(** * Configuration and constants

    The settings of [config.py] with the properties computed from them, and
    the error-type constants of [acme_errors.py].  The environment parser
    (pydantic-settings) is not modelled: a value of [Settings] is what it
    produced. *)
From S2P Require Import Prelude PyStr.

(** [config.Settings]. *)
Record Settings := mk_Settings {
  dns_provider : str;
  relay_domain : str;
  acme_email : str;
  le_directory : str;
  dns_propagation_wait : Z;
  database_url : str;
  le_account_key_path : str;
  ssl_dir : str;
  nonce_ttl : Z;
  nonce_max : Z;
  log_level : str;
  serve_tls : bool;
  allowed_domains : str;
  le_verify_ssl : bool;
  challenge_http_port : Z;
  challenge_timeout : Z;
  challenge_retries : Z;
  challenge_retry_delay : Z;
  dns_zone_overrides : str;
  order_rate_limit : Z;
  order_rate_window : Z;
}.

(** The declared defaults; the first three fields are required. *)
Definition Settings_defaults (dns_provider relay_domain acme_email : str) : Settings := {|
  dns_provider := dns_provider; relay_domain := relay_domain; acme_email := acme_email;
  le_directory := u "https://acme-v02.api.letsencrypt.org/directory";
  dns_propagation_wait := 30;
  database_url := u "sqlite+aiosqlite:////data/relay.db";
  le_account_key_path := u "/data/le_account.key";
  ssl_dir := u "/data/ssl";
  nonce_ttl := 600;
  nonce_max := 10000;
  log_level := u "INFO";
  serve_tls := true;
  allowed_domains := [];
  le_verify_ssl := true;
  challenge_http_port := 80;
  challenge_timeout := 5;
  challenge_retries := 3;
  challenge_retry_delay := 2;
  dns_zone_overrides := [];
  order_rate_limit := 0;
  order_rate_window := 604800 |}.

Definition relay_base_url (s : Settings) : str :=
  if startswith (relay_domain s) (u "http://") || startswith (relay_domain s) (u "https://")
  then rstrip (relay_domain s) (u "/")
  else u "https://" ++ relay_domain s.

(** Truth value of a [str]. *)
Definition truthy (s : str) : bool := bool_decide (s ≠ []).

Definition allowed_domain_list (s : Settings) : list str :=
  if negb (truthy (allowed_domains s)) then []
  else strip <$> filter (λ d, truthy (strip d) = true) (split 44 (allowed_domains s)).

Definition dns_zone_override_list (s : Settings) : list str :=
  if negb (truthy (dns_zone_overrides s)) then []
  else (λ z, rstrip (strip z) (u ".")) <$>
       filter (λ z, truthy (strip z) = true) (split 44 (dns_zone_overrides s)).

(** ** [acme_errors.py] *)

Definition acme_prefix : str := u "urn:ietf:params:acme:error:".
Definition ACCOUNT_DOES_NOT_EXIST : str := acme_prefix ++ u "accountDoesNotExist".
Definition CONNECTION : str := acme_prefix ++ u "connection".
Definition DNS : str := acme_prefix ++ u "dns".
Definition MALFORMED : str := acme_prefix ++ u "malformed".
Definition ORDER_NOT_READY : str := acme_prefix ++ u "orderNotReady".
Definition RATE_LIMITED : str := acme_prefix ++ u "rateLimited".
Definition REJECTED_IDENTIFIER : str := acme_prefix ++ u "rejectedIdentifier".
Definition SERVER_INTERNAL : str := acme_prefix ++ u "serverInternal".
Definition UNAUTHORIZED : str := acme_prefix ++ u "unauthorized".

(** ** The computed properties *)

Lemma truthy_true s : truthy s = true ↔ s ≠ [].
Proof. apply bool_decide_eq_true. Qed.

(** No white space at either end. *)
Definition trimmed (s : str) : Prop :=
  (∀ c, head s = Some c → is_space c = false) ∧ (∀ c, last s = Some c → is_space c = false).

Lemma lstrip_by_all f p : Forall (λ c, f c = true) p → lstrip_by f p = [].
Proof. intros H. rewrite <- (app_nil_r p), lstrip_by_app_all by done. done. Qed.

Lemma strip_padded p d q :
  Forall (λ c, is_space c = true) p → Forall (λ c, is_space c = true) q → trimmed d →
  strip (p ++ d ++ q) = d.
Proof.
  intros Hp Hq [Hh Hl]. unfold strip. rewrite lstrip_by_app_all by done.
  destruct d as [|c d]; [by cbn [app]; rewrite lstrip_by_all|].
  cbn [app lstrip_by]. rewrite (Hh c) by done.
  rewrite (app_comm_cons d q c), rstrip_by_app_all by done. by apply rstrip_by_id.
Qed.

(** One entry of a comma-separated setting: padding, text, padding. *)
Definition padded (w : str * str * str) : str := let '(p, d, q) := w in p ++ d ++ q.
Definition entry_ok (w : str * str * str) : Prop :=
  let '(p, d, q) := w in
  Forall (λ c, is_space c = true) p ∧ Forall (λ c, is_space c = true) q ∧ trimmed d ∧ 44 ∉ d.

Lemma padded_no_comma w : entry_ok w → 44 ∉ padded w.
Proof.
  destruct w as [[p d] q]. cbn. intros (Hp & Hq & _ & Hd).
  rewrite Forall_forall in Hp, Hq. rewrite !elem_of_app.
  intros [H|[H|H]]; [by apply Hp in H|done|by apply Hq in H].
Qed.

Lemma filter_padded ws : Forall entry_ok ws →
  strip <$> filter (λ d, truthy (strip d) = true) (padded <$> ws)
  = filter (λ d, truthy d = true) (ws.*1.*2).
Proof.
  induction 1 as [|[[p d] q] ws (Hp & Hq & Ht & _) _ IH]; [done|].
  cbn [fmap list_fmap fst snd padded]. rewrite !filter_cons.
  rewrite strip_padded by done. case_decide; [|done]. cbn [fmap list_fmap].
  by rewrite strip_padded, IH.
Qed.

Lemma split_setting ws : Forall entry_ok ws → ws ≠ [] →
  split 44 (join [44] (padded <$> ws)) = padded <$> ws.
Proof.
  intros H Hne. apply split_join; [by destruct ws|].
  apply Forall_fmap. eapply Forall_impl; [done|]. apply padded_no_comma.
Qed.

Lemma allowed_domain_list_entries s ws : Forall entry_ok ws → ws ≠ [] →
  allowed_domains s = join [44] (padded <$> ws) →
  allowed_domain_list s = filter (λ d, truthy d = true) (ws.*1.*2).
Proof.
  intros Hws Hne E. unfold allowed_domain_list. rewrite <- filter_padded by done.
  rewrite <- split_setting, <- E by done.
  destruct (truthy (allowed_domains s)) eqn:Ht; cbn [negb]; [done|].
  apply bool_decide_eq_false, dec_stable in Ht. by rewrite Ht.
Qed.

(** ** Domain names under a base domain *)

(** [v == base or v.endswith("." + base)]. *)
Definition under_domain (v base : str) : bool :=
  bool_decide (v = base) || endswith v (u "." ++ base).

(** The labels of [base] are the last labels of [v]. *)
Lemma under_domain_labels v base :
  under_domain v base = true ↔ split 46 base `suffix_of` split 46 v.
Proof.
  unfold under_domain. rewrite orb_true_iff, bool_decide_eq_true.
  apply suffix_pieces.
Qed.

(** ** Properties *)

(** [allowed_domain_list] reads back any list of comma-free, trimmed
    entries from a comma-separated setting, whatever white space pads them,
    and drops the empty ones. *)
Theorem allowed_domain_list_parses s ws : Forall entry_ok ws → ws ≠ [] →
  allowed_domains s = join [44] (padded <$> ws) →
  allowed_domain_list s = filter (λ d, truthy d = true) (ws.*1.*2).
Proof. apply allowed_domain_list_entries. Qed.

Lemma allowed_domain_list_parses_witness :
  let ws := [(u " ", u "a.com", []); ([], [], u "  "); ([], u "b.org", u " ")] in
  ∃ s, allowed_domains s = u " a.com,  ,b.org " ∧ allowed_domain_list s = [u "a.com"; u "b.org"].
Proof.
  set (s := Settings_defaults (u "null") (u "r") (u "e")).
  exists {| dns_provider := dns_provider s; relay_domain := relay_domain s;
    acme_email := acme_email s; le_directory := le_directory s;
    dns_propagation_wait := dns_propagation_wait s; database_url := database_url s;
    le_account_key_path := le_account_key_path s; ssl_dir := ssl_dir s;
    nonce_ttl := nonce_ttl s; nonce_max := nonce_max s; log_level := log_level s;
    serve_tls := serve_tls s; allowed_domains := u " a.com,  ,b.org ";
    le_verify_ssl := le_verify_ssl s; challenge_http_port := challenge_http_port s;
    challenge_timeout := challenge_timeout s; challenge_retries := challenge_retries s;
    challenge_retry_delay := challenge_retry_delay s;
    dns_zone_overrides := dns_zone_overrides s; order_rate_limit := order_rate_limit s;
    order_rate_window := order_rate_window s |}.
  split; [reflexivity|].
  apply (allowed_domain_list_parses _
    [(u " ", u "a.com", []); ([], [], u "  "); ([], u "b.org", u " ")]);
    [|done|reflexivity].
  repeat apply Forall_cons_2; try apply Forall_nil_2;
    (split_and!; [apply (bool_decide_eq_true_1 _); reflexivity
                 |apply (bool_decide_eq_true_1 _); reflexivity
                 |split; intros c Hc; vm_compute in Hc;
                   first [discriminate Hc | injection Hc as <-; reflexivity]
                 |apply (bool_decide_eq_true_1 _); reflexivity]).
Defined.
