(* ===== verification/External.v ===== *)
(** * Code the program calls and does not contain

    josepy (JWK parsing, thumbprints, signature verification), cryptography
    (X.509), pydantic's boolean coercion, SHA-256, and two tables of Python
    itself (printable code points, the shortest text of a float) are operations
    of a type class: every definition that reaches them takes an instance.
    [toy] is the concrete instance the witnesses use. *)
From S2P Require Import Prelude PyStr Json.

(** The parts of an [x509.Certificate] the program reads; [not_valid_after]
    is in microseconds since the epoch (naive UTC). *)
Record x509cert := mk_x509cert { serial_number : Z; not_valid_after : Z }.

Class Ext := {
  isprintable : Z → bool;              (** [str.isprintable], beyond ASCII *)
  float_repr : str → str;              (** [repr(float(text))] *)
  float_truthy : str → bool;           (** [bool(float(text))] *)
  pydantic_bool : json → option bool;  (** lax [bool] field; [None] rejects *)
  jwk : Type;
  jwk_from_json : json → option jwk;   (** [JWK.from_json]; [None] raises *)
  jwk_thumbprint : jwk → bytes;        (** [thumbprint()], the raw digest *)
  jwa_verify : str → jwk → bytes → bytes → option bool;
      (** [ALG_MAP[alg].verify(jwk.public_key().key, msg, sig)]; [None] raises *)
  load_pem_x509_certificate : bytes → option x509cert;
  load_der_x509_certificate : bytes → option x509cert;
  csr_der_to_pem : bytes → option bytes;
      (** [load_der_x509_csr(der).public_bytes(Encoding.PEM)]; [None] raises *)
  package_version : option str
      (** [importlib.metadata.version("jackdaw")]; [None] raises *)
}.

(** What the program relies on: a thumbprint is a string of octets. *)
Class ExtLaws `{Ext} := {
  thumbprint_octets : ∀ k, Forall is_octet (jwk_thumbprint k)
}.

(** ** A concrete instance *)

Definition toy_bool (j : json) : option bool :=
  match j with JBool b => Some b | _ => None end.
Definition toy_jwk (j : json) : option json := match j with JObj _ => Some j | _ => None end.
Definition toy_thumbprint (k : json) : bytes := (λ c, c mod 256) <$> last_n 8 (canonical_jwk k).
(** A signature is valid when it is the last three octets of the message. *)
Definition toy_verify (alg : str) (k : json) (msg sig : bytes) : option bool :=
  Some (bool_decide (sig = last_n 3 msg)).

Definition toy : Ext := {|
  isprintable := λ c, 160 <? c;
  float_repr := λ t, t;
  float_truthy := λ t, negb (forallb (λ c, (c =? 48) || (c =? 46)) t);
  pydantic_bool := toy_bool;
  jwk := json;
  jwk_from_json := toy_jwk;
  jwk_thumbprint := toy_thumbprint;
  jwa_verify := toy_verify;
  load_pem_x509_certificate := λ b, Some (mk_x509cert 255 0);
  load_der_x509_certificate := λ b, Some (mk_x509cert 255 0);
  csr_der_to_pem := λ b, Some b;
  package_version := None |}.

Lemma toy_laws : @ExtLaws toy.
Proof.
  constructor. intros k. unfold jwk_thumbprint; cbn. unfold toy_thumbprint.
  apply Forall_fmap, Forall_true. intros c. unfold is_octet; cbn.
  pose proof (Z.mod_pos_bound c 256). lia.
Qed.
