(* ===== verification/PyStd.v ===== *)
(** * Python's standard library: text encodings, [repr], timestamps

    [json.loads] on bytes (encoding detection and the UTF codecs with
    [surrogatepass]), [repr] and formatting of JSON values, and the RFC 3339
    text of a timestamp. *)
From S2P Require Import Prelude PyStr Json External.

(** ** UTF-8, UTF-16, UTF-32 *)

Definition is_cont (b : Z) : bool := (128 <=? b) && (b <? 192).
Definition is_surrogate (c : Z) : bool := (55296 <=? c) && (c <=? 57343).

(** [bytes.decode('utf-8')], with the [surrogatepass] handler when [pass]. *)
Fixpoint utf8_decode (pass : bool) (b : bytes) : option str :=
  match b with
  | [] => Some []
  | b0 :: r =>
      if b0 <? 128 then cons b0 <$> utf8_decode pass r
      else if b0 <? 194 then None
      else match r with
      | [] => None
      | b1 :: r1 =>
          if negb (is_cont b1) then None
          else if b0 <? 224 then cons ((b0 - 192) * 64 + (b1 - 128)) <$> utf8_decode pass r1
          else match r1 with
          | [] => None
          | b2 :: r2 =>
              if negb (is_cont b2) then None
              else if b0 <? 240 then
                let c := (b0 - 224) * 4096 + (b1 - 128) * 64 + (b2 - 128) in
                if (c <? 2048) || (negb pass && is_surrogate c) then None
                else cons c <$> utf8_decode pass r2
              else match r2 with
              | [] => None
              | b3 :: r3 =>
                  if negb (is_cont b3) then None
                  else
                    let c := (b0 - 240) * 262144 + (b1 - 128) * 4096 + (b2 - 128) * 64 + (b3 - 128) in
                    if (c <? 65536) || (1114111 <? c) then None
                    else cons c <$> utf8_decode pass r3
              end
          end
      end
  end.

(** [str.encode()]: UTF-8, [None] on a lone surrogate. *)
Definition utf8_char (c : Z) : option bytes :=
  if c <? 128 then Some [c]
  else if c <? 2048 then Some [192 + c / 64; 128 + c mod 64]
  else if c <? 65536 then
    if is_surrogate c then None
    else Some [224 + c / 4096; 128 + c / 64 mod 64; 128 + c mod 64]
  else Some [240 + c / 262144; 128 + c / 4096 mod 64; 128 + c / 64 mod 64; 128 + c mod 64].
Definition utf8_encode (s : str) : option bytes := @concat Z <$> mapM utf8_char s.

(** What [str.encode] writes, [bytes.decode] reads back. *)
Section utf8.
#[local] Ltac Zify.zify_post_hook ::= Z.to_euclidean_division_equations.
Lemma utf8_char_spec c : is_scalar c = true → ∃ bs, utf8_char c = Some bs ∧ Forall is_octet bs ∧
  ∀ pass r, utf8_decode pass (bs ++ r) = cons c <$> utf8_decode pass r.
Proof.
  intros Hc. unfold is_scalar in Hc. unfold utf8_char, is_octet, is_surrogate.
  apply andb_true_iff in Hc as [[Hc0 Hc1]%andb_true_iff Hs%negb_true_iff]. rewrite Hs.
  repeat case_match; eexists; (split; [done|]); bool_to_prop;
    (split; [repeat constructor; lia|intros pass r; cbn [app utf8_decode]]); unfold is_cont, is_surrogate.
  all: repeat (case_match; bool_to_prop; try lia); try (by repeat f_equal; lia).
Qed.
End utf8.
Lemma utf8_roundtrip s : forallb is_scalar s = true →
  ∃ bs, utf8_encode s = Some bs ∧ Forall is_octet bs ∧
    ∀ pass r, utf8_decode pass (bs ++ r) = app s <$> utf8_decode pass r.
Proof.
  unfold utf8_encode. induction s as [|c s IH]; cbn [forallb].
  - exists []. split_and!; [done|constructor|]. intros pass r. change ([] ++ r) with r. by destruct (utf8_decode pass r).
  - intros [(cs & Hc & Ho & Hd)%utf8_char_spec (bs & Hb & Hbo & Hbd)%IH]%andb_true_iff.
    destruct (mapM utf8_char s) as [l|] eqn:El; [|done]. injection Hb as Hb.
    exists (cs ++ bs). split_and!; [|by apply Forall_app|].
    + cbn. rewrite Hc. cbn. rewrite El. cbn. by rewrite Hb.
    + intros pass r. rewrite <- (assoc_L (++)), Hd, Hbd. by destruct (utf8_decode pass r).
Qed.
Lemma utf8_decode_encode s bs : forallb is_scalar s = true → utf8_encode s = Some bs → utf8_decode false bs = Some s.
Proof.
  intros (bs' & E & _ & Hd)%utf8_roundtrip Eb. rewrite Eb in E. injection E as <-.
  specialize (Hd false []). rewrite !app_nil_r in Hd. rewrite Hd. cbn. by rewrite app_nil_r.
Qed.

(** [str.encode("ascii")]. *)
Definition ascii_encode (s : str) : option bytes :=
  if forallb (λ c, c <? 128) s then Some s else None.

(** 16-bit units, then code points; [surrogatepass] keeps a lone surrogate. *)
Fixpoint units16 (big : bool) (b : bytes) : option (list Z) :=
  match b with
  | [] => Some []
  | x :: y :: r => cons (if big then x * 256 + y else y * 256 + x) <$> units16 big r
  | _ => None
  end.
Fixpoint join_surrogates (us : list Z) : str :=
  match us with
  | [] => []
  | h :: r =>
      match r with
      | l :: r' =>
          if is_high_surrogate h && is_low_surrogate l
          then 65536 + (h - 55296) * 1024 + (l - 56320) :: join_surrogates r'
          else h :: join_surrogates r
      | [] => [h]
      end
  end.
Definition utf16_decode (big : bool) (b : bytes) : option str :=
  join_surrogates <$> units16 big b.

Fixpoint utf32_decode (big : bool) (b : bytes) : option str :=
  match b with
  | [] => Some []
  | w :: x :: y :: z :: r =>
      let c := if big then ((w * 256 + x) * 256 + y) * 256 + z
               else ((z * 256 + y) * 256 + x) * 256 + w in
      if 1114111 <? c then None else cons c <$> utf32_decode big r
  | _ => None
  end.

(** [b.decode(json.detect_encoding(b), 'surrogatepass')]. *)
Definition json_decode_bytes (b : bytes) : option str :=
  if startswith b [0; 0; 254; 255] then utf32_decode true (drop 4 b)
  else if startswith b [255; 254; 0; 0] then utf32_decode false (drop 4 b)
  else if startswith b [254; 255] then utf16_decode true (drop 2 b)
  else if startswith b [255; 254] then utf16_decode false (drop 2 b)
  else if startswith b [239; 187; 191] then utf8_decode true (drop 3 b)
  else match b with
  | b0 :: b1 :: b2 :: b3 :: _ =>
      if b0 =? 0 then if b1 =? 0 then utf32_decode true b else utf16_decode true b
      else if b1 =? 0 then
        if (b2 =? 0) && (b3 =? 0) then utf32_decode false b else utf16_decode false b
      else utf8_decode true b
  | [b0; b1] =>
      if b0 =? 0 then utf16_decode true b
      else if b1 =? 0 then utf16_decode false b else utf8_decode true b
  | _ => utf8_decode true b
  end.

(** [json.loads(b)] on [bytes]. *)
Definition loads_bytes (b : bytes) : option json := json_decode_bytes b ≫= loads.

(** ** [repr] *)

Definition hex_pad (n : nat) (c : Z) : str :=
  (λ i, hex_digit (Z.shiftr c (4 * Z.of_nat i) mod 16)) <$> reverse (seq 0 n).

(** [format(n, "x")] for a non-negative [n]. *)
Fixpoint hex_digits (fuel : nat) (n : Z) : str :=
  match fuel with
  | O => []
  | S fuel => if n <? 16 then [hex_digit n] else hex_digits fuel (n / 16) ++ [hex_digit (n mod 16)]
  end.
Definition format_hex (n : Z) : str :=
  if n <? 0 then 45 :: hex_digits (S (Z.to_nat (Z.log2 (- n)))) (- n)
  else hex_digits (S (Z.to_nat (Z.log2 n))) n.

Section repr.
Context `{Ext}.

Definition repr_char (quote c : Z) : str :=
  if (c =? quote) || (c =? 92) then [92; c]
  else if c =? 9 then [92; 116] else if c =? 10 then [92; 110] else if c =? 13 then [92; 114]
  else if (c <? 32) || (c =? 127) then u "\x" ++ hex_pad 2 c
  else if (c <? 127) || isprintable c then [c]
  else if c <? 256 then u "\x" ++ hex_pad 2 c
  else if c <? 65536 then u "\u" ++ hex_pad 4 c
  else u "\U" ++ hex_pad 8 c.

Definition repr_str (s : str) : str :=
  let quote := if bool_decide (39 ∈ s) && negb (bool_decide (34 ∈ s)) then 34 else 39 in
  [quote] ++ (s ≫= repr_char quote) ++ [quote].

Fixpoint py_repr (j : json) : str :=
  match j with
  | JNull => u "None"
  | JBool true => u "True"
  | JBool false => u "False"
  | JInt n => str_of_int n
  | JFloat t => float_repr t
  | JStr s => repr_str s
  | JArr l => u "[" ++ join (u ", ") (py_repr <$> l) ++ u "]"
  | JObj kvs =>
      u "{" ++ join (u ", ") ((λ kv, repr_str kv.1 ++ u ": " ++ py_repr kv.2) <$> kvs) ++ u "}"
  end.

(** [f"{j}"]. *)
Definition py_format (j : json) : str := match j with JStr s => s | _ => py_repr j end.
End repr.

(** ** Timestamps *)

(** [str(n).zfill(w)] for a non-negative [n]. *)
Definition zfill (w : nat) (n : Z) : str :=
  let s := str_of_nonneg n in replicate (w - length s) 48 ++ s.

(** Year, month and day of a day count from 1970-01-01 (proleptic Gregorian). *)
Definition civil_of_days (z : Z) : Z * Z * Z :=
  let z := z + 719468 in
  let era := z / 146097 in
  let doe := z mod 146097 in
  let yoe := (doe - doe / 1460 + doe / 36524 - doe / 146096) / 365 in
  let doy := doe - (365 * yoe + yoe / 4 - yoe / 100) in
  let mp := (5 * doy + 2) / 153 in
  let d := doy - (153 * mp + 2) / 5 + 1 in
  let m := if mp <? 10 then mp + 3 else mp - 9 in
  (yoe + era * 400 + (if m <=? 2 then 1 else 0), m, d).

(** [datetime.isoformat()] of a UTC timestamp in microseconds since the epoch. *)
Definition isoformat_utc (t : Z) : str :=
  let us := t mod 1000000 in
  let s := t / 1000000 in
  let '(y, m, d) := civil_of_days (s / 86400) in
  let sod := s mod 86400 in
  zfill 4 y ++ u "-" ++ zfill 2 m ++ u "-" ++ zfill 2 d ++ u "T" ++
  zfill 2 (sod / 3600) ++ u ":" ++ zfill 2 (sod / 60 mod 60) ++ u ":" ++ zfill 2 (sod mod 60) ++
  (if us =? 0 then [] else u "." ++ zfill 6 us) ++ u "+00:00".

(** [timedelta(seconds=n)] and [timedelta(days=n)]. *)
Definition seconds (n : Z) : Z := n * 1000000.
Definition days (n : Z) : Z := n * 86400000000.

Example isoformat_ex : isoformat_utc 1709251199000042 = u "2024-02-29T23:59:59.000042+00:00".
Proof. vm_compute. reflexivity. Qed.
Example loads_bytes_ex :
  loads_bytes ([34; 195; 169; 34]) = Some (JStr [233]) ∧
  loads_bytes [34; 0; 65; 0; 34; 0] = Some (JStr [65]).
Proof. vm_compute. done. Qed.
Example repr_ex : @py_repr toy (JArr [JStr (u "a'b"); JBool true; JStr [8; 9; 200; 130]])
  = u' "['a" ++ [39] ++ u' "b', True, " ++ [39] ++ u "\x08\t" ++ [200] ++ u "\x82" ++ [39] ++ u "]".
Proof. vm_compute. reflexivity. Qed.
