(* ===== verification/Sha256.v ===== *)
(** * SHA-256 and HMAC: Python's [hashlib] and [hmac]

    The digest and the keyed digest the DNS-01 record values and the Route 53
    request signatures are made of, on lists of octets, with 32-bit words as
    integers reduced modulo [2 ^ 32].  The constants are computed from their
    definition: the fractional parts of square and cube roots of primes. *)
From S2P Require Import Prelude PyStr Json PyStd.

(** ** Words *)

Definition word (x : Z) : Z := Z.land x (Z.ones 32).
Definition rotr (n x : Z) : Z := word (Z.lor (Z.shiftr x n) (Z.shiftl x (32 - n))).
Definition choose (x y z : Z) : Z := Z.lxor (Z.land x y) (Z.land (Z.lxor x (Z.ones 32)) z).
Definition majority (x y z : Z) : Z := Z.lxor (Z.lxor (Z.land x y) (Z.land x z)) (Z.land y z).
Definition big_sigma (a b c x : Z) : Z := Z.lxor (Z.lxor (rotr a x) (rotr b x)) (rotr c x).
Definition small_sigma (a b c x : Z) : Z := Z.lxor (Z.lxor (rotr a x) (rotr b x)) (Z.shiftr x c).

(** The [n] low octets of [x], most significant first. *)
Definition octets (n : nat) (x : Z) : bytes :=
  (λ i, Z.land (Z.shiftr x (8 * Z.of_nat i)) 255) <$> reverse (seq 0 n).
Fixpoint words (bs : bytes) : list Z :=
  match bs with
  | a :: b :: c :: d :: r => ((a * 256 + b) * 256 + c) * 256 + d :: words r
  | _ => []
  end.

(** ** Constants *)

(** The greatest [r] below [2 ^ bits] with [r ^ k <= x]. *)
Fixpoint root_from (k x : Z) (bits : nat) (r : Z) : Z :=
  match bits with
  | O => r
  | S b =>
      let r' := r + 2 ^ Z.of_nat b in
      root_from k x b (if r' ^ k <=? x then r' else r)
  end.
Definition fraction_of_root (k p : Z) : Z := word (root_from k (p * 2 ^ (32 * k)) 40 0).

Definition is_prime (n : Z) : bool :=
  forallb (λ d, negb (n mod d =? 0)) (seqZ 2 (Z.sqrt n - 1)).
Definition primes : list Z := Eval vm_compute in filter (λ n, is_prime n = true) (seqZ 2 310).
Definition round_constants : list Z := Eval vm_compute in fraction_of_root 3 <$> primes.
Definition initial_hash : list Z := Eval vm_compute in fraction_of_root 2 <$> take 8 primes.

(** ** The compression function *)

(** The words of the schedule so far, newest first, and [n] more. *)
Fixpoint schedule (n : nat) (ws : list Z) : list Z :=
  match n with
  | O => reverse ws
  | S n =>
      let at_ i := nth i ws 0 in
      schedule n (word (small_sigma 17 19 10 (at_ 1%nat) + at_ 6%nat +
                        small_sigma 7 18 3 (at_ 14%nat) + at_ 15%nat) :: ws)
  end.

Definition one_round (st : list Z) (kw : Z * Z) : list Z :=
  match st with
  | [a; b; c; d; e; f; g; h] =>
      let t1 := h + big_sigma 6 11 25 e + choose e f g + kw.1 + kw.2 in
      let t2 := big_sigma 2 13 22 a + majority a b c in
      [word (t1 + t2); a; b; c; word (d + t1); e; f; g]
  | _ => st
  end.

Definition compress (h : list Z) (block : bytes) : list Z :=
  let w := schedule 48 (reverse (words block)) in
  zip_with (λ x y, word (x + y)) h (foldl one_round h (zip round_constants w)).

(** ** The digest *)

Definition padding (len : nat) : bytes :=
  [128] ++ replicate ((119 - len mod 64) mod 64) 0 ++ octets 8 (8 * Z.of_nat len).

Fixpoint chunks (n : nat) (bs : bytes) : list bytes :=
  match n with O => [] | S n => take 64 bs :: chunks n (drop 64 bs) end.
Definition blocks (msg : bytes) : list bytes :=
  let m := msg ++ padding (length msg) in chunks (length m / 64) m.

(** [hashlib.sha256(msg).digest()]. *)
Definition sha256 (msg : bytes) : bytes := foldl compress initial_hash (blocks msg) ≫= octets 4.

(** [hmac.new(key, msg, hashlib.sha256).digest()]. *)
Definition hmac_sha256 (key msg : bytes) : bytes :=
  let k := if (64 <? length key)%nat then sha256 key else key in
  let k := k ++ replicate (64 - length k) 0 in
  sha256 ((Z.lxor 92 <$> k) ++ sha256 ((Z.lxor 54 <$> k) ++ msg)).

(** [.hexdigest()]. *)
Definition hexdigest (bs : bytes) : str := bs ≫= hex_pad 2.

(** ** Published values *)

Example round_constants_ex :
  length round_constants = 64%nat ∧ hd 0 round_constants = 1116352408 ∧ last round_constants = Some 3329325298.
Proof. vm_compute. done. Qed.
Example sha256_empty :
  hexdigest (sha256 []) = u "e3b0c44298fc1c149afbf4c8996fb92427ae41e4649b934ca495991b7852b855".
Proof. vm_compute. reflexivity. Qed.
Example sha256_abc :
  hexdigest (sha256 (u "abc")) = u "ba7816bf8f01cfea414140de5dae2223b00361a396177a9cb410ff61f20015ad".
Proof. vm_compute. reflexivity. Qed.
Example sha256_two_blocks :
  hexdigest (sha256 (u "abcdbcdecdefdefgefghfghighijhijkijkljklmklmnlmnomnopnopq"))
  = u "248d6a61d20638b8e5c026930c3e6039a33ce45964ff2167f6ecedd419db06c1".
Proof. vm_compute. reflexivity. Qed.
Example hmac_ex :
  hexdigest (hmac_sha256 (u "Jefe") (u "what do ya want for nothing?"))
  = u "5bdcc146bf60754e6a042426089575c75a003f089d2739839dec58b964ec3843".
Proof. vm_compute. reflexivity. Qed.

(** ** Shape of a digest *)

Lemma octets_octet n x : Forall is_octet (octets n x).
Proof.
  apply Forall_fmap, Forall_true. intros i. unfold is_octet; cbn.
  pose proof (land_mask (Z.shiftr x (8 * Z.of_nat i)) 8 ltac:(lia)) as E.
  change (2 ^ 8 - 1) with 255 in E. rewrite E. apply Z.mod_pos_bound. lia.
Qed.
Lemma length_octets n x : length (octets n x) = n.
Proof. unfold octets. by rewrite length_fmap, length_reverse, length_seq. Qed.

Lemma length_one_round st kw : length (one_round st kw) = length st.
Proof. unfold one_round. by repeat case_match. Qed.
Lemma length_rounds l st : length (foldl one_round st l) = length st.
Proof. revert st. induction l as [|x l IH]; intros st; [done|]. cbn. rewrite IH. apply length_one_round. Qed.
Lemma length_compress h block : length (compress h block) = length h.
Proof. unfold compress. rewrite length_zip_with, length_rounds. lia. Qed.
Lemma length_hash bs h : length (foldl compress h bs) = length h.
Proof. revert h. induction bs as [|b bs IH]; intros h; [done|]. cbn. rewrite IH. apply length_compress. Qed.

Lemma length_sha256 msg : length (sha256 msg) = 32%nat.
Proof.
  unfold sha256. pose proof (length_hash (blocks msg) initial_hash) as Hl.
  change (length initial_hash) with 8%nat in Hl. revert Hl. generalize (foldl compress initial_hash (blocks msg)).
  intros l Hl. do 9 (destruct l as [|? l]; [try discriminate Hl|]); [|discriminate Hl].
  cbn [mbind list_bind]. rewrite !length_app, !length_octets. reflexivity.
Qed.
Lemma sha256_octets msg : Forall is_octet (sha256 msg).
Proof. unfold sha256. apply Forall_bind, Forall_true. intros x. apply octets_octet. Qed.

(** The padded message is a whole number of blocks. *)
Lemma padded_length msg : (length (msg ++ padding (length msg)) mod 64 = 0)%nat.
Proof.
  unfold padding. rewrite !length_app, length_replicate, length_octets. cbn [length].
  set (n := length msg).
  pose proof (Nat.div_mod_eq n 64) as Hn. pose proof (Nat.mod_upper_bound n 64 ltac:(lia)) as Hb.
  pose proof (Nat.div_mod_eq (119 - n mod 64) 64) as Hm.
  pose proof (Nat.mod_upper_bound (119 - n mod 64) 64 ltac:(lia)) as Hc.
  replace (n + (1 + ((119 - n mod 64) mod 64 + 8)))%nat
    with (64 * (n / 64 + 2 - (119 - n mod 64) / 64))%nat by lia.
  rewrite Nat.mul_comm. apply Nat.Div0.mod_mul.
Qed.
