(* ===== verification/Xml.v ===== *)
(** * XML: [xml.etree.ElementTree] and [xml.sax.saxutils]

    Element trees with the searches the providers make, the parser (expat, a C
    library) as a parameter, the escaping of character data, and a reader of
    character data and tags that the request bodies are compared with. *)
From S2P Require Import Prelude PyStr.

(** ** Trees *)

Inductive element := Element (tag : str) (attrib : list (str * str)) (text : option str) (children : list element).
Definition e_tag (e : element) : str := match e with Element t _ _ _ => t end.
Definition e_attrib (e : element) : list (str * str) := match e with Element _ a _ _ => a end.
Definition e_text (e : element) : option str := match e with Element _ _ t _ => t end.
Definition e_children (e : element) : list element := match e with Element _ _ _ c => c end.

(** [ElementTree.fromstring]; [None] raises [ParseError]. *)
Class XmlParser := { fromstring : str → option element }.

(** Descendants in document order, the element itself excluded. *)
Fixpoint descendants (e : element) : list element :=
  match e with Element _ _ _ c => c ≫= λ x, x :: descendants x end.
Definition tagged (tag : str) (l : list element) : list element := filter (λ e, e_tag e = tag) l.
(** [root.findall(".//{tag}")], [root.findall(".//{t1}/{t2}")], [e.findall("{tag}")]. *)
Definition findall_deep (tag : str) (root : element) : list element := tagged tag (descendants root).
Definition findall_deep2 (t1 t2 : str) (root : element) : list element :=
  findall_deep t1 root ≫= λ e, tagged t2 (e_children e).
(** [e.get(key)], [e.get(key, dflt)]. *)
Fixpoint assoc_get (key : str) (l : list (str * str)) : option str :=
  match l with [] => None | (k, v) :: l => if decide (k = key) then Some v else assoc_get key l end.
Definition attr (key : str) (e : element) : option str := assoc_get key (e_attrib e).
Definition attr_default (key dflt : str) (e : element) : str := default dflt (attr key e).
(** [f"{{{ns}}}name"]. *)
Definition qualified (ns name : str) : str := u "{" ++ ns ++ u "}" ++ name.

(** ** Escaping *)

(** [saxutils.escape]. *)
Definition escape (s : str) : str :=
  replace_char 62 (u "&gt;") (replace_char 60 (u "&lt;") (replace_char 38 (u "&amp;") s)).

(** ** Reading back *)

(** Character data with the five predefined entities ([None]: another
    reference, or a bare ["&"]). *)
Definition entity (name : str) : option Z :=
  if decide (name = u "amp") then Some 38 else if decide (name = u "lt") then Some 60
  else if decide (name = u "gt") then Some 62 else if decide (name = u "quot") then Some 34
  else if decide (name = u "apos") then Some 39 else None.
(** [pending] is the reference being read, reversed. *)
Fixpoint unescape_from (pending : option str) (s : str) : option str :=
  match s, pending with
  | [], None => Some []
  | [], Some _ => None
  | c :: s, None => if c =? 38 then unescape_from (Some []) s else cons c <$> unescape_from None s
  | c :: s, Some p =>
      if c =? 59 then c' ← entity (reverse p); cons c' <$> unescape_from None s
      else unescape_from (Some (c :: p)) s
  end.
Definition unescape (s : str) : option str := unescape_from None s.

(** The markup of a document without comments and CDATA sections: tags (the text
    between the angle brackets) and character data.  [inside] is the tag being
    read, [acc] what was read of the current item, reversed. *)
Inductive token := Tag (s : str) | Chars (s : str).
Definition flush_chars (acc : str) (rest : list token) : option (list token) :=
  match acc with
  | [] => Some rest
  | _ => t ← unescape (reverse acc); Some (Chars t :: rest)
  end.
Fixpoint tokens_from (inside : bool) (acc : str) (s : str) : option (list token) :=
  match s with
  | [] => if inside then None else flush_chars acc []
  | c :: s =>
      if inside then
        if c =? 62 then cons (Tag (reverse acc)) <$> tokens_from false [] s
        else tokens_from true (c :: acc) s
      else if c =? 60 then rest ← tokens_from true [] s; flush_chars acc rest
      else if c =? 62 then None
      else tokens_from false (c :: acc) s
  end.
Definition xml_tokens (s : str) : option (list token) := tokens_from false [] s.

(** ** Lemmas *)

(** The escaped form, character by character. *)
Definition escape_char (c : Z) : str :=
  if c =? 38 then u "&amp;" else if c =? 60 then u "&lt;" else if c =? 62 then u "&gt;" else [c].

Lemma escape_cons c s : escape (c :: s) = escape_char c ++ escape s.
Proof.
  unfold escape, escape_char, replace_char. cbn [mbind list_bind].
  destruct (Z.eqb_spec c 38) as [->|H1]; [by rewrite !bind_app|].
  destruct (Z.eqb_spec c 60) as [->|H2]; [by rewrite !bind_app|]. rewrite !bind_app. cbn [mbind list_bind].
  rewrite (proj2 (Z.eqb_neq c 60)) by done. cbn [app mbind list_bind].
  destruct (c =? 62) eqn:E; by rewrite ?app_nil_r.
Qed.

Lemma unescape_escape_app s t : unescape_from None (escape s ++ t) = app s <$> unescape_from None t.
Proof.
  induction s as [|c s IH]; [change (escape [] ++ t) with t; by destruct (unescape_from None t)|]. rewrite escape_cons, <- (assoc_L (++)).
  unfold escape_char. destruct (Z.eqb_spec c 38) as [->|H1].
  { change (unescape_from None (u "&amp;" ++ escape s ++ t)) with (cons 38 <$> unescape_from None (escape s ++ t)).
    rewrite IH. by destruct (unescape_from None t). }
  destruct (Z.eqb_spec c 60) as [->|H2].
  { change (unescape_from None (u "&lt;" ++ escape s ++ t)) with (cons 60 <$> unescape_from None (escape s ++ t)).
    rewrite IH. by destruct (unescape_from None t). }
  destruct (Z.eqb_spec c 62) as [->|H3].
  { change (unescape_from None (u "&gt;" ++ escape s ++ t)) with (cons 62 <$> unescape_from None (escape s ++ t)).
    rewrite IH. by destruct (unescape_from None t). }
  cbn [app unescape_from]. rewrite (proj2 (Z.eqb_neq c 38)) by done. rewrite IH.
  by destruct (unescape_from None t).
Qed.
Lemma unescape_escape s : unescape (escape s) = Some s.
Proof. pose proof (unescape_escape_app s []) as E. rewrite !app_nil_r in E. unfold unescape. rewrite E. cbn. by rewrite app_nil_r. Qed.

(** Escaped text holds no markup. *)
Lemma escape_no_markup s : Forall (λ c, c ≠ 60 ∧ c ≠ 62) (escape s).
Proof.
  induction s as [|c s IH]; [constructor|]. rewrite escape_cons. apply Forall_app. split; [|done].
  unfold escape_char. repeat case_match; bool_to_prop; repeat constructor; done.
Qed.

(** Reading character data up to a tag, and a tag. *)
Lemma tokens_chars l acc s : Forall (λ c, c ≠ 60 ∧ c ≠ 62) l →
  tokens_from false acc (l ++ s) = tokens_from false (reverse l ++ acc) s.
Proof.
  intros Hl. revert acc. induction Hl as [|c l [H1 H2] _ IH]; intros acc; [done|].
  cbn [app tokens_from]. rewrite (proj2 (Z.eqb_neq c 60)), (proj2 (Z.eqb_neq c 62)) by done.
  by rewrite IH, reverse_cons, <- (assoc_L (++)).
Qed.
Lemma tokens_tag_body l acc s : 62 ∉ l →
  tokens_from true acc (l ++ 62 :: s) = cons (Tag (reverse acc ++ l)) <$> tokens_from false [] s.
Proof.
  revert acc. induction l as [|c l IH]; intros acc Hl; cbn [app tokens_from]; [by rewrite app_nil_r|].
  apply not_elem_of_cons in Hl as [Hc Hl]. rewrite (proj2 (Z.eqb_neq c 62)) by done.
  rewrite IH by done. by rewrite reverse_cons, <- (assoc_L (++)).
Qed.
Lemma tokens_tag tag acc s : 62 ∉ tag →
  tokens_from false acc (60 :: tag ++ 62 :: s) =
  (rest ← xml_tokens s; flush_chars acc (Tag tag :: rest)).
Proof.
  intros Ht. cbn [tokens_from]. change (60 =? 60) with true. cbn iota. rewrite tokens_tag_body by done.
  unfold xml_tokens. by destruct (tokens_from false [] s).
Qed.

(** The token of some character data, none when empty. *)
Definition chars (t : str) : list token := match t with [] => [] | _ => [Chars t] end.

Lemma unescape_from_nonempty p s t : unescape_from (Some p) s = Some t → t ≠ [].
Proof.
  revert p. induction s as [|c s IH]; intros p; [done|]. cbn [unescape_from].
  destruct (c =? 59); [|apply IH]. destruct (entity (reverse p)) as [c'|]; [|done]. cbn.
  destruct (unescape_from None s); [|done]. by intros [= <-].
Qed.
Lemma unescape_nil l : unescape l = Some [] → l = [].
Proof.
  destruct l as [|c l]; [done|]. unfold unescape. cbn [unescape_from].
  destruct (c =? 38); [by intros ?%unescape_from_nonempty|]. by destruct (unescape_from None l).
Qed.

(** Character data up to the next tag. *)
Lemma tokens_text_tag l t tag s :
  Forall (λ c, c ≠ 60 ∧ c ≠ 62) l → unescape l = Some t → 62 ∉ tag →
  xml_tokens (l ++ 60 :: tag ++ 62 :: s) = (λ rest, chars t ++ Tag tag :: rest) <$> xml_tokens s.
Proof.
  intros Hl Ht Htag. unfold xml_tokens at 1. rewrite tokens_chars, app_nil_r by done.
  rewrite tokens_tag by done. destruct (xml_tokens s) as [rest|]; [|done]. cbn [mbind option_bind fmap option_fmap option_map].
  unfold flush_chars. destruct l as [|c l] using rev_ind.
  - by injection Ht as <-.
  - rewrite reverse_snoc. cbn iota. rewrite <- (reverse_snoc l c), reverse_involutive, Ht. cbn.
    destruct t as [|c' t]; [|done]. apply unescape_nil in Ht. by destruct l.
Qed.
(** A tag right after a tag. *)
Lemma tokens_next_tag tag s : 62 ∉ tag →
  xml_tokens (60 :: tag ++ 62 :: s) = cons (Tag tag) <$> xml_tokens s.
Proof. intros Htag. by apply (tokens_text_tag [] [] tag s). Qed.
