(* ===== verification/Models.v ===== *)
(** * Exceptions and database

    The exceptions the program raises and handles, and the tables of
    [db/models.py] with the SQL statements the ORM issues.  A row is a record
    keyed by its primary key; a table is a finite map.  A transaction is a
    function from the stored tables to a result and new tables; it stores
    nothing when it raises.  SQLite does not enforce the foreign keys. *)
From S2P Require Import Prelude PyStr Json.

(** ** Exceptions *)

(** The gufo-acme exception classes the program distinguishes. *)
Inductive acme_kind :=
| AcmeRateLimitError | AcmeUnauthorizedError | AcmeFulfillmentFailed
| AcmeTimeoutError | AcmeConnectError | AcmeCertificateError | AcmeError.

(** Exceptions of Python and of the libraries that the program never
    catches by name. *)
Inductive py_error :=
| TypeError | ValueError | AttributeError | KeyError | IndexError | UnicodeError
| AssertionError | ValidationError | IntegrityError | StaleDataError | MultipleResultsFound
| HTTPStatusError | RuntimeError | ParseError | OperationalError | CommandError.

Inductive exn :=
| HTTPException (status_code : Z) (detail : json)
| Http01ValidationError (detail acme_type : str)
| OSErr (msg : str)
| TimeoutException
| RequestError (msg : str)
| AcmeExc (k : acme_kind) (msg : str)
| PyErr (k : py_error) (msg : str).

#[export] Instance acme_kind_eq_dec : EqDecision acme_kind.
Proof. solve_decision. Defined.
#[export] Instance py_error_eq_dec : EqDecision py_error.
Proof. solve_decision. Defined.
#[export] Instance exn_eq_dec : EqDecision exn.
Proof. solve_decision. Defined.

(** A Python evaluation: an exception or a value. *)
Abbreviation res := (sum exn).
#[export] Instance res_ret : MRet res := λ A a, inr a.
#[export] Instance res_bind : MBind res := λ A B f m,
  match m with inl e => inl e | inr a => f a end.

#[export] Instance res_fmap : FMap res := λ A B f m,
  match m with inl e => inl e | inr a => inr (f a) end.

(** [opt] or raise [e]. *)
Definition or_raise {A} (e : exn) (o : option A) : res A :=
  match o with Some a => inr a | None => inl e end.

Lemma res_bind_inr {A B} (m : res A) (f : A → res B) b :
  m ≫= f = inr b ↔ ∃ a, m = inr a ∧ f a = inr b.
Proof.
  destruct m; cbn; split; [done|by intros (? & ? & ?)|eauto|by intros (? & [= ->] & ?)].
Qed.
Lemma or_raise_inr {A} e (o : option A) a : or_raise e o = inr a ↔ o = Some a.
Proof. destruct o; cbn; split; congruence. Qed.

(** ** Rows *)

(** [Order.status], [Authorization.status]. *)
Inductive status := Pending | Ready | Processing | Valid | Invalid.
#[export] Instance status_eq_dec : EqDecision status.
Proof. solve_decision. Defined.
Definition status_str (s : status) : str :=
  match s with
  | Pending => u "pending" | Ready => u "ready" | Processing => u "processing"
  | Valid => u "valid" | Invalid => u "invalid"
  end.

Record Account := mk_Account {
  account_public_key : str;
  account_contact : option str;
  account_status : str;
  account_created_at : Z }.

Record Order := mk_Order {
  order_account_id : str;
  order_status : status;
  order_identifiers : str;
  order_le_order_url : option str;
  order_cert_id : option str;
  order_expires_at : option Z;
  order_created_at : Z;
  order_error : option str }.

Record Authorization := mk_Authorization {
  authz_order_id : str;
  authz_identifier : str;
  authz_status : status;
  authz_challenge_token : option str;
  authz_le_authz_url : option str;
  authz_created_at : Z;
  authz_error : option str }.

Record Certificate := mk_Certificate {
  cert_order_id : str;
  cert_pem_chain : str;
  cert_issued_at : Z;
  cert_expires_at : Z;
  cert_serial : option str }.

Record Nonce := mk_Nonce { nonce_used : bool; nonce_created_at : Z }.

(** Assignments to the columns the program writes. *)
Definition set_public_key (k : str) (a : Account) : Account :=
  mk_Account k (account_contact a) (account_status a) (account_created_at a).
Definition set_order_status (s : status) (o : Order) : Order :=
  mk_Order (order_account_id o) s (order_identifiers o) (order_le_order_url o) (order_cert_id o)
    (order_expires_at o) (order_created_at o) (order_error o).
Definition set_order_error (e : option str) (o : Order) : Order :=
  mk_Order (order_account_id o) (order_status o) (order_identifiers o) (order_le_order_url o)
    (order_cert_id o) (order_expires_at o) (order_created_at o) e.
Definition set_order_cert (c : option str) (o : Order) : Order :=
  mk_Order (order_account_id o) (order_status o) (order_identifiers o) (order_le_order_url o) c
    (order_expires_at o) (order_created_at o) (order_error o).
Definition set_authz_status (s : status) (a : Authorization) : Authorization :=
  mk_Authorization (authz_order_id a) (authz_identifier a) s (authz_challenge_token a)
    (authz_le_authz_url a) (authz_created_at a) (authz_error a).
Definition set_authz_error (e : option str) (a : Authorization) : Authorization :=
  mk_Authorization (authz_order_id a) (authz_identifier a) (authz_status a)
    (authz_challenge_token a) (authz_le_authz_url a) (authz_created_at a) e.
Definition set_nonce_used (n : Nonce) : Nonce := mk_Nonce true (nonce_created_at n).

(** ** Tables *)

Record db := mk_db {
  accounts : gmap str Account;
  orders : gmap str Order;
  authzs : gmap str Authorization;
  certs : gmap str Certificate;
  nonces : gmap str Nonce }.

Definition empty_db : db := mk_db ∅ ∅ ∅ ∅ ∅.
Definition set_accounts (t : gmap str Account) (d : db) : db :=
  mk_db t (orders d) (authzs d) (certs d) (nonces d).
Definition set_orders (t : gmap str Order) (d : db) : db :=
  mk_db (accounts d) t (authzs d) (certs d) (nonces d).
Definition set_authzs (t : gmap str Authorization) (d : db) : db :=
  mk_db (accounts d) (orders d) t (certs d) (nonces d).
Definition set_certs (t : gmap str Certificate) (d : db) : db :=
  mk_db (accounts d) (orders d) (authzs d) t (nonces d).
Definition set_nonces (t : gmap str Nonce) (d : db) : db :=
  mk_db (accounts d) (orders d) (authzs d) (certs d) t.

(** ** Transactions *)

(** The statements between two commits; [inl] rolls them back. *)
Definition tx (X : Type) : Type := db → res (X * db).
#[export] Instance tx_ret : MRet tx := λ X x d, inr (x, d).
#[export] Instance tx_bind : MBind tx := λ X Y f t d,
  match t d with inl e => inl e | inr (x, d') => f x d' end.

(** A [SELECT] inside a transaction. *)
Definition tx_query {X} (q : db → X) : tx X := λ d, inr (q d, d).

(** A text the driver can bind: it has no lone surrogate. *)
Definition encodable (s : str) : bool := forallb is_scalar s.
Definition opt_text (o : option str) : list str := match o with Some t => [t] | None => [] end.

(** The text columns of a row. *)
Definition account_texts (a : Account) : list str :=
  [account_public_key a; account_status a] ++ opt_text (account_contact a).
Definition order_texts (o : Order) : list str :=
  [order_account_id o; order_identifiers o] ++ opt_text (order_le_order_url o) ++
  opt_text (order_cert_id o) ++ opt_text (order_error o).
Definition authz_texts (a : Authorization) : list str :=
  [authz_order_id a; authz_identifier a] ++ opt_text (authz_challenge_token a) ++
  opt_text (authz_le_authz_url a) ++ opt_text (authz_error a).
Definition cert_texts (c : Certificate) : list str :=
  [cert_order_id c; cert_pem_chain c] ++ opt_text (cert_serial c).

(** [INSERT] of a row: a text that cannot be bound is a [UnicodeEncodeError], a
    primary key that exists an [IntegrityError]. *)
Definition insert_row {R} (get : db → gmap str R) (set : gmap str R → db → db)
    (texts : R → list str) (k : str) (r : R) : tx unit := λ d,
  if negb (forallb encodable (k :: texts r)) then inl (PyErr UnicodeError [])
  else match get d !! k with
  | Some _ => inl (PyErr IntegrityError [])
  | None => inr (tt, set (<[k := r]> (get d)) d)
  end.
Definition insert_account : str → Account → tx unit := insert_row accounts set_accounts account_texts.
Definition insert_order : str → Order → tx unit := insert_row orders set_orders order_texts.
Definition insert_authz : str → Authorization → tx unit := insert_row authzs set_authzs authz_texts.
Definition insert_cert : str → Certificate → tx unit := insert_row certs set_certs cert_texts.
Definition insert_nonce : str → Nonce → tx unit := insert_row nonces set_nonces (λ _, []).

(** The flush of a modified object: [UPDATE ... SET <changed columns> WHERE
    id = ?], which must match one row. *)
Definition flush_row {R} (get : db → gmap str R) (set : gmap str R → db → db)
    (k : str) (f : R → R) : tx unit := λ d,
  match get d !! k with
  | Some r => inr (tt, set (<[k := f r]> (get d)) d)
  | None => inl (PyErr StaleDataError [])
  end.
Definition flush_account : str → (Account → Account) → tx unit := flush_row accounts set_accounts.
Definition flush_order : str → (Order → Order) → tx unit := flush_row orders set_orders.
Definition flush_authz : str → (Authorization → Authorization) → tx unit :=
  flush_row authzs set_authzs.

(** The assignment [obj.column = new]: part of the UPDATE only when it changes
    the loaded value. *)
Definition assign {A R} `{EqDecision A} (loaded new : A) (set : A → R → R) : option (R → R) :=
  if decide (loaded = new) then None else Some (set new).
(** The flush of an object with these assignments; without changes no UPDATE
    is issued. *)
Definition flush_changes {R} (flush : str → (R → R) → tx unit) (k : str)
    (changes : list (option (R → R))) : tx unit :=
  match omap id changes with
  | [] => mret tt
  | fs => flush k (λ r, foldl (λ r f, f r) r fs)
  end.

(** The rows of a query, in the order of the table's listing. *)
Definition select_rows {R} (p : str → R → bool) (t : gmap str R) : list (str * R) :=
  filter (λ kr, p kr.1 kr.2 = true) (map_to_list t).

(** [Result.scalar_one_or_none()]. *)
Definition scalar_one_or_none {X} (l : list X) : res (option X) :=
  match l with
  | [] => inr None
  | [x] => inr (Some x)
  | _ => inl (PyErr MultipleResultsFound [])
  end.

Definition authzs_of (order_id : str) (d : db) : list (str * Authorization) :=
  select_rows (λ _ a, bool_decide (authz_order_id a = order_id)) (authzs d).

Lemma elem_of_select {R} (p : str → R → bool) (t : gmap str R) k r :
  (k, r) ∈ select_rows p t ↔ t !! k = Some r ∧ p k r = true.
Proof.
  unfold select_rows. rewrite list_elem_of_filter, elem_of_map_to_list. cbn. tauto.
Qed.

Lemma elem_of_authzs_of oid d aid a :
  (aid, a) ∈ authzs_of oid d ↔ authzs d !! aid = Some a ∧ authz_order_id a = oid.
Proof. unfold authzs_of. by rewrite elem_of_select, bool_decide_eq_true. Qed.

Lemma insert_row_inr {R} get set texts k (r : R) d x d' :
  insert_row get set texts k r d = inr (x, d') ↔
  forallb encodable (k :: texts r) = true ∧ get d !! k = None ∧ d' = set (<[k := r]> (get d)) d.
Proof.
  unfold insert_row. destruct (forallb encodable _); cbn [negb]; [|naive_solver].
  destruct (get d !! k), x; naive_solver.
Qed.

Lemma flush_row_inr {R} get set k (f : R → R) d x d' :
  flush_row get set k f d = inr (x, d') ↔
  ∃ r, get d !! k = Some r ∧ d' = set (<[k := f r]> (get d)) d.
Proof. unfold flush_row. destruct (get d !! k), x; naive_solver. Qed.

Lemma tx_bind_inr {X Y} (t : tx X) (f : X → tx Y) d y d' :
  (t ≫= f) d = inr (y, d') ↔ ∃ x d1, t d = inr (x, d1) ∧ f x d1 = inr (y, d').
Proof.
  unfold mbind, tx_bind. destruct (t d) as [e|[x d1]]; naive_solver.
Qed.
