(* ===== verification/Coro.v ===== *)
(** * Coroutines, their effects, interference

    A coroutine is a tree of effects ([coro E]).  [execs] relates its outcomes
    when other coroutines act between any two of its effects, [rg] is a
    rely-guarantee assertion sound for it, and [run] executes a tree alone.
    An effect signature [E] acts on a state [W] through the interface [Steps]
    (what each effect may answer and how it moves the state) and is executed
    through [Runs] on a supply [U] of the environment's answers. *)
From S2P Require Import Prelude PyStr Json Models.

Inductive coro (E : Type → Type) (A : Type) : Type :=
| Ret (a : A)
| Raise (e : exn)
| Vis {X} (e : E X) (k : X → coro E A).
Arguments Ret {E A} a.
Arguments Raise {E A} e.
Arguments Vis {E A X} e k.

Fixpoint coro_bind {E A B} (p : coro E A) (f : A → coro E B) : coro E B :=
  match p with
  | Ret a => f a
  | Raise e => Raise e
  | Vis e k => Vis e (λ x, coro_bind (k x) f)
  end.
#[export] Instance coro_mret {E} : MRet (coro E) := λ A, Ret.
#[export] Instance coro_mbind {E} : MBind (coro E) := λ A B f p, coro_bind p f.

(** [try: p  except <e handled by h>]. *)
Fixpoint catch {E A} (p : coro E A) (h : exn → coro E A) : coro E A :=
  match p with
  | Ret a => Ret a
  | Raise e => h e
  | Vis e k => Vis e (λ x, catch (k x) h)
  end.

Definition lift {E A} (r : res A) : coro E A :=
  match r with inl e => Raise e | inr a => Ret a end.
Definition perform {E X} (e : E X) : coro E X := Vis e Ret.
(** An effect that may raise. *)
Definition perform_res {E X} (e : E (res X)) : coro E X := Vis e lift.

(** ** Coroutines of certain effects *)

Section every.
Context {E : Type → Type} (P : ∀ X, E X → Prop).

(** Every effect of [p], on every path, is one of [P]. *)
Fixpoint every {A} (p : coro E A) : Prop :=
  match p with Vis e k => P _ e ∧ ∀ x, every (k x) | _ => True end.

Lemma every_ret {A} (a : A) : every (Ret a).
Proof. done. Qed.
Lemma every_raise {A} e : every (A:=A) (Raise e).
Proof. done. Qed.
Lemma every_all {A} (p : coro E A) : (∀ X e, P X e) → every p.
Proof. intros HP. induction p as [a|e|X e k IH]; cbn; auto. Qed.
Lemma every_lift {A} (r : res A) : every (lift r).
Proof. by destruct r. Qed.
Lemma every_perform {X} (e : E X) : P X e → every (perform e).
Proof. done. Qed.
Lemma every_perform_res {X} (e : E (res X)) : P _ e → every (perform_res e).
Proof. split; [done|]. apply every_lift. Qed.
Lemma every_bind {A B} (p : coro E A) (f : A → coro E B) : every p → (∀ a, every (f a)) → every (p ≫= f).
Proof.
  induction p as [a|e|X e k IH]; [intros _ Hf; apply Hf|done|].
  intros [He Hk] Hf. split; [done|]. intros x. by apply IH.
Qed.
Lemma every_catch {A} (p : coro E A) h : every p → (∀ e, every (h e)) → every (catch p h).
Proof.
  induction p as [a|e|X e k IH]; cbn [catch every]; [done|auto|].
  intros [He Hk] Hh. split; [done|]. auto.
Qed.
End every.

Lemma every_mono {E} (P Q : ∀ X, E X → Prop) {A} (p : coro E A) :
  (∀ X e, P X e → Q X e) → every P p → every Q p.
Proof. intros HPQ. induction p as [a|e|X e k IH]; cbn; [done..|]. intros [He Hk]. auto. Qed.

(** Decomposes a program along its structure; leaves the effects no hint covers. *)
Create HintDb every discriminated.
#[export] Hint Resolve every_ret every_raise every_lift : every.
Ltac every_step :=
  lazymatch goal with
  | |- every _ (mbind _ _) => apply every_bind; [|intros ?]
  | |- every _ (catch _ _) => apply every_catch; [|intros ?]
  | |- every _ (match ?x with _ => _ end) => destruct x
  | |- every _ (let _ := _ in _) => cbv zeta
  | |- every _ (perform_res _) => apply every_perform_res; solve [exact I|auto with every typeclass_instances]
  | |- every _ (perform _) => apply every_perform; solve [exact I|auto with every typeclass_instances]
  | |- every _ _ => solve [auto with every typeclass_instances]
  end.
Ltac every_auto := repeat every_step.

(** ** Execution with interference *)

(** What an effect may answer, and how it moves the state. *)
Class Steps (E : Type → Type) (W : Type) := estep : ∀ {X}, E X → W → X → W → Prop.

(** [execs R p w r w']: [p] started in [w] may end in [w'] with [r], when
    between its effects the rest of the system moves the state by [R]. *)
Fixpoint execs {E W} {SE : Steps E W} {A} (R : relation W) (p : coro E A) (w : W) (r : res A) (w' : W) : Prop :=
  match p with
  | Ret a => R w w' ∧ r = inr a
  | Raise e => R w w' ∧ r = inl e
  | Vis e k => ∃ w1 x w2, R w w1 ∧ estep e w1 x w2 ∧ execs R (k x) w2 r w'
  end.

Lemma execs_bind {E W} {SE : Steps E W} {A B} (R : relation W) `{!Reflexive R} (p : coro E A) (f : A → coro E B) w r w' :
  execs R (p ≫= f) w r w' →
  (∃ a w1, execs R p w (inr a) w1 ∧ execs R (f a) w1 r w') ∨
  (∃ e, r = inl e ∧ execs R p w (inl e) w').
Proof.
  revert w. induction p as [a|e|X e k IH]; intros w; unfold mbind, coro_mbind in *; cbn.
  - intros H. left. by exists a, w.
  - intros [HR ->]. right. by exists e.
  - intros (w1 & x & w2 & HR & Hs & [(a & w3 & H1 & H2)|(ex & -> & H1)]%IH).
    + left. exists a, w3. split; [|done]. by exists w1, x, w2.
    + right. exists ex. split; [done|]. by exists w1, x, w2.
Qed.

Lemma execs_rely {E W} {SE : Steps E W} {A} (R R' : relation W) (p : coro E A) w r w' :
  (∀ w w', R w w' → R' w w') → execs R p w r w' → execs R' p w r w'.
Proof.
  intros HR. revert w. induction p as [a|e|X e k IH]; intros w; cbn.
  - intros [? ->]. auto.
  - intros [? ->]. auto.
  - intros (w1 & x & w2 & H1 & Hs & H2). exists w1, x, w2. auto.
Qed.

Lemma execs_lift {E W} {SE : Steps E W} {A} (a : res A) w r w' : execs (=) (lift (E:=E) a) w r w' → r = a ∧ w' = w.
Proof. destruct a; cbn; by intros [-> ->]. Qed.

(** ** Executable semantics *)

(** Effects executed on a supply of answers: [can_run e w] says that the effect
    does not wait (for a lock) in [w], [supply_ok] that the answers have the
    shape the effects document. *)
Class Runs (E : Type → Type) (W U : Type) {SE : Steps E W} := {
  erun : ∀ {X}, E X → W → U → X * W * U;
  can_run : ∀ {X}, E X → W → Prop;
  supply_ok : U → Prop;
  erun_step {X} (e : E X) w s x w' s' :
    can_run e w → supply_ok s → erun e w s = (x, w', s') → estep e w x w' ∧ supply_ok s'
}.

Section runs.
Context {E W U} `{RE : Runs E W U}.

(** Runs [p] alone. *)
Fixpoint run {A} (p : coro E A) (w : W) (s : U) : res A * W * U :=
  match p with
  | Ret a => (inr a, w, s)
  | Raise e => (inl e, w, s)
  | Vis e k => let '(x, w', s') := erun e w s in run (k x) w' s'
  end.

(** No effect of [p] waits when [run] performs it. *)
Fixpoint unblocked {A} (p : coro E A) (w : W) (s : U) : Prop :=
  match p with
  | Vis e k => can_run e w ∧ let '(x, w', s') := erun e w s in unblocked (k x) w' s'
  | _ => True
  end.

(** What [run] computes is an execution. *)
Lemma run_execs {A} (p : coro E A) w s r w' s' :
  unblocked p w s → supply_ok s → run p w s = (r, w', s') → execs (=) p w r w'.
Proof.
  revert w s. induction p as [a|e|X e k IH]; intros w s; cbn [run unblocked execs].
  - by intros _ _ [= <- <- <-].
  - by intros _ _ [= <- <- <-].
  - destruct (erun e w s) as [[x w1] s1] eqn:E1. intros [Hl Hu] Hs Hr.
    destruct (erun_step e w s x w1 s1 Hl Hs E1) as [Hstep Hs1].
    exists w, x, w1. split_and!; [done|done|]. by eapply IH.
Qed.

Lemma run_bind {A B} (p : coro E A) (f : A → coro E B) w s :
  run (p ≫= f) w s =
  let '(r, w1, s1) := run p w s in
  match r with inl e => (inl e, w1, s1) | inr a => run (f a) w1 s1 end.
Proof.
  revert w s. induction p as [a|e|X e k IH]; intros w s; unfold mbind, coro_mbind in *; cbn;
    [done|done|]. destruct (erun e w s) as [[x w1] s1]. apply IH.
Qed.

Lemma run_catch {A} (p : coro E A) h w s :
  run (catch p h) w s =
  let '(r, w1, s1) := run p w s in
  match r with inl e => run (h e) w1 s1 | inr a => (inr a, w1, s1) end.
Proof.
  revert w s. induction p as [a|e|X e k IH]; intros w s; cbn [catch run]; [done..|].
  destruct (erun e w s) as [[x w1] s1]. apply IH.
Qed.

Lemma run_lift_alone {A} (r : res A) w s : run (lift r) w s = (r, w, s).
Proof. by destruct r. Qed.
End runs.

(** ** Rely-guarantee assertions *)

Section rg.
Context {E W} {SE : Steps E W} (R G : relation W).

(** From [w], while the rest of the system moves by [R]: every effect of [p]
    moves by [G], and [p] ends in a state satisfying [Q]. *)
Fixpoint rg {A} (p : coro E A) (Q : res A → W → Prop) (w : W) : Prop :=
  match p with
  | Ret a => ∀ w', R w w' → Q (inr a) w'
  | Raise e => ∀ w', R w w' → Q (inl e) w'
  | Vis e k => ∀ w1, R w w1 → ∀ x w2, estep e w1 x w2 → G w1 w2 ∧ rg (k x) Q w2
  end.

Lemma rg_mono {A} (p : coro E A) (Q Q' : res A → W → Prop) w :
  (∀ r w', Q r w' → Q' r w') → rg p Q w → rg p Q' w.
Proof.
  intros HQ. revert w. induction p as [a|e|X e k IH]; intros w; cbn; [auto|auto|].
  intros H w1 HR x w2 Hs. destruct (H w1 HR x w2 Hs). auto.
Qed.

Context `{!PreOrder R}.

Lemma rg_bind {A B} (p : coro E A) (f : A → coro E B) Q w :
  rg p (λ r w', match r with inl e => Q (inl e) w' | inr a => rg (f a) Q w' end) w →
  rg (p ≫= f) Q w.
Proof.
  revert w. induction p as [a|e|X e k IH]; intros w; unfold mbind, coro_mbind in *; cbn.
  - intros H. by apply H.
  - done.
  - intros H w1 HR x w2 Hs. destruct (H w1 HR x w2 Hs). auto.
Qed.

Lemma rg_catch {A} (p : coro E A) h Q w :
  rg p (λ r w', match r with inl e => rg (h e) Q w' | inr a => Q (inr a) w' end) w →
  rg (catch p h) Q w.
Proof.
  revert w. induction p as [a|e|X e k IH]; intros w; cbn.
  - done.
  - intros H. by apply H.
  - intros H w1 HR x w2 Hs. destruct (H w1 HR x w2 Hs). auto.
Qed.

Lemma rg_lift {A} (r : res A) (Q : res A → W → Prop) w :
  (∀ w', R w w' → Q r w') → rg (lift r) Q w.
Proof. by destruct r. Qed.

Lemma rg_perform {X} (e : E X) (Q : res X → W → Prop) w :
  (∀ w1, R w w1 → ∀ x w2, estep e w1 x w2 →
     G w1 w2 ∧ ∀ w3, R w2 w3 → Q (inr x) w3) →
  rg (perform e) Q w.
Proof. done. Qed.

Lemma rg_perform_res {X} (e : E (res X)) (Q : res X → W → Prop) w :
  (∀ w1, R w w1 → ∀ x w2, estep e w1 x w2 →
     G w1 w2 ∧ ∀ w3, R w2 w3 → Q x w3) →
  rg (perform_res e) Q w.
Proof. intros H w1 HR x w2 Hs. destruct (H w1 HR x w2 Hs). split; [done|]. by apply rg_lift. Qed.

Lemma rg_rely {A} (p : coro E A) Q w w' : R w w' → rg p Q w → rg p Q w'.
Proof. intros HR. destruct p; cbn; intros H w1 HR1; apply H; by trans w'. Qed.

(** Soundness for the executions of one coroutine. *)
Lemma rg_execs {A} (p : coro E A) Q w r w' : rg p Q w → execs R p w r w' → Q r w'.
Proof.
  revert w. induction p as [a|e|X e k IH]; intros w; cbn.
  - intros H [HR ->]. by apply H.
  - intros H [HR ->]. by apply H.
  - intros H (w1 & x & w2 & HR & Hs & He). destruct (H w1 HR x w2 Hs). by eapply IH.
Qed.
End rg.

Section leaves.
Context {E W} {SE : Steps E W} (T : relation W) `{!PreOrder T}.

Lemma rg_ret {A} (a : A) (Q : res A → W → Prop) w :
  (∀ w', T w w' → Q (inr a) w') → rg T T (Ret a) Q w.
Proof. done. Qed.

Lemma rg_raise {A} e (Q : res A → W → Prop) w :
  (∀ w', T w w' → Q (inl e) w') → rg T T (Raise e) Q w.
Proof. done. Qed.

Lemma rg_frame {A} (p : coro E A) (Q : res A → W → Prop) w :
  rg T T p (λ r w', T w w' → Q r w') w → rg T T p Q w.
Proof.
  intros H. apply (rg_mono _ _ p (λ r w', T w w' ∧ (T w w' → Q r w'))); [tauto|].
  assert (∀ (B : Type) (p : coro E B) (P : res B → W → Prop) w0, T w w0 →
    rg T T p P w0 → rg T T p (λ r w', T w w' ∧ P r w') w0) as Hgen.
  { clear -PreOrder0. intros B p P. induction p as [a|e|X e k IH]; intros w0 H0; cbn.
    - intros HP w' H1. split; [by trans w0|auto].
    - intros HP w' H1. split; [by trans w0|auto].
    - intros HP w1 H1 x w2 Hs. destruct (HP w1 H1 x w2 Hs) as [H2 HP2].
      split; [done|]. apply IH; [|done]. trans w0; [done|]. by trans w1. }
  by apply Hgen.
Qed.

(** *** Coroutines whose every effect moves by [T], from any state *)

Definition safe {A} (p : coro E A) : Prop := ∀ w, rg T T p (λ _ _, True) w.

Lemma safe_rg {A} (p : coro E A) (Q : res A → W → Prop) w :
  safe p → (∀ r w', T w w' → Q r w') → rg T T p Q w.
Proof.
  intros Hp HQ. apply rg_frame. eapply rg_mono; [|apply (Hp w)]. intros r w' _. apply HQ.
Qed.

Lemma safe_ret {A} (a : A) : safe (Ret a).
Proof. done. Qed.
Lemma safe_mret {A} (a : A) : safe (mret a).
Proof. done. Qed.
Lemma safe_raise {A} e : safe (A:=A) (Raise e).
Proof. done. Qed.
Lemma safe_lift {A} (r : res A) : safe (lift r).
Proof. by destruct r. Qed.
Lemma safe_bind {A B} (p : coro E A) (f : A → coro E B) :
  safe p → (∀ a, safe (f a)) → safe (p ≫= f).
Proof.
  intros Hp Hf w. apply rg_bind; [apply _|]. eapply rg_mono; [|apply (Hp w)].
  intros [e|a] w' _; [done|apply Hf].
Qed.
Lemma safe_lift_bind {A B} (r : res A) (f : A → coro E B) :
  (∀ a, r = inr a → safe (f a)) → safe (lift r ≫= f).
Proof. destruct r; [intros _; apply safe_raise|intros Hf; by apply Hf]. Qed.
Lemma safe_catch {A} (p : coro E A) h : safe p → (∀ e, safe (h e)) → safe (catch p h).
Proof.
  intros Hp Hh w. apply rg_catch; [apply _|]. eapply rg_mono; [|apply (Hp w)].
  intros [e|a] w' _; [apply Hh|done].
Qed.
End leaves.

(** ** Sums of effect signatures *)

Inductive sum_eff (E F : Type → Type) (X : Type) : Type :=
| EffL (e : E X)
| EffR (e : F X).
Arguments EffL {E F X} e.
Arguments EffR {E F X} e.
Infix "⊕" := sum_eff (at level 50, left associativity).

(** Each side acts on its own component of the state. *)
#[export] Instance sum_steps {E F W V} {SE : Steps E W} {SF : Steps F V} : Steps (E ⊕ F) (W * V) :=
  λ X e, match e with
  | EffL e => λ w x w', estep e w.1 x w'.1 ∧ w'.2 = w.2
  | EffR e => λ w x w', estep e w.2 x w'.2 ∧ w'.1 = w.1
  end.

#[export, refine] Instance sum_runs {E F W V U U'} `{RE : Runs E W U} `{RF : Runs F V U'} :
    Runs (E ⊕ F) (W * V) (U * U') := {|
  erun := λ X e, match e with
    | EffL e => λ w s, let '(x, w', s') := erun e w.1 s.1 in (x, (w', w.2), (s', s.2))
    | EffR e => λ w s, let '(x, w', s') := erun e w.2 s.2 in (x, (w.1, w'), (s.1, s'))
    end;
  can_run := λ X e, match e with EffL e => λ w, can_run e w.1 | EffR e => λ w, can_run e w.2 end;
  supply_ok := λ s, supply_ok s.1 ∧ supply_ok s.2 |}.
Proof.
  intros X [e|e] [w v] [s s'] x w' s'' Hr [H1 H2] E1; cbn in *.
  - destruct (erun e w s) as [[y w1] s1] eqn:E2. injection E1 as <- <- <-. cbn.
    by destruct (erun_step e w s y w1 s1 Hr H1 E2).
  - destruct (erun e v s') as [[y w1] s1] eqn:E2. injection E1 as <- <- <-. cbn.
    by destruct (erun_step e v s' y w1 s1 Hr H2 E2).
Defined.

(** A coroutine of one side in the sum. *)
Fixpoint embed_l {E F A} (p : coro E A) : coro (E ⊕ F) A :=
  match p with
  | Ret a => Ret a
  | Raise e => Raise e
  | Vis e k => Vis (EffL e) (λ x, embed_l (k x))
  end.
Fixpoint embed_r {E F A} (p : coro F A) : coro (E ⊕ F) A :=
  match p with
  | Ret a => Ret a
  | Raise e => Raise e
  | Vis e k => Vis (EffR e) (λ x, embed_r (k x))
  end.

(** Renaming effects. *)
Fixpoint hoist {E F A} (f : ∀ X, E X → F X) (p : coro E A) : coro F A :=
  match p with
  | Ret a => Ret a
  | Raise e => Raise e
  | Vis e k => Vis (f _ e) (λ x, hoist f (k x))
  end.

Lemma run_embed_l {E F W V U U'} `{RE : Runs E W U} `{RF : Runs F V U'} {A} (p : coro E A) (w : W * V) (s : U * U') :
  run (embed_l (F:=F) p) w s =
  let '(r, w', s') := run p w.1 s.1 in (r, (w', w.2), (s', s.2)).
Proof.
  revert w s. induction p as [a|e|X e k IH]; intros [w v] [s s']; cbn; [done..|].
  destruct (erun e w s) as [[x w1] s1]. apply IH.
Qed.
Lemma run_embed_r {E F W V U U'} `{RE : Runs E W U} `{RF : Runs F V U'} {A} (p : coro F A) (w : W * V) (s : U * U') :
  run (embed_r (E:=E) p) w s =
  let '(r, v', s') := run p w.2 s.2 in (r, (w.1, v'), (s.1, s')).
Proof.
  revert w s. induction p as [a|e|X e k IH]; intros [w v] [s s']; cbn; [done..|].
  destruct (erun e v s') as [[x w1] s1]. apply IH.
Qed.
