(* ===== verification/Crash.v ===== *)
(** * Crashes

    A process may die between two effects of a coroutine, or inside one: [torn]
    says in which states an effect may be interrupted.  [crashes] relates a
    state to those a coroutine may leave behind; [wpc] is a weakest precondition
    with a postcondition for the end and a crash condition for every point where
    the process may die. *)
From S2P Require Import Prelude Json Models Coro.

Class Tears (E : Type → Type) (W : Type) := torn : ∀ {X}, E X → W → W → Prop.

#[export] Instance sum_tears {E F W V} {TE : Tears E W} {TF : Tears F V} : Tears (E ⊕ F) (W * V) :=
  λ X e, match e with
  | EffL e => λ w w', torn e w.1 w'.1 ∧ w'.2 = w.2
  | EffR e => λ w w', torn e w.2 w'.2 ∧ w'.1 = w.1
  end.

Section crash.
Context {E W} {SE : Steps E W} {TE : Tears E W} (R : relation W).

(** [w'] is a state in which the process may die while it runs [p] from [w],
    the rest of the system moving by [R]. *)
Fixpoint crashes {A} (p : coro E A) (w w' : W) : Prop :=
  R w w' ∨
  match p with
  | Vis e k => ∃ w1, R w w1 ∧ (torn e w1 w' ∨ ∃ x w2, estep e w1 x w2 ∧ crashes (k x) w2 w')
  | _ => False
  end.

Fixpoint wpc {A} (p : coro E A) (Q : res A → W → Prop) (C : W → Prop) (w : W) : Prop :=
  ∀ w1, R w w1 → C w1 ∧
  match p with
  | Ret a => Q (inr a) w1
  | Raise e => Q (inl e) w1
  | Vis e k => (∀ w', torn e w1 w' → C w') ∧ ∀ x w', estep e w1 x w' → wpc (k x) Q C w'
  end.

Lemma wpc_crashes {A} (p : coro E A) Q C w w' : wpc p Q C w → crashes p w w' → C w'.
Proof.
  revert w. induction p as [a|e|X e k IH]; intros w; cbn; [naive_solver..|].
  intros H [[? _]%H|(w1 & (HC & Ht & Hk)%H & [?|(x & w2 & Hs & Hc)])]; [done|auto|]. by eapply IH; eauto.
Qed.
Lemma wpc_execs {A} (p : coro E A) Q C w r w' : wpc p Q C w → execs R p w r w' → Q r w'.
Proof.
  revert w. induction p as [a|e|X e k IH]; intros w; cbn; [by intros H [[_ ?]%H ->]..|].
  intros H (w1 & x & w2 & (_ & _ & Hk)%H & Hs & He). by eapply IH; eauto.
Qed.

Lemma wpc_mono {A} (p : coro E A) (Q Q' : res A → W → Prop) (C C' : W → Prop) w :
  (∀ r w', Q r w' → Q' r w') → (∀ w', C w' → C' w') → wpc p Q C w → wpc p Q' C' w.
Proof.
  intros HQ HC. revert w. induction p as [a|e|X e k IH]; intros w H w1 HR;
    destruct (H w1 HR) as [H1 H2]; naive_solver.
Qed.

Lemma wpc_lift {A} (r : res A) (Q : res A → W → Prop) (C : W → Prop) w :
  (∀ w', R w w' → C w' ∧ Q r w') → wpc (lift r) Q C w.
Proof. by destruct r. Qed.
Lemma wpc_perform {X} (e : E X) (Q : res X → W → Prop) (C : W → Prop) w :
  (∀ w1, R w w1 → C w1 ∧ (∀ w', torn e w1 w' → C w') ∧
    ∀ x w2, estep e w1 x w2 → ∀ w', R w2 w' → C w' ∧ Q (inr x) w') →
  wpc (perform e) Q C w.
Proof. done. Qed.
Lemma wpc_perform_res {X} (e : E (res X)) (Q : res X → W → Prop) (C : W → Prop) w :
  (∀ w1, R w w1 → C w1 ∧ (∀ w', torn e w1 w' → C w') ∧
    ∀ x w2, estep e w1 x w2 → ∀ w', R w2 w' → C w' ∧ Q x w') →
  wpc (perform_res e) Q C w.
Proof.
  intros H w1 HR. destruct (H w1 HR) as (HC & Ht & Hk). split_and!; [done..|].
  intros x w2 Hs. apply wpc_lift. by apply Hk.
Qed.

Context `{!Reflexive R}.

Lemma wpc_bind {A B} (p : coro E A) (f : A → coro E B) Q C w :
  wpc p (λ r w', match r with inl e => Q (inl e) w' | inr a => wpc (f a) Q C w' end) C w →
  wpc (p ≫= f) Q C w.
Proof.
  revert w. induction p as [a|e|X e k IH]; intros w; unfold mbind, coro_mbind in *; cbn.
  - intros H. by apply H.
  - done.
  - intros H w1 HR. destruct (H w1 HR) as (HC & Ht & Hk). split_and!; auto.
Qed.
Lemma wpc_catch {A} (p : coro E A) h Q C w :
  wpc p (λ r w', match r with inl e => wpc (h e) Q C w' | inr a => Q (inr a) w' end) C w →
  wpc (catch p h) Q C w.
Proof.
  revert w. induction p as [a|e|X e k IH]; intros w; cbn; [done| |].
  - intros H. by apply H.
  - intros H w1 HR. destruct (H w1 HR) as (HC & Ht & Hk). split_and!; auto.
Qed.
End crash.

(** Dying after the first [n] effects of a run. *)
Section run_steps.
Context {E W U} `{RE : Runs E W U} {TE : Tears E W}.

Fixpoint run_steps {A} (n : nat) (p : coro E A) (w : W) (s : U) : W :=
  match n, p with
  | S n, Vis e k => let '(x, w1, s1) := erun e w s in run_steps n (k x) w1 s1
  | _, _ => w
  end.
Lemma run_steps_crashes {A} (R : relation W) `{!Reflexive R} n (p : coro E A) w s :
  unblocked p w s → supply_ok s → crashes R p w (run_steps n p w s).
Proof.
  revert p w s. induction n as [|n IH]; intros p w s Hu Hs; [by destruct p; left|].
  destruct p as [a|e|X e k]; [by left..|]. cbn [run_steps unblocked crashes] in *.
  destruct Hu as [Hr Hu]. destruct (erun e w s) as [[x w1] s1] eqn:E1.
  destruct (erun_step e w s x w1 s1 Hr Hs E1) as [Hstep Hs1]. right. exists w. split; [done|]. right.
  exists x, w1. split; [done|]. by apply IH.
Qed.
End run_steps.

(** Coroutines of one side in the sum, while the other side moves freely. *)
Definition frame_l {W V} : relation (W * V) := λ w w', w'.2 = w.2.
#[export] Instance frame_l_preorder {W V} : PreOrder (@frame_l W V).
Proof. unfold frame_l. split; [done|]. by intros ??? -> . Qed.

Section embed.
Context {E F W V} {SE : Steps E W} {SF : Steps F V} {TE : Tears E W} {TF : Tears F V}.

Lemma wpc_embed_r {A} (p : coro F A) (Q : res A → V → Prop) (C : V → Prop) (w : W * V) :
  wpc (=) p Q C w.2 → wpc frame_l (embed_r (E:=E) p) (λ r w', Q r w'.2) (λ w', C w'.2) w.
Proof.
  revert w. induction p as [a|e|X e k IH]; intros w H w1 HR; destruct (H w1.2 (eq_sym HR)) as [HC Hp].
  - done.
  - done.
  - destruct Hp as [Ht Hk]. split_and!; [done| |].
    + intros w' [H1 H2]. auto.
    + intros x w' [H1 H2]. apply IH. by apply Hk.
Qed.
Lemma wpc_embed_l {A} (p : coro E A) (Q : res A → V → Prop) (C : V → Prop) (w : W * V) :
  C w.2 → (∀ r, Q r w.2) → wpc frame_l (embed_l (F:=F) p) (λ r w', Q r w'.2) (λ w', C w'.2) w.
Proof.
  revert w. induction p as [a|e|X e k IH]; intros w HC HQ w1 HR; rewrite HR; [by auto..|].
  split_and!; [done| |].
  - intros w' [H1 H2]. by rewrite H2, HR.
  - intros x w' [H1 H2]. rewrite HR in H2. apply IH; by rewrite H2.
Qed.
End embed.
