(* ===== verification/Prog.v ===== *)
(** * The server's effects, worlds, interleaving

    The effects of the server's coroutines ([eff], [prog]): SQL reads and
    committed transactions, the clock, random values, sleeping, starting a
    background task, the network.  A [world] is what they act on, [events] what
    they record, and [step] interleaves the coroutines of a server. *)
From S2P Require Import Prelude PyStr Json Base64 External Models.
From S2P Require Export Coro Crash.

(** ** Effects *)

Inductive address_family := AF_INET | AF_INET6.
#[export] Instance address_family_eq_dec : EqDecision address_family.
Proof. solve_decision. Defined.

Record http_response := mk_http_response { resp_status_code : Z; resp_content : bytes }.

(** The coroutines started by [asyncio.create_task]. *)
Inductive task :=
| run_challenge_task (authz_id order_id : str)
| process_finalize_task (order_id domain : str) (csr_der : bytes).

Inductive eff : Type → Type :=
| EQuery {X} (q : db → X) : eff X                   (** a [SELECT] *)
| EExec {X} (t : tx X) : eff (res X)                (** a committed transaction *)
| ENow : eff Z                                      (** [utcnow()] *)
| EUuid4 : eff str                                  (** [str(uuid.uuid4())] *)
| EToken : eff str                                  (** [secrets.token_urlsafe(32)] *)
| ESleep (s : Z) : eff unit                         (** [asyncio.sleep] *)
| ESpawn (t : task) : eff unit                      (** [asyncio.create_task] *)
| EGetaddrinfo (host : str) : eff (res (list (address_family * str)))
| EHttpGet (url host : str) (timeout : Z) : eff (res http_response)
| EAcquire (domain : str) : eff unit                (** [domain_lock(domain)] *)
| ERelease (domain : str) : eff unit
| ESign (domain : str) (csr : bytes) : eff (res bytes)   (** gufo's [client.sign] *)
| ERevoke (payload : json) : eff (res unit).        (** POST to the CA's revokeCert *)

Abbreviation prog := (coro eff).
Definition query {X} (q : db → X) : prog X := perform (EQuery q).
Definition exec {X} (t : tx X) : prog X := perform_res (EExec t).

(** [raise HTTPException(status_code, detail="...")]. *)
Definition http_error (code : Z) (detail : str) : exn := HTTPException code (JStr detail).

(** ** Worlds *)

(** What happened, newest first. *)
Inductive event :=
| EvTx (before after : db)
| EvResolve (host : str) (r : res (list (address_family * str)))
| EvHttp (url host : str) (r : res http_response)
| EvSpawn (t : task)
| EvSign (domain : str) (csr : bytes).

Record world := mk_world { w_db : db; w_locks : gset str; w_log : list event }.
Definition w_record (ev : event) (w : world) : world := mk_world (w_db w) (w_locks w) (ev :: w_log w).
Definition w_commit (d : db) (w : world) : world :=
  mk_world d (w_locks w) (EvTx (w_db w) d :: w_log w).
Definition w_lock (s : gset str) (w : world) : world := mk_world (w_db w) s (w_log w).

(** What [secrets.token_urlsafe(32)] and [str(uuid.uuid4())] return. *)
Definition token_ok (t : str) : Prop :=
  ∃ bs, length bs = 32%nat ∧ Forall is_octet bs ∧ t = b64url_encode bs.
Definition uuid_char (c : Z) : bool := is_digit c || ((97 <=? c) && (c <=? 102)) || (c =? 45).
Definition uuid_ok (s : str) : Prop := length s = 36%nat ∧ forallb uuid_char s = true.

(** One effect: its answer and the world after it.  Whatever the environment
    chooses (time, random values, the network) is arbitrary. *)
Definition eff_step {X} (e : eff X) : world → X → world → Prop :=
  match e in eff X return world → X → world → Prop with
  | EQuery q => λ w x w', x = q (w_db w) ∧ w' = w
  | EExec t => λ w x w',
      match t (w_db w) with
      | inl ex => x = inl ex ∧ w' = w
      | inr (a, d) => x = inr a ∧ w' = w_commit d w
      end
  | ENow => λ w x w', w' = w
  | EUuid4 => λ w x w', uuid_ok x ∧ w' = w
  | EToken => λ w x w', token_ok x ∧ w' = w
  | ESleep _ => λ w x w', w' = w
  | ESpawn t => λ w x w', w' = w_record (EvSpawn t) w
  | EGetaddrinfo h => λ w x w', w' = w_record (EvResolve h x) w
  | EHttpGet url host _ => λ w x w', w' = w_record (EvHttp url host x) w
  | EAcquire d => λ w x w', (d ∉ w_locks w) ∧ w' = w_lock ({[d]} ∪ w_locks w) w
  | ERelease d => λ w x w', w' = w_lock (w_locks w ∖ {[d]}) w
  | ESign d csr => λ w x w', w' = w_record (EvSign d csr) w
  | ERevoke _ => λ w x w', w' = w
  end.

#[export] Instance eff_steps : Steps eff world := @eff_step.
(** A transaction is committed or not: the process never dies inside an effect. *)
#[export] Instance eff_tears : Tears eff world := λ X e w w', False.

(** ** Executable semantics *)

(** The environment's answers, consumed in order (with a default at the end). *)
Record answers := mk_answers {
  an_clock : list Z;
  an_uuids : list str;
  an_tokens : list str;
  an_dns : list (res (list (address_family * str)));
  an_http : list (res http_response);
  an_sign : list (res bytes);
  an_revoke : list (res unit) }.

Definition no_answer {X} : res X := inl (PyErr ValueError (u "no answer")).
Definition next {X} (dflt : X) (l : list X) : X := match l with x :: _ => x | [] => dflt end.
Definition default_uuid : str := replicate 36 48.
Definition default_token : str := b64url_encode (replicate 32 0).

Definition run_eff {X} (e : eff X) : world → answers → X * world * answers :=
  match e in eff X return world → answers → X * world * answers with
  | EQuery q => λ w s, (q (w_db w), w, s)
  | EExec t => λ w s,
      match t (w_db w) with
      | inl ex => (inl ex, w, s)
      | inr (a, d) => (inr a, w_commit d w, s)
      end
  | ENow => λ w '(mk_answers c i t d h g v), (next 0 c, w, mk_answers (tail c) i t d h g v)
  | EUuid4 => λ w '(mk_answers c i t d h g v),
      (next default_uuid i, w, mk_answers c (tail i) t d h g v)
  | EToken => λ w '(mk_answers c i t d h g v),
      (next default_token t, w, mk_answers c i (tail t) d h g v)
  | ESleep _ => λ w s, (tt, w, s)
  | ESpawn t => λ w s, (tt, w_record (EvSpawn t) w, s)
  | EGetaddrinfo ho => λ w '(mk_answers c i t d h g v),
      (next no_answer d, w_record (EvResolve ho (next no_answer d)) w,
       mk_answers c i t (tail d) h g v)
  | EHttpGet url host _ => λ w '(mk_answers c i t d h g v),
      (next no_answer h, w_record (EvHttp url host (next no_answer h)) w,
       mk_answers c i t d (tail h) g v)
  | EAcquire d => λ w s, (tt, w_lock ({[d]} ∪ w_locks w) w, s)
  | ERelease d => λ w s, (tt, w_lock (w_locks w ∖ {[d]}) w, s)
  | ESign d csr => λ w '(mk_answers c i t dn h g v),
      (next no_answer g, w_record (EvSign d csr) w, mk_answers c i t dn h (tail g) v)
  | ERevoke _ => λ w '(mk_answers c i t d h g v),
      (next (inr tt) v, w, mk_answers c i t d h g (tail v))
  end.

(** No coroutine holds a lock, and the random answers have the documented shape. *)
Definition answers_ok (s : answers) : Prop := Forall uuid_ok (an_uuids s) ∧ Forall token_ok (an_tokens s).

Lemma default_uuid_ok : uuid_ok default_uuid.
Proof. by split; vm_compute. Qed.
Lemma default_token_ok : token_ok default_token.
Proof.
  exists (replicate 32 0). split_and!; [done| |done]. apply Forall_replicate. unfold is_octet. lia.
Qed.

Lemma next_ok {X} (P : X → Prop) dflt l : P dflt → Forall P l → P (next dflt l) ∧ Forall P (tail l).
Proof. intros Hd Hl. destruct Hl; cbn; auto. Qed.

(** The lock is free when [run] acquires it. *)
Definition eff_ready {X} (e : eff X) (w : world) : Prop :=
  match e with EAcquire d => (d ∉ w_locks w) | _ => True end.

Lemma run_eff_step {X} (e : eff X) w s x w' s' :
  eff_ready e w → answers_ok s →
  run_eff e w s = (x, w', s') → eff_step e w x w' ∧ answers_ok s'.
Proof.
  destruct s as [c i t d h g v]. intros Hl [Hi Ht] E. cbn in Hi, Ht.
  pose proof (next_ok uuid_ok _ i default_uuid_ok Hi) as [??].
  pose proof (next_ok token_ok _ t default_token_ok Ht) as [??].
  destruct e; cbn in E |- *; try (injection E as <- <- <-; done).
  destruct (t0 (w_db w)) as [|[]]; injection E as <- <- <-; done.
Qed.

#[export] Instance eff_runs : Runs eff world answers := {|
  erun := @run_eff;
  can_run := @eff_ready;
  supply_ok := answers_ok;
  erun_step := @run_eff_step |}.

(** ** The events of one coroutine *)

(** [traced R p w r w' evs]: an execution of [p] as in [execs] in which [evs],
    newest first, are the events recorded by [p]'s own effects. *)
Fixpoint traced {A} (R : relation world) (p : prog A) (w : world) (r : res A) (w' : world)
    (evs : list event) : Prop :=
  match p with
  | Ret a => R w w' ∧ r = inr a ∧ evs = []
  | Raise e => R w w' ∧ r = inl e ∧ evs = []
  | Vis e k => ∃ w1 x w2 l evs', R w w1 ∧ eff_step e w1 x w2 ∧ w_log w2 = l ++ w_log w1 ∧
      traced R (k x) w2 r w' evs' ∧ evs = evs' ++ l
  end.

Lemma traced_bind_inr {A B} (R : relation world) `{!Reflexive R} (p : prog A) (f : A → prog B) w b w' evs :
  traced R (p ≫= f) w (inr b) w' evs →
  ∃ a w1 e1 e2, traced R p w (inr a) w1 e1 ∧ traced R (f a) w1 (inr b) w' e2 ∧ evs = e2 ++ e1.
Proof.
  revert w evs. induction p as [a|e|X e k IH]; intros w evs; unfold mbind, coro_mbind in *; cbn.
  - intros H. exists a, w, [], evs. rewrite app_nil_r. by split_and!.
  - by intros (_ & ? & _).
  - intros (w1 & x & w2 & l & evs' & HR & Hs & Hl & Ht & ->).
    destruct (IH x w2 evs' Ht) as (a & w3 & e1 & e2 & H1 & H2 & ->).
    exists a, w3, (e1 ++ l), e2. split_and!; [|done|by rewrite (assoc_L (++))].
    by exists w1, x, w2, l, e1.
Qed.

Lemma traced_execs {A} (R : relation world) (p : prog A) w r w' evs :
  traced R p w r w' evs → execs R p w r w'.
Proof.
  revert w evs. induction p as [a|e|X e k IH]; intros w evs; cbn; [tauto..|].
  intros (w1 & x & w2 & l & evs' & HR & Hs & _ & Ht & _). exists w1, x, w2. eauto.
Qed.

(** Every execution has a trace. *)
Lemma eff_step_log {X} (e : eff X) w x w' : eff_step e w x w' → ∃ l, w_log w' = l ++ w_log w.
Proof.
  destruct e; cbn; try (by intros ->; eexists (_ :: [])); try (by intros ->; exists []);
    try (by intros [_ ->]; exists []).
  destruct (t (w_db w)) as [ex|[a d]]; intros [_ ->]; [by exists []|by eexists [_]].
Qed.
Lemma execs_traced {A} (R : relation world) (p : prog A) w r w' :
  execs R p w r w' → ∃ evs, traced R p w r w' evs.
Proof.
  revert w. induction p as [a|e|X e k IH]; intros w; cbn; [intros []; by exists []..|].
  intros (w1 & x & w2 & HR & Hs & (evs & Ht)%IH). destruct (eff_step_log _ _ _ _ Hs) as [l Hl].
  exists (evs ++ l), w1, x, w2, l, evs. by split_and!.
Qed.

(** A pure step records nothing. *)
Lemma traced_lift {A} (R : relation world) (a : res A) w r w' evs :
  traced R (lift a) w r w' evs → R w w' ∧ r = a ∧ evs = [].
Proof. by destruct a. Qed.

(** A transaction that succeeds records itself. *)
Lemma traced_exec {X} (R : relation world) (t : tx X) w x w' evs :
  traced R (exec t) w (inr x) w' evs →
  ∃ w1 d, t (w_db w1) = inr (x, d) ∧ evs = [EvTx (w_db w1) d].
Proof.
  intros (w1 & r & w2 & l & e & _ & Hs & Hl & (_ & <- & ->)%traced_lift & ->). cbn in Hs.
  destruct (t (w_db w1)) as [ex|[y d]] eqn:E; destruct Hs as [[=] ->]; subst y. exists w1, d.
  split; [done|]. by apply (app_inv_tail _ [_]) in Hl as <-.
Qed.

(** ** Assertions on the leaves of a program *)

(** Effects that leave the world alone. *)
Definition silent {X} (e : eff X) : Prop :=
  match e with EQuery _ | ENow | EUuid4 | EToken | ESleep _ | ERevoke _ => True | _ => False end.

Lemma silent_step {X} (e : eff X) w x w' : silent e → eff_step e w x w' → w' = w.
Proof. destruct e; cbn; try done; by intros _ [_ ->]. Qed.

(** Programs of silent effects record nothing. *)
Abbreviation quiet := (every (@silent)).

Lemma traced_quiet {A} (R : relation world) (p : prog A) w r w' evs :
  quiet p → traced R p w r w' evs → evs = [].
Proof.
  revert w evs. induction p as [a|e|X e k IH]; intros w evs; cbn [every traced]; [naive_solver..|].
  intros [He Hk] (w1 & x & w2 & l & evs' & _ & Hs & Hl & Ht & ->).
  rewrite (silent_step _ _ _ _ He Hs) in Hl. rewrite (IH x w2 evs' (Hk x) Ht).
  by apply (app_inv_tail _ []) in Hl.
Qed.

Section leaves.
Context (T : relation world) `{!PreOrder T}.

Lemma rg_silent {X} (e : eff X) (Q : res X → world → Prop) w : silent e →
  (∀ x w1, T w w1 → eff_step e w1 x w1 → ∀ w', T w1 w' → Q (inr x) w') →
  rg T T (perform e) Q w.
Proof.
  intros He HQ. apply rg_perform. intros w1 H1 x w2 Hs.
  pose proof (silent_step e w1 x w2 He Hs) as ->. split; [done|]. intros w3 H3. by apply (HQ x w1).
Qed.

(** A query reads the tables of some world the coroutine passes through. *)
Lemma rg_query {X} (q : db → X) (Q : res X → world → Prop) w :
  (∀ w1 w', T w w1 → T w1 w' → Q (inr (q (w_db w1))) w') → rg T T (query q) Q w.
Proof. intros HQ. apply rg_silent; [done|]. intros x w1 H1 [-> _] w' H2. auto. Qed.

(** A transaction must move by [T] where it commits. *)
Lemma rg_exec {X} (t : tx X) (Q : res X → world → Prop) w :
  (∀ w1 x d, T w w1 → t (w_db w1) = inr (x, d) →
     T w1 (w_commit d w1) ∧ ∀ w', T (w_commit d w1) w' → Q (inr x) w') →
  (∀ e w', T w w' → Q (inl e) w') →
  rg T T (exec t) Q w.
Proof.
  intros Hok Herr. apply rg_perform_res. intros w1 H1 r w2 Hs. cbn in Hs.
  destruct (t (w_db w1)) as [e|[x d]] eqn:E; destruct Hs as [-> ->].
  - split; [done|]. intros w3 H3. apply Herr. by trans w1.
  - by apply Hok.
Qed.

Lemma safe_query {X} (q : db → X) : safe T (query q).
Proof. intros w. by apply rg_query. Qed.
Lemma safe_silent {X} (e : eff X) : silent e → safe T (perform e).
Proof. intros He w. by apply rg_silent. Qed.
Lemma safe_silent_res {X} (e : eff (res X)) : silent e → safe T (perform_res e).
Proof.
  intros He w. apply rg_perform_res. intros w1 H1 x w2 Hs.
  pose proof (silent_step e w1 x w2 He Hs) as ->. split; [reflexivity|done].
Qed.
Lemma safe_exec {X} (t : tx X) :
  (∀ w x d, t (w_db w) = inr (x, d) → T w (w_commit d w)) → safe T (exec t).
Proof. intros Ht w. apply rg_exec; [|done]. intros w1 x d _ E. split; [by eapply Ht|done]. Qed.
End leaves.

(** Decomposes a program along its structure; leaves the transactions and
    calls that no hint covers. *)
Create HintDb safe discriminated.
#[export] Hint Resolve safe_ret safe_mret safe_raise safe_lift safe_query : safe.
Ltac safe_step :=
  lazymatch goal with
  | |- safe _ (mbind _ _) => apply safe_bind; [apply _| |intros ?]
  | |- safe _ (catch _ _) => apply safe_catch; [apply _| |intros ?]
  | |- safe _ (perform_res _) => apply safe_silent_res; [apply _|exact I]
  | |- safe _ (perform _) => apply safe_silent; [apply _|exact I]
  | |- safe _ (match ?x with _ => _ end) => destruct x
  | |- safe _ _ => solve [auto with safe typeclass_instances]
  end.
Ltac safe_auto := repeat safe_step.

(** ** The server: interleaved coroutines *)

Section server.
Context (body : task → prog unit) (entry : prog unit → Prop)
        (restart : world → world → Prop).

Record config := mk_config { c_world : world; c_threads : list (prog unit) }.

(** The coroutines an effect starts. *)
Definition spawned {X} (e : eff X) : list (prog unit) :=
  match e with ESpawn t => [body t] | _ => [] end.

(** One coroutine performs its next effect; a request or a timer starts a
    coroutine; the process dies at any point, losing its coroutines, and is
    started again. *)
Inductive step : config → config → Prop :=
| step_eff w w' ts1 ts2 X (e : eff X) k x :
    eff_step e w x w' →
    step (mk_config w (ts1 ++ Vis e k :: ts2))
         (mk_config w' (ts1 ++ k x :: ts2 ++ spawned e))
| step_start w ts p : entry p → step (mk_config w ts) (mk_config w (ts ++ [p]))
| step_restart w w' ts : restart w w' → step (mk_config w ts) (mk_config w' []).

Context (T : relation world) `{!PreOrder T} (Inv : world → Prop).

(** A relation every coroutine guarantees and relies on holds between any two
    successive worlds of the server. *)
Lemma server_invariant c c' :
  (∀ w p, Inv w → entry p → rg T T p (λ _ _, True) w) →
  (∀ w w' t, Inv w → eff_step (ESpawn t) w tt w' → T w w' → rg T T (body t) (λ _ _, True) w') →
  (∀ w w', Inv w → restart w w' → T w w') →
  (∀ w w', T w w' → Inv w → Inv w') →
  Inv (c_world c) → Forall (λ p, rg T T p (λ _ _, True) (c_world c)) (c_threads c) →
  rtc step c c' →
  T (c_world c) (c_world c') ∧ Inv (c_world c') ∧
  Forall (λ p, rg T T p (λ _ _, True) (c_world c')) (c_threads c').
Proof.
  intros Hentry Hbody Hrestart HTI Hinv Hts Hsteps. revert Hinv Hts.
  induction Hsteps as [c|c c1 c2 Hstep _ IH]; intros Hinv Hts; [done|].
  assert (T (c_world c) (c_world c1) ∧
    Forall (λ p, rg T T p (λ _ _, True) (c_world c1)) (c_threads c1)) as [HT Hts1].
  { destruct Hstep as [w w' ts1 ts2 X e k x Hs|w ts p Hp|w w' ts Hr]; cbn in *.
    - apply Forall_app in Hts as [H1 [Hk H2]%Forall_cons].
      destruct (Hk w (reflexivity w) x w' Hs) as [HT Hkx]. split; [done|].
      assert (∀ l : list (prog unit), Forall (λ p, rg T T p (λ _ _, True) w) l →
        Forall (λ p, rg T T p (λ _ _, True) w') l) as Hl.
      { intros l Hl. eapply Forall_impl; [exact Hl|]. intros p. by apply rg_rely. }
      apply Forall_app. split; [auto|]. constructor; [done|]. apply Forall_app. split; [auto|].
      clear Hk Hkx. destruct e; cbn in *; try constructor; [|constructor]. subst w'. by apply (Hbody w).
    - split; [done|]. apply Forall_app. split; [done|]. repeat constructor. auto.
    - split; [auto|constructor]. }
  destruct (IH (HTI _ _ HT Hinv) Hts1) as (HT2 & ? & ?). split; [by trans (c_world c1)|done].
Qed.
End server.
