(* ===== verification/Nonce.v ===== *)
(** * Replay nonces: [services/nonce.py]

    Generation under the [NONCE_MAX] ceiling, single-use consumption by one
    conditional UPDATE, and pruning. *)
From S2P Require Import Prelude PyStr Json Base64 External PyStd Models Config Prog.

(** ** Statements on the [nonces] table *)

(** [UPDATE nonces SET used = 1 WHERE value = ? AND NOT used AND created_at >= ?]:
    the row count.  No stored value equals a [None] parameter. *)
Definition consume_stmt (value : option str) (cutoff : Z) : tx Z := λ d,
  match value ≫= λ v, (v,.) <$> nonces d !! v with
  | Some (v, n) =>
      if negb (nonce_used n) && (cutoff <=? nonce_created_at n)
      then inr (1, set_nonces (<[v := set_nonce_used n]> (nonces d)) d)
      else inr (0, d)
  | None => inr (0, d)
  end.

(** [DELETE FROM nonces WHERE created_at < ?]. *)
Definition prune_stmt (cutoff : Z) : tx unit := λ d,
  inr (tt, set_nonces (filter (λ kn, negb (nonce_created_at kn.2 <? cutoff) = true) (nonces d)) d).

(** A JSON value as the text parameter of a statement: texts are compared
    (a lone surrogate cannot be bound), containers and integers beyond 64 bits are refused by the driver, the
    other scalars equal no stored text. *)
Definition sql_text (j : json) : res (option str) :=
  match j with
  | JStr s => if encodable s then inr (Some s) else inl (PyErr UnicodeError [])
  | JArr _ | JObj _ => inl (PyErr TypeError [])
  | JInt n => if (- 2 ^ 63 <=? n) && (n <? 2 ^ 63) then inr None else inl (PyErr ValueError [])
  | _ => inr None
  end.

(** ** Operations *)

Section nonce.
Context (cfg : Settings).

Definition generate_nonce : prog (option str) :=
  let cap := nonce_max cfg in
  full ← (if 0 <? cap
          then count ← query (λ d, Z.of_nat (size (nonces d))); Ret (cap <=? count)
          else Ret false);
  if (full : bool) then Ret None
  else
    value ← perform EToken;
    now ← perform ENow;
    exec (insert_nonce value (mk_Nonce false now)) ;;
    Ret (Some value).

Definition consume_nonce (value : json) : prog unit :=
  now ← perform ENow;
  let cutoff := now - seconds (nonce_ttl cfg) in
  v ← lift (sql_text value);
  rowcount ← exec (consume_stmt v cutoff);
  if rowcount =? 0
  then Raise (http_error 400 (u "Invalid, already-used, or expired nonce"))
  else Ret tt.

Definition prune_nonces : prog unit :=
  now ← perform ENow;
  exec (prune_stmt (now - seconds (nonce_ttl cfg))).
End nonce.

(** ** The life of one nonce *)

(** Allowed changes of one row: inserted unused, marked used, deleted. *)
Definition nonce_change (before after : option Nonce) : Prop :=
  match before, after with
  | None, Some n => nonce_used n = false
  | Some n, Some n' => n' = n ∨ (nonce_used n = false ∧ n' = set_nonce_used n)
  | _, None => True
  end.
Definition nonces_step (t t' : gmap str Nonce) : Prop := ∀ v, nonce_change (t !! v) (t' !! v).

Lemma nonce_change_refl o : nonce_change o o.
Proof. destruct o; cbn; auto. Qed.
Lemma nonces_step_refl t : nonces_step t t.
Proof. intros v. apply nonce_change_refl. Qed.
#[export] Hint Resolve nonces_step_refl : jackdaw.

(** In a transaction's record: [v] was accepted; [v] was issued. *)
Definition consumes (v : str) (ev : event) : bool :=
  match ev with
  | EvTx b a =>
      match nonces b !! v, nonces a !! v with
      | Some n, Some n' => negb (nonce_used n) && nonce_used n'
      | _, _ => false
      end
  | _ => false
  end.
Definition issues (v : str) (ev : event) : bool :=
  match ev with
  | EvTx b a => match nonces b !! v, nonces a !! v with None, Some _ => true | _, _ => false end
  | _ => false
  end.
Definition count {A} (f : A → bool) (l : list A) : nat := length (filter (λ x, f x = true) l).

Lemma count_cons {A} (f : A → bool) x l : count f (x :: l) = ((if f x then 1 else 0) + count f l)%nat.
Proof. unfold count. rewrite filter_cons. destruct (f x); by case_decide. Qed.

(** [v] is stored and unused. *)
Definition live (v : str) (d : db) : nat :=
  match nonces d !! v with Some n => if nonce_used n then 0 else 1 | None => 0 end.

(** Acceptances of [v], plus one when it could still be accepted, are at most
    its issuances: preserved by every permitted transaction. *)
Definition spent (v : str) (w : world) : Prop :=
  (count (consumes v) (w_log w) + live v (w_db w) ≤ count (issues v) (w_log w))%nat.

Lemma spent_commit v w d :
  nonces_step (nonces (w_db w)) (nonces d) → spent v w → spent v (w_commit d w).
Proof.
  intros Hs. specialize (Hs v). unfold spent, live, w_commit; cbn [w_log w_db].
  rewrite !count_cons. cbn [consumes issues]. unfold nonce_change in Hs.
  destruct (nonces (w_db w) !! v) as [n|], (nonces d !! v) as [n'|].
  - destruct Hs as [->|[Hn ->]]; [destruct (nonce_used n)|rewrite Hn]; cbn [negb andb nonce_used set_nonce_used]; lia.
  - destruct (nonce_used n); lia.
  - rewrite Hs. lia.
  - lia.
Qed.

Lemma nonces_step_insert t v n : t !! v = None → nonce_used n = false →
  nonces_step t (<[v := n]> t).
Proof.
  intros Hv Hn k. destruct (decide (v = k)) as [<-|]; [by rewrite Hv, lookup_insert_eq|].
  rewrite lookup_insert_ne by done. apply nonce_change_refl.
Qed.

Lemma nonces_step_use t v n : t !! v = Some n → nonce_used n = false →
  nonces_step t (<[v := set_nonce_used n]> t).
Proof.
  intros Hv Hn k. destruct (decide (v = k)) as [<-|].
  - rewrite Hv, lookup_insert_eq. cbn. auto.
  - rewrite lookup_insert_ne by done. apply nonce_change_refl.
Qed.

Lemma nonces_step_filter (P : str * Nonce → Prop) `{!∀ x, Decision (P x)} t :
  nonces_step t (filter P t).
Proof.
  intros k. destruct (filter P t !! k) as [n|] eqn:E.
  - apply map_lookup_filter_Some in E as [-> _]. cbn. auto.
  - destruct (t !! k); done.
Qed.

(** ** What the operations guarantee *)

(** A relation on worlds that tolerates what every coroutine may do: resolving
    names, locking, and permitted changes of the nonce table. *)
Class Tolerant (T : relation world) := {
  tol_preorder :: PreOrder T;
  tol_log : ∀ w w', T w w' → w_log w `suffix_of` w_log w';
  tol_resolve : ∀ w h r, T w (w_record (EvResolve h r) w);
  tol_locks : ∀ w s, T w (w_lock s w);
  tol_nonces : ∀ w t, nonces_step (nonces (w_db w)) t → T w (w_commit (set_nonces t (w_db w)) w)
}.

(** The weakest such relation: the history grows. *)
Definition grows (w w' : world) : Prop := w_log w `suffix_of` w_log w'.
#[export] Instance grows_tolerant : Tolerant grows.
Proof.
  split; unfold grows; cbn.
  - split; [by intros w|]. intros w1 w2 w3 H1 H2. by etrans.
  - done.
  - intros w h r. by apply suffix_cons_r.
  - done.
  - intros w t _. by apply suffix_cons_r.
Qed.

(** [ev] happened between [w] and [w']. *)
Definition recorded (w w' : world) (ev : event) : Prop :=
  ∃ l, w_log w' = l ++ w_log w ∧ ev ∈ l.

Section guarantee.
Context (cfg : Settings) (T : relation world) `{!Tolerant T}.

Lemma recorded_later w w1 w2 w3 ev :
  T w w1 → recorded w1 w2 ev → T w2 w3 → recorded w w3 ev.
Proof.
  intros [l1 H1]%tol_log (l & H2 & Hin) [l3 H3]%tol_log. exists (l3 ++ l ++ l1).
  rewrite H3, H2, H1. split; [by rewrite <- !(assoc_L (++))|]. rewrite !elem_of_app. auto.
Qed.

Lemma insert_nonce_safe v now : safe T (exec (insert_nonce v (mk_Nonce false now))).
Proof.
  apply safe_exec; [apply _|]. intros w x d (_ & Hn & ->)%insert_row_inr.
  by apply tol_nonces, nonces_step_insert.
Qed.

Lemma consume_stmt_inr v cutoff d n d' : consume_stmt v cutoff d = inr (n, d') →
  (n = 0 ∧ d' = d) ∨
  ∃ v' r, v = Some v' ∧ nonces d !! v' = Some r ∧ nonce_used r = false ∧
    cutoff ≤ nonce_created_at r ∧ n = 1 ∧ d' = set_nonces (<[v' := set_nonce_used r]> (nonces d)) d.
Proof.
  unfold consume_stmt. destruct v as [v|]; cbn; [|intros [= <- <-]; by left].
  destruct (nonces d !! v) as [r|] eqn:E; cbn; [|intros [= <- <-]; by left].
  destruct (nonce_used r) eqn:Hu; cbn; [intros [= <- <-]; by left|].
  destruct (Z.leb_spec cutoff (nonce_created_at r)); intros [= <- <-]; [|by left].
  right. exists v, r. done.
Qed.

Lemma consume_stmt_step v cutoff w n d : consume_stmt v cutoff (w_db w) = inr (n, d) →
  T w (w_commit d w).
Proof.
  intros [[_ ->]|(v' & r & _ & Hr & Hu & _ & _ & ->)]%consume_stmt_inr.
  - destruct (w_db w) as [a o z c t] eqn:E.
    pose proof (tol_nonces w t) as H. rewrite E in H. apply H. apply nonces_step_refl.
  - by apply tol_nonces, nonces_step_use.
Qed.

Lemma prune_safe : safe T (prune_nonces cfg).
Proof.
  unfold prune_nonces. safe_auto. apply safe_exec; [apply _|]. intros w x d. unfold prune_stmt.
  intros [= _ <-]. apply tol_nonces, nonces_step_filter.
Qed.

Lemma generate_nonce_safe : safe T (generate_nonce cfg).
Proof. unfold generate_nonce. safe_auto. apply insert_nonce_safe. Qed.

(** [consume_nonce] returns only after a transaction of its own consumed the
    very value, then within its time to live. *)
Lemma consume_nonce_rg value (Q : res unit → world → Prop) w :
  (∀ r w', T w w' →
     (r = inr tt → ∃ v ev, value = JStr v ∧ recorded w w' ev ∧ consumes v ev = true) → Q r w') →
  rg T T (consume_nonce cfg value) Q w.
Proof.
  intros HQ. apply rg_frame; [apply _|]. unfold consume_nonce.
  apply rg_bind, rg_silent; [apply _..|exact I|]. intros now w1 H1 _ w2 H2.
  apply rg_bind, rg_lift; [apply _|]. intros w3 H3. destruct (sql_text value) as [e|v] eqn:Ev.
  { intros H. by apply HQ. }
  apply rg_bind, rg_exec; [apply _..| |by intros e w' _ H; apply HQ].
  intros w4 n d H4 E. split; [by eapply consume_stmt_step|]. intros w5 H5.
  destruct (Z.eqb_spec n 0) as [->|Hn].
  { apply rg_raise. intros w' _ H. by apply HQ. }
  apply rg_ret. intros w' H6 H. apply HQ; [done|]. intros _.
  apply consume_stmt_inr in E as [[-> _]|(v' & r & -> & Hr & Hu & _ & _ & ->)]; [done|].
  exists v', (EvTx (w_db w4) (set_nonces (<[v' := set_nonce_used r]> (nonces (w_db w4))) (w_db w4))).
  split_and!.
  - destruct value; cbn in Ev; try done; [by destruct (_ && _)|].
      destruct (encodable s); [|done]. by injection Ev as ->.
  - assert (T w w4) as [l0 Hl0]%tol_log by (trans w1; [done|by trans w2; [|trans w3]]).
    assert (T (w_commit (set_nonces (<[v' := set_nonce_used r]> (nonces (w_db w4))) (w_db w4)) w4) w')
      as [l Hl]%tol_log by by trans w5.
    cbn in Hl. rewrite Hl0 in Hl. eexists (l ++ [_] ++ l0). rewrite Hl. split.
    + by rewrite <- !(assoc_L (++)).
    + rewrite !elem_of_app, list_elem_of_singleton. by right; left.
  - cbn. by rewrite Hr, lookup_insert_eq, Hu.
Qed.

Lemma consume_nonce_safe value : safe T (consume_nonce cfg value).
Proof. intros w. by apply consume_nonce_rg. Qed.
End guarantee.
#[export] Hint Resolve generate_nonce_safe consume_nonce_safe prune_safe : safe.

(** An accepted consumption is one transaction of the coroutine itself, which
    consumes the value. *)
Lemma consume_nonce_traced cfg (R : relation world) `{!Reflexive R} value w w' evs :
  traced R (consume_nonce cfg value) w (inr tt) w' evs →
  ∃ v ev, value = JStr v ∧ evs = [ev] ∧ consumes v ev = true.
Proof.
  intros (now & w1 & e1 & e2 & Ht1 & Ht & ->)%traced_bind_inr; [|done].
  apply traced_quiet in Ht1 as ->; [|done]. rewrite app_nil_r.
  apply traced_bind_inr in Ht as (v & w2 & e3 & e4 & (_ & Hv & ->)%traced_lift & Ht & ->); [|done].
  rewrite app_nil_r.
  apply traced_bind_inr in Ht as (n & w3 & e5 & e6 & (w4 & d & Hn & ->)%traced_exec & Ht & ->); [|done].
  destruct (Z.eqb_spec n 0) as [_|Hn0]; [by destruct Ht as (_ & ? & _)|]. destruct Ht as (_ & _ & ->).
  apply consume_stmt_inr in Hn as [[? _]|(v' & r & -> & Hr & Hu & _ & _ & ->)]; [done|].
  eexists v', _. split_and!; [|done|].
  - destruct value; cbn in Hv; try done; [by destruct (_ && _)|].
    destruct (encodable s); [|done]. by injection Hv as ->.
  - cbn. by rewrite Hr, lookup_insert_eq, Hu.
Qed.

(** ** Sequential behaviour *)

(** The answers left when the clock has been read once. *)
Definition tick (s : answers) : answers :=
  mk_answers (tail (an_clock s)) (an_uuids s) (an_tokens s) (an_dns s) (an_http s) (an_sign s)
    (an_revoke s).

(** Would [consume_nonce] accept [v] at time [now]? *)
Definition acceptable (cfg : Settings) (v : str) (now : Z) (d : db) : bool :=
  match nonces d !! v with
  | Some n => negb (nonce_used n) && (now - seconds (nonce_ttl cfg) <=? nonce_created_at n)
  | None => false
  end.

(** ** Properties *)

(** Run alone, [consume_nonce] succeeds exactly when the value is stored,
    unused and no older than NONCE_TTL, and then marks it used and changes
    nothing else; otherwise it answers HTTP 400 and changes nothing. *)
Theorem consume_nonce_spec cfg v w s :
  let now := next 0 (an_clock s) in
  encodable v = true →
  run (consume_nonce cfg (JStr v)) w s =
  if acceptable cfg v now (w_db w)
  then (inr tt, w_commit (set_nonces (alter set_nonce_used v (nonces (w_db w))) (w_db w)) w, tick s)
  else (inl (http_error 400 (u "Invalid, already-used, or expired nonce")),
        w_commit (w_db w) w, tick s).
Proof.
  intros now Hv. destruct s as [c i t dn h g vv]. unfold acceptable, consume_nonce. cbn. rewrite Hv. cbn.
  unfold consume_stmt. cbn. destruct (nonces (w_db w) !! v) as [n|] eqn:E; cbn; [|done].
  subst now. cbn. destruct (_ && _); [|done]. cbn. unfold alter, map_alter.
  do 3 f_equal. f_equal. apply map_eq. intros k. destruct (decide (k = v)) as [->|Hk].
  - by rewrite lookup_insert_eq, lookup_partial_alter_eq, E.
  - by rewrite lookup_insert_ne, lookup_partial_alter_ne by done.
Qed.

Lemma consume_nonce_spec_witness :
  let cfg := Settings_defaults (u "null") (u "r") (u "e") in
  let w := mk_world (set_nonces {[u "n" := mk_Nonce true 0]} empty_db) ∅ [] in
  let s := mk_answers [5] [] [] [] [] [] [] in
  run (consume_nonce cfg (JStr (u "n"))) w s =
  (inl (http_error 400 (u "Invalid, already-used, or expired nonce")), w_commit (w_db w) w, tick s).
Proof. intros cfg w s. exact (consume_nonce_spec cfg (u "n") w s eq_refl). Defined.

(** With the ceiling on ([NONCE_MAX] positive), a [generate_nonce] that runs
    alone never grows the table past the ceiling, and issues nothing once it
    is reached. *)
Theorem generate_nonce_cap cfg w r w' :
  0 < nonce_max cfg → execs (=) (generate_nonce cfg) w r w' →
  Z.of_nat (size (nonces (w_db w'))) ≤ Z.max (nonce_max cfg) (Z.of_nat (size (nonces (w_db w)))) ∧
  (nonce_max cfg ≤ Z.of_nat (size (nonces (w_db w))) → r = inr None ∧ w' = w).
Proof.
  intros Hcap. unfold generate_nonce. rewrite (proj2 (Z.ltb_lt _ _) Hcap).
  intros (w1 & n & w2 & <- & [-> ->] & E). cbn in E.
  destruct (Z.leb_spec (nonce_max cfg) (Z.of_nat (size (nonces (w_db w))))) as [Hle|Hlt].
  { destruct E as [<- ->]. split; [lia|done]. }
  split; [|lia]. destruct E as (w3 & v & w4 & <- & [_ ->] & w5 & now & w6 & <- & -> & E).
  destruct E as (w7 & x & w8 & <- & Hx & E). cbn in Hx. revert Hx E. unfold insert_nonce, insert_row.
  destruct (negb _); [by intros [-> ->] [<- _]; lia|].
  destruct (nonces (w_db w) !! v) as [n|] eqn:Ev; intros [-> ->] E; cbn in E.
  - destruct E as [<- _]. lia.
  - destruct E as [<- _]. cbn. rewrite map_size_insert_None by done. lia.
Qed.

Lemma generate_nonce_cap_witness :
  let cfg := Settings_defaults (u "null") (u "r") (u "e") in
  let w := mk_world empty_db ∅ [] in
  ∃ w', execs (=) (generate_nonce cfg) w (inr (Some default_token)) w' ∧
        Z.of_nat (size (nonces (w_db w'))) ≤ 10000.
Proof.
  intros cfg w.
  set (w' := w_commit (set_nonces {[default_token := mk_Nonce false 5]} empty_db) w).
  assert (execs (=) (generate_nonce cfg) w (inr (Some default_token)) w') as He.
  { apply (run_execs _ _ (mk_answers [5] [] [] [] [] [] []) _ _ (mk_answers [] [] [] [] [] [] [])).
    - vm_compute. tauto.
    - split; constructor.
    - vm_compute. reflexivity. }
  exists w'. split; [exact He|].
  exact (proj1 (generate_nonce_cap cfg w _ w' eq_refl He)).
Defined.
