(* ===== verification/Jws.v ===== *)
(** * Signed requests: [services/jws.py]

    Every authenticated POST goes through [verify_jws]: content type, envelope,
    algorithm, URL, key resolution, signature, and only then the nonce.  A
    Python value decoded from JSON is a [json]; operations that raise on the
    wrong type raise here too. *)
From S2P Require Import Prelude PyStr Json Base64 External PyStd Models Config Prog Nonce.

(** ** Requests *)

Record request := mk_request {
  rq_content_type : option str;   (** the [content-type] header *)
  rq_body : bytes;
  rq_url : str                    (** [str(request.url)] *)
}.

(** ** Python operations on decoded values *)

(** [d.get(k, dflt)]. *)
Definition py_get (k : string) (dflt d : json) : res json :=
  match d with
  | JObj kvs => inr (default dflt (dict_get (u k) kvs))
  | _ => inl (PyErr AttributeError [])
  end.

(** [d[k]]. *)
Definition py_item (k : string) (d : json) : res json :=
  match d with
  | JObj kvs => or_raise (PyErr KeyError (u k)) (dict_get (u k) kvs)
  | _ => inl (PyErr TypeError [])
  end.

Definition is_null (j : json) : bool := match j with JNull => true | _ => false end.

Section values.
Context `{Ext}.

(** [bool(j)]. *)
Definition py_truthy (j : json) : bool :=
  match j with
  | JNull => false
  | JBool b => b
  | JInt n => negb (n =? 0)
  | JFloat t => float_truthy t
  | JStr s => truthy s
  | JArr l => match l with [] => false | _ => true end
  | JObj kvs => match kvs with [] => false | _ => true end
  end.

(** [b64url_decode(j)]: a value that is not a text raises. *)
Definition b64url_arg (j : json) : option bytes :=
  match j with JStr s => b64url_decode s | _ => None end.
End values.

(** ** Operations *)

(** [_ALLOWED_ALGS]. *)
Definition ALLOWED_ALGS : list str :=
  [u "RS256"; u "RS384"; u "RS512"; u "ES256"; u "ES384"; u "ES512"].

Section jws.
Context `{Ext} (cfg : Settings).

Definition account_url_prefix : str := relay_base_url cfg ++ u "/acme/account/".

(** [alg_name in _ALLOWED_ALGS]: membership hashes its left operand. *)
Definition alg_allowed (alg : json) : res bool :=
  match alg with
  | JStr s => inr (bool_decide (s ∈ ALLOWED_ALGS))
  | JArr _ | JObj _ => inl (PyErr TypeError [])
  | _ => inr false
  end.

(** [JWK.from_json(j)]. *)
Definition parse_jwk (j : json) : res jwk := or_raise (PyErr ValueError []) (jwk_from_json j).

Definition resolve_key_and_account (protected : json) : prog (jwk * str) :=
  jwk_data ← lift (py_get "jwk" JNull protected);
  kid ← lift (py_get "kid" JNull protected);
  if negb (is_null jwk_data) && negb (is_null kid)
  then Raise (http_error 400 (u "JWS protected header must contain 'jwk' or 'kid', not both"))
  else if negb (is_null jwk_data)
  then k ← lift (parse_jwk jwk_data); Ret (k, [])
  else if negb (is_null kid)
  then
    match kid with
    | JStr kid =>
        if negb (startswith kid account_url_prefix)
        then Raise (http_error 400 (u "JWS kid is not a valid account URL for this server"))
        else
          let account_id := rstrip (drop (length account_url_prefix) kid) (u "/") in
          if negb (truthy account_id)
          then Raise (http_error 400 (u "JWS kid is missing the account ID"))
          else
            lift (if encodable account_id then inr tt else inl (PyErr UnicodeError [])) ;;
            account ← query (λ d, accounts d !! account_id);
            match account with
            | None => Raise (http_error 401 (u "Account not found"))
            | Some a =>
                if negb (bool_decide (account_status a = u "valid"))
                then Raise (http_error 401 (u "Account is not active"))
                else
                  data ← lift (or_raise (PyErr ValueError []) (loads (account_public_key a)));
                  k ← lift (parse_jwk data);
                  Ret (k, account_id)
            end
    | _ => Raise (PyErr AttributeError [])
    end
  else Raise (http_error 400 (u "JWS protected header must contain 'jwk' or 'kid'")).

Definition verify_jws_signature (alg : str) (k : jwk) (signing_input sig : bytes) : res unit :=
  if default false (jwa_verify alg k signing_input sig)
  then inr tt
  else inl (http_error 400 (u "JWS signature verification failed")).

Definition decode_jws_payload (payload_b64 : json) : res json :=
  if negb (py_truthy payload_b64) then inr (JObj [])
  else or_raise (http_error 400 (u "Invalid JWS payload encoding"))
         (b64url_arg payload_b64 ≫= loads_bytes).

(** The request body as a JSON object. *)
Definition request_json (rq : request) : res json :=
  match loads_bytes (rq_body rq) with
  | Some (JObj kvs) => inr (JObj kvs)
  | _ => inl (http_error 400 (u "Request body is not valid JSON"))
  end.

Definition jose_content_type (rq : request) : bool :=
  str_contains (u "application/jose+json") (default [] (rq_content_type rq)).

(** The part of [verify_jws] before the key is resolved: the three fields of
    the envelope, the protected header and the algorithm. *)
Definition jws_envelope (rq : request) : res (str * json * json * json * str) :=
  if negb (jose_content_type rq)
  then inl (http_error 415 (u "Content-Type must be application/jose+json"))
  else
    body ← request_json rq;
    protected_b64 ← py_get "protected" (JStr []) body;
    payload_b64 ← py_get "payload" (JStr []) body;
    signature_b64 ← py_get "signature" (JStr []) body;
    if negb (py_truthy protected_b64) || negb (py_truthy signature_b64)
    then inl (http_error 400 (u "JWS missing required fields"))
    else
      protected ← or_raise (http_error 400 (u "Invalid JWS protected header"))
                    (b64url_arg protected_b64 ≫= loads_bytes);
      alg_name ← py_get "alg" (JStr []) protected;
      ok ← alg_allowed alg_name;
      if negb ok
      then inl (http_error 400 (u "Unsupported JWS algorithm: " ++ py_repr alg_name))
      else
        url ← py_get "url" JNull protected;
        if negb (bool_decide (url = JStr (rq_url rq)))
        then inl (http_error 400 (u "JWS url claim does not match request URL"))
        else
          (* both are texts: the header decoded, the algorithm is in the set *)
          match protected_b64, alg_name with
          | JStr p, JStr alg => inr (p, payload_b64, signature_b64, protected, alg)
          | _, _ => inl (PyErr TypeError [])
          end.

Definition verify_jws (rq : request) : prog (json * str) :=
  '(protected_b64, payload_b64, signature_b64, protected, alg_name) ← lift (jws_envelope rq);
  '(k, account_id) ← resolve_key_and_account protected;
  signing_input ← lift (or_raise (PyErr UnicodeError [])
    (ascii_encode (protected_b64 ++ u "." ++ py_format payload_b64)));
  sig_bytes ← lift (or_raise (PyErr ValueError []) (b64url_arg signature_b64));
  lift (verify_jws_signature alg_name k signing_input sig_bytes) ;;
  nonce ← lift (py_get "nonce" (JStr []) protected);
  consume_nonce cfg nonce ;;
  payload ← lift (decode_jws_payload payload_b64);
  Ret (payload, account_id).
End jws.

(** ** What an accepted request proves *)

Section accepted.
Context `{Ext} (cfg : Settings).

(** [k] is the key the header names, for account [acct] ([""] for an embedded
    key), according to the tables [d]. *)
Definition key_for (protected : json) (acct : str) (k : jwk) (d : db) : Prop :=
  (acct = [] ∧ ∃ j, py_get "jwk" JNull protected = inr j ∧ jwk_from_json j = Some k) ∨
  (acct ≠ [] ∧
   (∃ slashes, Forall (λ c, c = 47) slashes ∧
      py_get "kid" JNull protected = inr (JStr (account_url_prefix cfg ++ acct ++ slashes))) ∧
   ∃ a, accounts d !! acct = Some a ∧ account_status a = u "valid" ∧
        loads (account_public_key a) ≫= jwk_from_json = Some k).

(** The request is signed: the algorithm is allowed, the header names the
    request's URL, and [k] verifies the signature over header and payload. *)
Definition signed_by (rq : request) (protected : json) (k : jwk) : Prop :=
  ∃ p payload sig alg msg sb,
    jws_envelope rq = inr (p, payload, sig, protected, alg) ∧
    alg ∈ ALLOWED_ALGS ∧
    py_get "url" JNull protected = inr (JStr (rq_url rq)) ∧
    ascii_encode (p ++ u "." ++ py_format payload) = Some msg ∧
    b64url_arg sig = Some sb ∧
    jwa_verify alg k msg sb = Some true.

Lemma jws_envelope_inr rq p payload sig protected alg :
  jws_envelope rq = inr (p, payload, sig, protected, alg) →
  alg ∈ ALLOWED_ALGS ∧ py_get "url" JNull protected = inr (JStr (rq_url rq)).
Proof.
  unfold jws_envelope. destruct (negb _); [done|].
  rewrite !res_bind_inr. intros (body & _ & E). revert E.
  rewrite res_bind_inr. intros (p' & _ & E). revert E.
  rewrite res_bind_inr. intros (pl & _ & E). revert E.
  rewrite res_bind_inr. intros (sg & _ & E). revert E. destruct (_ || _); [done|].
  rewrite res_bind_inr. intros (prot & _ & E). revert E.
  rewrite res_bind_inr. intros (al & _ & E). revert E.
  rewrite res_bind_inr. intros (ok & Hok & E). revert E. destruct ok; [|done]. cbn [negb].
  rewrite res_bind_inr. intros (url & Hurl & E). revert E.
  case_bool_decide as Hu; [|done]. cbn [negb]. subst url.
  destruct p', al; try done. intros [= -> -> -> -> ->]. split; [|done].
  cbn in Hok. injection Hok as Hok. by apply bool_decide_eq_true in Hok.
Qed.

Lemma verify_signature_inr alg k msg sig :
  verify_jws_signature alg k msg sig = inr tt ↔ jwa_verify alg k msg sig = Some true.
Proof. unfold verify_jws_signature. destruct (jwa_verify alg k msg sig) as [[]|]; cbn; split; congruence. Qed.

(** What an accepted request has shown, between [w] and [w']: some state of
    the tables in between gives the account's key, the key signed the
    request, and the request spent the nonce its header names. *)
Definition accepted (rq : request) (T : relation world) (acct : str) (w w' : world) : Prop :=
  ∃ protected k w1 v ev,
    T w w1 ∧ T w1 w' ∧ key_for protected acct k (w_db w1) ∧
    signed_by rq protected k ∧
    py_get "nonce" (JStr []) protected = inr (JStr v) ∧
    recorded w w' ev ∧ consumes v ev = true.

Context (T : relation world) `{!PreOrder T}.

Lemma resolve_rg protected (Q : res (jwk * str) → world → Prop) w :
  (∀ r w', T w w' →
     (∀ k acct, r = inr (k, acct) →
        ∃ w1, T w w1 ∧ T w1 w' ∧ key_for protected acct k (w_db w1)) → Q r w') →
  rg T T (resolve_key_and_account cfg protected) Q w.
Proof.
  intros HQ. apply rg_frame; [apply _|]. unfold resolve_key_and_account.
  apply rg_bind, rg_lift; [apply _|]. intros w1 H1.
  destruct (py_get "jwk" JNull protected) as [|jd] eqn:Ej; [intros _; by apply HQ|].
  apply rg_bind, rg_lift; [apply _|]. intros w2 H2.
  destruct (py_get "kid" JNull protected) as [|kid] eqn:Ek; [by intros; apply HQ|].
  destruct (negb (is_null jd) && negb (is_null kid)); [by apply rg_raise; intros; apply HQ|].
  destruct (negb (is_null jd)) eqn:Hjd.
  { apply rg_bind, rg_lift; [apply _|]. intros w3 H3. unfold parse_jwk.
    destruct (jwk_from_json jd) as [k|] eqn:Ek'; cbn; [|by intros; apply HQ].
    intros w4 H4 Hw. apply HQ; [done|]. intros k' acct [= <- <-].
    exists w4. split_and!; [done|done|]. left. split; [done|]. by exists jd. }
  destruct (negb (is_null kid)); [|by apply rg_raise; intros; apply HQ].
  destruct kid as [| | | |kid| |]; try by apply rg_raise; intros; apply HQ.
  destruct (startswith kid _) eqn:Hpre; cbn [negb]; [|by apply rg_raise; intros; apply HQ].
  set (acct := rstrip _ _). destruct (truthy acct) eqn:Hacct; cbn [negb];
    [|by apply rg_raise; intros; apply HQ].
  apply rg_bind, rg_lift; [apply _|]. intros w2' H2'.
  destruct (encodable acct); [|by intros; apply HQ].
  apply rg_bind, rg_query; [apply _..|]. intros w3 w4 H3 H4.
  destruct (accounts (w_db w3) !! acct) as [a|] eqn:Ea; [|by apply rg_raise; intros; apply HQ].
  case_bool_decide as Hst; cbn [negb]; [|by apply rg_raise; intros; apply HQ].
  apply rg_bind, rg_lift; [apply _|]. intros w5 H5.
  destruct (loads (account_public_key a)) as [data|] eqn:Ed; cbn; [|by intros; apply HQ].
  apply rg_bind, rg_lift; [apply _|]. intros w6 H6. unfold parse_jwk.
  destruct (jwk_from_json data) as [k|] eqn:Ekey; cbn; [|by intros; apply HQ].
  intros w7 H7 Hw. apply HQ; [done|]. intros k' acct' [= <- <-].
  exists w3. split_and!; [by trans w1; [|trans w2; [|trans w2']]|by trans w4; [|trans w5; [|trans w6]]|].
  right. split; [by apply truthy_true|]. split.
  - apply startswith_true in Hpre as [r ->]. subst acct. rewrite drop_app_length.
    destruct (rstrip_by_split (λ c, bool_decide (c ∈ u "/")) r) as (q & Hq & Hs).
    exists q. split; [|unfold rstrip; by rewrite <- Hq].
    eapply Forall_impl; [exact Hs|]. intros c Hc%bool_decide_eq_true.
    by apply list_elem_of_singleton in Hc.
  - exists a. split_and!; [done|done|]. by rewrite Ed.
Qed.


Lemma resolve_safe protected : safe T (resolve_key_and_account cfg protected).
Proof. intros w. by apply resolve_rg. Qed.
End accepted.

Section verified.
Context `{Ext} (cfg : Settings) (T : relation world) `{!Tolerant T}.

Lemma verify_jws_rg rq (Q : res (json * str) → world → Prop) w :
  (∀ r w', T w w' →
     (∀ payload acct, r = inr (payload, acct) → accepted cfg rq T acct w w') → Q r w') →
  rg T T (verify_jws cfg rq) Q w.
Proof.
  intros HQ. apply rg_frame; [apply _|]. unfold verify_jws.
  apply rg_bind, rg_lift; [apply _|]. intros w1 H1.
  destruct (jws_envelope rq) as [e|[[[[p pl] sg] prot] alg]] eqn:Eenv; [by intros; apply HQ|].
  destruct (jws_envelope_inr _ _ _ _ _ _ Eenv) as [Halg Hurl].
  apply rg_bind, resolve_rg; [apply _..|]. intros [e|[k acct]] w2 H2 Hkey; [by intros; apply HQ|].
  destruct (Hkey k acct eq_refl) as (wk & Hk1 & Hk2 & Hkf).
  apply rg_bind, rg_lift; [apply _|]. intros w3 H3.
  destruct (ascii_encode _) as [msg|] eqn:Emsg; cbn [or_raise]; [|by intros; apply HQ].
  apply rg_bind, rg_lift; [apply _|]. intros w4 H4.
  destruct (b64url_arg sg) as [sb|] eqn:Esb; cbn [or_raise]; [|by intros; apply HQ].
  apply rg_bind, rg_lift; [apply _|]. intros w5 H5.
  destruct (verify_jws_signature alg k msg sb) as [|[]] eqn:Ever; [by intros; apply HQ|].
  apply verify_signature_inr in Ever.
  apply rg_bind, rg_lift; [apply _|]. intros w6 H6.
  destruct (py_get "nonce" _ prot) as [e|nonce] eqn:Enonce; [by intros; apply HQ|].
  apply rg_bind, (consume_nonce_rg cfg T); [apply _|].
  intros [e|[]] w7 H7 Hc; [by intros; apply HQ|].
  destruct (Hc eq_refl) as (v & ev & -> & Hrec & Hev).
  apply rg_bind, rg_lift; [apply _|]. intros w8 H8.
  destruct (decode_jws_payload pl) as [e|payload]; [by intros; apply HQ|].
  apply rg_ret. intros w' H9 Hww. apply HQ; [done|]. intros ? ? [= <- <-].
  assert (T w w6) as H06
    by (trans w1; [done|]; trans w2; [done|]; trans w3; [done|]; trans w4; [done|]; by trans w5).
  exists prot, k, wk, v, ev. split_and!.
  - by trans w1.
  - trans w2; [done|]. trans w3; [done|]. trans w4; [done|]. trans w5; [done|].
    trans w6; [done|]. trans w7; [done|]. by trans w8.
  - done.
  - by exists p, pl, sg, alg, msg, sb.
  - done.
  - eapply (recorded_later T); [exact H06|exact Hrec|by trans w8].
  - done.
Qed.

Lemma verify_jws_safe rq : safe T (verify_jws cfg rq).
Proof. intros w. by apply verify_jws_rg. Qed.
End verified.
#[export] Hint Resolve verify_jws_safe resolve_safe : safe.

(** ** A request alone *)

Section alone.
Context `{Ext} (cfg : Settings).

Lemma resolve_execs protected w r w' :
  execs (=) (resolve_key_and_account cfg protected) w r w' →
  w' = w ∧ ∀ k acct, r = inr (k, acct) → key_for cfg protected acct k (w_db w).
Proof.
  intros He. refine (rg_execs (=) (=) _ (λ r w', w' = w ∧
    ∀ k acct, r = inr (k, acct) → key_for cfg protected acct k (w_db w)) w r w' _ He).
  apply resolve_rg; [apply _|]. intros r1 w1 <- Hr. split; [done|].
  intros k acct E. by destruct (Hr k acct E) as (w2 & <- & _ & ?).
Qed.

(** Only a correctly signed request changes the tables. *)
Lemma verify_jws_changes rq w r w' :
  execs (=) (verify_jws cfg rq) w r w' → w' ≠ w →
  ∃ protected acct k, key_for cfg protected acct k (w_db w) ∧ signed_by rq protected k.
Proof.
  intros He Hne. unfold verify_jws in He.
  apply execs_bind in He as [(x & w1 & [Eenv ->]%execs_lift & He)|(e & _ & [_ ->]%execs_lift)];
    [|done|apply _]. destruct x as [[[[p pl] sg] prot] alg].
  destruct (jws_envelope_inr _ _ _ _ _ _ (eq_sym Eenv)) as [Halg Hurl].
  apply execs_bind in He as [([k acct] & w1 & [-> Hk]%resolve_execs & He)|(e & _ & [-> _]%resolve_execs)];
    [|done|apply _]. specialize (Hk k acct eq_refl).
  apply execs_bind in He as [(msg & w1 & [Emsg ->]%execs_lift & He)|(e & _ & [_ ->]%execs_lift)];
    [|done|apply _]. symmetry in Emsg. apply or_raise_inr in Emsg.
  apply execs_bind in He as [(sb & w1 & [Esb ->]%execs_lift & He)|(e & _ & [_ ->]%execs_lift)];
    [|done|apply _]. symmetry in Esb. apply or_raise_inr in Esb.
  apply execs_bind in He as [([] & w1 & [Ever ->]%execs_lift & He)|(e & _ & [_ ->]%execs_lift)];
    [|done|apply _]. symmetry in Ever. apply verify_signature_inr in Ever.
  exists prot, acct, k. split; [done|]. by exists p, pl, sg, alg, msg, sb.
Qed.
End alone.

(** ** The transaction of an accepted request *)

Section spends.
Context `{Ext} (cfg : Settings) (R : relation world) `{!Reflexive R}.

Lemma resolve_quiet protected : quiet (resolve_key_and_account cfg protected).
Proof. unfold resolve_key_and_account, query. every_auto. Qed.

Lemma verify_jws_traced rq w payload acct w' evs :
  traced R (verify_jws cfg rq) w (inr (payload, acct)) w' evs →
  ∃ protected v ev, evs = [ev] ∧ consumes v ev = true ∧
    py_get "nonce" (JStr []) protected = inr (JStr v) ∧
    ∃ p pl sg alg, jws_envelope rq = inr (p, pl, sg, protected, alg).
Proof.
  intros (x & w1 & e1 & e2 & (_ & Henv & ->)%traced_lift & Ht & ->)%traced_bind_inr; [|done].
  destruct x as [[[[p pl] sg] prot] alg].
  apply traced_bind_inr in Ht as ([k a] & w2 & e3 & e4 & Hr & Ht & ->); [|done].
  apply traced_quiet in Hr as ->; [|apply resolve_quiet].
  apply traced_bind_inr in Ht as (msg & w3 & e5 & e6 & (_ & _ & ->)%traced_lift & Ht & ->); [|done].
  apply traced_bind_inr in Ht as (sb & w4 & e7 & e8 & (_ & _ & ->)%traced_lift & Ht & ->); [|done].
  apply traced_bind_inr in Ht as (u1 & w5 & e9 & e10 & (_ & _ & ->)%traced_lift & Ht & ->); [|done].
  apply traced_bind_inr in Ht as (n & w6 & e11 & e12 & (_ & Hn & ->)%traced_lift & Ht & ->); [|done].
  apply traced_bind_inr in Ht as ([] & w7 & e13 & e14 & Hc & Ht & ->); [|done].
  apply consume_nonce_traced in Hc as (v & ev & -> & -> & Hev); [|done].
  apply traced_bind_inr in Ht as (pl' & w8 & e15 & e16 & (_ & _ & ->)%traced_lift & (_ & _ & ->) & ->); [|done].
  exists prot, v, ev. split_and!; [done|done|done|]. by exists p, pl, sg, alg.
Qed.
End spends.

(** ** A concrete signed request *)

Module Toy.
#[export] Instance ext : Ext := toy.
Definition cfg : Settings := Settings_defaults (u "null") (u "relay.test") (u "a@relay.test").

(** The JWS a client of [toy]'s signature scheme sends. *)
Definition sign (protected payload : json) (url : str) : request :=
  let p := b64url_encode (json_dumps protected) in
  let pl := b64url_encode (json_dumps payload) in
  let sig := b64url_encode (last_n 3 (p ++ u "." ++ pl)) in
  mk_request (Some (u "application/jose+json"))
    (json_dumps (JObj [(u "protected", JStr p); (u "payload", JStr pl); (u "signature", JStr sig)]))
    url.

Definition key : json := JObj [(u "kty", JStr (u "oct")); (u "k", JStr (u "AAAA"))].
(** A header with the key embedded, or naming account [acct]. *)
Definition header_jwk (nonce url : str) : json :=
  JObj [(u "alg", JStr (u "ES256")); (u "nonce", JStr nonce); (u "url", JStr url); (u "jwk", key)].
Definition header_kid (nonce url acct : str) : json :=
  JObj [(u "alg", JStr (u "ES256")); (u "nonce", JStr nonce); (u "url", JStr url);
        (u "kid", JStr (account_url_prefix cfg ++ acct))].

Definition acct : str := u "acct-1".
Definition account : Account := mk_Account (canonical_jwk key) None (u "valid") 0.
Definition db0 : db :=
  set_nonces {[u "n1" := mk_Nonce false 0]} (set_accounts {[acct := account]} empty_db).
Definition world0 : world := mk_world db0 ∅ [].
Definition no_answers : answers := mk_answers [] [] [] [] [] [] [].
End Toy.
#[local] Existing Instance Toy.ext.

(** ** Properties *)

(** C4: whatever the other coroutines do meanwhile, when [verify_jws] returns
    a payload for an account, the request was authentic and fresh: its
    algorithm is one of the six allowed, its header names the URL it was sent
    to, the key the header names (the embedded one, or the one stored for a
    valid account at some instant of the call) verifies the signature over
    exactly the received header and payload, and a transaction recorded during
    the call spent the nonce the header names. *)
Theorem verify_jws_authentic `{Ext} cfg (T : relation world) `{!Tolerant T} rq w payload acct w' :
  execs T (verify_jws cfg rq) w (inr (payload, acct)) w' →
  accepted cfg rq T acct w w'.
Proof.
  intros He. refine (rg_execs T T _ (λ r w', ∀ payload acct, r = inr (payload, acct) →
    accepted cfg rq T acct w w') w _ w' _ He payload acct eq_refl).
  apply verify_jws_rg; [apply _|]. auto.
Qed.

Lemma verify_jws_authentic_witness :
  let rq := Toy.sign (Toy.header_kid (u "n1") (u "https://relay.test/x") Toy.acct) (JObj [])
              (u "https://relay.test/x") in
  ∃ w', execs grows (verify_jws Toy.cfg rq) Toy.world0 (inr (JObj [], Toy.acct)) w' ∧
        accepted Toy.cfg rq grows Toy.acct Toy.world0 w'.
Proof.
  intros rq.
  set (w' := w_commit (set_nonces {[u "n1" := mk_Nonce true 0]} Toy.db0) Toy.world0).
  assert (execs grows (verify_jws Toy.cfg rq) Toy.world0 (inr (JObj [], Toy.acct)) w') as He.
  { apply (execs_rely (=)); [by intros w ? <-|].
    apply (run_execs _ _ Toy.no_answers _ _ Toy.no_answers).
    - vm_compute. tauto.
    - split; constructor.
    - vm_compute. reflexivity. }
  exists w'. split; [exact He|]. exact (verify_jws_authentic Toy.cfg grows rq _ _ _ _ He).
Defined.

(** A bad request cannot burn a nonce: if [verify_jws], alone, changes
    anything at all, the request was signed by the key its header names. *)
Theorem verify_jws_no_burn `{Ext} cfg rq w r w' :
  execs (=) (verify_jws cfg rq) w r w' → w' ≠ w →
  ∃ protected acct k, key_for cfg protected acct k (w_db w) ∧ signed_by rq protected k.
Proof. apply verify_jws_changes. Qed.

Lemma verify_jws_no_burn_witness :
  let rq := Toy.sign (Toy.header_jwk (u "n1") (u "https://relay.test/x")) (JObj [])
              (u "https://relay.test/x") in
  ∃ protected acct k, key_for Toy.cfg protected acct k Toy.db0 ∧ signed_by rq protected k.
Proof.
  intros rq.
  set (w' := w_commit (set_nonces {[u "n1" := mk_Nonce true 0]} Toy.db0) Toy.world0).
  apply (verify_jws_no_burn Toy.cfg rq Toy.world0 (inr (JObj [], [])) w'); [|discriminate].
  apply (run_execs _ _ Toy.no_answers _ _ Toy.no_answers).
  - vm_compute. tauto.
  - split; constructor.
  - vm_compute. reflexivity.
Defined.

(** C3: each accepted request spends a nonce of its own: the events that
    [verify_jws] itself records, when it accepts, are exactly one transaction,
    and it turns the nonce named in the verified header from unused to used
    (so two acceptances never share one transaction). *)
Theorem verify_jws_spends `{Ext} cfg (R : relation world) `{!Reflexive R} rq w payload acct w' evs :
  traced R (verify_jws cfg rq) w (inr (payload, acct)) w' evs →
  ∃ protected v ev, evs = [ev] ∧ consumes v ev = true ∧
    py_get "nonce" (JStr []) protected = inr (JStr v) ∧
    ∃ p pl sg alg, jws_envelope rq = inr (p, pl, sg, protected, alg).
Proof. by apply verify_jws_traced. Qed.

Lemma verify_jws_spends_witness :
  let rq := Toy.sign (Toy.header_jwk (u "n1") (u "https://relay.test/x")) (JObj [])
              (u "https://relay.test/x") in
  ∃ w' evs, traced (=) (verify_jws Toy.cfg rq) Toy.world0 (inr (JObj [], [])) w' evs ∧
    ∃ protected v ev, evs = [ev] ∧ consumes v ev = true ∧
      py_get "nonce" (JStr []) protected = inr (JStr v) ∧
      ∃ p pl sg alg, jws_envelope rq = inr (p, pl, sg, protected, alg).
Proof.
  intros rq.
  set (w' := w_commit (set_nonces {[u "n1" := mk_Nonce true 0]} Toy.db0) Toy.world0).
  assert (execs (=) (verify_jws Toy.cfg rq) Toy.world0 (inr (JObj [], [])) w') as He.
  { apply (run_execs _ _ Toy.no_answers _ _ Toy.no_answers).
    - vm_compute. tauto.
    - split; constructor.
    - vm_compute. reflexivity. }
  destruct (execs_traced _ _ _ _ _ He) as [evs Ht]. exists w', evs. split; [exact Ht|].
  exact (verify_jws_spends Toy.cfg (=) rq Toy.world0 (JObj []) [] w' evs Ht).
Defined.
