(* ===== verification/Ip.v ===== *)
(** * IP addresses: the [ipaddress] module and the blocked ranges

    [ipaddress.ip_address] on a text (both versions, with the IPv6 scope id,
    the compressed form and the dotted suffix) and membership in a network. *)
From S2P Require Import Prelude PyStr Json.

(** ** Parsing *)

Inductive ip := IPv4 (n : Z) | IPv6 (n : Z).
#[export] Instance ip_eq_dec : EqDecision ip.
Proof. solve_decision. Defined.

(** [IPv4Address._parse_octet]. *)
Definition parse_octet (s : str) : option Z :=
  if negb (bool_decide (s ≠ [])) then None
  else if negb (forallb is_digit s) then None
  else if (3 <? length s)%nat then None
  else if negb (bool_decide (s = u "0")) && startswith s (u "0") then None
  else let v := int_of_digits s in if 255 <? v then None else Some v.

(** [IPv4Address(s)]: no slash, four octets. *)
Definition parse_ipv4 (s : str) : option Z :=
  if bool_decide (47 ∈ s) then None
  else match split 46 s with
  | [a; b; c; d] =>
      a ← parse_octet a; b ← parse_octet b; c ← parse_octet c; d ← parse_octet d;
      Some (Z.lor (Z.shiftl (Z.lor (Z.shiftl (Z.lor (Z.shiftl a 8) b) 8) c) 8) d)
  | _ => None
  end.

(** [IPv6Address._parse_hextet]. *)
Definition parse_hextet (s : str) : option Z :=
  match s with
  | [] => None
  | _ => if (4 <? length s)%nat then None
         else foldl (λ acc c, a ← acc; v ← hex_val c; Some (16 * a + v)) (Some 0) s
  end.

(** The hextets of [parts], most significant first, shifted into [acc]. *)
Definition hextets (acc : Z) (parts : list str) : option Z :=
  foldl (λ acc p, a ← acc; h ← parse_hextet p; Some (Z.lor (Z.shiftl a 16) h)) (Some acc) parts.

(** ['%x' % n] for a 16-bit [n]. *)
Definition hex16 (n : Z) : str :=
  if n <? 16 then [hex_digit n]
  else if n <? 256 then [hex_digit (n / 16); hex_digit (n mod 16)]
  else if n <? 4096 then [hex_digit (n / 256); hex_digit (n / 16 mod 16); hex_digit (n mod 16)]
  else [hex_digit (n / 4096); hex_digit (n / 256 mod 16); hex_digit (n / 16 mod 16);
        hex_digit (n mod 16)].

(** Indices [i], [0 < i < len(parts) - 1], of empty parts. *)
Definition skip_indices (parts : list str) : list nat :=
  filter (λ i, parts !! i = Some []) (seq 1 (length parts - 2)).

(** [IPv6Address._ip_int_from_string]. *)
Definition parse_ipv6_body (s : str) : option Z :=
  if negb (bool_decide (s ≠ [])) then None
  else
    let parts := split 58 s in
    if (length parts <? 3)%nat then None
    else
      let lastp := default [] (last parts) in
      parts ← (if bool_decide ((46 ∈ lastp))
               then v ← parse_ipv4 lastp;
                    Some (take (length parts - 1) parts ++
                          [hex16 (Z.land (Z.shiftr v 16) 65535); hex16 (Z.land v 65535)])
               else Some parts);
      if (9 <? length parts)%nat then None
      else match skip_indices parts with
      | _ :: _ :: _ => None
      | [i] =>
          let hi := if bool_decide (head parts = Some []) then (i - 1)%nat else i in
          let lo := (length parts - i - 1)%nat in
          let lo' := if bool_decide (last parts = Some []) then (lo - 1)%nat else lo in
          if bool_decide (head parts = Some []) && negb (hi =? 0)%nat then None
          else if bool_decide (last parts = Some []) && negb (lo' =? 0)%nat then None
          else if (8 <=? hi + lo')%nat then None
          else
            v ← hextets 0 (take hi parts);
            hextets (Z.shiftl v (16 * Z.of_nat (8 - (hi + lo')))) (last_n lo' parts)
      | [] =>
          if negb (length parts =? 8)%nat then None
          else if bool_decide (head parts = Some []) || bool_decide (last parts = Some []) then None
          else hextets 0 parts
      end.

(** [IPv6Address(s)]: no slash, an optional non-empty scope id after one [%]. *)
Definition parse_ipv6 (s : str) : option Z :=
  if bool_decide (47 ∈ s) then None
  else match split 37 s with
  | [a] => parse_ipv6_body a
  | [a; scope] => if bool_decide (scope = []) then None else parse_ipv6_body a
  | _ => None
  end.

(** [ipaddress.ip_address(s)]; [None] is the [ValueError]. *)
Definition ip_address (s : str) : option ip :=
  match parse_ipv4 s with
  | Some n => Some (IPv4 n)
  | None => IPv6 <$> parse_ipv6 s
  end.

(** ** Networks *)

Record network := mk_network { net_ip : ip; net_prefixlen : Z }.

Definition netmask (bits prefixlen : Z) : Z := Z.shiftl (Z.ones prefixlen) (bits - prefixlen).
(** [addr in net]. *)
Definition in_network (a : ip) (n : network) : bool :=
  match a, net_ip n with
  | IPv4 x, IPv4 y => Z.land x (netmask 32 (net_prefixlen n)) =? y
  | IPv6 x, IPv6 y => Z.land x (netmask 128 (net_prefixlen n)) =? y
  | _, _ => false
  end.

Definition ipv4_of (a b c d : Z) : Z := ((a * 256 + b) * 256 + c) * 256 + d.

Example ip_ex1 : ip_address (u "169.254.169.254") = Some (IPv4 (ipv4_of 169 254 169 254)).
Proof. vm_compute. reflexivity. Qed.
Example ip_ex2 : ip_address (u "::ffff:127.0.0.1") = Some (IPv6 (65535 * 2 ^ 32 + ipv4_of 127 0 0 1)).
Proof. vm_compute. reflexivity. Qed.
Example ip_ex3 : ip_address (u "fe80::1%eth0") = Some (IPv6 (65152 * 2 ^ 112 + 1)) ∧
  ip_address (u "1::2::3") = None ∧ ip_address (u "01.2.3.4") = None ∧ ip_address (u "::") = Some (IPv6 0)
  ∧ ip_address (u "1:2:3:4:5:6:7:8") = Some (IPv6 5192455318486707404433266433261576)
  ∧ ip_address (u "1:2:3:4:5:6:7::") = Some (IPv6 5192455318486707404433266433261568)
  ∧ ip_address (u ":1:2:3:4:5:6:7") = None ∧ ip_address (u "1:2:3:4:5:6:7:8:9") = None.
Proof. vm_compute. done. Qed.

(** ** Dotted addresses *)

Definition is_byte (n : Z) : bool := (0 <=? n) && (n <? 256).
(** The usual text of an IPv4 address. *)
Definition dotted (a b c d : Z) : str :=
  join [46] [str_of_nonneg a; str_of_nonneg b; str_of_nonneg c; str_of_nonneg d].

Lemma byte_text n : is_byte n = true →
  parse_octet (str_of_nonneg n) = Some n ∧ (46 ∉ str_of_nonneg n) ∧ (47 ∉ str_of_nonneg n).
Proof.
  intros Hn. assert (forallb (λ n, bool_decide (parse_octet (str_of_nonneg n) = Some n) &&
    bool_decide ((46 ∉ str_of_nonneg n)) && bool_decide ((47 ∉ str_of_nonneg n))) (seqZ 0 256) = true)
    as H by (vm_compute; reflexivity).
  rewrite forallb_forall in H. specialize (H n). bool_to_prop.
  rewrite <- !andb_assoc, !andb_true_iff, !bool_decide_eq_true in H. apply H.
  apply list_elem_of_In, elem_of_seqZ. unfold is_byte in Hn. bool_to_prop. lia.
Qed.

Lemma ipv4_lor a b c d : is_byte a = true → is_byte b = true → is_byte c = true → is_byte d = true →
  Z.lor (Z.shiftl (Z.lor (Z.shiftl (Z.lor (Z.shiftl a 8) b) 8) c) 8) d = ipv4_of a b c d.
Proof.
  unfold is_byte, ipv4_of. intros. bool_to_prop. rewrite !lor_shiftl_add by lia. done.
Qed.

Lemma ip_address_dotted a b c d :
  is_byte a = true → is_byte b = true → is_byte c = true → is_byte d = true →
  ip_address (dotted a b c d) = Some (IPv4 (ipv4_of a b c d)).
Proof.
  intros Ha Hb Hc Hd. unfold ip_address, parse_ipv4, dotted.
  destruct (byte_text a Ha) as (Pa & Na & Sa), (byte_text b Hb) as (Pb & Nb & Sb),
    (byte_text c Hc) as (Pc & Nc & Sc), (byte_text d Hd) as (Pd & Nd & Sd).
  rewrite bool_decide_false.
  - rewrite split_join by (try done; repeat constructor; done).
    rewrite Pa, Pb, Pc, Pd. cbn. by rewrite ipv4_lor.
  - cbn [join]. rewrite !elem_of_app, !list_elem_of_singleton. intuition done.
Qed.

Lemma in_network_v4 x y n : 0 ≤ n ≤ 32 → 0 ≤ x < 2 ^ 32 →
  in_network (IPv4 x) (mk_network (IPv4 (y * 2 ^ (32 - n))) n) = (x / 2 ^ (32 - n) =? y).
Proof.
  intros Hn Hx. unfold in_network, netmask. cbn [net_ip net_prefixlen].
  assert (Z.land x (Z.shiftl (Z.ones n) (32 - n)) = x / 2 ^ (32 - n) * 2 ^ (32 - n)) as ->.
  { rewrite <- Z.shiftr_div_pow2, <- Z.shiftl_mul_pow2 by lia.
    apply Z.bits_inj'. intros i Hi. rewrite Z.land_spec, !Z.shiftl_spec by lia.
    destruct (Z.lt_ge_cases i (32 - n)).
    - rewrite !(Z.testbit_neg_r _ (i - (32 - n))) by lia. by rewrite andb_false_r.
    - rewrite Z.shiftr_spec by lia. replace (i - (32 - n) + (32 - n)) with i by lia.
      destruct (Z.lt_ge_cases (i - (32 - n)) n).
      + rewrite Z.ones_spec_low by lia. by rewrite andb_true_r.
      + rewrite Z.ones_spec_high by lia. rewrite andb_false_r. symmetry.
        destruct (decide (x = 0)) as [->|]; [apply Z.bits_0|]. apply Z.bits_above_log2; [lia|].
        apply Z.log2_lt_pow2; [lia|]. apply Z.lt_le_trans with (2 ^ 32); [lia|].
        apply Z.pow_le_mono_r; lia. }
  assert (2 ^ (32 - n) ≠ 0) by lia.
  destruct (Z.eqb_spec (x / 2 ^ (32 - n)) y) as [->|Hne]; [apply Z.eqb_refl|].
  apply Z.eqb_neq. intros HE. apply Hne. nia.
Qed.
