(* ===== verification/Schemas.v ===== *)
(** * Requests and responses: [schemas/acme.py]

    The payload models as records with their validation, the response models
    with their dump, and HTTP responses. *)
From S2P Require Import Prelude PyStr Json Base64 External PyStd Models Config Prog Jws.

(** ** HTTP responses *)

Inductive body := BEmpty | BJson (j : json) | BText (media_type content : str).
Record response := mk_response { rs_status : Z; rs_headers : list (str * str); rs_body : body }.

(** [JSONResponse(content, status_code, headers)]. *)
Definition json_response (content : json) (status_code : Z) (headers : list (str * str)) : response :=
  mk_response status_code headers (BJson content).
(** The response FastAPI makes of an [HTTPException]. *)
Definition exception_response (status_code : Z) (detail : json) : response :=
  json_response (JObj [(u "detail", detail)]) status_code [].

(** An ACME problem document. *)
Definition problem (type detail : str) : json :=
  JObj [(u "type", JStr type); (u "detail", JStr detail)].
Definition problem_status (type detail : str) (code : Z) : json :=
  JObj [(u "type", JStr type); (u "detail", JStr detail); (u "status", JInt code)].

(** ** Validation of models *)

Definition as_str (j : json) : option str := match j with JStr s => Some s | _ => None end.
Definition as_list (j : json) : option (list json) := match j with JArr l => Some l | _ => None end.
(** A required field. *)
Definition field {A} (k : string) (p : json → option A) (j : json) : option A :=
  match j with JObj kvs => dict_get (u k) kvs ≫= p | _ => None end.
(** A field with a default. *)
Definition field_default {A} (k : string) (p : json → option A) (dflt : A) (j : json) : option A :=
  match j with
  | JObj kvs => match dict_get (u k) kvs with Some v => p v | None => Some dflt end
  | _ => None
  end.
(** [T | None]. *)
Definition optional {A} (p : json → option A) (j : json) : option (option A) :=
  match j with JNull => Some None | j => Some <$> p j end.

Definition validated {A} (o : option A) : res A := or_raise (PyErr ValidationError []) o.

Record Identifier := mk_Identifier { ident_type : str; ident_value : str }.
(** The construction of an [Identifier] from a dictionary, and its validation as a field. *)
Definition Identifier_validate (j : json) : option Identifier :=
  t ← field "type" as_str j; v ← field "value" as_str j; Some (mk_Identifier t v).
(** [Identifier.model_dump()]. *)
Definition Identifier_dump (i : Identifier) : json :=
  JObj [(u "type", JStr (ident_type i)); (u "value", JStr (ident_value i))].

(** [NewOrderRequest]: its identifiers. *)
Definition NewOrderRequest_validate (j : json) : res (list Identifier) :=
  validated (field "identifiers" (λ l, as_list l ≫= mapM Identifier_validate) j).

Record NewAccountRequest := mk_NewAccountRequest {
  termsOfServiceAgreed : bool; contact : option (list str); onlyReturnExisting : bool }.

(** [FinalizeRequest]: its CSR. *)
Definition FinalizeRequest_validate (j : json) : res str := validated (field "csr" as_str j).

Section schemas.
Context `{Ext}.

Definition NewAccountRequest_validate (j : json) : res NewAccountRequest :=
  validated (
    tos ← field_default "termsOfServiceAgreed" pydantic_bool false j;
    c ← field_default "contact" (optional (λ l, as_list l ≫= mapM as_str)) None j;
    only ← field_default "onlyReturnExisting" pydantic_bool false j;
    Some (mk_NewAccountRequest tos c only)).
End schemas.

(** ** Dumps, with [exclude_none=True] *)

Definition opt_field (k : string) (o : option json) : list (str * json) :=
  match o with Some j => [(u k, j)] | None => [] end.
Definition strs (l : list str) : json := JArr (JStr <$> l).

Definition AccountResponse (status : str) (contact : option (list str)) (orders : str) : json :=
  JObj ([(u "status", JStr status)] ++ opt_field "contact" (strs <$> contact) ++
        [(u "orders", JStr orders)]).

Definition OrderResponse (status : str) (identifiers : list Identifier) (authorizations : list str)
    (finalize : str) (certificate expires : option str) (error : option json) : json :=
  JObj ([(u "status", JStr status); (u "identifiers", JArr (Identifier_dump <$> identifiers));
         (u "authorizations", strs authorizations); (u "finalize", JStr finalize)] ++
        opt_field "certificate" (JStr <$> certificate) ++ opt_field "expires" (JStr <$> expires) ++
        opt_field "error" error).

Definition ChallengeObject (url status token : str) (error : option json) : json :=
  JObj ([(u "type", JStr (u "http-01")); (u "url", JStr url); (u "status", JStr status);
         (u "token", JStr token)] ++ opt_field "error" error).

Definition AuthzResponse (status : str) (identifier : Identifier) (challenges : list json) : json :=
  JObj [(u "status", JStr status); (u "identifier", Identifier_dump identifier);
        (u "challenges", JArr challenges)].

(** [DirectoryResponse] with [meta=DirectoryMeta(termsOfService=...)]. *)
Definition DirectoryResponse (newNonce newAccount newOrder revokeCert keyChange terms : str) : json :=
  JObj [(u "newNonce", JStr newNonce); (u "newAccount", JStr newAccount);
        (u "newOrder", JStr newOrder); (u "revokeCert", JStr revokeCert);
        (u "keyChange", JStr keyChange); (u "meta", JObj [(u "termsOfService", JStr terms)])].

(** A column holding a JSON problem document, as a response field: a
    [dict[str, Any] | None]. *)
Definition load_problem (column : option str) : res (option json) :=
  match column with
  | Some t =>
      if truthy t then
        j ← or_raise (PyErr ValueError []) (loads t);
        match j with
        | JObj _ => inr (Some j)
        | JNull => inr None
        | _ => inl (PyErr ValidationError [])
        end
      else inr None
  | None => inr None
  end.

(** Iterating over a decoded value. *)
Definition py_iter (j : json) : res (list json) :=
  match j with
  | JArr l => inr l
  | JStr s => inr ((λ c, JStr [c]) <$> s)
  | JObj kvs => inr ((λ kv, JStr kv.1) <$> kvs)
  | _ => inl (PyErr TypeError [])
  end.

(** The list comprehension that builds an [Identifier] from each element. *)
Definition load_identifiers (identifiers : json) : res (list Identifier) :=
  l ← py_iter identifiers; validated (mapM Identifier_validate l).

(** ** Round trips *)

Lemma Identifier_dump_validate i : Identifier_validate (Identifier_dump i) = Some i.
Proof. by destruct i. Qed.

Lemma Identifiers_dump_validate l : mapM Identifier_validate (Identifier_dump <$> l) = Some l.
Proof.
  induction l as [|i l IH]; [done|]. cbn [fmap list_fmap mapM]. rewrite Identifier_dump_validate.
  cbn. by rewrite IH.
Qed.

Lemma dump_identifiers_wf l :
  Forall (λ i, forallb is_scalar (ident_type i) = true ∧ forallb is_scalar (ident_value i) = true) l →
  json_wf (JArr (Identifier_dump <$> l)) = true.
Proof.
  induction 1 as [|i l [Ht Hv] _ IH]; [done|]. cbn [json_wf] in *. cbn [fmap list_fmap forallb].
  rewrite IH, andb_true_r. cbn. by rewrite Ht, Hv.
Qed.
