(* ===== verification/Ownership.v ===== *)
(** * Ownership checks: [services/ownership.py] *)
From S2P Require Import Prelude PyStr Json External Models Config Prog Schemas.

(** [_UNAUTHORIZED]. *)
Definition UNAUTHORIZED_problem : json :=
  problem_status (u "urn:ietf:params:acme:error:unauthorized")
    (u "This resource does not belong to the requesting account") 403.

Definition require_order_owner (order_id account_id : str) : prog Order :=
  order ← query (λ d, orders d !! order_id);
  match order with
  | None => Raise (http_error 404 (u "Order not found"))
  | Some o =>
      if negb (bool_decide (order_account_id o = account_id))
      then Raise (HTTPException 403 UNAUTHORIZED_problem)
      else Ret o
  end.

(** The parent order exists and belongs to the account. *)
Definition parent_owned (account_id : str) (order : option Order) : bool :=
  match order with Some o => bool_decide (order_account_id o = account_id) | None => false end.

Definition require_authz_owner (authz_id account_id : str) : prog Authorization :=
  authz ← query (λ d, authzs d !! authz_id);
  match authz with
  | None => Raise (http_error 404 (u "Authorization not found"))
  | Some a =>
      order ← query (λ d, orders d !! authz_order_id a);
      if negb (parent_owned account_id order)
      then Raise (HTTPException 403 UNAUTHORIZED_problem)
      else Ret a
  end.

Definition require_cert_owner (cert_id account_id : str) : prog Certificate :=
  cert ← query (λ d, certs d !! cert_id);
  match cert with
  | None => Raise (http_error 404 (u "Certificate not found"))
  | Some c =>
      order ← query (λ d, orders d !! cert_order_id c);
      if negb (parent_owned account_id order)
      then Raise (HTTPException 403 UNAUTHORIZED_problem)
      else Ret c
  end.

(** ** What the checks establish *)

Section ownership.
Context (T : relation world) `{!PreOrder T}.

Lemma require_order_owner_rg oid acct (Q : res Order → world → Prop) w :
  (∀ r w', T w w' → (∀ o, r = inr o → order_account_id o = acct ∧
     ∃ w1, T w w1 ∧ T w1 w' ∧ orders (w_db w1) !! oid = Some o) → Q r w') →
  rg T T (require_order_owner oid acct) Q w.
Proof.
  intros HQ. apply rg_frame; [apply _|]. unfold require_order_owner.
  apply rg_bind, rg_query; [apply _..|]. intros w1 w2 H1 H2.
  destruct (orders (w_db w1) !! oid) as [o|] eqn:E; [|by apply rg_raise; intros; apply HQ].
  case_bool_decide as Ho; cbn [negb]; [|by apply rg_raise; intros; apply HQ].
  apply rg_ret. intros w3 H3 Hw. apply HQ; [done|]. intros ? [= <-]. split; [done|].
  exists w1. split_and!; [done| |done]. by trans w2.
Qed.

Lemma require_authz_owner_rg aid acct (Q : res Authorization → world → Prop) w :
  (∀ r w', T w w' → (∀ a, r = inr a → ∃ w1 w2 o, T w w1 ∧ T w1 w2 ∧ T w2 w' ∧
     authzs (w_db w1) !! aid = Some a ∧ orders (w_db w2) !! authz_order_id a = Some o ∧
     order_account_id o = acct) → Q r w') →
  rg T T (require_authz_owner aid acct) Q w.
Proof.
  intros HQ. apply rg_frame; [apply _|]. unfold require_authz_owner.
  apply rg_bind, rg_query; [apply _..|]. intros w1 w2 H1 H2.
  destruct (authzs (w_db w1) !! aid) as [a|] eqn:E; [|by apply rg_raise; intros; apply HQ].
  apply rg_bind, rg_query; [apply _..|]. intros w3 w4 H3 H4.
  destruct (orders (w_db w3) !! authz_order_id a) as [o|] eqn:Eo; cbn [parent_owned negb];
    [|by apply rg_raise; intros; apply HQ].
  case_bool_decide as Ho; cbn [negb]; [|by apply rg_raise; intros; apply HQ].
  apply rg_ret. intros w5 H5 Hw. apply HQ; [done|]. intros ? [= <-].
  exists w1, w3, o. split_and!; [done|by trans w2|by trans w4|done..].
Qed.

Lemma require_cert_owner_rg cid acct (Q : res Certificate → world → Prop) w :
  (∀ r w', T w w' → (∀ c, r = inr c → ∃ w1 w2 o, T w w1 ∧ T w1 w2 ∧ T w2 w' ∧
     certs (w_db w1) !! cid = Some c ∧ orders (w_db w2) !! cert_order_id c = Some o ∧
     order_account_id o = acct) → Q r w') →
  rg T T (require_cert_owner cid acct) Q w.
Proof.
  intros HQ. apply rg_frame; [apply _|]. unfold require_cert_owner.
  apply rg_bind, rg_query; [apply _..|]. intros w1 w2 H1 H2.
  destruct (certs (w_db w1) !! cid) as [a|] eqn:E; [|by apply rg_raise; intros; apply HQ].
  apply rg_bind, rg_query; [apply _..|]. intros w3 w4 H3 H4.
  destruct (orders (w_db w3) !! cert_order_id a) as [o|] eqn:Eo; cbn [parent_owned negb];
    [|by apply rg_raise; intros; apply HQ].
  case_bool_decide as Ho; cbn [negb]; [|by apply rg_raise; intros; apply HQ].
  apply rg_ret. intros w5 H5 Hw. apply HQ; [done|]. intros ? [= <-].
  exists w1, w3, o. split_and!; [done|by trans w2|by trans w4|done..].
Qed.

Lemma require_order_owner_safe oid acct : safe T (require_order_owner oid acct).
Proof. intros w. by apply require_order_owner_rg. Qed.
Lemma require_authz_owner_safe aid acct : safe T (require_authz_owner aid acct).
Proof. intros w. by apply require_authz_owner_rg. Qed.
Lemma require_cert_owner_safe cid acct : safe T (require_cert_owner cid acct).
Proof. intros w. by apply require_cert_owner_rg. Qed.
End ownership.
#[export] Hint Resolve require_order_owner_safe require_authz_owner_safe require_cert_owner_safe : safe.
