(* ===== verification/LeClient.v ===== *)
(** * The Let's Encrypt client: [services/le_client.py]

    The apex zone of a domain, issuance under the per-domain lock, revocation,
    and the problem documents made of failures.  gufo-acme's protocol engine
    ([client.sign], the signed POST) is an effect. *)
From S2P Require Import Prelude PyStr Json Base64 External PyStd Models Config Prog Nonce Schemas.

(** ** Apex zones *)

(** [_apex_domain]. *)
Definition apex_domain (domain : str) (overrides : list str) : str :=
  let d := rstrip domain (u ".") in
  match longest (filter (λ z, under_domain d z = true) overrides) with
  | Some z => z
  | None => join [46] (last_n 2 (split 46 d))
  end.

(** ** Issuance and revocation *)

Definition is_order_already_finalized (msg : str) : bool := str_contains (u "orderNotReady") msg.

Section client.
Context `{Ext}.

(** [order_cert]: the CSR as PEM, then gufo's [sign] while holding the
    domain's lock, released on every path. *)
Definition order_cert (domain : str) (csr_der : bytes) : prog str :=
  csr_pem ← lift (or_raise (PyErr ValueError []) (csr_der_to_pem csr_der));
  perform (EAcquire domain) ;;
  result ← catch (perform_res (ESign domain csr_pem)) (λ e, perform (ERelease domain) ;; Raise e);
  perform (ERelease domain) ;;
  lift (or_raise (PyErr UnicodeError []) (utf8_decode false result)).
End client.

Definition revoke_payload (cert_b64 reason : json) : json :=
  JObj ([(u "certificate", cert_b64)] ++
        match reason with JNull => [] | r => [(u "reason", r)] end).
Definition le_revoke_cert (cert_b64 reason : json) : prog unit :=
  perform_res (ERevoke (revoke_payload cert_b64 reason)).

(** ** Problem documents *)

Definition ACME_PROBLEM (k : acme_kind) : option (str * str) :=
  match k with
  | AcmeRateLimitError => Some (RATE_LIMITED,
      u "Let's Encrypt rejected the request due to its rate limits; retry later.")
  | AcmeUnauthorizedError => Some (UNAUTHORIZED,
      u "Let's Encrypt refused to authorize issuance for this domain.")
  | AcmeFulfillmentFailed => Some (DNS,
      u "The relay could not fulfil the DNS-01 challenge with Let's Encrypt.")
  | AcmeTimeoutError => Some (CONNECTION, u "The relay timed out talking to Let's Encrypt.")
  | AcmeConnectError => Some (CONNECTION, u "The relay could not connect to Let's Encrypt.")
  | AcmeCertificateError | AcmeError => None
  end.

Definition acme_problem (exc : exn) : json :=
  match exc with
  | AcmeExc k msg =>
      match ACME_PROBLEM k with
      | Some (type, detail) => problem type detail
      | None =>
          problem SERVER_INTERNAL
            (if truthy (strip msg) then strip msg
             else u "Let's Encrypt rejected the certificate request.")
      end
  | _ => problem SERVER_INTERNAL (u "An unexpected error occurred while issuing the certificate.")
  end.

Definition is_known_acme_error (exc : exn) : bool :=
  match exc with AcmeExc _ _ => true | _ => false end.

(** ** Lemmas *)

(** The labels of a name, without the trailing dots. *)
Definition labels (d : str) : list str := split 46 d.

Lemma apex_domain_override domain overrides z :
  z ∈ overrides → under_domain (rstrip domain (u ".")) z = true →
  apex_domain domain overrides ∈ overrides ∧
  labels (apex_domain domain overrides) `suffix_of` labels (rstrip domain (u ".")) ∧
  (length z ≤ length (apex_domain domain overrides))%nat.
Proof.
  intros Hz Hu. unfold apex_domain.
  set (ms := filter _ overrides).
  assert (z ∈ ms) as Hms by (by apply list_elem_of_filter).
  destruct (longest ms) as [m|] eqn:E.
  - apply longest_spec in E as [Hin Hlen]. pose proof Hin as Hin'.
    apply list_elem_of_filter in Hin' as [Hu' Ho]. split_and!.
    + done.
    + by apply under_domain_labels.
    + rewrite Forall_forall in Hlen. by apply Hlen.
  - destruct ms; [by apply elem_of_nil in Hms|done].
Qed.

(** ** Properties *)

(** When a configured zone covers the domain, the apex is a configured zone
    whose labels end the domain's labels, and no shorter than any configured
    zone that covers it (longest match). *)
Theorem apex_domain_longest domain overrides z :
  z ∈ overrides → under_domain (rstrip domain (u ".")) z = true →
  apex_domain domain overrides ∈ overrides ∧
  labels (apex_domain domain overrides) `suffix_of` labels (rstrip domain (u ".")) ∧
  (length z ≤ length (apex_domain domain overrides))%nat.
Proof. apply apex_domain_override. Qed.

Lemma apex_domain_longest_witness :
  let zs := [u "co.uk"; u "example.co.uk"] in
  apex_domain (u "a.example.co.uk.") zs = u "example.co.uk" ∧
  apex_domain (u "a.example.co.uk.") zs ∈ zs.
Proof.
  intros zs. split; [vm_compute; reflexivity|].
  refine (proj1 (apex_domain_longest (u "a.example.co.uk.") zs (u "co.uk") _ _)).
  - left.
  - vm_compute. reflexivity.
Defined.

(** Issuance holds the domain's lock exactly while gufo's [sign] runs: run
    alone, [order_cert] asks the CA only with the lock taken by itself and
    leaves the locks as it found them, whatever the CA answers. *)
Theorem order_cert_releases `{Ext} domain csr w r w' :
  domain ∉ w_locks w → execs (=) (order_cert domain csr) w r w' → w_locks w' = w_locks w.
Proof.
  intros Hfree He. unfold order_cert in He.
  apply execs_bind in He as [(pem & w1 & [_ ->]%execs_lift & He)|(e & _ & [_ ->]%execs_lift)]; [|done|apply _].
  destruct He as (w1 & [] & w2 & <- & [_ ->] & He).
  assert (({[domain]} ∪ w_locks w) ∖ {[domain]} = w_locks w) as Hl by set_solver.
  destruct He as (w3 & x & w4 & <- & Hs & He). cbn in Hs. subst w4.
  destruct x as [e|result].
  - destruct He as (w5 & [] & w6 & <- & Hs & He). cbn in Hs. subst w6. cbn in He.
    destruct He as [<- _]. done.
  - destruct He as (w5 & [] & w6 & <- & Hs & He). cbn in Hs. subst w6.
    apply execs_lift in He as [_ ->]. done.
Qed.

Lemma order_cert_releases_witness :
  let _ := toy in let w := mk_world empty_db {[u "b.org"]} [] in
  ∃ r w', execs (=) (order_cert (u "a.org") [1]) w r w' ∧ w_locks w' = w_locks w.
Proof.
  intros H w. pose (s := mk_answers [] [] [] [] [] [inr (u "PEM")] []).
  destruct (run (order_cert (u "a.org") [1]) w s) as [[r w1] s1] eqn:E.
  assert (u "a.org" ∉ w_locks w) as Hfree.
  { unfold w; cbn [w_locks]; rewrite elem_of_singleton; discriminate. }
  assert (execs (=) (order_cert (u "a.org") [1]) w r w1) as He.
  { apply (run_execs _ _ s _ _ s1); [|split; constructor|exact E].
    split; [exact Hfree|]. split; [exact I|]. exact (conj I I). }
  exists r, w1. split; [exact He|]. exact (order_cert_releases _ _ _ _ _ Hfree He).
Defined.
