(* ===== verification/Worker.v ===== *)
(** * Stored certificates and background tasks: [services/cert_store.py], [worker.py]

    [run_challenge] validates one authorization and advances its order,
    [process_finalize] obtains and stores a certificate.  A session's read and
    the flush of what it loaded are separate steps; the statements between the
    first write and the commit are one transaction. *)
From S2P Require Import Prelude PyStr Json Base64 External PyStd Models Config Prog Nonce Schemas.
From S2P Require Import Http01 LeClient.

Section worker.
Context `{Ext} (cfg : Settings).

(** ** Certificates *)

(** [serial_hex]. *)
Definition serial_hex (serial : Z) : str := format_hex serial.

Definition parse_pem (pem_chain : str) : option x509cert :=
  utf8_encode pem_chain ≫= load_pem_x509_certificate.

Definition leaf_serial_hex (pem_chain : str) : option str :=
  (λ c, serial_hex (serial_number c)) <$> parse_pem pem_chain.

Definition store_cert (order_id pem_chain : str) (expires_at : Z) : prog str :=
  cert_id ← perform EUuid4;
  issued_at ← perform ENow;
  exec (insert_cert cert_id
    (mk_Certificate order_id pem_chain issued_at expires_at (leaf_serial_hex pem_chain))) ;;
  Ret cert_id.

Definition get_cert (cert_id : str) : prog str :=
  cert ← query (λ d, certs d !! cert_id);
  match cert with
  | None => Raise (http_error 404 (u "Certificate not found"))
  | Some c => Ret (cert_pem_chain c)
  end.

(** ** Worker helpers *)

(** [_s]: newlines of user text are escaped before logging. *)
Definition log_safe (value : str) : str := replace_char 13 (u "\r") (replace_char 10 (u "\n") value).

Definition cert_expiry_from_pem (pem_chain : str) : prog Z :=
  match parse_pem pem_chain with
  | Some leaf => Ret (not_valid_after leaf)
  | None => now ← perform ENow; Ret (now + days 89)
  end.

(** ** [run_challenge] *)

(** The assignments [authz.status = s; authz.error = e; order.status = s'] and
    the commit. *)
Definition commit_authz_order (authz_id order_id : str) (authz : Authorization) (order : Order)
    (authz_new order_new : status) (error : option str) : tx unit :=
  flush_changes flush_order order_id [assign (order_status order) order_new set_order_status] ;;
  flush_changes flush_authz authz_id
    [assign (authz_status authz) authz_new set_authz_status;
     assign (authz_error authz) error set_authz_error].

Definition fail_challenge (authz_id order_id : str) (authz : Authorization) (order : Order)
    (error : json) : prog unit :=
  exec (commit_authz_order authz_id order_id authz order Invalid Invalid (Some (json_dumps error))).

(** The statuses of the authorizations of an order, all valid? *)
Definition all_valid (order_id : str) (d : db) : bool :=
  forallb (λ ka, bool_decide (authz_status ka.2 = Valid)) (authzs_of order_id d).

(** The second session after a successful validation: the pending assignment
    [authz.status = "valid"] is flushed before the statuses are read. *)
Definition complete_challenge (authz_id order_id : str) (authz : Authorization) (order : Order) :
    prog unit :=
  if decide (authz_status authz = Valid)
  then
    ready ← query (all_valid order_id);
    exec (if (ready : bool)
          then flush_changes flush_order order_id [assign (order_status order) Ready set_order_status]
          else mret tt)
  else
    exec (flush_authz authz_id (set_authz_status Valid) ;;
          ready ← tx_query (all_valid order_id);
          if (ready : bool)
          then flush_changes flush_order order_id [assign (order_status order) Ready set_order_status]
          else mret tt).

(** The problem document of a failed validation. *)
Definition validation_problem (e : exn) : json :=
  match e with
  | Http01ValidationError detail acme_type => problem acme_type detail
  | _ => problem SERVER_INTERNAL (u "Unexpected error during HTTP-01 validation")
  end.

Definition run_challenge (authz_id order_id : str) : prog unit :=
  authz ← query (λ d, authzs d !! authz_id);
  order ← query (λ d, orders d !! order_id);
  match authz, order with
  | Some authz, Some order =>
      match authz_challenge_token authz with
      | None =>
          fail_challenge authz_id order_id authz order
            (problem SERVER_INTERNAL (u "Authorization has no challenge token"))
      | Some token =>
          account ← query (λ d, accounts d !! order_account_id order);
          match account with
          | None =>
              fail_challenge authz_id order_id authz order
                (problem SERVER_INTERNAL (u "Account for this authorization no longer exists"))
          | Some account =>
              let domain := authz_identifier authz in
              expected ← lift (key_authorization token (account_public_key account));
              error ← catch (validate_http01 cfg domain token expected ;; Ret None)
                        (λ e, Ret (Some (validation_problem e)));
              authz ← query (λ d, authzs d !! authz_id);
              order ← query (λ d, orders d !! order_id);
              match authz, order with
              | Some authz, Some order =>
                  match error with
                  | None => complete_challenge authz_id order_id authz order
                  | Some e => fail_challenge authz_id order_id authz order e
                  end
              | _, _ => Ret tt
              end
          end
      end
  | _, _ => Ret tt
  end.

(** ** [process_finalize] *)

Definition process_finalize (order_id domain : str) (csr_der : bytes) : prog unit :=
  order ← query (λ d, orders d !! order_id);
  match order with
  | None => Ret tt
  | Some _ =>
      outcome ← catch (pem ← order_cert domain csr_der; Ret (inr pem)) (λ e, Ret (inl e));
      match outcome with
      | inl exc =>
          order ← query (λ d, orders d !! order_id);
          match order with
          | None => Ret tt
          | Some o =>
              exec (flush_changes flush_order order_id
                [assign (order_status o) Invalid set_order_status;
                 assign (order_error o) (Some (json_dumps (acme_problem exc))) set_order_error])
          end
      | inr pem_chain =>
          expires_at ← cert_expiry_from_pem pem_chain;
          order ← query (λ d, orders d !! order_id);
          match order with
          | None => Ret tt
          | Some o =>
              cert_id ← store_cert order_id pem_chain expires_at;
              exec (flush_changes flush_order order_id
                [assign (order_cert_id o) (Some cert_id) set_order_cert;
                 assign (order_status o) Valid set_order_status])
          end
      end
  end.
End worker.
