(* ===== verification/Orders.v ===== *)
(** * Order routes: [routes/order.py]

    new-order with its identifier, domain-policy and rate-limit checks, order
    status, and finalization, whose conditional UPDATE lets one request claim a
    ready order. *)
From S2P Require Import Prelude PyStr Json Base64 External PyStd Models Config Prog Nonce Jws Schemas.
From S2P Require Import Ownership.

(** [_isoformat_utc]. *)
Definition isoformat_opt (dt : option Z) : option str := isoformat_utc <$> dt.

(** ** Checks *)

Definition validate_identifiers (identifiers : list Identifier) : res unit :=
  match identifiers with
  | [] => inl (HTTPException 400
            (problem MALFORMED (u "Order must contain at least one identifier")))
  | _ :: _ :: _ => inl (HTTPException 400
      (problem MALFORMED (u "This relay issues one domain per order; " ++
                          u "multi-identifier (SAN) orders are not supported")))
  | [ident] =>
      if negb (bool_decide (ident_type ident = u "dns")) || negb (truthy (strip (ident_value ident)))
      then inl (HTTPException 400
        (problem MALFORMED (u "Each identifier must be type 'dns' with a non-empty value")))
      else inr tt
  end.

Section orders.
Context `{Ext} (cfg : Settings).

(** The first identifier that is under no allowed base domain is refused. *)
Definition check_domain_policy (identifiers : list Identifier) : res unit :=
  match allowed_domain_list cfg with
  | [] => inr tt
  | allowed =>
      match filter (λ i, existsb (under_domain (ident_value i)) allowed = false) identifiers with
      | [] => inr tt
      | ident :: _ => inl (HTTPException 403 (problem REJECTED_IDENTIFIER
          (u "Domain " ++ repr_str (ident_value ident) ++ u " is not under an allowed base domain")))
      end
  end.

(** Orders of an account created at or after an instant. *)
Definition recent_orders (account_id : str) (window_start : Z) (d : db) : Z :=
  Z.of_nat (length (select_rows (λ _ o, bool_decide (order_account_id o = account_id) &&
    (window_start <=? order_created_at o)) (orders d))).

Definition check_order_rate_limit (account_id : str) : prog unit :=
  let limit := order_rate_limit cfg in
  if limit <=? 0 then Ret tt
  else
    now ← perform ENow;
    count ← query (recent_orders account_id (now - seconds (order_rate_window cfg)));
    if limit <=? count
    then Raise (HTTPException 429 (problem RATE_LIMITED
      (u "Order rate limit of " ++ str_of_int limit ++ u " per " ++
       str_of_int (order_rate_window cfg) ++ u "s exceeded")))
    else Ret tt.

(** ** [new_order] *)

(** The rows of the identifiers' authorizations, in order. *)
Fixpoint new_authzs (order_id : str) (identifiers : list Identifier) :
    prog (list (str * Authorization)) :=
  match identifiers with
  | [] => Ret []
  | ident :: rest =>
      authz_id ← perform EUuid4;
      token ← perform EToken;
      now ← perform ENow;
      rows ← new_authzs order_id rest;
      Ret ((authz_id, mk_Authorization order_id (ident_value ident) Pending (Some token) None now None)
           :: rows)
  end.

(** The INSERTs of the flush. *)
Fixpoint insert_authzs (rows : list (str * Authorization)) : tx unit :=
  match rows with
  | [] => mret tt
  | (k, a) :: rest => insert_authz k a ;; insert_authzs rest
  end.

Definition new_order (rq : request) : prog response :=
  '(payload, account_id) ← verify_jws cfg rq;
  identifiers ← lift (NewOrderRequest_validate payload);
  lift (validate_identifiers identifiers) ;;
  lift (check_domain_policy identifiers) ;;
  check_order_rate_limit account_id ;;
  let base := relay_base_url cfg in
  order_id ← perform EUuid4;
  now ← perform ENow;
  let expires_at := now + days 1 in
  created_at ← perform ENow;
  let order := mk_Order account_id Pending (json_dumps (JArr (Identifier_dump <$> identifiers)))
                 None None (Some expires_at) created_at None in
  rows ← new_authzs order_id identifiers;
  exec (insert_order order_id order ;; insert_authzs rows) ;;
  let authz_urls := (λ ka, base ++ u "/acme/authz/" ++ ka.1) <$> rows in
  let location := base ++ u "/acme/order/" ++ order_id in
  Ret (json_response
    (OrderResponse (u "pending") identifiers authz_urls (location ++ u "/finalize") None
       (isoformat_opt (Some expires_at)) None)
    201 [(u "Location", location)]).

(** ** [get_order] *)

Definition authz_urls_of (order_id : str) (d : db) : list str :=
  (λ ka, relay_base_url cfg ++ u "/acme/authz/" ++ ka.1) <$> authzs_of order_id d.

Definition get_order (order_id : str) (rq : request) : prog response :=
  '(_, account_id) ← verify_jws cfg rq;
  order ← require_order_owner order_id account_id;
  let base := relay_base_url cfg in
  identifiers ← lift (or_raise (PyErr ValueError []) (loads (order_identifiers order)));
  authz_urls ← query (authz_urls_of order_id);
  idents ← lift (load_identifiers identifiers);
  error ← lift (load_problem (order_error order));
  let certificate :=
    c ← order_cert_id order;
    if truthy c then Some (base ++ u "/acme/cert/" ++ c) else None in
  Ret (json_response
    (OrderResponse (status_str (order_status order)) idents authz_urls
       (base ++ u "/acme/order/" ++ order_id ++ u "/finalize")
       certificate (isoformat_opt (order_expires_at order)) error)
    200 []).

(** ** [finalize_order] *)

(** [UPDATE orders SET status = 'processing' WHERE id = ? AND status = 'ready']:
    the row count. *)
Definition claim_order (order_id : str) : tx Z := λ d,
  match orders d !! order_id with
  | Some o =>
      if decide (order_status o = Ready)
      then inr (1, set_orders (<[order_id := set_order_status Processing o]> (orders d)) d)
      else inr (0, d)
  | None => inr (0, d)
  end.

Definition not_ready (current : option status) : exn :=
  HTTPException 403 (problem ORDER_NOT_READY
    (u "Order status is " ++ py_repr (match current with Some s => JStr (status_str s) | None => JNull end)
     ++ u ", expected 'ready'")).

(** [identifiers[0]["value"]], the text the schema stored there. *)
Definition first_domain (identifiers : json) : res str :=
  match identifiers with
  | JArr (i :: _) =>
      v ← py_item "value" i;
      match v with JStr s => inr s | _ => inl (PyErr TypeError []) end
  | _ => inl (PyErr TypeError [])
  end.

Definition finalize_order (order_id : str) (rq : request) : prog response :=
  '(payload, account_id) ← verify_jws cfg rq;
  csr ← lift (FinalizeRequest_validate payload);
  order ← require_order_owner order_id account_id;
  if negb (bool_decide (order_status order = Ready))
  then Raise (not_ready (Some (order_status order)))
  else
    csr_der ← lift (or_raise (PyErr ValueError []) (b64url_decode csr));
    identifiers ← lift (or_raise (PyErr ValueError []) (loads (order_identifiers order)));
    if negb (py_truthy identifiers)
    then Raise (http_error 400 (u "Order has no identifiers"))
    else
      domain ← lift (first_domain identifiers);
      claimed ← exec (claim_order order_id);
      if claimed =? 0
      then
        current ← query (λ d, (order_status <$> orders d !! order_id : option status));
        Raise (not_ready current)
      else
        perform (ESpawn (process_finalize_task order_id domain csr_der)) ;;
        authz_urls ← query (authz_urls_of order_id);
        idents ← lift (load_identifiers identifiers);
        Ret (json_response
          (OrderResponse (u "processing") idents authz_urls
             (relay_base_url cfg ++ u "/acme/order/" ++ order_id ++ u "/finalize")
             None (isoformat_opt (order_expires_at order)) None)
          200 []).
End orders.

(** ** What the checks accept *)

Lemma validate_identifiers_iff ids :
  validate_identifiers ids = inr tt ↔ ∃ v, ids = [mk_Identifier (u "dns") v] ∧ strip v ≠ [].
Proof.
  split.
  - destruct ids as [|[t v] [|]]; cbn; try done. case_bool_decide as Ht; cbn; [|done].
    destruct (truthy _) eqn:E; [|done]. intros _. exists v. subst t. split; [done|]. by apply truthy_true.
  - intros (v & -> & Hv). unfold validate_identifiers. cbn [ident_type ident_value].
    apply truthy_true in Hv. by rewrite bool_decide_true, Hv.
Qed.

Lemma existsb_under v allowed :
  existsb (under_domain v) allowed = true ↔ ∃ base, base ∈ allowed ∧ split 46 base `suffix_of` split 46 v.
Proof.
  rewrite existsb_exists. setoid_rewrite under_domain_labels. by setoid_rewrite list_elem_of_In.
Qed.

Lemma check_domain_policy_iff `{Ext} cfg ids :
  check_domain_policy cfg ids = inr tt ↔
  allowed_domain_list cfg = [] ∨
  ∀ i, i ∈ ids → ∃ base, base ∈ allowed_domain_list cfg ∧
    split 46 base `suffix_of` split 46 (ident_value i).
Proof.
  unfold check_domain_policy. destruct (allowed_domain_list cfg) as [|b allowed]; [tauto|].
  remember (b :: allowed) as al eqn:Eal.
  assert ((∀ i, i ∈ ids → ∃ base, base ∈ al ∧ split 46 base `suffix_of` split 46 (ident_value i)) ↔
    filter (λ i, existsb (under_domain (ident_value i)) al = false) ids = []) as E.
  { split.
    - intros Hall. apply elem_of_nil_inv. intros i [Hf Hi]%list_elem_of_filter.
      apply Hall, existsb_under in Hi. congruence.
    - intros Hnil i Hi. apply existsb_under.
      destruct (existsb (under_domain (ident_value i)) al) eqn:Ex; [done|].
      assert (i ∈ filter (λ i, existsb (under_domain (ident_value i)) al = false) ids) as Hin
        by by apply list_elem_of_filter.
      rewrite Hnil in Hin. by apply elem_of_nil in Hin. }
  rewrite E. destruct (filter _ ids) as [|x l]; [split; [auto|done]|].
  split; [done|]. intros [Hal|?]; [by subst al|done].
Qed.

(** ** Properties *)

(** New-order accepts exactly one identifier, of type "dns", whose value is
    not blank; everything else is refused. *)
Theorem validate_identifiers_spec ids :
  validate_identifiers ids = inr tt ↔ ∃ v, ids = [mk_Identifier (u "dns") v] ∧ strip v ≠ [].
Proof. apply validate_identifiers_iff. Qed.

(** The domain policy accepts an order exactly when no base domain is
    configured, or when the DNS labels of each requested domain end with the
    labels of a configured base domain (so "evil-example.com" is not under
    "example.com"). *)
Theorem check_domain_policy_spec `{Ext} cfg ids :
  check_domain_policy cfg ids = inr tt ↔
  allowed_domain_list cfg = [] ∨
  ∀ i, i ∈ ids → ∃ base, base ∈ allowed_domain_list cfg ∧
    split 46 base `suffix_of` split 46 (ident_value i).
Proof. apply check_domain_policy_iff. Qed.

(** Run alone, the rate-limit check lets an order through exactly when the
    limit is off or the account has fewer than ORDER_RATE_LIMIT orders created
    in the last ORDER_RATE_WINDOW seconds; otherwise it answers 429. *)
Theorem check_order_rate_limit_spec `{Ext} cfg acct w s :
  let limit := order_rate_limit cfg in
  let count := recent_orders acct (next 0 (an_clock s) - seconds (order_rate_window cfg)) (w_db w) in
  (limit ≤ 0 ∨ count < limit → (run (check_order_rate_limit cfg acct) w s).1.1 = inr tt) ∧
  (0 < limit ≤ count → ∃ d, (run (check_order_rate_limit cfg acct) w s).1.1 = inl (HTTPException 429 d)).
Proof.
  intros limit count. unfold check_order_rate_limit. fold limit. destruct s as [c i t dn h g v].
  destruct (Z.leb_spec limit 0) as [Hl|Hl]; cbn.
  - split; [done|lia].
  - change (recent_orders acct (next 0 c - seconds (order_rate_window cfg)) (w_db w)) with count.
    destruct (Z.leb_spec limit count); cbn; split; try done; try lia. intros _. by eexists.
Qed.

(** The conditional UPDATE of finalization is a claim that one request wins:
    it succeeds (row count 1) exactly on a ready order, makes it processing and
    changes nothing else, and a second claim of the order then fails. *)
Theorem claim_order_once k d n d' :
  claim_order k d = inr (n, d') →
  (n = 1 ↔ order_status <$> orders d !! k = Some Ready) ∧
  (n = 1 → d' = set_orders (alter (set_order_status Processing) k (orders d)) d ∧
           claim_order k d' = inr (0, d')) ∧
  (n ≠ 1 → n = 0 ∧ d' = d).
Proof.
  unfold claim_order at 1. destruct (orders d !! k) as [o|] eqn:Ho; [case_decide as Hs|]; intros [= <- <-].
  - split_and!; [by cbn; rewrite Hs| |done]. intros _.
    assert (alter (set_order_status Processing) k (orders d) = <[k := set_order_status Processing o]> (orders d))
      as ->.
    { apply map_eq. intros j. destruct (decide (j = k)) as [->|].
      - by rewrite lookup_alter_eq, lookup_insert_eq, Ho.
      - by rewrite lookup_alter_ne, lookup_insert_ne. }
    split; [done|]. unfold claim_order. cbn [orders set_orders]. by rewrite lookup_insert_eq.
  - split_and!; [|done|done]. cbn. split; [done|congruence].
  - split_and!; done.
Qed.

Lemma claim_order_once_witness :
  let o := mk_Order [] Ready [] None None None 0 None in
  let d := set_orders {[u "o" := o]} empty_db in
  ∃ d', claim_order (u "o") d = inr (1, d') ∧ claim_order (u "o") d' = inr (0, d').
Proof.
  intros o d. destruct (claim_order (u "o") d) as [|[n d']] eqn:E; [discriminate|].
  assert (n = 1) as -> by (vm_compute in E; congruence).
  exists d'. split; [done|].
  exact (proj2 (proj1 (proj2 (claim_order_once (u "o") d 1 d' E)) eq_refl)).
Defined.

(** The identifiers an order stores are the ones a later request reads back:
    decoding the JSON text written by new-order gives the same list. *)
Theorem stored_identifiers_roundtrip ids :
  Forall (λ i, encodable (ident_type i) = true ∧ encodable (ident_value i) = true) ids →
  loads (json_dumps (JArr (Identifier_dump <$> ids))) = Some (JArr (Identifier_dump <$> ids)) ∧
  load_identifiers (JArr (Identifier_dump <$> ids)) = inr ids.
Proof.
  intros Hids. split; [by apply loads_dumps, dump_identifiers_wf|].
  unfold load_identifiers, validated. cbn [py_iter mbind res_bind]. by rewrite Identifiers_dump_validate.
Qed.

Lemma stored_identifiers_roundtrip_witness :
  load_identifiers (JArr [Identifier_dump (mk_Identifier (u "dns") (u "a.example.com"))])
  = inr [mk_Identifier (u "dns") (u "a.example.com")].
Proof.
  apply (stored_identifiers_roundtrip [mk_Identifier (u "dns") (u "a.example.com")]).
  repeat constructor.
Defined.
