(* ===== verification/Routes.v ===== *)
(** * The other routes: account, authorization, challenge, certificate,
    key change, revocation, and the unauthenticated pages

    [routes/account.py], [authz.py], [challenge.py], [cert.py], [keychange.py],
    [revoke.py], [directory.py], [nonce.py], [health.py], [terms.py]. *)
From S2P Require Import Prelude PyStr Json Base64 External PyStd Models Config Prog Nonce Jws Schemas.
From S2P Require Import Ownership Worker LeClient.

Section routes.
Context `{Ext} (cfg : Settings).

Definition base_url : str := relay_base_url cfg.

(** ** [routes/account.py] *)

(** [_extract_jwk]: the [jwk] member of the protected header. *)
Definition extract_jwk (raw_body : json) : res json :=
  protected_b64 ← py_item "protected" raw_body;
  protected ← or_raise (PyErr ValueError []) (b64url_arg protected_b64 ≫= loads_bytes);
  py_item "jwk" protected.

Definition accounts_with_key (key : str) (d : db) : list (str * Account) :=
  select_rows (λ _ a, bool_decide (account_public_key a = key)) (accounts d).

(** [json.loads(contact)], validated as [list[str] | None]. *)
Definition load_contact (column : option str) : res (option (list str)) :=
  match column with
  | Some t =>
      if truthy t then
        j ← or_raise (PyErr ValueError []) (loads t);
        validated (optional (λ l, as_list l ≫= mapM as_str) j)
      else inr None
  | None => inr None
  end.

Definition account_url (account_id : str) : str := base_url ++ u "/acme/account/" ++ account_id.

Definition new_account (rq : request) : prog response :=
  '(payload, _) ← verify_jws cfg rq;
  acct_req ← lift (NewAccountRequest_validate payload);
  raw_body ← lift (or_raise (PyErr ValueError []) (loads_bytes (rq_body rq)));
  jwk_data ← lift (extract_jwk raw_body);
  let stored_key := canonical_jwk jwk_data in
  rows ← query (accounts_with_key stored_key);
  existing ← lift (scalar_one_or_none rows);
  match existing with
  | Some (id, a) =>
      c ← lift (load_contact (account_contact a));
      Ret (json_response (AccountResponse (account_status a) c (account_url id ++ u "/orders"))
             200 [(u "Location", account_url id)])
  | None =>
      if onlyReturnExisting acct_req
      then Ret (json_response (problem_status (u "urn:ietf:params:acme:error:accountDoesNotExist")
                                 (u "No account found for this key") 400) 400 [])
      else
        account_id ← perform EUuid4;
        now ← perform ENow;
        let stored_contact :=
          c ← contact acct_req;
          match c with [] => None | _ => Some (json_dumps (strs c)) end in
        exec (insert_account account_id (mk_Account stored_key stored_contact (u "valid") now)) ;;
        Ret (json_response (AccountResponse (u "valid") (contact acct_req)
                              (account_url account_id ++ u "/orders"))
               201 [(u "Location", account_url account_id)])
  end.

(** ** [routes/authz.py] *)

(** "processing" is no authorization status: reported as "pending". *)
Definition authz_public_status (s : status) : status :=
  match s with Processing => Pending | s => s end.

Definition challenge_url (authz_id : str) : str := base_url ++ u "/acme/challenge/" ++ authz_id.
Definition link_up (url : str) : str * str := (u "Link", u "<" ++ url ++ u ">;rel=" ++ u' "'up'").

Definition get_authz (authz_id : str) (rq : request) : prog response :=
  '(_, account_id) ← verify_jws cfg rq;
  authz ← require_authz_owner authz_id account_id;
  error ← lift (load_problem (authz_error authz));
  Ret (json_response
    (AuthzResponse (status_str (authz_public_status (authz_status authz)))
       (mk_Identifier (u "dns") (authz_identifier authz))
       [ChallengeObject (challenge_url authz_id) (status_str (authz_status authz))
          (default [] (authz_challenge_token authz)) error])
    200 [link_up (base_url ++ u "/acme/order/" ++ authz_order_id authz)]).

(** ** [routes/challenge.py] *)

(** The writes of the first POST for a pending authorization: the authorization
    is flushed as processing before the order is read. *)
Definition start_challenge (authz_id order_id : str) : tx unit :=
  flush_authz authz_id (set_authz_status Processing) ;;
  order ← tx_query (λ d, orders d !! order_id);
  match order with
  | Some o =>
      if decide (order_status o = Pending)
      then flush_order order_id (set_order_status Processing) else mret tt
  | None => mret tt
  end.

Definition acknowledge_challenge (authz_id : str) (rq : request) : prog response :=
  '(_, account_id) ← verify_jws cfg rq;
  authz ← require_authz_owner authz_id account_id;
  if negb (bool_decide (authz_status authz ∈ [Pending; Processing]))
  then Raise (http_error 400
         (u "Authorization is already " ++ repr_str (status_str (authz_status authz))))
  else
    (if decide (authz_status authz = Pending)
     then exec (start_challenge authz_id (authz_order_id authz)) else Ret tt) ;;
    perform (ESpawn (run_challenge_task authz_id (authz_order_id authz))) ;;
    Ret (json_response
      (ChallengeObject (challenge_url authz_id) (u "processing")
         (default [] (authz_challenge_token authz)) None)
      200 [link_up (base_url ++ u "/acme/authz/" ++ authz_id)]).

(** ** [routes/cert.py] *)

Definition download_cert (cert_id : str) (rq : request) : prog response :=
  '(_, account_id) ← verify_jws cfg rq;
  cert ← require_cert_owner cert_id account_id;
  Ret (mk_response 200 [] (BText (u "application/pem-certificate-chain") (cert_pem_chain cert))).

(** ** [routes/keychange.py] *)

Definition verify_inner_jws (inner : json) (expected_account_url old_public_key_json : str)
    (key_change_url : str) : res json :=
  protected_b64 ← py_get "protected" (JStr []) inner;
  payload_b64 ← py_get "payload" (JStr []) inner;
  signature_b64 ← py_get "signature" (JStr []) inner;
  if negb (py_truthy protected_b64) || negb (py_truthy signature_b64)
  then inl (http_error 400 (u "Inner JWS missing required fields"))
  else
    protected ← or_raise (http_error 400 (u "Invalid inner JWS protected header"))
                  (b64url_arg protected_b64 ≫= loads_bytes);
    alg_name ← py_get "alg" (JStr []) protected;
    ok ← alg_allowed alg_name;
    if negb ok
    then inl (http_error 400 (u "Inner JWS unsupported algorithm: " ++ py_repr alg_name))
    else
      url ← py_get "url" JNull protected;
      if negb (bool_decide (url = JStr key_change_url))
      then inl (http_error 400 (u "Inner JWS url does not match key-change URL"))
      else
        new_jwk_data ← py_get "jwk" JNull protected;
        if is_null new_jwk_data
        then inl (http_error 400 (u "Inner JWS protected header must contain 'jwk'"))
        else
          kid ← py_get "kid" JNull protected;
          if negb (is_null kid)
          then inl (http_error 400 (u "Inner JWS must not contain 'kid'"))
          else
            let valid :=
              k ← jwk_from_json new_jwk_data;
              msg ← ascii_encode (py_format protected_b64 ++ u "." ++ py_format payload_b64);
              sig ← b64url_arg signature_b64;
              alg ← as_str alg_name;
              jwa_verify alg k msg sig in
            if negb (default false valid)
            then inl (http_error 400 (u "Inner JWS signature verification failed"))
            else
              inner_payload ← or_raise (http_error 400 (u "Invalid inner JWS payload"))
                                (b64url_arg payload_b64 ≫= loads_bytes);
              account ← py_get "account" JNull inner_payload;
              if negb (bool_decide (account = JStr expected_account_url))
              then inl (http_error 400
                (u "Inner JWS payload 'account' does not match the requesting account"))
              else
                old_key ← py_get "oldKey" JNull inner_payload;
                if is_null old_key
                then inl (http_error 400 (u "Inner JWS payload missing 'oldKey'"))
                else if negb (bool_decide (canonical_jwk old_key = old_public_key_json))
                then inl (http_error 400
                  (u "Inner JWS payload 'oldKey' does not match the current account key"))
                else inr new_jwk_data.

Definition key_change (rq : request) : prog response :=
  '(inner, account_id) ← verify_jws cfg rq;
  if negb (truthy account_id)
  then Raise (http_error 400 (u "key-change requires 'kid' (not 'jwk')"))
  else if negb (match inner with JObj _ => true | _ => false end)
  then Raise (http_error 400 (u "key-change payload must be a JSON object"))
  else
    account ← query (λ d, accounts d !! account_id);
    match account with
    | None => Raise (http_error 401 (u "Account not found"))
    | Some a =>
        new_jwk_data ← lift (verify_inner_jws inner (account_url account_id)
                               (account_public_key a) (rq_url rq));
        let new_canonical := canonical_jwk new_jwk_data in
        rows ← query (λ d, filter (λ ka, ka.1 ≠ account_id) (accounts_with_key new_canonical d));
        existing ← lift (scalar_one_or_none rows);
        match existing with
        | Some _ => Raise (http_error 409 (u "New key is already registered to a different account"))
        | None =>
            exec (flush_changes flush_account account_id
                    [assign (account_public_key a) new_canonical set_public_key]) ;;
            c ← lift (match account_contact a with
                      | Some t => if truthy t then or_raise (PyErr ValueError []) (loads t) else inr JNull
                      | None => inr JNull
                      end);
            Ret (json_response
              (JObj ([(u "status", JStr (account_status a))] ++
                     (if py_truthy c then [(u "contact", c)] else []) ++
                     [(u "orders", JStr (account_url account_id ++ u "/orders"))]))
              200 [(u "Location", account_url account_id)])
        end
    end.

(** ** [routes/revoke.py] *)

Definition REVOKE_UNAUTHORIZED : json :=
  problem_status (u "urn:ietf:params:acme:error:unauthorized")
    (u "Certificate not found or not owned by this account") 403.

(** Certificates whose order belongs to the account and whose serial column
    satisfies [p]. *)
Definition account_certs (account_id : str) (p : option str → bool) (d : db) : list (str * Certificate) :=
  select_rows (λ _ c, match orders d !! cert_order_id c with
                      | Some o => bool_decide (order_account_id o = account_id) && p (cert_serial c)
                      | None => false
                      end) (certs d).

(** [_serial_from_pem]; [None] raises. *)
Definition serial_from_pem (pem_chain : str) : option Z := serial_number <$> parse_pem pem_chain.

(** The certificate to revoke: by the serial column, else by parsing the rows
    that have none. *)
Definition find_cert (account_id : str) (serial : Z) : prog (option (str * Certificate)) :=
  rows ← query (account_certs account_id (λ s, bool_decide (s = Some (serial_hex serial))));
  match rows with
  | c :: _ => Ret (Some c)
  | [] =>
      legacy ← query (account_certs account_id (λ s, bool_decide (s = None)));
      Ret (head (filter (λ kc, serial_from_pem (cert_pem_chain kc.2) = Some serial) legacy))
  end.

Definition revoke_cert (rq : request) : prog response :=
  '(payload, account_id) ← verify_jws cfg rq;
  match field "certificate" Some payload with
  | None => Ret (json_response (problem_status (u "urn:ietf:params:acme:error:malformed")
                                  (u "Payload must contain 'certificate'") 400) 400 [])
  | Some cert_b64 =>
      reason ← lift (py_get "reason" JNull payload);
      match b64url_arg cert_b64 ≫= load_der_x509_certificate with
      | None => Ret (json_response (problem_status (u "urn:ietf:params:acme:error:malformed")
                                      (u "Invalid certificate DER encoding") 400) 400 [])
      | Some client_cert =>
          db_cert ← find_cert account_id (serial_number client_cert);
          match db_cert with
          | None => Ret (json_response REVOKE_UNAUTHORIZED 403 [])
          | Some _ =>
              catch (le_revoke_cert cert_b64 reason ;; Ret (json_response (JObj []) 200 []))
                (λ e, Ret (json_response (problem_status (u "urn:ietf:params:acme:error:serverInternal")
                             (u "Revocation request to Let's Encrypt failed") 500) 500 []))
          end
      end
  end.

(** ** Unauthenticated pages *)

Definition get_directory : prog response :=
  Ret (json_response
    (DirectoryResponse (base_url ++ u "/acme/new-nonce") (base_url ++ u "/acme/new-account")
       (base_url ++ u "/acme/new-order") (base_url ++ u "/acme/revoke-cert")
       (base_url ++ u "/acme/key-change") (base_url ++ u "/acme/terms"))
    200 []).
Definition new_nonce_head : prog response := Ret (mk_response 200 [] BEmpty).
Definition new_nonce_post : prog response := Ret (mk_response 204 [] BEmpty).
Definition healthz : prog response := Ret (mk_response 200 [] BEmpty).

(** [jackdaw.__version__]. *)
Definition version_text : str := default (u "0.0.0+unknown") package_version.
Definition version : prog response :=
  Ret (json_response (JObj [(u "version", JStr version_text)]) 200 []).

(** [_TERMS_BODY]; 8212 is the em dash. *)
Definition TERMS_BODY : str := join [10] [
  u "Jackdaw ACME Relay " ++ [8212] ++ u " Terms of Service";
  [];
  u "This relay issues publicly trusted TLS certificates via Let's Encrypt on behalf";
  u "of internal ACME clients.  By using this relay you agree to Let's Encrypt's";
  u "Subscriber Agreement (https://letsencrypt.org/repository/) and Acceptable Use";
  u "Policy.  The relay operator accepts no liability for misuse.";
  [];
  u "Certificates are subject to Let's Encrypt rate limits.  The relay validates";
  u "domain control via HTTP-01 before forwarding requests to Let's Encrypt.";
  []].
Definition terms_of_service : prog response :=
  Ret (mk_response 200 [] (BText (u "text/plain; charset=utf-8") TERMS_BODY)).
End routes.
