(* ===== verification/Main.v ===== *)
(** * The application: [main.py]

    The router, the header middleware, the recovery of interrupted orders at
    start-up, the prune timer, and the server they make: coroutines of requests,
    timers and background tasks, interleaved, with the process dying and
    restarting at any point. *)
From S2P Require Import Prelude PyStr Json Base64 External PyStd Models Config Prog Nonce Jws Schemas.
From S2P Require Import Ownership Http01 LeClient Worker Orders Routes.

(** ** Start-up recovery *)

(** [_INTERRUPTED_ORDER_ERROR]. *)
Definition INTERRUPTED_ORDER_ERROR : str :=
  json_dumps (problem (u "urn:ietf:params:acme:error:serverInternal")
    (u "Certificate issuance was interrupted by a relay restart; submit a new order.")).

(** [_reset_processing_orders]: one transaction of two UPDATEs. *)
Definition reset_stmt : tx unit := λ d,
  inr (tt, set_authzs ((λ a, if decide (authz_status a = Processing)
                             then set_authz_status Invalid a else a) <$> authzs d)
          (set_orders ((λ o, if decide (order_status o = Processing)
                             then set_order_error (Some INTERRUPTED_ORDER_ERROR)
                                    (set_order_status Invalid o) else o) <$> orders d) d)).
Definition reset_processing_orders : prog unit := exec reset_stmt.

(** ** Routes *)

Inductive route :=
| R_new_account | R_new_order | R_get_order (id : str) | R_finalize_order (id : str)
| R_get_authz (id : str) | R_challenge (id : str) | R_cert (id : str)
| R_key_change | R_revoke_cert | R_directory | R_new_nonce_head | R_new_nonce_post | R_healthz
| R_version | R_terms.

(** The HTTP method of a route. *)
Inductive http_method := HEAD | GET | POST.
Definition route_method (r : route) : http_method :=
  match r with
  | R_directory | R_healthz | R_version | R_terms => GET
  | R_new_nonce_head => HEAD
  | _ => POST
  end.

Section main.
Context `{Ext} (cfg : Settings).

Definition handle (r : route) (rq : request) : prog response :=
  match r with
  | R_new_account => new_account cfg rq
  | R_new_order => new_order cfg rq
  | R_get_order id => get_order cfg id rq
  | R_finalize_order id => finalize_order cfg id rq
  | R_get_authz id => get_authz cfg id rq
  | R_challenge id => acknowledge_challenge cfg id rq
  | R_cert id => download_cert cfg id rq
  | R_key_change => key_change cfg rq
  | R_revoke_cert => revoke_cert cfg rq
  | R_directory => get_directory cfg
  | R_new_nonce_head => new_nonce_head
  | R_new_nonce_post => new_nonce_post
  | R_healthz => healthz
  | R_version => version
  | R_terms => terms_of_service
  end.

(** The handler's response, an [HTTPException] turned into one; any other
    exception passes through. *)
Definition call_next (r : route) (rq : request) : prog response :=
  catch (handle r rq) (λ e,
    match e with
    | HTTPException code detail => Ret (exception_response code detail)
    | e => Raise e
    end).

(** [response.headers.get(k, "")] and [response.headers[k] = v]. *)
Fixpoint header_get (k : str) (l : list (str * str)) : str :=
  match l with
  | [] => []
  | (k', v) :: l => if decide (k = k') then v else header_get k l
  end.
Definition header_set (k v : str) (l : list (str * str)) : list (str * str) :=
  filter (λ kv, kv.1 ≠ k) l ++ [(k, v)].
Definition add_header (k v : str) (r : response) : response :=
  mk_response (rs_status r) (header_set k v (rs_headers r)) (rs_body r).

(** [_AcmeHeaderMiddleware.dispatch]. *)
Definition index_link : str := u "<" ++ relay_base_url cfg ++ u "/directory>;rel=" ++ u' "'index'".
Definition dispatch (r : route) (rq : request) : prog response :=
  resp ← call_next r rq;
  let existing := header_get (u "Link") (rs_headers resp) in
  let resp := add_header (u "Link")
    (if truthy existing then existing ++ u ", " ++ index_link else index_link) resp in
  match route_method r with
  | GET => Ret resp
  | HEAD | POST =>
      nonce ← generate_nonce cfg;
      Ret (match nonce with Some n => add_header (u "Replay-Nonce") n resp | None => resp end)
  end.

(** ** The server *)

(** The coroutine of a request: the response is sent, an escaping exception
    becomes a plain 500. *)
Definition serve (r : route) (rq : request) : prog unit :=
  catch (dispatch r rq ;; Ret tt) (λ _, Ret tt).

(** One round of [_prune_loop]. *)
Definition prune_round : prog unit := prune_nonces cfg.

Definition task_body (t : task) : prog unit :=
  match t with
  | run_challenge_task authz_id order_id => run_challenge cfg authz_id order_id
  | process_finalize_task order_id domain csr_der => process_finalize order_id domain csr_der
  end.

(** Coroutines the environment starts. *)
Inductive entry : prog unit → Prop :=
| entry_request r rq : entry (serve r rq)
| entry_prune : entry prune_round.

(** A restart: locks are gone, interrupted orders are reset. *)
Definition restart (w w' : world) : Prop :=
  execs (=) reset_processing_orders (w_lock ∅ w) (inr tt) w'.

Definition server_step : relation config := step task_body entry restart.

(** A server on an empty database. *)
Definition initial : config := mk_config (mk_world empty_db ∅ []) [].
Definition reachable (c : config) : Prop := rtc server_step initial c.
End main.
