(* ===== verification/Effects.v ===== *)
(** * What each coroutine of the server may do

    Rows in progress, transactions that start no work on a row, and for every
    handler and task which effects it performs: most are [plain], which the
    accounting of calls to the CA ([Credits]), the discipline of the locks
    ([Pool]) and the progress of orders ([Settle]) all start from. *)
From S2P Require Import Prelude PyStr Json Base64 External PyStd Models Config Prog Nonce Jws Schemas.
From S2P Require Import Ownership Ip Http01 LeClient Worker Orders Routes Main.

(** ** Rows in progress *)

Inductive item := AnOrder (k : str) | AnAuthz (k : str).

(** Its row is in status "processing". *)
Definition busy (i : item) (d : db) : Prop :=
  match i with
  | AnOrder k => order_status <$> orders d !! k = Some Processing
  | AnAuthz k => authz_status <$> authzs d !! k = Some Processing
  end.
#[export] Instance busy_decision i d : Decision (busy i d).
Proof. destruct i; cbn; apply _. Defined.

(** A transaction after which no more rows are in progress than before. *)
Definition calm {X} (t : tx X) : Prop := ∀ d x d' i, t d = inr (x, d') → busy i d' → busy i d.

Lemma calm_same {X} (t : tx X) :
  (∀ d x d', t d = inr (x, d') → orders d' = orders d ∧ authzs d' = authzs d) → calm t.
Proof. intros Ht d x d' i E. destruct (Ht d x d' E) as [Ho Ha]. destruct i; cbn; by rewrite ?Ho, ?Ha. Qed.
Lemma calm_ret {X} (x : X) : calm (mret x).
Proof. apply calm_same. by intros d ? d' [= _ <-]. Qed.
Lemma calm_query {X} (q : db → X) : calm (tx_query q).
Proof. apply calm_same. by intros d ? d' [= _ <-]. Qed.
Lemma calm_bind {X Y} (t : tx X) (f : X → tx Y) : calm t → (∀ x, calm (f x)) → calm (t ≫= f).
Proof. intros Ht Hf d y d' i (x & d1 & E1 & E2)%tx_bind_inr Hb. eapply Ht, Hf; [exact E1|exact E2|done]. Qed.

Lemma calm_account k a : calm (insert_account k a).
Proof. apply calm_same. by intros d x d' (_ & _ & ->)%insert_row_inr. Qed.
Lemma calm_cert k c : calm (insert_cert k c).
Proof. apply calm_same. by intros d x d' (_ & _ & ->)%insert_row_inr. Qed.
Lemma calm_nonce k n : calm (insert_nonce k n).
Proof. apply calm_same. by intros d x d' (_ & _ & ->)%insert_row_inr. Qed.
Lemma calm_key k changes : calm (flush_changes flush_account k changes).
Proof.
  apply calm_same. intros d x d'. unfold flush_changes.
  destruct (omap id changes); [by intros [= _ <-]|by intros (r & _ & ->)%flush_row_inr].
Qed.
Lemma calm_consume v cutoff : calm (consume_stmt v cutoff).
Proof. apply calm_same. intros d x d'. unfold consume_stmt. repeat case_match; by intros [= _ <-]. Qed.
Lemma calm_prune cutoff : calm (prune_stmt cutoff).
Proof. apply calm_same. by intros d x d' [= _ <-]. Qed.

(** New rows that are not in progress. *)
Lemma calm_insert_order k o : order_status o ≠ Processing → calm (insert_order k o).
Proof.
  intros Hst d x d' [k'|k'] (_ & _ & ->)%insert_row_inr; cbn; [|done].
  destruct (decide (k' = k)) as [->|]; [|by rewrite lookup_insert_ne]. rewrite lookup_insert_eq. by intros [= ?].
Qed.
Lemma calm_insert_authz k a : authz_status a ≠ Processing → calm (insert_authz k a).
Proof.
  intros Hst d x d' [k'|k'] (_ & _ & ->)%insert_row_inr; cbn; [done|].
  destruct (decide (k' = k)) as [->|]; [|by rewrite lookup_insert_ne]. rewrite lookup_insert_eq. by intros [= ?].
Qed.
Lemma calm_insert_authzs rows : Forall (λ ka, authz_status ka.2 ≠ Processing) rows → calm (insert_authzs rows).
Proof.
  induction 1 as [|[k a] rows Ha _ IH]; cbn [insert_authzs]; [apply calm_ret|].
  apply calm_bind; [by apply calm_insert_authz|done].
Qed.

(** Updates that move a row to another status than "processing". *)
Definition order_leaves (f : option (Order → Order)) : Prop :=
  ∀ g, f = Some g → ∀ o, order_status (g o) = Processing → order_status o = Processing.
Definition authz_leaves (f : option (Authorization → Authorization)) : Prop :=
  ∀ g, f = Some g → ∀ a, authz_status (g a) = Processing → authz_status a = Processing.

Lemma assign_order_leaves l s : s ≠ Processing → order_leaves (assign l s set_order_status).
Proof. intros Hs g. unfold assign. case_decide; [done|]. by intros [= <-]. Qed.
Lemma assign_error_leaves l e : order_leaves (assign l e set_order_error).
Proof. intros g. unfold assign. case_decide; [done|]. by intros [= <-]. Qed.
Lemma assign_cert_leaves l c : order_leaves (assign l c set_order_cert).
Proof. intros g. unfold assign. case_decide; [done|]. by intros [= <-]. Qed.
Lemma assign_authz_leaves l s : s ≠ Processing → authz_leaves (assign l s set_authz_status).
Proof. intros Hs g. unfold assign. case_decide; [done|]. by intros [= <-]. Qed.
Lemma assign_problem_leaves l e : authz_leaves (assign l e set_authz_error).
Proof. intros g. unfold assign. case_decide; [done|]. by intros [= <-]. Qed.

(** The assignments of one flush, in order. *)
Lemma foldl_leaves {R} (st : R → status) (l : list (option (R → R))) r :
  Forall (λ f, ∀ g, f = Some g → ∀ r, st (g r) = Processing → st r = Processing) l →
  st (foldl (λ r f, f r) r (omap id l)) = Processing → st r = Processing.
Proof.
  intros Hl. revert r. induction Hl as [|[g|] l Hg _ IH]; intros r; cbn; [done| |apply IH].
  intros Hr%IH. by apply (Hg g).
Qed.

Lemma calm_flush_order k changes : Forall order_leaves changes → calm (flush_changes flush_order k changes).
Proof.
  intros Hl d x d' i E. unfold flush_changes in E. destruct (omap id changes) eqn:Ec; [by injection E as _ <-|].
  apply flush_row_inr in E as (r & Hr & ->). rewrite <- Ec. destruct i as [k'|k']; cbn; [|done].
  destruct (decide (k' = k)) as [->|]; [|by rewrite lookup_insert_ne]. rewrite lookup_insert_eq, Hr. cbn.
  intros [= Hst]. f_equal. by eapply foldl_leaves.
Qed.
Lemma calm_flush_authz k changes : Forall authz_leaves changes → calm (flush_changes flush_authz k changes).
Proof.
  intros Hl d x d' i E. unfold flush_changes in E. destruct (omap id changes) eqn:Ec; [by injection E as _ <-|].
  apply flush_row_inr in E as (r & Hr & ->). rewrite <- Ec. destruct i as [k'|k']; cbn; [done|].
  destruct (decide (k' = k)) as [->|]; [|by rewrite lookup_insert_ne]. rewrite lookup_insert_eq, Hr. cbn.
  intros [= Hst]. f_equal. by eapply foldl_leaves.
Qed.
Lemma calm_valid k : calm (flush_authz k (set_authz_status Valid)).
Proof.
  intros d x d' i (r & Hr & ->)%flush_row_inr. destruct i as [k'|k']; cbn; [done|].
  destruct (decide (k' = k)) as [->|]; [by rewrite lookup_insert_eq|by rewrite lookup_insert_ne].
Qed.
#[export] Hint Resolve calm_ret calm_query calm_account calm_cert calm_nonce calm_key calm_consume calm_prune : every.

Ltac leaves_auto :=
  repeat (apply Forall_cons_2 || apply Forall_nil_2);
  first [apply assign_error_leaves|apply assign_cert_leaves|apply assign_problem_leaves
        |apply assign_order_leaves; done|apply assign_authz_leaves; done].

(** A transaction that stores no nonce. *)
Definition lean {X} (t : tx X) : Prop := ∀ d x d', t d = inr (x, d') → (size (nonces d') <= size (nonces d))%nat.

Lemma lean_same {X} (t : tx X) : (∀ d x d', t d = inr (x, d') → nonces d' = nonces d) → lean t.
Proof. intros Ht d x d' E. by rewrite (Ht d x d' E). Qed.
Lemma lean_ret {X} (x : X) : lean (mret x).
Proof. apply lean_same. by intros d ? d' [= _ <-]. Qed.
Lemma lean_query {X} (q : db → X) : lean (tx_query q).
Proof. apply lean_same. by intros d ? d' [= _ <-]. Qed.
Lemma lean_bind {X Y} (t : tx X) (f : X → tx Y) : lean t → (∀ x, lean (f x)) → lean (t ≫= f).
Proof. intros Ht Hf d y d' (x & d1 & E1 & E2)%tx_bind_inr. apply Ht in E1. apply Hf in E2. lia. Qed.
(** A statement on another table. *)
Ltac lean_row :=
  apply lean_same; intros d x d'; unfold flush_changes; repeat case_match;
  first [by intros [= _ <-]|by intros (_ & _ & ->)%insert_row_inr|by intros (r & _ & ->)%flush_row_inr].
Lemma lean_account k a : lean (insert_account k a).
Proof. lean_row. Qed.
Lemma lean_cert k c : lean (insert_cert k c).
Proof. lean_row. Qed.
Lemma lean_order k o : lean (insert_order k o).
Proof. lean_row. Qed.
Lemma lean_authzs rows : lean (insert_authzs rows).
Proof.
  induction rows as [|[k a] rows IH]; cbn [insert_authzs]; [apply lean_ret|]. apply lean_bind; [lean_row|done].
Qed.
Lemma lean_key k changes : lean (flush_changes flush_account k changes).
Proof. lean_row. Qed.
Lemma lean_flush_order k changes : lean (flush_changes flush_order k changes).
Proof. lean_row. Qed.
Lemma lean_flush_authz k changes : lean (flush_changes flush_authz k changes).
Proof. lean_row. Qed.
Lemma lean_authz k f : lean (flush_authz k f).
Proof. lean_row. Qed.
Lemma lean_consume v cutoff : lean (consume_stmt v cutoff).
Proof.
  intros d x d' [[_ ->]|(v' & r & _ & Hr & _ & _ & _ & ->)]%consume_stmt_inr; [done|].
  cbn. by rewrite map_size_insert_Some.
Qed.
Lemma lean_prune cutoff : lean (prune_stmt cutoff).
Proof. intros d x d' [= _ <-]. cbn. apply map_size_filter. Qed.
#[export] Hint Resolve lean_ret lean_query lean_account lean_cert lean_order lean_authzs lean_key lean_flush_order
  lean_flush_authz lean_authz lean_consume lean_prune : every.

(** Neither brings a row in progress nor stores a nonce. *)
Definition mild {X} (t : tx X) : Prop := calm t ∧ lean t.

(** ** Plain effects *)

Definition plain {X} (e : eff X) : Prop :=
  match e with
  | EExec t => mild t
  | ESpawn _ | ESign _ _ | EAcquire _ | ERelease _ => False
  | _ => True
  end.

(** A property of effects that the plain ones have. *)
Class Allows (P : ∀ X, eff X → Prop) := allows X (e : eff X) : plain e → P X e.
(** And the insertion of a nonce. *)
Class AllowsNonce (P : ∀ X, eff X → Prop) := allows_nonce k n : P _ (EExec (insert_nonce k n)).
#[export] Instance plain_allows : Allows (@plain).
Proof. by intros X e. Qed.

(** The returned values of [p] satisfy [Q]. *)
Fixpoint yields {A} (Q : A → Prop) (p : prog A) : Prop :=
  match p with Ret a => Q a | Raise _ => True | Vis e k => ∀ x, yields Q (k x) end.
Lemma every_bind_yields {A B} P Q (p : prog A) (f : A → prog B) :
  every P p → yields Q p → (∀ a, Q a → every P (f a)) → every P (p ≫= f).
Proof.
  induction p as [a|e|X e k IH]; [intros _ HQ Hf; by apply Hf|done|].
  intros [He Hk] HQ Hf. split; [done|]. intros x. by apply IH.
Qed.
Lemma yields_bind {A B} (Q : B → Prop) (p : prog A) (f : A → prog B) :
  (∀ a, yields Q (f a)) → yields Q (p ≫= f).
Proof. intros Hf. induction p as [a|e|X e k IH]; [apply Hf|done|exact IH]. Qed.
Lemma yields_bind_yields {A B} (Q' : A → Prop) (Q : B → Prop) (p : prog A) (f : A → prog B) :
  yields Q' p → (∀ a, Q' a → yields Q (f a)) → yields Q (p ≫= f).
Proof.
  intros Hp Hf. induction p as [a|e|X e k IH]; [by apply Hf|done|]. intros x. apply IH, Hp.
Qed.

Section plain.
Context `{Ext} (cfg : Settings) (P : ∀ X, eff X → Prop) `{!Allows P}.
#[local] Hint Extern 0 (P _ _) => apply allows; exact I : every.

Lemma query_every {X} (q : db → X) : every P (query q).
Proof. apply every_perform, allows. exact I. Qed.
Lemma exec_every {X} (t : tx X) : calm t → lean t → every P (exec t).
Proof. intros Hc Hl. by apply every_perform_res, allows. Qed.
#[local] Hint Resolve query_every exec_every : every.

(** *** Helpers *)

Lemma generate_nonce_every `{!AllowsNonce P} : every P (generate_nonce cfg).
Proof.
  unfold generate_nonce. every_auto. apply every_perform_res, allows_nonce.
Qed.
Lemma consume_nonce_every v : every P (consume_nonce cfg v).
Proof. unfold consume_nonce. every_auto. Qed.
Lemma prune_every : every P (prune_nonces cfg).
Proof. unfold prune_nonces. every_auto. Qed.
Lemma resolve_every protected : every P (resolve_key_and_account cfg protected).
Proof. unfold resolve_key_and_account. every_auto. Qed.
#[local] Hint Resolve generate_nonce_every consume_nonce_every prune_every resolve_every : every.
Lemma verify_jws_every rq : every P (verify_jws cfg rq).
Proof. unfold verify_jws. every_auto. Qed.
Lemma order_owner_every id acct : every P (require_order_owner id acct).
Proof. unfold require_order_owner. every_auto. Qed.
Lemma authz_owner_every id acct : every P (require_authz_owner id acct).
Proof. unfold require_authz_owner. every_auto. Qed.
Lemma cert_owner_every id acct : every P (require_cert_owner id acct).
Proof. unfold require_cert_owner. every_auto. Qed.
Lemma find_cert_every acct serial : every P (find_cert acct serial).
Proof. unfold find_cert. every_auto. Qed.
Lemma rate_limit_every acct : every P (check_order_rate_limit cfg acct).
Proof. unfold check_order_rate_limit. every_auto. Qed.
Lemma new_authzs_every oid ids : every P (new_authzs oid ids).
Proof. induction ids; cbn [new_authzs]; every_auto. Qed.
Lemma le_revoke_every c r : every P (le_revoke_cert c r).
Proof. apply every_perform_res, allows. exact I. Qed.
#[local] Hint Resolve verify_jws_every order_owner_every authz_owner_every cert_owner_every find_cert_every
  rate_limit_every new_authzs_every le_revoke_every : every.

Lemma new_authzs_pending oid ids : yields (Forall (λ ka, authz_status ka.2 ≠ Processing)) (new_authzs oid ids).
Proof.
  induction ids as [|i ids IH]; cbn [new_authzs yields]; [constructor|].
  do 3 (apply yields_bind; intros ?). eapply yields_bind_yields; [exact IH|]. intros rows Hrows. by constructor.
Qed.

(** *** Handlers and tasks *)

Lemma new_order_every rq : every P (new_order cfg rq).
Proof.
  unfold new_order. repeat lazymatch goal with
  | |- every _ (mbind _ (new_authzs _ _)) =>
      eapply every_bind_yields; [apply new_authzs_every|apply new_authzs_pending|intros rows Hrows]
  | |- every _ (exec _) => apply exec_every;
        [apply calm_bind; [by apply calm_insert_order|intros ?; by apply calm_insert_authzs]|apply lean_bind; auto with every]
  | _ => every_step
  end.
Qed.
#[local] Hint Resolve new_order_every : every.

(** The routes that start no task. *)
Definition starts_task (r : route) : Prop :=
  match r with R_challenge _ | R_finalize_order _ => True | _ => False end.
Lemma handle_every r rq : ¬ starts_task r → every P (handle cfg r rq).
Proof.
  intros Hr. destruct r; try done.
  all: cbn [handle]; unfold new_account, get_order, get_authz,
    download_cert, key_change, revoke_cert, get_directory, new_nonce_head, new_nonce_post, healthz, version,
    terms_of_service;
    every_auto.
Qed.

Lemma validate_http01_every domain token expected : every P (validate_http01 cfg domain token expected).
Proof.
  unfold validate_http01. induction (Z.to_nat (challenge_retries cfg)) as [|n IH]; [done|].
  cbn [validate_attempts]. unfold attempt_validation, fetch_and_compare, resolve_and_check. every_auto.
Qed.
#[local] Hint Resolve validate_http01_every : every.

Lemma fail_every ka ko a o e : every P (fail_challenge ka ko a o e).
Proof.
  apply exec_every; [|apply lean_bind; auto with every].
  apply calm_bind; [apply calm_flush_order|intros ?; apply calm_flush_authz]; leaves_auto.
Qed.
Lemma complete_every ka ko a o : every P (complete_challenge ka ko a o).
Proof.
  assert (∀ ready : bool, calm (if ready
    then flush_changes flush_order ko [assign (order_status o) Ready set_order_status] else mret tt)) as Hc.
  { intros []; [apply calm_flush_order; leaves_auto|apply calm_ret]. }
  assert (∀ ready : bool, lean (if ready
    then flush_changes flush_order ko [assign (order_status o) Ready set_order_status] else mret tt)) as Hl
    by (intros []; auto with every).
  unfold complete_challenge. case_decide.
  - every_step; [every_auto|]. by apply exec_every.
  - apply exec_every.
    + apply calm_bind; [apply calm_valid|]. intros ?. apply calm_bind; [apply calm_query|done].
    + apply lean_bind; [apply lean_authz|]. intros ?. apply lean_bind; [apply lean_query|done].
Qed.
#[local] Hint Resolve fail_every complete_every : every.
Lemma run_challenge_every ka ko : every P (run_challenge cfg ka ko).
Proof. unfold run_challenge. every_auto. Qed.

Lemma store_cert_every ko pem exp : every P (store_cert ko pem exp).
Proof. unfold store_cert. every_auto. Qed.
Lemma cert_expiry_every pem : every P (cert_expiry_from_pem pem).
Proof. unfold cert_expiry_from_pem. every_auto. Qed.
#[local] Hint Resolve store_cert_every cert_expiry_every : every.

(** What follows the call of the CA. *)
Definition after_issuance (order_id : str) (outcome : res str) : prog unit :=
  match outcome with
  | inl exc =>
      order ← query (λ d, orders d !! order_id);
      match order with
      | None => Ret tt
      | Some o =>
          exec (flush_changes flush_order order_id
            [assign (order_status o) Invalid set_order_status;
             assign (order_error o) (Some (json_dumps (acme_problem exc))) set_order_error])
      end
  | inr pem_chain =>
      expires_at ← cert_expiry_from_pem pem_chain;
      order ← query (λ d, orders d !! order_id);
      match order with
      | None => Ret tt
      | Some o =>
          cert_id ← store_cert order_id pem_chain expires_at;
          exec (flush_changes flush_order order_id
            [assign (order_cert_id o) (Some cert_id) set_order_cert;
             assign (order_status o) Valid set_order_status])
      end
  end.
Lemma process_finalize_eq order_id domain csr_der : process_finalize order_id domain csr_der =
  order ← query (λ d, orders d !! order_id);
  match order with
  | None => Ret tt
  | Some _ =>
      catch (pem ← order_cert domain csr_der; Ret (inr pem)) (λ e, Ret (inl e)) ≫= after_issuance order_id
  end.
Proof. done. Qed.
Lemma after_issuance_every ko outcome : every P (after_issuance ko outcome).
Proof.
  destruct outcome; cbn [after_issuance]; every_auto; (apply exec_every; [apply calm_flush_order; leaves_auto|apply lean_flush_order]).
Qed.
#[local] Hint Resolve run_challenge_every after_issuance_every : every.

(** A task asks the CA under the domain's lock, and is plain otherwise. *)
Lemma body_every t :
  (∀ domain csr, P _ (ESign domain csr)) → (∀ domain, P _ (EAcquire domain)) → (∀ domain, P _ (ERelease domain)) →
  every P (task_body cfg t).
Proof.
  intros Hs Ha Hr. destruct t as [ka ko|ko domain csr]; cbn [task_body]; [every_auto|].
  rewrite process_finalize_eq. unfold order_cert. every_auto.
Qed.
End plain.
#[export] Hint Resolve query_every exec_every generate_nonce_every consume_nonce_every prune_every resolve_every
  verify_jws_every order_owner_every authz_owner_every cert_owner_every find_cert_every rate_limit_every
  new_authzs_every le_revoke_every new_order_every validate_http01_every fail_every complete_every
  run_challenge_every store_cert_every cert_expiry_every after_issuance_every : every.
