(* ===== verification/System.v ===== *)
(** * Whole-system invariants

    What holds in every reachable state of the server, whatever requests arrive
    and however their coroutines interleave: rows keep their identity, an
    authorization is valid and an order ready only after an HTTP-01 exchange
    proved control of its domain, and the CA is asked only for such domains. *)
From S2P Require Import Prelude PyStr Json Base64 External PyStd Models Config Prog Nonce Jws Schemas.
From S2P Require Import Ownership Ip Http01 LeClient Worker Orders Routes Main.

(** ** Rows keep their identity *)

Definition same_authz (a a' : Authorization) : Prop :=
  authz_order_id a' = authz_order_id a ∧ authz_identifier a' = authz_identifier a ∧
  authz_challenge_token a' = authz_challenge_token a.
(** No order becomes pending again. *)
Definition same_order (o o' : Order) : Prop :=
  order_account_id o' = order_account_id o ∧ order_identifiers o' = order_identifiers o ∧
  (order_status o' = Pending → order_status o = Pending).

(** [d'] extends [d]: no authorization, order or certificate disappears or
    changes owner, domain or token, no order of [d] gets a new authorization,
    and none becomes pending again. *)
Record extends (d d' : db) : Prop := {
  ext_authz : ∀ k a, authzs d !! k = Some a → ∃ a', authzs d' !! k = Some a' ∧ same_authz a a';
  ext_order : ∀ k o, orders d !! k = Some o → ∃ o', orders d' !! k = Some o' ∧ same_order o o';
  ext_cert : certs d ⊆ certs d';
  ext_fresh : ∀ k a', authzs d' !! k = Some a' → is_Some (orders d !! authz_order_id a') →
    is_Some (authzs d !! k)
}.

Lemma same_authz_refl a : same_authz a a.
Proof. done. Qed.
Lemma same_order_refl o : same_order o o.
Proof. done. Qed.
#[export] Hint Resolve same_authz_refl same_order_refl : jackdaw.

#[export] Instance extends_preorder : PreOrder extends.
Proof.
  split.
  - intros d. split; [eauto with jackdaw..|done|by eauto].
  - intros d1 d2 d3 [A1 O1 C1 F1] [A2 O2 C2 F2]. split; [| |by etrans|].
    + intros k a (a' & Ha' & S1)%A1. apply A2 in Ha' as (a'' & Ha'' & S2).
      exists a''. split; [done|]. unfold same_authz in *. naive_solver congruence.
    + intros k o (o' & Ho' & S1)%O1. apply O2 in Ho' as (o'' & Ho'' & S2).
      exists o''. split; [done|]. unfold same_order in *. naive_solver congruence.
    + intros k a3 Ha3 [o1 Ho1]. destruct (O1 _ _ Ho1) as (o2 & Ho2 & _).
      destruct (F2 k a3 Ha3) as [a2 Ha2]; [by exists o2|].
      destruct (A2 k a2 Ha2) as (a3' & Ha3' & S1 & _). apply (F1 k a2 Ha2).
      exists o1. congruence.
Qed.

Lemma extends_order d k o o' : orders d !! k = Some o → same_order o o' →
  extends d (set_orders (<[k := o']> (orders d)) d).
Proof.
  intros Ho Hs. split; [cbn; eauto with jackdaw| |done|by cbn; eauto]. intros k' x Hx. cbn.
  destruct (decide (k = k')) as [<-|].
  - rewrite lookup_insert_eq. exists o'. naive_solver.
  - rewrite lookup_insert_ne by done. eauto with jackdaw.
Qed.

Lemma extends_authz d k a a' : authzs d !! k = Some a → same_authz a a' →
  extends d (set_authzs (<[k := a']> (authzs d)) d).
Proof.
  intros Ha Hs. split; [|cbn; eauto with jackdaw|done|].
  - intros k' x Hx. cbn. destruct (decide (k = k')) as [<-|].
    + rewrite lookup_insert_eq. exists a'. naive_solver.
    + rewrite lookup_insert_ne by done. eauto with jackdaw.
  - intros k' x. cbn. destruct (decide (k = k')) as [<-|]; [by eauto|].
    rewrite lookup_insert_ne by done. by eauto.
Qed.

(** Changes of the other tables. *)
Lemma extends_rest d d' :
  authzs d' = authzs d → orders d' = orders d → certs d ⊆ certs d' → extends d d'.
Proof. intros E1 E2 E3. split; rewrite ?E1, ?E2; eauto with jackdaw. Qed.

(** ** Invariant of the tables *)

(** The first identifier of an order. *)
Definition order_domain (o : Order) : option str :=
  j ← loads (order_identifiers o);
  match first_domain j with inr s => Some s | inl _ => None end.

(** [P k]: control of the domain of authorization [k] was proved; [V k]: order
    [k] has been pending or in its first processing so far. *)
Record tables_ok (P V : str → Prop) (d : db) : Prop := {
  tok_authz : ∀ k a, authzs d !! k = Some a →
    ∃ o, orders d !! authz_order_id a = Some o ∧ order_domain o = Some (authz_identifier a);
  tok_order : ∀ k o, orders d !! k = Some o → ∃ ka a, authzs d !! ka = Some a ∧ authz_order_id a = k;
  tok_valid : ∀ k a, authzs d !! k = Some a → authz_status a = Valid → P k;
  tok_ready : ∀ k o, orders d !! k = Some o → order_status o = Ready →
    ∀ ka a, authzs d !! ka = Some a → authz_order_id a = k → P ka;
  tok_valid_order : ∀ k o, orders d !! k = Some o → order_status o = Valid →
    is_Some (order_cert_id o);
  tok_cert : ∀ k o kc, orders d !! k = Some o → order_cert_id o = Some kc →
    ∃ c, certs d !! kc = Some c ∧ cert_order_id c = k;
  tok_single : ∀ k a k' a', authzs d !! k = Some a → authzs d !! k' = Some a' →
    authz_order_id a = authz_order_id a' → k = k';
  tok_first : ∀ k a o, authzs d !! k = Some a → orders d !! authz_order_id a = Some o →
    V (authz_order_id a) → order_status o = Processing → authz_status a = Processing
}.

Lemma tables_ok_mono (P P' V V' : str → Prop) d :
  (∀ k, P k → P' k) → (∀ k, V' k → V k) → tables_ok P V d → tables_ok P' V' d.
Proof. intros HP HV [H1 H2 H3 H4 H5 H6 H7 H8]. split; eauto. Qed.

(** Looking a key up in an updated table. *)
Ltac insert_cases H := apply lookup_insert_Some in H as [[<- <-]|[? H]].

Lemma tables_ok_order P V d k o o' :
  tables_ok P V d → orders d !! k = Some o → same_order o o' →
  (order_status o' = Ready → order_status o = Ready ∨
     ∀ ka a, authzs d !! ka = Some a → authz_order_id a = k → P ka) →
  (order_status o' = Valid → (order_status o = Valid ∧ order_cert_id o' = order_cert_id o) ∨
     is_Some (order_cert_id o')) →
  (∀ kc, order_cert_id o' = Some kc → order_cert_id o = Some kc ∨
     ∃ c, certs d !! kc = Some c ∧ cert_order_id c = k) →
  (order_status o' = Processing → V k → order_status o = Processing ∨
     ∀ ka a, authzs d !! ka = Some a → authz_order_id a = k → authz_status a = Processing) →
  tables_ok P V (set_orders (<[k := o']> (orders d)) d).
Proof.
  intros [H1 H2 H3 H4 H5 H6 H7 H8] Ho (Hs1 & Hs2 & _) Hr Hv Hc Hp. split; cbn; [| |done| | | |done|].
  - intros ka a Ha. destruct (H1 ka a Ha) as (x & Hx & Hd).
    destruct (decide (k = authz_order_id a)) as [->|]; [|rewrite lookup_insert_ne by done; by eauto].
    rewrite lookup_insert_eq. exists o'. split; [done|]. unfold order_domain in *. rewrite Hs2. congruence.
  - intros k' x Hx. insert_cases Hx; eauto.
  - intros k' x Hx Hst. insert_cases Hx; [destruct (Hr Hst); eauto|eauto].
  - intros k' x Hx Hst. insert_cases Hx; [|eauto]. destruct (Hv Hst) as [[Hst' ->]|?]; [eauto|done].
  - intros k' x kc Hx Hkc. insert_cases Hx; [destruct (Hc kc Hkc); eauto|eauto].
  - intros ka a x Ha Hx HV Hst. apply lookup_insert_Some in Hx as [[-> <-]|[? Hx]]; [|eauto].
    destruct (Hp Hst HV); eauto.
Qed.

Lemma tables_ok_authz P V d k a a' :
  tables_ok P V d → authzs d !! k = Some a → same_authz a a' →
  (authz_status a' = Valid → P k) →
  (authz_status a = Processing → authz_status a' ≠ Processing → V (authz_order_id a) →
     ∀ o, orders d !! authz_order_id a = Some o → order_status o ≠ Processing) →
  tables_ok P V (set_authzs (<[k := a']> (authzs d)) d).
Proof.
  intros [H1 H2 H3 H4 H5 H6 H7 H8] Ha (Hs1 & Hs2 & Hs3) Hv Hp. split; cbn; [| | | |done|done| |].
  - intros k' x Hx. insert_cases Hx; [rewrite Hs1, Hs2|]; eauto.
  - intros ko o Ho. destruct (H2 ko o Ho) as (ka & x & Hx & Hko). destruct (decide (k = ka)) as [<-|].
    + exists k, a'. rewrite lookup_insert_eq. split; [done|]. congruence.
    + exists ka, x. by rewrite lookup_insert_ne.
  - intros k' x Hx Hst. insert_cases Hx; eauto.
  - intros ko o Ho Hst ka x Hx Hko. insert_cases Hx; [eapply (H4 ko o); [done..|congruence]|eauto].
  - intros k1 x k2 y Hx Hy E.
    insert_cases Hx; insert_cases Hy; [done|rewrite Hs1 in E; eauto..|eauto].
  - intros k' x o Hx Ho HV Hst. insert_cases Hx; [|eauto]. rewrite Hs1 in Ho, HV.
    destruct (decide (authz_status a' = Processing)) as [|Hn]; [done|].
    destruct (Hp (H8 k a o Ha Ho HV Hst) Hn HV o Ho Hst).
Qed.

Lemma tables_ok_cert P V d k c :
  tables_ok P V d → certs d !! k = None → tables_ok P V (set_certs (<[k := c]> (certs d)) d).
Proof.
  intros [H1 H2 H3 H4 H5 H6 H7 H8] Hk. split; cbn; try done. intros ko o kc Ho Hkc.
  destruct (H6 ko o kc Ho Hkc) as (x & Hx & Hox). exists x.
  rewrite lookup_insert_ne by congruence. done.
Qed.

Lemma tables_ok_accounts P V d t : tables_ok P V d → tables_ok P V (set_accounts t d).
Proof. intros [H1 H2 H3 H4 H5 H6 H7 H8]. by split. Qed.
Lemma tables_ok_nonces P V d t : tables_ok P V d → tables_ok P V (set_nonces t d).
Proof. intros [H1 H2 H3 H4 H5 H6 H7 H8]. by split. Qed.

(** A new order with its one authorization. *)
Lemma tables_ok_new P V d ko o ka a :
  tables_ok P V d → orders d !! ko = None → authzs d !! ka = None →
  authz_order_id a = ko → order_domain o = Some (authz_identifier a) →
  order_status o = Pending → order_cert_id o = None → authz_status a = Pending →
  tables_ok P V (set_authzs (<[ka := a]> (authzs d)) (set_orders (<[ko := o]> (orders d)) d)).
Proof.
  intros [H1 H2 H3 H4 H5 H6 H7 H8] Ho Ha Hao Hd Hos Hoc Has.
  assert (∀ k x, authzs d !! k = Some x → authz_order_id x ≠ ko) as Hfresh.
  { intros k x Hx. destruct (H1 k x Hx) as (y & Hy & _). congruence. }
  split; cbn.
  - intros k x Hx. insert_cases Hx; [exists o; by rewrite Hao, lookup_insert_eq|].
    rewrite lookup_insert_ne by (by apply not_eq_sym, (Hfresh k)). eauto.
  - intros k x Hx. insert_cases Hx; [exists ka, a; by rewrite lookup_insert_eq|].
    destruct (H2 k x Hx) as (k' & y & Hy & Hyo). exists k', y. rewrite lookup_insert_ne by congruence. done.
  - intros k x Hx Hst. insert_cases Hx; [congruence|eauto].
  - intros k x Hx Hst k' y Hy Hyo. insert_cases Hx; [congruence|]. insert_cases Hy; [congruence|eauto].
  - intros k x Hx Hst. insert_cases Hx; [congruence|eauto].
  - intros k x kc Hx Hkc. insert_cases Hx; [congruence|eauto].
  - intros k x k' y Hx Hy E. insert_cases Hx; insert_cases Hy; [done| | |eauto].
    + by destruct (Hfresh k' y Hy); congruence.
    + by destruct (Hfresh k x Hx); congruence.
  - intros k x y Hx Hy HV Hst. apply lookup_insert_Some in Hy as [[_ <-]|[_ Hy]]; [congruence|]. insert_cases Hx; [congruence|eauto].
Qed.

(** Start-up recovery moves rows to [Invalid] only. *)
Lemma tables_ok_reset P V d d' : reset_stmt d = inr (tt, d') → tables_ok P V d → tables_ok P V d'.
Proof.
  intros [= <-] [H1 H2 H3 H4 H5 H6 H7 H8].
  set (f := λ a : Authorization, if decide (authz_status a = Processing) then set_authz_status Invalid a else a).
  assert (∀ a, authz_order_id (f a) = authz_order_id a ∧ authz_identifier (f a) = authz_identifier a) as Hf
    by (intros a; unfold f; by case_decide).
  split; cbn; fold f.
  - intros k a (x & <- & Hx)%lookup_fmap_Some. destruct (H1 k x Hx) as (o & Ho & Hd).
    destruct (Hf x) as [-> ->]. rewrite lookup_fmap, Ho. eexists. split; [done|]. by case_decide.
  - intros k o (x & <- & Hx)%lookup_fmap_Some. destruct (H2 k x Hx) as (ka & a & Ha & Hk). exists ka, (f a).
    rewrite lookup_fmap, Ha. split; [done|]. by rewrite (proj1 (Hf a)).
  - intros k a (x & <- & Hx)%lookup_fmap_Some. unfold f. case_decide; [done|]. eauto.
  - intros k o (x & <- & Hx)%lookup_fmap_Some. case_decide; [done|].
    intros Hst ka a (y & <- & Hy)%lookup_fmap_Some. rewrite (proj1 (Hf y)). eauto.
  - intros k o (x & <- & Hx)%lookup_fmap_Some. case_decide; [done|]. eauto.
  - intros k o kc (x & <- & Hx)%lookup_fmap_Some Hkc. apply (H6 k x kc Hx). by case_decide.
  - intros k a k' a' (x & <- & Hx)%lookup_fmap_Some (y & <- & Hy)%lookup_fmap_Some.
    rewrite (proj1 (Hf x)), (proj1 (Hf y)). eauto.
  - intros k a o _ (y & <- & _)%lookup_fmap_Some _. by case_decide.
Qed.

Lemma extends_reset d d' : reset_stmt d = inr (tt, d') → extends d d'.
Proof.
  intros [= <-]. split; cbn.
  - intros k a Ha. rewrite lookup_fmap, Ha. eexists. split; [done|]. by case_decide.
  - intros k o Ho. rewrite lookup_fmap, Ho. eexists. split; [done|]. by case_decide.
  - done.
  - intros k a. rewrite lookup_fmap. intros (x & Hx & _)%fmap_Some _. by exists x.
Qed.

(** ** Invariant of the history *)

(** [d] is the present state of the tables or an earlier one. *)
Definition past (w : world) (d : db) : Prop := d = w_db w ∨ ∃ d', EvTx d d' ∈ w_log w.

Section system.
Context `{Ext} (cfg : Settings).

(** [key] is, or was, the public key of the account. *)
Definition past_key (w : world) (acct key : str) : Prop :=
  ∃ d a, past w d ∧ accounts d !! acct = Some a ∧ account_public_key a = key.

(** The history shows the exchange that proves control of [domain]. *)
Definition exchanged (domain token expected : str) (w : world) : Prop :=
  ∃ results ip resp,
    EvResolve domain (inr results) ∈ w_log w ∧
    Forall (λ fa : address_family * str, is_blocked fa.2 = false) results ∧ ip ∈ results.*2 ∧
    EvHttp (target_url cfg ip (challenge_path token)) (host_header cfg domain) (inr resp) ∈ w_log w ∧
    resp_status_code resp = 200 ∧ response_text (resp_content resp) = expected.

(** Control of the domain of authorization [k] was proved: its token's path
    answered with the key authorization of a key of the ordering account.  With
    no attempt configured the relay validates without any exchange. *)
Definition proved (w : world) (k : str) : Prop :=
  ∃ a o token key expected,
    authzs (w_db w) !! k = Some a ∧ orders (w_db w) !! authz_order_id a = Some o ∧
    authz_challenge_token a = Some token ∧ past_key w (order_account_id o) key ∧
    key_authorization token key = inr expected ∧
    (0 < challenge_retries cfg → exchanged (authz_identifier a) token expected w).

(** Issuance for order [k] and [domain] is justified. *)
Definition authorized (w : world) (k domain : str) : Prop :=
  ∃ o ka a, orders (w_db w) !! k = Some o ∧ order_domain o = Some domain ∧
    authzs (w_db w) !! ka = Some a ∧ authz_order_id a = k ∧ authz_identifier a = domain ∧ proved w ka.

(** Order [k] has been pending or processing since it was placed. *)
Definition virgin (w : world) (k : str) : Prop :=
  ∀ d o, past w d → orders d !! k = Some o → order_status o = Pending ∨ order_status o = Processing.

(** What each recorded event required. *)
Definition event_ok (w : world) (ev : event) : Prop :=
  match ev with
  | EvSpawn (run_challenge_task ka ko) =>
      ∃ a, authzs (w_db w) !! ka = Some a ∧ authz_order_id a = ko
  | EvSpawn (process_finalize_task ko domain _) => authorized w ko domain
  | EvSign domain _ => ∃ ko, authorized w ko domain
  | EvHttp url host _ =>
      ∃ domain ip path, url = target_url cfg ip path ∧ host = host_header cfg domain ∧ vetted domain ip w
  | _ => True
  end.

Record invariant (w : world) : Prop := {
  inv_tables : tables_ok (proved w) (virgin w) (w_db w);
  inv_past : ∀ d, past w d → extends d (w_db w);
  inv_events : ∀ ev, ev ∈ w_log w → event_ok w ev;
  inv_nonces : ∀ v, spent v w
}.

(** Later worlds: rows persist, the history grows. *)
Record later (w w' : world) : Prop := {
  later_db : extends (w_db w) (w_db w');
  later_log : w_log w `suffix_of` w_log w';
  later_past : ∀ d, past w d → past w' d
}.

(** What every coroutine guarantees and relies on. *)
Definition shared (w w' : world) : Prop := later w w' ∧ (invariant w → invariant w').

#[export] Instance later_preorder : PreOrder later.
Proof.
  split; [by split|]. intros w1 w2 w3 [D1 L1 P1] [D2 L2 P2]. split; [by etrans|by etrans|auto].
Qed.
#[export] Instance shared_preorder : PreOrder shared.
Proof.
  split; [done|]. intros w1 w2 w3 [L1 I1] [L2 I2]. split; [by etrans|auto].
Qed.

Lemma later_elem w w' ev : later w w' → ev ∈ w_log w → ev ∈ w_log w'.
Proof. intros [_ [l ->] _] Hin. apply elem_of_app. by right. Qed.

Lemma past_key_later w w' acct key : later w w' → past_key w acct key → past_key w' acct key.
Proof. intros Hl (d & a & Hp & Ha). exists d, a. split; [by apply (later_past _ _ Hl)|done]. Qed.

Lemma exchanged_later domain token expected w w' :
  later w w' → exchanged domain token expected w → exchanged domain token expected w'.
Proof.
  intros Hl (rs & ip & resp & H1 & H2 & H3 & H4 & H5 & H6). exists rs, ip, resp.
  split_and!; try done; by eapply later_elem.
Qed.

Lemma vetted_later domain ip w w' : later w w' → vetted domain ip w → vetted domain ip w'.
Proof. intros Hl (rs & H1 & H2). exists rs. split; [by eapply later_elem|done]. Qed.

Lemma proved_later w w' k : later w w' → proved w k → proved w' k.
Proof.
  intros Hl (a & o & token & key & expected & Ha & Ho & Ht & Hk & He & Hx).
  destruct (ext_authz _ _ (later_db _ _ Hl) k a Ha) as (a' & Ha' & S1 & S2 & S3).
  destruct (ext_order _ _ (later_db _ _ Hl) _ o Ho) as (o' & Ho' & S4 & _).
  exists a', o', token, key, expected. rewrite S1, S2, S3, S4. split_and!; try done.
  - by eapply past_key_later.
  - intros Hr. eapply exchanged_later; [done|auto].
Qed.

Lemma authorized_later w w' k domain : later w w' → authorized w k domain → authorized w' k domain.
Proof.
  intros Hl (o & ka & a & Ho & Hd & Ha & Hk & Hi & Hp).
  destruct (ext_authz _ _ (later_db _ _ Hl) ka a Ha) as (a' & Ha' & S1 & S2 & S3).
  destruct (ext_order _ _ (later_db _ _ Hl) _ o Ho) as (o' & Ho' & S4 & S5 & _).
  exists o', ka, a'. split_and!; try done; try congruence.
  - unfold order_domain in *. by rewrite S5.
  - by eapply proved_later.
Qed.

Lemma event_ok_later w w' ev : later w w' → event_ok w ev → event_ok w' ev.
Proof.
  intros Hl. destruct ev as [| |url host r|[ka ko|ko domain csr]|domain csr]; cbn; try done.
  - intros (dm & ip & path & -> & -> & Hv). exists dm, ip, path. split_and!; try done.
    by eapply vetted_later.
  - intros (a & Ha & Hk). destruct (ext_authz _ _ (later_db _ _ Hl) ka a Ha) as (a' & Ha' & S1 & _).
    exists a'. split; [done|congruence].
  - by apply authorized_later.
  - intros (ko & Hk). exists ko. by eapply authorized_later.
Qed.

(** ** Steps of the shared relation *)

Lemma virgin_later w w' k : later w w' → virgin w' k → virgin w k.
Proof. intros Hl Hv d o Hd. by apply Hv, (later_past _ _ Hl). Qed.

(** The tables' invariant in a later world with the same facts. *)
Lemma tables_ok_later w w' d : later w w' → tables_ok (proved w) (virgin w) d → tables_ok (proved w') (virgin w') d.
Proof. intros Hl. apply tables_ok_mono; intros k; [by apply proved_later|by apply virgin_later]. Qed.

(** A commit is shared when it extends the tables, permits the nonce changes,
    and keeps the tables' invariant. *)
Lemma shared_commit w d :
  extends (w_db w) d → nonces_step (nonces (w_db w)) (nonces d) →
  (invariant w → tables_ok (proved w) (virgin w) d) → shared w (w_commit d w).
Proof.
  intros He Hn Ht.
  assert (later w (w_commit d w)) as Hl.
  { split; [done|by apply suffix_cons_r|]. intros d0 [->|[d' Hd']].
    - right. exists d. left.
    - right. exists d'. by right. }
  split; [done|]. intros Hi. split.
  - by apply (tables_ok_later w), Ht.
  - intros d0 [->|(d' & [[= -> _]|Hd']%elem_of_cons)]; [done..|]. cbn. trans (w_db w); [|done].
    apply (inv_past _ Hi). right. by exists d'.
  - intros ev [->|Hev]%elem_of_cons; [done|]. eapply event_ok_later; [done|]. by apply (inv_events _ Hi).
  - intros v. apply spent_commit; [done|]. by apply (inv_nonces _ Hi).
Qed.

(** Recording an event that is in order. *)
Lemma shared_record w ev :
  (∀ d d', ev ≠ EvTx d d') → (invariant w → event_ok w ev) → shared w (w_record ev w).
Proof.
  intros Hne Hok.
  assert (later w (w_record ev w)) as Hl.
  { split; [done|by apply suffix_cons_r|]. intros d0 [->|[d' Hd']]; [by left|].
    right. exists d'. by right. }
  split; [done|]. intros Hi. split.
  - by apply (tables_ok_later w _ (w_db w)), inv_tables.
  - intros d0 [->|(d' & [E|Hd']%elem_of_cons)]; [done|by destruct (Hne d0 d')|].
    apply (inv_past _ Hi). right. by exists d'.
  - intros e [->|Hev]%elem_of_cons; eapply event_ok_later; try done; [by apply Hok|].
    by apply (inv_events _ Hi).
  - intros v. pose proof (inv_nonces _ Hi v) as Hs. unfold spent in *.
    cbn [w_log w_db w_record]. rewrite !count_cons.
    destruct ev; cbn [consumes issues]; try lia. by destruct (Hne before after).
Qed.

Lemma shared_lock w s : shared w (w_lock s w).
Proof.
  assert (later w (w_lock s w)) as Hl by (split; [done|done|by intros d [->|?]; [left|right]]).
  split; [done|]. intros Hi. split.
  - by apply (tables_ok_later w _ (w_db w)), inv_tables.
  - apply (inv_past _ Hi).
  - intros ev Hev. eapply event_ok_later; [done|]. by apply (inv_events _ Hi).
  - apply (inv_nonces _ Hi).
Qed.

Lemma virgin_now w k o : virgin w k → orders (w_db w) !! k = Some o → order_status o = Pending ∨ order_status o = Processing.
Proof. intros Hv. by apply Hv; left. Qed.

(** A pending order has always been pending. *)
Lemma pending_virgin w k o : invariant w → orders (w_db w) !! k = Some o → order_status o = Pending → virgin w k.
Proof.
  intros Hi Ho Hst d o0 Hd Ho0. destruct (ext_order _ _ (inv_past _ Hi d Hd) k o0 Ho0) as (o' & Ho' & _ & _ & Hp).
  left. apply Hp. congruence.
Qed.

#[export] Instance shared_tolerant : Tolerant shared.
Proof.
  split.
  - apply _.
  - intros w w' [Hl _]. apply Hl.
  - intros w h r. by apply shared_record.
  - apply shared_lock.
  - intros w t Ht. apply shared_commit; [by apply extends_rest|done|].
    intros Hi. apply tables_ok_nonces, Hi.
Qed.
#[export] Instance shared_tolerant_http : TolerantHttp cfg shared.
Proof.
  split; [apply _|]. intros w domain ip path r Hv. apply shared_record; [done|].
  intros _. by exists domain, ip, path.
Qed.
End system.
