(* ===== verification/Safety.v ===== *)
(** * Every coroutine keeps the system invariant

    Each handler, background task and timer moves the world by [shared]: the
    rely-guarantee half of the whole-system theorems. *)
From S2P Require Import Prelude PyStr Json Base64 External PyStd Models Config Prog Nonce Jws Schemas.
From S2P Require Import Ownership Ip Http01 LeClient Worker Orders Routes Main System.

(** Starts a step of a coroutine: one bind. *)
Ltac rg_seq := apply rg_bind; [apply _|].

Section safety.
Context `{Ext} (cfg : Settings).
#[local] Abbreviation T := (shared cfg).

(** ** Plain writes *)

Lemma nonces_same w d : nonces d = nonces (w_db w) → nonces_step (nonces (w_db w)) (nonces d).
Proof. intros ->. apply nonces_step_refl. Qed.

Lemma commit_same w : T w (w_commit (w_db w) w).
Proof.
  apply shared_commit; [done|apply nonces_step_refl|]. intros Hi. apply Hi.
Qed.

Lemma insert_account_safe k a : safe T (exec (insert_account k a)).
Proof.
  apply safe_exec; [apply _|]. intros w [] d (_ & _ & ->)%insert_row_inr.
  apply shared_commit; [by apply extends_rest|apply nonces_step_refl|].
  intros Hi. apply tables_ok_accounts, Hi.
Qed.

(** What the flush of a set of assignments does: nothing, or one row update. *)
Lemma flush_changes_inr {R} get set k (changes : list (option (R → R))) d x d' :
  flush_changes (flush_row get set) k changes d = inr (x, d') →
  d' = d ∨ ∃ r, get d !! k = Some r ∧
    d' = set (<[k := foldl (λ r f, f r) r (omap id changes)]> (get d)) d.
Proof.
  unfold flush_changes. destruct (omap id changes) as [|f fs]; [intros [= _ <-]; by left|].
  intros (r & Hr & ->)%flush_row_inr. right. by exists r.
Qed.

Lemma flush_key_safe k a new :
  safe T (exec (flush_changes flush_account k [assign (account_public_key a) new set_public_key])).
Proof.
  apply safe_exec; [apply _|]. intros w [] d [->|(r & _ & ->)]%flush_changes_inr; [apply commit_same|].
  apply shared_commit; [by apply extends_rest|apply nonces_step_refl|].
  intros Hi. apply tables_ok_accounts, Hi.
Qed.

(** An update of one order that makes it neither ready nor valid. *)
Lemma commit_order w k o o' :
  orders (w_db w) !! k = Some o → same_order o o' →
  (order_status o' = Ready → order_status o = Ready) →
  (order_status o' = Valid → order_status o = Valid) → order_cert_id o' = order_cert_id o →
  (order_status o' = Processing → order_status o = Processing ∨ ¬ virgin w k) →
  T w (w_commit (set_orders (<[k := o']> (orders (w_db w))) (w_db w)) w).
Proof.
  intros Ho Hs Hr Hv Hc Hp. apply shared_commit; [by eapply extends_order|apply nonces_step_refl|].
  intros Hi. eapply tables_ok_order; eauto; [apply Hi| |].
  - intros kc. rewrite Hc. by left.
  - intros Hst HV. destruct (Hp Hst); [by left|done].
Qed.

Lemma insert_cert_safe k c : safe T (exec (insert_cert k c)).
Proof.
  apply safe_exec; [apply _|]. intros w [] d (_ & Hk & ->)%insert_row_inr.
  apply shared_commit; [|apply nonces_step_refl|].
  - apply extends_rest; [done..|]. by apply insert_subseteq.
  - intros Hi. by apply tables_ok_cert, Hk; apply Hi.
Qed.

(** ** New orders *)

(** The row an identifier gets. *)
Definition authz_row (order_id : str) (i : Identifier) (ka : str * Authorization) : Prop :=
  ∃ token now, ka.2 = mk_Authorization order_id (ident_value i) Pending (Some token) None now None.

Lemma new_authzs_rg oid ids (Q : res (list (str * Authorization)) → world → Prop) w :
  (∀ rows w', T w w' → Forall2 (authz_row oid) ids rows → Q (inr rows) w') →
  rg T T (new_authzs oid ids) Q w.
Proof.
  revert Q w. induction ids as [|i ids IH]; intros Q w HQ; cbn [new_authzs].
  { apply rg_ret. intros w' Hw. apply HQ; [done|constructor]. }
  apply rg_frame; [apply _|].
  rg_seq. apply rg_silent; [apply _|done|]. intros ka w1 _ _ w2 H2.
  rg_seq. apply rg_silent; [apply _|done|]. intros token w3 _ _ w4 H4.
  rg_seq. apply rg_silent; [apply _|done|]. intros now w5 _ _ w6 H6.
  rg_seq. apply IH. intros rows w7 H7 HF. apply rg_ret. intros w8 H8 Hw. apply HQ; [done|].
  constructor; [|done]. by exists token, now.
Qed.

Lemma validate_identifiers_inr ids :
  validate_identifiers ids = inr tt →
  ∃ i, ids = [i] ∧ ident_type i = u "dns" ∧ strip (ident_value i) ≠ [].
Proof.
  destruct ids as [|i [|]]; cbn; try done. case_bool_decide as Ht; cbn; [|done].
  destruct (truthy _) eqn:E; [|done]. intros _. exists i. split_and!; [done..|].
  by apply truthy_true.
Qed.

Lemma order_domain_new acct exp created i :
  ident_type i = u "dns" → encodable (ident_value i) = true →
  order_domain (mk_Order acct Pending (json_dumps (JArr (Identifier_dump <$> [i]))) None None exp
    created None) = Some (ident_value i).
Proof.
  intros Ht He. unfold order_domain. cbn [order_identifiers].
  rewrite (loads_dumps (u " ")); [done..|]. apply dump_identifiers_wf.
  repeat constructor; [by rewrite Ht|done].
Qed.

Lemma new_order_tables P V oid acct exp created ids rows d x d' :
  validate_identifiers ids = inr tt → Forall2 (authz_row oid) ids rows →
  (insert_order oid (mk_Order acct Pending (json_dumps (JArr (Identifier_dump <$> ids))) None None exp
     created None) ;; insert_authzs rows) d = inr (x, d') →
  extends d d' ∧ nonces d' = nonces d ∧ (tables_ok P V d → tables_ok P V d').
Proof.
  intros (i & -> & Hty & _)%validate_identifiers_inr HF E.
  apply Forall2_cons_inv_l in HF as ([ka a] & rows' & (token & now & Ea) & HF & ->).
  apply Forall2_nil_inv_l in HF as ->. cbn in Ea. subst a.
  apply tx_bind_inr in E as ([] & d1 & (_ & Ho & ->)%insert_row_inr & E).
  cbn [insert_authzs] in E.
  apply tx_bind_inr in E as ([] & d2 & (Henc & Ha & ->)%insert_row_inr & E).
  injection E as _ <-. cbn in Ha.
  assert (encodable (ident_value i) = true) as He.
  { rewrite forallb_forall in Henc. apply Henc. cbn. auto. }
  split_and!; [|done|].
  - split; cbn; [| |done|].
    + intros k y Hy. exists y. split; [|done]. rewrite lookup_insert_ne by congruence. done.
    + intros k y Hy. exists y. split; [|done]. rewrite lookup_insert_ne by congruence. done.
    + intros k y. destruct (decide (ka = k)) as [<-|].
      * rewrite lookup_insert_eq. intros [= <-]. cbn. by rewrite Ho; intros [? ?].
      * rewrite lookup_insert_ne by done. by eauto.
  - intros Hok. cbn. apply tables_ok_new; try done. by apply order_domain_new.
Qed.

Lemma check_rate_safe acct : safe T (check_order_rate_limit cfg acct).
Proof. unfold check_order_rate_limit. safe_auto. Qed.

Lemma new_order_safe rq : safe T (new_order cfg rq).
Proof.
  intros w. unfold new_order. rg_seq. apply safe_rg; [apply _|apply verify_jws_safe, _|].
  intros [e|[payload acct]] w1 _; [done|].
  rg_seq. apply rg_lift. intros w2 _. destruct (NewOrderRequest_validate payload) as [|ids]; [done|].
  rg_seq. apply rg_lift. intros w3 _. destruct (validate_identifiers ids) as [|[]] eqn:Ev; [done|].
  rg_seq. apply rg_lift. intros w4 _. destruct (check_domain_policy cfg ids) as [|[]]; [done|].
  rg_seq. apply safe_rg; [apply _|apply check_rate_safe|]. intros [e|[]] w5 _; [done|].
  rg_seq. apply rg_silent; [apply _|done|]. intros oid w6 _ _ w7 _.
  rg_seq. apply rg_silent; [apply _|done|]. intros now w8 _ _ w9 _.
  rg_seq. apply rg_silent; [apply _|done|]. intros created w10 _ _ w11 _.
  rg_seq. apply new_authzs_rg. intros rows w12 _ HF.
  rg_seq. apply rg_exec; [apply _| |done]. intros w13 x d _ E. split; [|done].
  destruct (new_order_tables (proved cfg w13) (virgin w13) _ _ _ _ _ _ _ _ _ Ev HF E) as (He & Hn & Ht).
  apply shared_commit; [done|by apply nonces_same|]. intros Hi. apply Ht, Hi.
Qed.

(** ** Finalization *)

Lemma invariant_T w w' : T w w' → invariant cfg w → invariant cfg w'.
Proof. by intros [_ HI]. Qed.
Lemma later_T w w' : T w w' → later w w'.
Proof. by intros [Hl _]. Qed.

Lemma claim_order_inr k d n d' : claim_order k d = inr (n, d') →
  (n = 0 ∧ d' = d) ∨
  ∃ o, orders d !! k = Some o ∧ order_status o = Ready ∧ n = 1 ∧
    d' = set_orders (<[k := set_order_status Processing o]> (orders d)) d.
Proof.
  unfold claim_order. destruct (orders d !! k) as [o|] eqn:Ho; [|intros [= <- <-]; by left].
  case_decide; intros [= <- <-]; [right; by exists o|by left].
Qed.

(** A ready order has a proved authorization for its domain. *)
Lemma ready_authorized w k o domain :
  invariant cfg w → orders (w_db w) !! k = Some o → order_status o = Ready →
  order_domain o = Some domain → authorized cfg w k domain.
Proof.
  intros Hi Ho Hst Hd. destruct (inv_tables _ _ Hi) as [H1 H2 _ H4 _ _ _ _].
  destruct (H2 k o Ho) as (ka & a & Ha & Hk). destruct (H1 ka a Ha) as (o' & Ho' & Hd').
  assert (o' = o) as -> by congruence. assert (authz_identifier a = domain) by congruence.
  exists o, ka, a. split_and!; try done. by eapply H4.
Qed.

Lemma finalize_order_rg oid rq w : invariant cfg w →
  rg T T (finalize_order cfg oid rq) (λ _ _, True) w.
Proof.
  intros Hi. unfold finalize_order. rg_seq. apply safe_rg; [apply _|apply verify_jws_safe, _|].
  intros [e|[payload acct]] w1 H1; [done|].
  rg_seq. apply rg_lift. intros w2 H2. destruct (FinalizeRequest_validate payload) as [|csr]; [done|].
  rg_seq. apply require_order_owner_rg; [apply _|]. intros [e|o] w3 H3 Ho; [done|].
  destruct (Ho o eq_refl) as (_ & wo & Ho1 & Ho2 & Hlook). clear Ho.
  destruct (negb _); [done|].
  rg_seq. apply rg_lift. intros w4 H4. destruct (b64url_decode csr) as [der|]; [|done]. cbn [or_raise].
  rg_seq. apply rg_lift. intros w5 H5. destruct (loads (order_identifiers o)) as [ids|] eqn:Eids; [|done].
  cbn [or_raise]. destruct (negb (py_truthy ids)); [done|].
  rg_seq. apply rg_lift. intros w6 H6. destruct (first_domain ids) as [|domain] eqn:Edom; [done|].
  assert (order_domain o = Some domain) as Hdom by (unfold order_domain; by rewrite Eids; cbn; rewrite Edom).
  assert (T wo w6) as Ho6 by (trans w3; [done|]; trans w4; [done|]; by trans w5).
  assert (invariant cfg w6) as Hi6.
  { apply (invariant_T wo); [done|]. apply (invariant_T w2); [done|]. by apply (invariant_T w1), (invariant_T w). }
  rg_seq. apply rg_exec; [apply _| |done]. intros w7 n d H7 E.
  pose proof (invariant_T _ _ H7 Hi6) as Hi7.
  apply claim_order_inr in E as [[-> ->]|(oc & Hoc & Hready & -> & ->)].
  { split; [apply commit_same|]. intros w8 H8. cbn [Z.eqb].
    rg_seq. apply rg_query; [apply _|]. done. }
  assert (authorized cfg w7 oid domain) as Hauth.
  { apply (ready_authorized _ _ oc); try done.
    destruct (ext_order _ _ (later_db _ _ (later_T wo w7 ltac:(by trans w6))) _ o Hlook)
      as (o' & Ho' & _ & Hids & _). unfold order_domain in *. assert (o' = oc) as -> by congruence.
    by rewrite Hids. }
  assert (T w7 (w_commit (set_orders (<[oid := set_order_status Processing oc]> (orders (w_db w7))) (w_db w7)) w7))
    as HT.
  { eapply commit_order; try done. intros _. right. intros HV. destruct (virgin_now _ _ _ HV Hoc); congruence. }
  split; [exact HT|]. intros w8 H8. cbn [Z.eqb].
  rg_seq. apply rg_perform. intros w9 H9 [] w10 Hs. cbn in Hs. subst w10. split.
  - apply shared_record; [done|]. intros _. eapply authorized_later; [|exact Hauth].
    apply later_T. trans w8; [|done]. etrans; [exact HT|done].
  - intros w11 _. rg_seq. apply rg_query; [apply _|]. intros w12 w13 _ _.
    rg_seq. apply rg_lift. intros w14 _. by destruct (load_identifiers ids).
Qed.

(** ** Challenges *)

(** The authorization of a task, as the tables know it. *)
Definition authz_for (ka ko : str) (d : db) : Prop := ∃ a, authzs d !! ka = Some a ∧ authz_order_id a = ko.

Lemma authz_for_extends ka ko d d' : extends d d' → authz_for ka ko d → authz_for ka ko d'.
Proof.
  intros He (a & Ha & Hk). destruct (ext_authz _ _ He ka a Ha) as (a' & Ha' & S1 & _).
  exists a'. split; [done|congruence].
Qed.
Lemma authz_for_later ka ko w w' : T w w' → authz_for ka ko (w_db w) → authz_for ka ko (w_db w').
Proof. intros HT. apply authz_for_extends, later_T, HT. Qed.

Lemma start_challenge_tables P V ka ko d x d' : start_challenge ka ko d = inr (x, d') →
  extends d d' ∧ nonces d' = nonces d ∧ (authz_for ka ko d → tables_ok P V d → tables_ok P V d').
Proof.
  intros E. apply tx_bind_inr in E as ([] & d1 & (a & Ha & ->)%flush_row_inr & E).
  set (a1 := set_authz_status Processing a) in *. remember (set_authzs (<[ka := a1]> (authzs d)) d) as d1 eqn:Ed1.
  assert (extends d d1 ∧ nonces d1 = nonces d ∧ (tables_ok P V d → tables_ok P V d1)) as (He & Hn & Ht).
  { subst d1. split_and!; [by eapply extends_authz|done|]. intros Hok. by eapply tables_ok_authz. }
  apply tx_bind_inr in E as (oo & d2 & [= <- <-] & E).
  destruct (orders d1 !! ko) as [o|] eqn:Ho; [|injection E as _ <-; by split_and!].
  case_decide as Hst; [|injection E as _ <-; by split_and!].
  apply flush_row_inr in E as (r & Hr & ->). assert (r = o) as -> by congruence.
  split_and!; [|done|].
  - trans d1; [done|]. eapply extends_order; [done|]. by repeat split.
  - intros (a' & Ha' & Hk) Hok%Ht. assert (a' = a) as -> by congruence.
    assert (authzs d1 !! ka = Some a1) as Ha1 by (subst d1; apply lookup_insert_eq).
    eapply tables_ok_order; [done|done|by repeat split|done|done|auto|]. intros _ _. right.
    intros k' y Hy Hyk. assert (k' = ka) as -> by (eapply tok_single; [done..|]; cbn; congruence).
    by simplify_eq.
Qed.

Lemma acknowledge_challenge_safe ka rq : safe T (acknowledge_challenge cfg ka rq).
Proof.
  intros w. unfold acknowledge_challenge. rg_seq. apply safe_rg; [apply _|apply verify_jws_safe, _|].
  intros [e|[payload acct]] w1 H1; [done|].
  rg_seq. apply require_authz_owner_rg; [apply _|]. intros [e|a] w2 H2 Ha; [done|].
  destruct (Ha a eq_refl) as (wa & wo & o & Hwa & Hwo & Hw2 & Hlook & _ & _). clear Ha.
  destruct (negb _); [done|]. rg_seq.
  assert (∀ w3, T w2 w3 → authz_for ka (authz_order_id a) (w_db w3)) as Hfor.
  { intros w3 H3. apply (authz_for_later _ _ wa); [|by exists a]. trans wo; [done|]. by trans w2. }
  assert (∀ w3, T w2 w3 → rg T T
    (perform (ESpawn (run_challenge_task ka (authz_order_id a))) ;;
     Ret (json_response (ChallengeObject (challenge_url cfg ka) (u "processing")
         (default [] (authz_challenge_token a)) None)
      200 [link_up (base_url cfg ++ u "/acme/authz/" ++ ka)])) (λ _ _, True) w3) as Hspawn.
  { intros w3 H3. rg_seq. apply rg_perform. intros w4 H4 [] w5 Hs. cbn in Hs. subst w5.
    split; [|done]. apply shared_record; [done|]. intros _. apply Hfor. by trans w3. }
  case_decide.
  - apply rg_exec; [apply _| |done]. intros w3 [] d H3 E.
    assert (T w3 (w_commit d w3)) as HT.
    { destruct (start_challenge_tables (proved cfg w3) (virgin w3) _ _ _ _ _ E) as (He & Hn & Ht).
      apply shared_commit; [done|by apply nonces_same|]. intros Hi. apply Ht; [auto|apply Hi]. }
    split; [exact HT|]. intros w4 H4. apply Hspawn. trans w3; [done|]. by etrans.
  - apply rg_ret. intros w3 H3. by apply Hspawn.
Qed.

(** *** The background validation *)

Lemma flush_order_status_inr k l s d x d' :
  flush_changes flush_order k [assign l s set_order_status] d = inr (x, d') →
  d' = d ∨ ∃ o, orders d !! k = Some o ∧ d' = set_orders (<[k := set_order_status s o]> (orders d)) d.
Proof.
  unfold assign. case_decide; intros [->|(o & Ho & ->)]%flush_changes_inr; auto.
  - left. cbn. rewrite insert_id by done. by destruct d.
  - right. by exists o.
Qed.

(** The order as a coroutine loaded it: while the order is in its first
    processing, it was loaded pending or processing. *)
Definition loaded (V : str → Prop) (ko : str) (o : Order) : Prop :=
  V ko → order_status o = Pending ∨ order_status o = Processing.

Lemma loaded_later ko o d w w' : T w w' → past w d → orders d !! ko = Some o → loaded (virgin w') ko o.
Proof. intros HT Hd Ho Hv. apply (Hv d); [|done]. by apply (later_past _ _ (later_T _ _ HT)). Qed.

(** An order loaded in its first processing leaves it. *)
Lemma flush_leaves V k o s d x d' : loaded V k o → V k → s ≠ Pending → s ≠ Processing →
  flush_changes flush_order k [assign (order_status o) s set_order_status] d = inr (x, d') →
  ∃ r, orders d !! k = Some r ∧ d' = set_orders (<[k := set_order_status s r]> (orders d)) d.
Proof.
  intros Hl Hv H1 H2. unfold assign. rewrite decide_False by (destruct (Hl Hv); congruence).
  cbn. by intros (r & Hr & ->)%flush_row_inr; exists r.
Qed.

(** The failure of a challenge: both rows become invalid or stay. *)
Lemma fail_tables P V ka ko a o err d x d' :
  loaded V ko o → authz_for ka ko d →
  commit_authz_order ka ko a o Invalid Invalid err d = inr (x, d') →
  extends d d' ∧ nonces d' = nonces d ∧ (tables_ok P V d → tables_ok P V d').
Proof.
  intros Hl Hfor E. apply tx_bind_inr in E as ([] & d1 & E1' & E2).
  pose proof (flush_order_status_inr _ _ _ _ _ _ E1') as E1.
  assert (extends d d1 ∧ nonces d1 = nonces d ∧ (tables_ok P V d → tables_ok P V d1)) as (He & Hn & Ht).
  { destruct E1 as [->|(r & Hr & ->)]; [done|]. split_and!; [by eapply extends_order|done|].
    intros Hok. eapply tables_ok_order; eauto with jackdaw; done. }
  apply flush_changes_inr in E2 as [->|(r & Hr & ->)]; [done|].
  set (r' := foldl _ r _).
  assert (same_authz r r' ∧ (authz_status r' = authz_status r ∨ authz_status r' = Invalid)) as [Hs Hst].
  { subst r'. unfold assign.
    destruct (decide (authz_status a = Invalid)), (decide (authz_error a = err)); cbn;
      (split; [repeat split|auto]). }
  split_and!; [|done|].
  - trans d1; [done|]. by eapply extends_authz.
  - intros Hok. eapply tables_ok_authz; [by apply Ht|done|done|..].
    + intros Hv. apply (tok_valid _ _ _ (Ht Hok) ka r Hr). destruct Hst; congruence.
    + destruct (authz_for_extends _ _ _ _ He Hfor) as (a' & Ha' & Hk). assert (a' = r) as -> by congruence.
      rewrite Hk. intros _ _ Hv y Hy.
      destruct (flush_leaves V ko o Invalid d _ d1 Hl Hv ltac:(done) ltac:(done) E1') as (r1 & _ & ->).
      cbn in Hy. rewrite lookup_insert_eq in Hy. by injection Hy as <-.
Qed.

Lemma fail_challenge_rg ka ko a o err w : (∀ w', T w w' → loaded (virgin w') ko o) → authz_for ka ko (w_db w) →
  rg T T (fail_challenge ka ko a o err) (λ _ _, True) w.
Proof.
  intros Hl Hfor. apply rg_exec; [apply _| |done]. intros w1 x d H1 E. split; [|done].
  destruct (fail_tables (proved cfg w1) (virgin w1) _ _ _ _ _ _ _ _ (Hl w1 H1) (authz_for_later _ _ _ _ H1 Hfor) E)
    as (He & Hn & Ht).
  apply shared_commit; [done|by apply nonces_same|]. intros Hi. apply Ht, Hi.
Qed.

Lemma all_valid_true ko d : all_valid ko d = true →
  ∀ ka a, authzs d !! ka = Some a → authz_order_id a = ko → authz_status a = Valid.
Proof.
  unfold all_valid. rewrite forallb_forall. intros Hall ka a Ha Hk.
  specialize (Hall (ka, a)). cbn in Hall. apply bool_decide_eq_true in Hall; [done|].
  by apply list_elem_of_In, elem_of_authzs_of.
Qed.

(** Making an order ready when all its authorizations are proved. *)
Lemma ready_tables P V ko l d x d' :
  (∀ ka a, authzs d !! ka = Some a → authz_order_id a = ko → P ka) →
  flush_changes flush_order ko [assign l Ready set_order_status] d = inr (x, d') →
  extends d d' ∧ nonces d' = nonces d ∧ (tables_ok P V d → tables_ok P V d').
Proof.
  intros HP [->|(r & Hr & ->)]%flush_order_status_inr; [done|].
  split_and!; [by eapply extends_order|done|]. intros Hok.
  eapply tables_ok_order; eauto with jackdaw; try done.
Qed.

(** The one authorization of an order decides. *)
Lemma all_valid_single P V ka a d : tables_ok P V d → authzs d !! ka = Some a → authz_status a = Valid →
  all_valid (authz_order_id a) d = true.
Proof.
  intros Hok Ha Hst. unfold all_valid. apply forallb_forall. intros [k x] [Hx Hk]%list_elem_of_In%elem_of_authzs_of.
  assert (k = ka) as -> by (by eapply tok_single). cbn. apply bool_decide_eq_true. congruence.
Qed.

(** The transaction of a first success: the authorization becomes valid, and its
    order, already loaded as ready or not, is ready or stays. *)
Lemma complete_tables P V ka ko o d x d' : P ka → loaded V ko o → authz_for ka ko d →
  (flush_authz ka (set_authz_status Valid) ;;
   ready ← tx_query (all_valid ko);
   if (ready : bool) then flush_changes flush_order ko [assign (order_status o) Ready set_order_status] else mret tt) d
  = inr (x, d') →
  tables_ok P V d → extends d d' ∧ nonces d' = nonces d ∧ tables_ok P V d'.
Proof.
  intros HP Hl (a & Ha & <-) E Hok. apply tx_bind_inr in E as ([] & d1 & (a' & Ha' & E1)%flush_row_inr & E).
  assert (a' = a) as -> by congruence.
  apply tx_bind_inr in E as (ready & d2 & [= <- <-] & E).
  assert (tables_ok P (λ _, False) d1) as Hok1.
  { subst d1. eapply tables_ok_authz; [|done..]. by eapply tables_ok_mono; [..|exact Hok]. }
  rewrite (all_valid_single P (λ _, False) ka (set_authz_status Valid a)) in E; [|done|subst d1; apply lookup_insert_eq|done].
  assert (∀ k y, authzs d !! k = Some y → authz_order_id y = authz_order_id a → P k) as HPall.
  { intros k y Hy Hk. by rewrite (tok_single _ _ _ Hok k y ka a Hy Ha Hk). }
  pose proof (flush_order_status_inr _ _ _ _ _ _ E) as E2.
  assert (∃ d2, flush_changes flush_order (authz_order_id a) [assign (order_status o) Ready set_order_status] d
      = inr (x, d2) ∧ d' = set_authzs (<[ka := set_authz_status Valid a]> (authzs d)) d2) as (d2 & E3 & ->).
  { subst d1. clear -E. unfold flush_changes, assign in *. destruct (decide _); cbn in *; [injection E as <- <-; eauto|].
    unfold flush_order, flush_row in *. cbn in E. destruct (orders d !! _); [|done]. injection E as <- <-. eauto. }
  destruct (ready_tables P V _ _ _ _ _ HPall E3) as (He & Hn & Ht).
  assert (authzs d2 = authzs d) as Ez by (by destruct (flush_order_status_inr _ _ _ _ _ _ E3) as [->|(? & _ & ->)]).
  split_and!.
  - trans d2; [done|]. rewrite <- Ez. eapply extends_authz; [by rewrite Ez|done].
  - done.
  - rewrite <- Ez. eapply tables_ok_authz; [by apply Ht|by rewrite Ez|done|done|].
    intros _ _ HV y Hy. destruct (flush_leaves V _ o Ready d _ d2 Hl HV ltac:(done) ltac:(done) E3) as (r1 & _ & ->).
    cbn in Hy. rewrite lookup_insert_eq in Hy. by injection Hy as <-.
Qed.

(** Authorizations of an existing order that were valid at some instant stay
    proved, and the order gets no others. *)
Lemma all_valid_proved ko w1 w3 :
  invariant cfg w1 → T w1 w3 → is_Some (orders (w_db w1) !! ko) → all_valid ko (w_db w1) = true →
  ∀ k a, authzs (w_db w3) !! k = Some a → authz_order_id a = ko → proved cfg w3 k.
Proof.
  intros Hi H13 Ho Hall k a Ha Hk. pose proof (later_T _ _ H13) as Hl.
  destruct (ext_fresh _ _ (later_db _ _ Hl) k a Ha) as [a1 Ha1]; [by rewrite Hk|].
  destruct (ext_authz _ _ (later_db _ _ Hl) k a1 Ha1) as (a' & Ha' & S1 & _).
  eapply proved_later; [done|]. apply (tok_valid _ _ _ (inv_tables _ _ Hi) k a1 Ha1).
  eapply all_valid_true; [done|done|]. congruence.
Qed.

Lemma complete_challenge_rg ka ko a o w :
  invariant cfg w → proved cfg w ka → is_Some (orders (w_db w) !! ko) →
  (∀ w', T w w' → loaded (virgin w') ko o) → authz_for ka ko (w_db w) →
  rg T T (complete_challenge ka ko a o) (λ _ _, True) w.
Proof.
  intros Hi Hp [o0 Ho0] Hl Hfor. unfold complete_challenge. case_decide as Hst.
  - rg_seq. apply rg_query; [apply _|]. intros w1 w2 H1 H2.
    destruct (all_valid ko (w_db w1)) eqn:Hall.
    + apply rg_exec; [apply _| |done]. intros w3 x d H3 E. split; [|done].
      assert (∀ k x, authzs (w_db w3) !! k = Some x → authz_order_id x = ko → proved cfg w3 k) as HP.
      { apply (all_valid_proved ko w1); [by eapply invariant_T|by trans w2| |done].
        destruct (ext_order _ _ (later_db _ _ (later_T _ _ H1)) ko o0 Ho0) as (o1 & Ho1 & _).
        by exists o1. }
      destruct (ready_tables (proved cfg w3) (virgin w3) _ _ _ _ _ HP E) as (He & Hn & Ht).
      apply shared_commit; [done|by apply nonces_same|]. intros Hi3. apply Ht, Hi3.
    + apply rg_exec; [apply _| |done]. intros w3 x d H3 [= _ <-]. split; [apply commit_same|done].
  - apply rg_exec; [apply _| |done]. intros w1 x d H1 E. split; [|done].
    pose proof (invariant_T _ _ H1 Hi) as Hi1.
    destruct (complete_tables (proved cfg w1) (virgin w1) _ _ _ _ _ _
      (proved_later _ _ _ _ (later_T _ _ H1) Hp) (Hl w1 H1) (authz_for_later _ _ _ _ H1 Hfor) E (inv_tables _ _ Hi1))
      as (He & Hn & Ht).
    apply shared_commit; [done|by apply nonces_same|done].
Qed.

Lemma exchange_exchanged domain token expected w w' :
  exchange cfg domain token expected w w' → exchanged cfg domain token expected w'.
Proof.
  intros (rs & ip & resp & (l1 & E1 & Hin1) & HF & Hip & (l2 & E2 & Hin2) & Hst & Hb).
  exists rs, ip, resp. split_and!; try done.
  - rewrite E1. apply elem_of_app. by left.
  - rewrite E2. apply elem_of_app. by left.
Qed.

(** The session that records the outcome of a validation. *)
Lemma record_outcome_rg ka ko (error : option json) w :
  invariant cfg w → is_Some (orders (w_db w) !! ko) → (error = None → proved cfg w ka) →
  authz_for ka ko (w_db w) →
  rg T T (authz ← query (λ d, authzs d !! ka); order ← query (λ d, orders d !! ko);
    match authz, order with
    | Some authz, Some order =>
        match error with
        | None => complete_challenge ka ko authz order
        | Some e => fail_challenge ka ko authz order e
        end
    | _, _ => Ret tt
    end) (λ _ _, True) w.
Proof.
  intros Hi [o0 Ho0] Hpr Hfor. rg_seq. apply rg_query; [apply _|]. intros w1 w2 H1 H2.
  rg_seq. apply rg_query; [apply _|]. intros w3 w4 H3 H4.
  destruct (authzs (w_db w1) !! ka); [|done]. destruct (orders (w_db w3) !! ko) as [o|] eqn:Ho; [|done].
  assert (T w w4) as Hw by (trans w1; [done|]; trans w2; [done|]; by trans w3).
  assert (∀ w', T w4 w' → loaded (virgin w') ko o) as Hl.
  { intros w' H'. apply (loaded_later ko o (w_db w3) w3); [by trans w4|by left|done]. }
  pose proof (authz_for_later _ _ _ _ Hw Hfor) as Hfor4.
  destruct error as [e|]; [by apply fail_challenge_rg|].
  apply complete_challenge_rg; [..|done|done].
  - by apply (invariant_T w).
  - eapply proved_later; [by apply later_T|auto].
  - destruct (ext_order _ _ (later_db _ _ (later_T _ _ Hw)) ko o0 Ho0) as (o' & Ho' & _). by exists o'.
Qed.

(** What a successful validation proves, of rows read at different times. *)
Lemma validation_proved ka ko a o acc token expected w1 w3 w5 w7 w8 :
  authzs (w_db w1) !! ka = Some a → authz_order_id a = ko → orders (w_db w3) !! ko = Some o →
  accounts (w_db w5) !! order_account_id o = Some acc → authz_challenge_token a = Some token →
  key_authorization token (account_public_key acc) = inr expected →
  T w1 w3 → T w3 w5 → T w5 w7 → T w7 w8 →
  (0 < challenge_retries cfg → exchange cfg (authz_identifier a) token expected w7 w8) → proved cfg w8 ka.
Proof.
  intros Ha S1 Ho Eacc Etok Eexp H13 H35 H57 H8 Hx.
  assert (T w5 w8) as H58 by by trans w7. assert (T w3 w8) as H38 by by trans w5.
  assert (T w1 w8) as H18 by by trans w3.
  destruct (ext_authz _ _ (later_db _ _ (later_T _ _ H18)) ka a Ha) as (a' & Ha' & S2 & S3 & S4).
  destruct (ext_order _ _ (later_db _ _ (later_T _ _ H38)) ko o Ho) as (o' & Ho' & S5 & _).
  exists a', o', token, (account_public_key acc), expected. rewrite S2, S3, S4, S1, S5.
  split_and!; try done; [|by intros Hr; eapply exchange_exchanged, Hx].
  eapply past_key_later; [apply later_T, H58|]. exists (w_db w5), acc. split; [by left|done].
Qed.

(** A validation task started for an authorization and its order. *)
Lemma run_challenge_rg ka ko w a0 : invariant cfg w →
  authzs (w_db w) !! ka = Some a0 → authz_order_id a0 = ko →
  rg T T (run_challenge cfg ka ko) (λ _ _, True) w.
Proof.
  intros Hi Ha0 Hko. unfold run_challenge.
  rg_seq. apply rg_query; [apply _|]. intros w1 w2 H1 H2.
  destruct (ext_authz _ _ (later_db _ _ (later_T _ _ H1)) ka a0 Ha0) as (a & Ha & S1 & _).
  rewrite Ha. rg_seq. apply rg_query; [apply _|]. intros w3 w4 H3 H4.
  destruct (orders (w_db w3) !! ko) as [o|] eqn:Ho; [|done].
  assert (∀ w', T w w' → authz_for ka ko (w_db w')) as Hfor by (intros w' H'; eapply authz_for_later; [done|by exists a0]).
  assert (∀ w', T w3 w' → rg T T (fail_challenge ka ko a o (problem SERVER_INTERNAL
      (u "Authorization has no challenge token"))) (λ _ _, True) w' ∧
    rg T T (fail_challenge ka ko a o (problem SERVER_INTERNAL
      (u "Account for this authorization no longer exists"))) (λ _ _, True) w') as Hfail.
  { intros w' H'. split; (apply fail_challenge_rg;
      [intros w'' H''; apply (loaded_later ko o (w_db w3) w3); [by trans w'|by left|done]
      |apply Hfor; trans w1; [done|]; trans w2; [done|]; by trans w3]). }
  destruct (authz_challenge_token a) as [token|] eqn:Etok; [|by apply Hfail].
  rg_seq. apply rg_query; [apply _|]. intros w5 w6 H5 H6.
  destruct (accounts (w_db w5) !! order_account_id o) as [acc|] eqn:Eacc;
    [|by apply Hfail; trans w4; [|trans w5]].
  rg_seq. apply rg_lift. intros w7 H7.
  destruct (key_authorization token (account_public_key acc)) as [|expected] eqn:Eexp; [done|].
  rg_seq. apply rg_catch; [apply _|]. rg_seq. apply validate_http01_rg; [apply _|].
  assert (T w1 w3) as H13 by by trans w2.
  assert (T w3 w5) as H35 by by trans w4.
  assert (T w5 w7) as H57 by by trans w6.
  assert (∀ w8, T w7 w8 → is_Some (orders (w_db w8) !! ko)) as Horder.
  { intros w8 H8. assert (T w3 w8) as H38 by (trans w5; [done|]; by trans w7).
    destruct (ext_order _ _ (later_db _ _ (later_T _ _ H38)) ko o Ho) as (o' & Ho' & _). by exists o'. }
  assert (invariant cfg w7) as Hi7.
  { apply (invariant_T w5); [done|]. apply (invariant_T w3); [done|].
    apply (invariant_T w1); [done|]. by apply (invariant_T w). }
  assert (∀ w9, T w7 w9 → authz_for ka ko (w_db w9)) as Hfor9.
  { intros w9 H79. apply Hfor. trans w1; [done|]. trans w3; [done|]. trans w5; [done|]. by trans w7. }
  intros [e|[]] w8 H8 Hx; apply rg_ret; intros w9 H9; assert (T w7 w9) as H79 by by trans w8.
  - apply (record_outcome_rg ka ko (Some (validation_problem e)));
      [by apply (invariant_T w7)|auto|done|by apply Hfor9].
  - apply (record_outcome_rg ka ko None); [by apply (invariant_T w7)|auto| |by apply Hfor9]. intros _.
    apply (validation_proved ka ko a o acc token expected w1 w3 w5 w7); try done; [congruence|].
    intros Hr. destruct (Hx eq_refl) as [?|Hex]; [lia|].
    by eapply (exchange_later cfg T _ _ _ w7 w7 w8).
Qed.

(** ** Issuance *)

Lemma order_cert_rg ko domain csr (Q : res str → world → Prop) w :
  authorized cfg w ko domain → (∀ r w', T w w' → Q r w') →
  rg T T (order_cert domain csr) Q w.
Proof.
  intros Ha HQ. apply rg_frame; [apply _|]. unfold order_cert.
  rg_seq. apply rg_lift. intros w1 H1. destruct (csr_der_to_pem csr) as [pem|]; cbn [or_raise]; [|by auto].
  rg_seq. apply rg_perform. intros w2 H2 [] w3 [_ ->]. split; [apply shared_lock|]. intros w4 H4.
  rg_seq. apply rg_catch; [apply _|]. apply rg_perform_res. intros w5 H5 x w6 Hs. cbn in Hs. subst w6.
  assert (T w w5) as H05.
  { trans w1; [done|]. trans w2; [done|]. trans (w_lock ({[domain]} ∪ w_locks w2) w2); [apply shared_lock|].
    by trans w4. }
  split.
  { apply shared_record; [done|]. intros _. exists ko. eapply authorized_later; [by apply later_T|done]. }
  intros w7 H7. destruct x as [e|result].
  - rg_seq. apply rg_perform. intros w8 H8 [] w9 Hs. cbn in Hs. subst w9.
    split; [apply shared_lock|]. intros w10 H10. apply rg_raise. intros w11 H11. auto.
  - rg_seq. apply rg_perform. intros w8 H8 [] w9 Hs. cbn in Hs. subst w9.
    split; [apply shared_lock|]. intros w10 H10. apply rg_lift. intros w11 H11. auto.
Qed.

Lemma cert_expiry_safe pem : safe T (cert_expiry_from_pem pem).
Proof. unfold cert_expiry_from_pem. safe_auto. Qed.

(** Storing a certificate: its row is there afterwards. *)
Lemma store_cert_rg ko pem exp (Q : res str → world → Prop) w :
  (∀ e w', T w w' → Q (inl e) w') →
  (∀ kc w1 w', T w w1 → T w1 w' → certs (w_db w1) !! kc = None →
     (∃ c, certs (w_db w') !! kc = Some c ∧ cert_order_id c = ko) → Q (inr kc) w') →
  rg T T (store_cert ko pem exp) Q w.
Proof.
  intros He HQ. apply rg_frame; [apply _|]. unfold store_cert.
  rg_seq. apply rg_silent; [apply _|done|]. intros kc w1 H1 _ w2 H2.
  rg_seq. apply rg_silent; [apply _|done|]. intros now w3 H3 _ w4 H4.
  rg_seq. apply rg_exec; [apply _| |auto]. intros w5 [] d H5 (_ & Hk & ->)%insert_row_inr.
  set (c := mk_Certificate _ _ _ _ _).
  assert (T w5 (w_commit (set_certs (<[kc := c]> (certs (w_db w5))) (w_db w5)) w5)) as HT.
  { apply shared_commit; [|apply nonces_step_refl|].
    - apply extends_rest; [done..|]. by apply insert_subseteq.
    - intros Hi. apply tables_ok_cert; [apply Hi|done]. }
  split; [done|]. intros w6 H6. apply rg_ret. intros w7 H7 Hw.
  assert (T w w5) as H05 by (trans w1; [done|]; trans w2; [done|]; trans w3; [done|]; by trans w4).
  apply (HQ kc w5); [done| |done|].
  - etrans; [exact HT|]. by trans w6.
  - exists c. split; [|done]. assert (T (w_commit (set_certs (<[kc := c]> (certs (w_db w5))) (w_db w5)) w5) w7)
      as H57 by by trans w6.
    apply (lookup_weaken (<[kc := c]> (certs (w_db w5)))); [apply lookup_insert_eq|].
    apply (ext_cert _ _ (later_db _ _ (later_T _ _ H57))).
Qed.

Lemma finalize_failed_safe k o err :
  safe T (exec (flush_changes flush_order k
    [assign (order_status o) Invalid set_order_status; assign (order_error o) err set_order_error])).
Proof.
  apply safe_exec; [apply _|]. intros w x d [->|(r & Hr & ->)]%flush_changes_inr; [apply commit_same|].
  apply commit_order with (o := r); try done.
  all: unfold assign; destruct (decide (order_status o = Invalid)), (decide (order_error o = err)); cbn;
    solve [done|by repeat split|auto].
Qed.

(** The last transaction: the order points to the stored certificate. *)
Lemma finalize_done_rg k o kc w : invariant cfg w →
  order_cert_id o ≠ Some kc → (∃ c, certs (w_db w) !! kc = Some c ∧ cert_order_id c = k) →
  rg T T (exec (flush_changes flush_order k
    [assign (order_cert_id o) (Some kc) set_order_cert; assign (order_status o) Valid set_order_status]))
    (λ _ _, True) w.
Proof.
  intros Hi Hne (c & Hc & Hck). apply rg_exec; [apply _| |done]. intros w1 x d H1 E. split; [|done].
  apply flush_changes_inr in E as [->|(r & Hr & ->)]; [apply commit_same|].
  set (r' := foldl _ r _).
  assert (same_order r r' ∧ order_cert_id r' = Some kc ∧
    (order_status r' = order_status r ∨ order_status r' = Valid)) as (Hs & Hk & Hst).
  { subst r'. unfold assign. rewrite (decide_False _ _ Hne).
    destruct (decide (order_status o = Valid)); cbn; split_and!; auto; by repeat split. }
  assert (certs (w_db w1) !! kc = Some c) as Hc1.
  { eapply lookup_weaken; [exact Hc|]. apply (ext_cert _ _ (later_db _ _ (later_T _ _ H1))). }
  apply shared_commit; [by eapply extends_order|apply nonces_step_refl|].
  intros Hi1. eapply tables_ok_order; [apply Hi1|done|done|..].
  - intros Hr'. left. destruct Hst; congruence.
  - intros _. right. by rewrite Hk.
  - intros kc'. rewrite Hk. intros [= <-]. right. by exists c.
  - intros Hr' _. left. destruct Hst; congruence.
Qed.

Lemma process_finalize_rg ko domain csr w : invariant cfg w → authorized cfg w ko domain →
  rg T T (process_finalize ko domain csr) (λ _ _, True) w.
Proof.
  intros Hi Ha. unfold process_finalize. rg_seq. apply rg_query; [apply _|]. intros w1 w2 H1 H2.
  destruct (orders (w_db w1) !! ko) as [o0|]; [|done].
  rg_seq. apply rg_catch; [apply _|]. rg_seq. apply (order_cert_rg ko).
  { eapply authorized_later; [|exact Ha]. apply later_T. by trans w1. }
  intros [e|pem] w3 H3; apply rg_ret; intros w4 H4.
  - rg_seq. apply rg_query; [apply _|]. intros w5 w6 H5 H6.
    destruct (orders (w_db w5) !! ko); [apply finalize_failed_safe|done].
  - rg_seq. apply safe_rg; [apply _|apply cert_expiry_safe|]. intros [e|exp] w5 H5; [done|].
    rg_seq. apply rg_query; [apply _|]. intros w6 w7 H6 H7.
    destruct (orders (w_db w6) !! ko) as [o|] eqn:Ho; [|done].
    assert (invariant cfg w7) as Hi7.
    { apply (invariant_T w6); [done|]. apply (invariant_T w5); [done|]. apply (invariant_T w4); [done|].
      apply (invariant_T w3); [done|]. apply (invariant_T w2); [done|].
      by apply (invariant_T w1), (invariant_T w). }
    rg_seq. apply store_cert_rg; [done|]. intros kc w8 w9 H8 H9 Hnone Hc.
    apply finalize_done_rg; [by eapply invariant_T, invariant_T| |done].
    intros Hkc. assert (invariant cfg w6) as Hi6.
    { apply (invariant_T w5); [done|]. apply (invariant_T w4); [done|].
      apply (invariant_T w3); [done|]. apply (invariant_T w2); [done|].
      by apply (invariant_T w1), (invariant_T w). }
    destruct (tok_cert _ _ _ (inv_tables _ _ Hi6) ko o kc Ho Hkc) as (c & Hc6 & _).
    assert (T w6 w8) as H68 by by trans w7.
    pose proof (ext_cert _ _ (later_db _ _ (later_T _ _ H68))) as Hsub.
    pose proof (lookup_weaken _ _ _ _ Hc6 Hsub). congruence.
Qed.

(** ** Requests, timers, restarts *)

Lemma new_account_safe rq : safe T (new_account cfg rq).
Proof. unfold new_account. safe_auto; apply insert_account_safe. Qed.

Lemma get_order_safe k rq : safe T (get_order cfg k rq).
Proof. unfold get_order. safe_auto. Qed.

Lemma get_authz_safe k rq : safe T (get_authz cfg k rq).
Proof. unfold get_authz. safe_auto. Qed.

Lemma download_cert_safe k rq : safe T (download_cert cfg k rq).
Proof. unfold download_cert. safe_auto. Qed.

Lemma key_change_safe rq : safe T (key_change cfg rq).
Proof. unfold key_change. safe_auto; apply flush_key_safe. Qed.

Lemma revoke_cert_safe rq : safe T (revoke_cert cfg rq).
Proof. unfold revoke_cert, find_cert, le_revoke_cert. safe_auto. Qed.

Lemma handle_rg r rq w : invariant cfg w → rg T T (handle cfg r rq) (λ _ _, True) w.
Proof.
  intros Hi. destruct r; cbn [handle].
  - apply new_account_safe.
  - apply new_order_safe.
  - apply get_order_safe.
  - by apply finalize_order_rg.
  - apply get_authz_safe.
  - apply acknowledge_challenge_safe.
  - apply download_cert_safe.
  - apply key_change_safe.
  - apply revoke_cert_safe.
  - done.
  - done.
  - done.
  - done.
  - done.
  - done.
Qed.

Lemma serve_rg r rq w : invariant cfg w → rg T T (serve cfg r rq) (λ _ _, True) w.
Proof.
  intros Hi. unfold serve. apply rg_catch; [apply _|]. rg_seq. unfold dispatch. rg_seq.
  unfold call_next. apply rg_catch; [apply _|]. eapply rg_mono; [|by apply handle_rg].
  assert (∀ (resp : response) w1, rg T T
    (match route_method r with
     | GET => Ret resp
     | _ => nonce ← generate_nonce cfg;
            Ret (match nonce with Some n => add_header (u "Replay-Nonce") n resp | None => resp end)
     end)
    (λ r0 w', match r0 with
              | inl _ => rg T T (Ret ()) (λ _ _, True) w'
              | inr _ => rg T T (Ret ()) (λ r1 w'0, match r1 with
                  | inl _ => rg T T (Ret ()) (λ _ _, True) w'0 | inr _ => True end) w'
              end) w1) as Hend.
  { intros resp w1. apply safe_rg; [apply _| |by intros [] w2 _].
    destruct (route_method r); safe_auto. }
  intros [e|resp] w1 _.
  - destruct e; cbv beta iota; try done. apply rg_ret. intros w2 _. apply Hend.
  - apply Hend.
Qed.

Lemma restart_shared w w' : restart w w' → T w w'.
Proof.
  intros (w1 & x & w2 & <- & Hs & He). cbn in Hs. destruct Hs as [-> ->]. cbn in He.
  destruct He as [<- _]. trans (w_lock ∅ w); [apply shared_lock|].
  apply shared_commit; [|apply nonces_step_refl|].
  - by eapply extends_reset.
  - intros Hi. by eapply tables_ok_reset; [|apply Hi].
Qed.
End safety.
