(* ===== verification/Scenario.v ===== *)
(** * A complete issuance, executed

    A scheduler that runs the coroutines of the server to completion one after
    the other, and the run of a whole certificate issuance: nonce, account,
    order, challenge with its validation, finalization with the CA.  The
    witnesses of the whole-system theorems are taken from its end state. *)
From S2P Require Import Prelude PyStr Json Base64 External PyStd Models Config Prog Nonce Jws Schemas.
From S2P Require Import Ownership Ip Http01 LeClient Worker Orders Routes Main.

(** ** A sequential scheduler *)

(** The task an effect starts. *)
Definition spawns {X} (e : eff X) : list task := match e with ESpawn t => [t] | _ => [] end.

(** Runs a coroutine to its end: the end, the world, the unused answers, the
    tasks it started. *)
Fixpoint drive (p : prog unit) (w : world) (s : answers) : prog unit * world * answers * list task :=
  match p with
  | Vis e k =>
      let '(x, w1, s1) := run_eff e w s in
      let '(pe, w2, s2, ts) := drive (k x) w1 s1 in
      (pe, w2, s2, spawns e ++ ts)
  | _ => (p, w, s, [])
  end.

(** The locks a coroutine waits for are free. *)
Fixpoint runs_free (p : prog unit) (w : world) (s : answers) : bool :=
  match p with
  | Vis e k =>
      (match e with EAcquire d => bool_decide ((d ∉ w_locks w)) | _ => true end) &&
      let '(x, w1, s1) := run_eff e w s in runs_free (k x) w1 s1
  | _ => true
  end.

Section scheduler.
Context (body : task → prog unit) (entry : prog unit → Prop) (restart : world → world → Prop).

Lemma drive_steps p w s pe w' s' tasks ts1 ts2 :
  runs_free p w s = true → answers_ok s → drive p w s = (pe, w', s', tasks) →
  rtc (step body entry restart) (mk_config w (ts1 ++ p :: ts2))
    (mk_config w' (ts1 ++ pe :: ts2 ++ (body <$> tasks))) ∧ answers_ok s'.
Proof.
  revert w s tasks ts2. induction p as [a|e|X e k IH]; intros w s tasks ts2; cbn [drive runs_free].
  - intros _ Hs [= <- <- <- <-]. rewrite app_nil_r. done.
  - intros _ Hs [= <- <- <- <-]. rewrite app_nil_r. done.
  - destruct (run_eff e w s) as [[x w1] s1] eqn:E. intros [Hl Hf]%andb_true_iff Hs.
    destruct (drive (k x) w1 s1) as [[[pe1 w2] s2] ts] eqn:E2. intros [= <- <- <- <-].
    destruct (run_eff_step e w s x w1 s1) as [Hstep Hs1]; [|done|done|].
    { destruct e; try done. by apply bool_decide_eq_true in Hl. }
    destruct (IH x w1 s1 ts (ts2 ++ spawned body e) Hf Hs1 E2) as [Hsteps Hs2]. split; [|done].
    eapply rtc_l; [by apply step_eff|]. 
    replace (ts2 ++ (body <$> spawns e ++ ts)) with ((ts2 ++ spawned body e) ++ (body <$> ts)); [done|].
    rewrite fmap_app, <- (assoc_L (++)). by destruct e.
Qed.

(** Runs coroutines that start no tasks, one after the other; the flag tells
    that none waited for a lock or started a task. *)
Fixpoint drive_all (ps : list (prog unit)) (w : world) (s : answers) : world * answers * bool :=
  match ps with
  | [] => (w, s, true)
  | p :: ps =>
      let '(_, w1, s1, ts) := drive p w s in
      let '(w2, s2, ok) := drive_all ps w1 s1 in
      (w2, s2, runs_free p w s && match ts with [] => true | _ => false end && ok)
  end.

(** A script: coroutines from outside, each followed by the tasks it started. *)
Fixpoint play (ps : list (prog unit)) (w : world) (s : answers) : world * answers * bool :=
  match ps with
  | [] => (w, s, true)
  | p :: ps =>
      let '(_, w1, s1, ts) := drive p w s in
      let '(w2, s2, ok2) := drive_all (body <$> ts) w1 s1 in
      let '(w3, s3, ok3) := play ps w2 s2 in
      (w3, s3, runs_free p w s && ok2 && ok3)
  end.

Lemma drive_all_steps ps w s w' s' ts1 :
  answers_ok s → drive_all ps w s = (w', s', true) →
  (∃ ts2, rtc (step body entry restart) (mk_config w (ts1 ++ ps)) (mk_config w' ts2)) ∧ answers_ok s'.
Proof.
  revert w s ts1. induction ps as [|p ps IH]; intros w s ts1 Hs; cbn [drive_all].
  - intros [= <- <-]. split; [|done]. by exists (ts1 ++ []).
  - destruct (drive p w s) as [[[pe w1] s1] ts] eqn:E.
    destruct (drive_all ps w1 s1) as [[w2 s2] ok] eqn:E2. intros [= <- <- Hok].
    apply andb_true_iff in Hok as [[Hf Hts]%andb_true_iff ->]. destruct ts; [|done].
    destruct (drive_steps p w s pe w1 s1 [] ts1 ps Hf Hs E) as [Hsteps Hs1].
    destruct (IH w1 s1 (ts1 ++ [pe]) Hs1 E2) as [[ts2 H2] Hs2]. split; [|done]. exists ts2.
    etrans; [exact Hsteps|]. cbn [fmap list_fmap]. rewrite app_nil_r.
    by rewrite <- (assoc_L (++)) in H2.
Qed.

Lemma play_steps ps w s w' s' ts1 :
  Forall entry ps → answers_ok s → play ps w s = (w', s', true) →
  (∃ ts2, rtc (step body entry restart) (mk_config w ts1) (mk_config w' ts2)) ∧ answers_ok s'.
Proof.
  intros Hps. revert w s ts1. induction Hps as [|p ps Hp _ IH]; intros w s ts1 Hs; cbn [play].
  - intros [= <- <-]. split; [by exists ts1|done].
  - destruct (drive p w s) as [[[pe w1] s1] ts] eqn:E.
    destruct (drive_all (body <$> ts) w1 s1) as [[w2 s2] ok2] eqn:E2.
    destruct (play ps w2 s2) as [[w3 s3] ok3] eqn:E3. intros [= <- <- Hok].
    apply andb_true_iff in Hok as [[Hf ->]%andb_true_iff ->].
    destruct (drive_steps p w s pe w1 s1 ts ts1 [] Hf Hs E) as [Hsteps Hs1].
    destruct (drive_all_steps (body <$> ts) w1 s1 w2 s2 (ts1 ++ [pe]) Hs1 E2) as [[ts2 H2] Hs2].
    destruct (IH w2 s2 ts2 Hs2 E3) as [[ts3 H3] Hs3]. split; [|done]. exists ts3.
    eapply rtc_l; [by apply step_start|]. etrans; [exact Hsteps|]. etrans; [|exact H3].
    by rewrite <- (assoc_L (++)) in H2.
Qed.

(** A script, and one more coroutine whose tasks have not run yet. *)
Lemma play_drive_steps ps p w s :
  Forall entry ps → entry p → answers_ok s → (play ps w s).2 = true →
  runs_free p (play ps w s).1.1 (play ps w s).1.2 = true →
  ∃ ts, ts ≠ [] ∧ rtc (step body entry restart) (mk_config w [])
    (mk_config (drive p (play ps w s).1.1 (play ps w s).1.2).1.1.2 ts).
Proof.
  intros Hps Hp Hs. destruct (play ps w s) as [[w1 s1] ok] eqn:E. cbn. intros -> Hfree.
  destruct (play_steps ps w s w1 s1 [] Hps Hs E) as [[ts Hts] Hs1].
  destruct (drive p w1 s1) as [[[pe w2] s2] tasks] eqn:Ed.
  destruct (drive_steps p w1 s1 pe w2 s2 tasks ts [] Hfree Hs1 Ed) as [Hd _].
  eexists. split; [|etrans; [exact Hts|]; eapply rtc_l; [by apply step_start|exact Hd]]. by destruct ts.
Qed.
End scheduler.

(** ** The issuance of a certificate for host.test *)

#[local] Existing Instance Toy.ext.

Definition rtok (n : Z) : str := b64url_encode (replicate 32 n).
Definition ruuid (c : Z) : str := replicate 36 c.
Definition url_of (path : str) : str := relay_base_url Toy.cfg ++ path.
Definition account_id : str := ruuid 97.
Definition order_id : str := ruuid 98.
Definition authz_id : str := ruuid 99.

(** A signed request of the account to a path. *)
Definition post (nonce path : str) (payload : json) : request :=
  Toy.sign (Toy.header_kid nonce (url_of path) account_id) payload (url_of path).

Definition script : list (prog unit) := [
  serve Toy.cfg R_new_nonce_head (mk_request None [] []);
  serve Toy.cfg R_new_account
    (Toy.sign (Toy.header_jwk (rtok 1) (url_of (u "/acme/new-account"))) (JObj [])
       (url_of (u "/acme/new-account")));
  serve Toy.cfg R_new_order (post (rtok 2) (u "/acme/new-order")
    (JObj [(u "identifiers", JArr [Identifier_dump (mk_Identifier (u "dns") (u "host.test"))])]));
  serve Toy.cfg (R_challenge authz_id) (post (rtok 4) (u "/acme/challenge/" ++ authz_id) (JObj []));
  serve Toy.cfg (R_finalize_order order_id)
    (post (rtok 5) (u "/acme/order/" ++ order_id ++ u "/finalize") (JObj [(u "csr", JStr (u "AAAA"))]))].

(** The host serves the key authorization; the CA signs. *)
Definition host_answer : http_response :=
  mk_http_response 200
    (match key_authorization (rtok 3) (canonical_jwk Toy.key) with inr t => t | inl _ => [] end).
Definition script_answers : answers := {|
  an_clock := []; an_uuids := [account_id; order_id; authz_id; ruuid 100];
  an_tokens := rtok <$> [1; 2; 3; 4; 5; 6];
  an_dns := [inr [(AF_INET, u "10.0.0.7")]]; an_http := [inr host_answer];
  an_sign := [inr (u "-----BEGIN CERTIFICATE-----")]; an_revoke := [] |}.

Definition final_world : world :=
  (play (task_body Toy.cfg) script (c_world initial) script_answers).1.1.

Lemma rtok_ok n : is_octet n → token_ok (rtok n).
Proof. intros Hn. exists (replicate 32 n). split_and!; [done|by apply Forall_replicate|done]. Qed.

Lemma script_answers_ok : answers_ok script_answers.
Proof.
  split.
  - cbn [an_uuids script_answers]. repeat apply Forall_cons_2; try apply Forall_nil_2; done.
  - cbn [an_tokens script_answers]. apply Forall_fmap.
    repeat apply Forall_cons_2; try apply Forall_nil_2; apply rtok_ok; unfold is_octet; lia.
Qed.

Lemma script_plays : (play (task_body Toy.cfg) script (c_world initial) script_answers).2 = true.
Proof. vm_compute. reflexivity. Qed.

(** The end of the script is a reachable state. *)
Lemma final_reachable : ∃ ts, reachable Toy.cfg (mk_config final_world ts).
Proof.
  unfold reachable, initial, final_world.
  pose proof script_plays as Hok. destruct (play _ _ _ _) as [[w s] ok] eqn:E. cbn in Hok. subst ok.
  eapply play_steps; [|apply script_answers_ok|exact E].
  repeat constructor.
Qed.

(** What the state shows: the order is valid, its certificate stored, the CA was
    asked once, and a nonce was spent. *)
Example final_order :
  (order_status <$> orders (w_db final_world) !! order_id) = Some Valid ∧
  (authz_status <$> authzs (w_db final_world) !! authz_id) = Some Valid ∧
  size (certs (w_db final_world)) = 1%nat ∧
  count (consumes (rtok 5)) (w_log final_world) = 1%nat ∧
  count is_fetch (w_log final_world) = 1%nat.
Proof. vm_compute. done. Qed.

(** A recorded event found by a test. *)
Lemma event_found (f : event → bool) (l : list event) : existsb f l = true → ∃ ev, ev ∈ l ∧ f ev = true.
Proof. intros (ev & Hin & Hf)%existsb_exists. exists ev. split; [by apply list_elem_of_In|done]. Qed.

Lemma final_signed : ∃ csr, EvSign (u "host.test") csr ∈ w_log final_world.
Proof.
  destruct (event_found (λ ev, match ev with EvSign d _ => bool_decide (d = u "host.test") | _ => false end)
    (w_log final_world)) as (ev & Hin & Hf); [vm_compute; reflexivity|].
  destruct ev; try done. apply bool_decide_eq_true in Hf. subst domain. by exists csr.
Qed.

Lemma final_fetched : ∃ url host r, EvHttp url host r ∈ w_log final_world.
Proof.
  destruct (event_found is_fetch (w_log final_world)) as (ev & Hin & Hf); [vm_compute; reflexivity|].
  destruct ev; try done. by exists url, host, r.
Qed.

(** The state before the finalization: the order is ready. *)
Definition ready_world : world :=
  (play (task_body Toy.cfg) (take 4 script) (c_world initial) script_answers).1.1.

Lemma ready_reachable : ∃ ts, reachable Toy.cfg (mk_config ready_world ts).
Proof.
  unfold reachable, initial, ready_world.
  assert ((play (task_body Toy.cfg) (take 4 script) (c_world initial) script_answers).2 = true) as Hok
    by (vm_compute; reflexivity).
  destruct (play _ _ _ _) as [[w s] ok] eqn:E. cbn in Hok. subst ok.
  eapply play_steps; [|apply script_answers_ok|exact E].
  repeat constructor.
Qed.

(** The order of a world with a given status. *)
Lemma order_with_status w k s :
  (order_status <$> orders (w_db w) !! k) = Some s → ∃ o, orders (w_db w) !! k = Some o ∧ order_status o = s.
Proof. by intros (o & ? & ->)%fmap_Some; exists o. Qed.

(** The state after the finalize request: the order is processing, and its task
    has been started. *)
Definition processing_world : world :=
  let '(w, s) := (play (task_body Toy.cfg) (take 4 script) (c_world initial) script_answers).1 in
  (drive (nth 4 script (Ret tt)) w s).1.1.2.

Lemma processing_reachable : ∃ ts, ts ≠ [] ∧ reachable Toy.cfg (mk_config processing_world ts).
Proof.
  assert ((play (task_body Toy.cfg) (take 4 script) (c_world initial) script_answers).2 = true) as Hok
    by (vm_compute; reflexivity).
  assert (runs_free (nth 4 script (Ret tt)) (play (task_body Toy.cfg) (take 4 script) (c_world initial) script_answers).1.1
    (play (task_body Toy.cfg) (take 4 script) (c_world initial) script_answers).1.2 = true) as Hfree
    by (vm_compute; reflexivity).
  assert (Forall (entry Toy.cfg) (take 4 script) ∧ entry Toy.cfg (nth 4 script (Ret tt))) as [Hps Hp]
    by (split; [repeat constructor|constructor]).
  pose proof (play_drive_steps (task_body Toy.cfg) (entry Toy.cfg) restart (take 4 script) (nth 4 script (Ret tt))
    (c_world initial) script_answers Hps Hp script_answers_ok Hok Hfree) as (ts & Hne & Hts).
  exists ts. split; [done|]. unfold reachable, processing_world, initial in *.
  destruct (play _ _ _ _) as [[w s] ok]. exact Hts.
Qed.
