(* ===== verification/Pool.v ===== *)
(** * The pool of coroutines runs dry

    Left alone (no request, no timer, no crash), the coroutines of the server
    come to an end: every schedule is finite, because a coroutine is a finite
    program that starts finitely many tasks and a task starts none, and no
    coroutine waits for ever, because each holds at most one domain lock and
    gives it back. *)
From S2P Require Import Prelude PyStr Json Base64 External PyStd Models Config Prog Nonce Jws Schemas.
From S2P Require Import Ownership Ip Http01 LeClient Worker Orders Routes Main Effects Scenario.

(** ** Every schedule is finite *)

(** Effects that start no task. *)
Definition spawnless_eff {X} (e : eff X) : Prop := match e with ESpawn _ => False | _ => True end.
#[export] Instance spawnless_allows : Allows (@spawnless_eff).
Proof. by intros X []. Qed.
#[export] Instance spawnless_nonce : AllowsNonce (@spawnless_eff).
Proof. done. Qed.

Section drain.
Context (body : task → prog unit).

(** The steps of the coroutines alone. *)
Definition work : relation config := step body (λ _, False) (λ _ _, False).

(** One coroutine of the pool moves, whatever the world answers. *)
Definition moves (ts ts' : list (prog unit)) : Prop :=
  ∃ X (e : eff X) k x rest, ts ≡ₚ Vis e k :: rest ∧ ts' ≡ₚ k x :: spawned body e ++ rest.

Lemma work_moves c c' : work c c' → moves (c_threads c) (c_threads c').
Proof.
  intros [w w' ts1 ts2 X e k x _|w ts p []|w w' ts []]. cbn. exists X, e, k, x, (ts1 ++ ts2).
  split; [by rewrite Permutation_middle|]. rewrite <- Permutation_middle. constructor.
  rewrite (comm (++) ts2), (assoc_L (++)), (comm (++) ts1), <- (assoc_L (++)). done.
Qed.

#[local] Instance sn_moves_perm : Proper ((≡ₚ) ==> impl) (sn moves).
Proof.
  intros ts1 ts2 Hp Hsn. constructor. intros ts' (X & e & k & x & rest & E & E').
  apply Hsn. exists X, e, k, x, rest. split; [by rewrite Hp|done].
Qed.

Lemma moves_cons_inv p ts ts' : moves (p :: ts) ts' →
  (match p with Vis e k => ∃ x, ts' ≡ₚ k x :: spawned body e ++ ts | _ => False end) ∨
  (∃ ts1, moves ts ts1 ∧ ts' ≡ₚ p :: ts1).
Proof.
  intros (X & e & k & x & rest & E & E').
  apply Permutation_cons_inv_r in E as ([|q l1] & l2 & El & Er); cbn in El, Er; injection El as -> ->.
  - left. exists x. by rewrite E', Er.
  - right. exists (k x :: spawned body e ++ l1 ++ l2). split.
    + exists X, e, k, x, (l1 ++ l2). split; [by rewrite Permutation_middle|done].
    + rewrite E', Er. rewrite <- Permutation_middle. apply perm_swap.
Qed.

(** A coroutine may join a pool that runs dry when its tasks may. *)
Lemma sn_cons (p : prog unit) ts :
  every (λ X e, ∀ ts, sn moves ts → sn moves (spawned body e ++ ts)) p → sn moves ts → sn moves (p :: ts).
Proof.
  revert ts. induction p as [a|e|X e k IH]; intros ts Hp Hts.
  1, 2: induction Hts as [ts _ IHts]; constructor; intros ts' [[]|(ts1 & H1 & E)]%moves_cons_inv;
    rewrite E; by apply IHts.
  destruct Hp as [He Hk]. induction Hts as [ts Hacc IHts]. constructor.
  intros ts' [(x & E)|(ts1 & H1 & E)]%moves_cons_inv; rewrite E; [|by apply IHts].
  apply IH; [done|]. apply He. by constructor.
Qed.

Context (body_spawnless : ∀ t, every (@spawnless_eff) (body t)).

Lemma sn_pool ts : sn moves ts.
Proof.
  induction ts as [|p ts IH].
  - constructor. intros ts' (X & e & k & x & rest & E & _). by apply Permutation_nil_cons in E.
  - apply sn_cons; [|exact IH]. apply every_all. intros X e ts' Hts'. destruct e; try exact Hts'.
    apply sn_cons; [|exact Hts']. apply (every_mono (@spawnless_eff)); [|apply body_spawnless].
    by intros Y [].
Qed.

Lemma work_terminates c : sn work c.
Proof.
  destruct c as [w ts]. revert w. induction (sn_pool ts) as [ts _ IH]. intros w. constructor.
  intros [w' ts'] Hw. by apply IH, (work_moves _ _ Hw).
Qed.
End drain.

(** ** No coroutine waits for ever *)

Definition unlocked_eff {X} (e : eff X) : Prop := match e with EAcquire _ | ERelease _ => False | _ => True end.
#[export] Instance unlocked_allows : Allows (@unlocked_eff).
Proof. by intros X []. Qed.
#[export] Instance unlocked_nonce : AllowsNonce (@unlocked_eff).
Proof. done. Qed.

(** [p] runs holding the lock [h]: it takes one lock at a time, releases the one
    it holds, and holds none at its end. *)
Fixpoint locking {A} (h : option str) (p : prog A) : Prop :=
  match p with
  | Vis e k =>
      match e in eff X return (option str → X → Prop) → Prop with
      | EAcquire d => λ K, h = None ∧ K (Some d) tt
      | ERelease d => λ K, h = Some d ∧ K None tt
      | _ => λ K, ∀ x, K h x
      end (λ h' x, locking h' (k x))
  | _ => h = None
  end.

Lemma locking_every {A} (p : prog A) : every (@unlocked_eff) p → locking None p.
Proof. induction p as [a|e|X e k IH]; [done..|]. intros [He Hk]. destruct e; try done; cbn; auto. Qed.
Lemma locking_bind {A B} h (p : prog A) (f : A → prog B) :
  locking h p → (∀ a, locking None (f a)) → locking h (p ≫= f).
Proof.
  intros Hp Hf. revert h Hp. induction p as [a|e|X e k IH]; intros h; [cbn; intros ->; apply Hf|done|].
  destruct e; cbn; first [by intros Hk x; apply IH|by intros [-> Hk]; split; [|apply IH]].
Qed.
Lemma locking_catch {A} h (p : prog A) hd :
  locking h p → (∀ e, locking None (hd e)) → locking h (catch p hd).
Proof.
  intros Hp Hh. revert h Hp. induction p as [a|e|X e k IH]; intros h; [done|cbn; intros ->; apply Hh|].
  destruct e; cbn; first [by intros Hk x; apply IH|by intros [-> Hk]; split; [|apply IH]].
Qed.

Lemma order_cert_locking `{Ext} domain csr : locking None (order_cert domain csr).
Proof.
  unfold order_cert. destruct (csr_der_to_pem csr); [|done]. split; [done|]. intros [e|r]; cbn; [by split|].
  split; [done|]. by destruct (utf8_decode false r).
Qed.

(** An effect that must wait. *)
Definition waits {X} (e : eff X) (w : world) : Prop := match e with EAcquire d => d ∈ w_locks w | _ => False end.
#[export] Instance waits_dec {X} (e : eff X) w : Decision (waits e w).
Proof. destruct e; cbn; apply _. Defined.

Lemma eff_enabled {X} (e : eff X) w : ¬ waits e w → ∃ x w', eff_step e w x w'.
Proof.
  intros Hw. destruct e; cbn in Hw |- *.
  - by eexists _, w.
  - destruct (t (w_db w)) as [ex|[a d]]; by eexists _, _.
  - by exists 0, w.
  - exists default_uuid, w. split; [apply default_uuid_ok|done].
  - exists default_token, w. split; [apply default_token_ok|done].
  - by exists tt, w.
  - by eexists tt, _.
  - by eexists no_answer, _.
  - by eexists no_answer, _.
  - by eexists tt, _.
  - by eexists tt, _.
  - by eexists no_answer, _.
  - by exists (inr tt), w.
Qed.

Definition finished (p : prog unit) : Prop := match p with Vis _ _ => False | _ => True end.
#[export] Instance finished_dec p : Decision (finished p).
Proof. destruct p; cbn; apply _. Defined.

Section locks.
Context (body : task → prog unit).

(** The coroutines hold the locks: [hs] tells which holds which. *)
Definition held (hs : list (option str)) : list str := omap id hs.
Definition locks_ok (c : config) : Prop :=
  ∃ hs, Forall2 locking hs (c_threads c) ∧ NoDup (held hs) ∧ ∀ d, d ∈ w_locks (c_world c) ↔ d ∈ held hs.

Lemma held_app hs1 hs2 : held (hs1 ++ hs2) = held hs1 ++ held hs2.
Proof. apply omap_app. Qed.
Lemma elem_of_held d hs : d ∈ held hs ↔ Some d ∈ hs.
Proof. unfold held. rewrite list_elem_of_omap. naive_solver. Qed.

(** The locks after an effect. *)
Lemma eff_locks {X} (e : eff X) w x w' : eff_step e w x w' →
  w_locks w' = match e with EAcquire d => {[d]} ∪ w_locks w | ERelease d => w_locks w ∖ {[d]} | _ => w_locks w end.
Proof.
  destruct e; cbn; try (by intros [_ ->]); try (by intros ->).
  destruct (t (w_db w)) as [ex|[a d]]; by intros [_ ->].
Qed.

(** What a coroutine holds after an effect. *)
Definition holds {X} (h : option str) (e : eff X) : option str :=
  match e with EAcquire d => Some d | ERelease _ => None | _ => h end.
Lemma locking_step {X} h (e : eff X) (k : X → prog unit) x : locking h (Vis e k) → locking (holds h e) (k x).
Proof. destruct e; cbn; try done; try (destruct x; by intros [_ Hk]). Qed.

(** Exchanging what one coroutine holds. *)
Lemma held_step {X} (e : eff X) (k : X → prog unit) h hs1 hs2 w x w' :
  locking h (Vis e k) → eff_step e w x w' →
  NoDup (held (hs1 ++ h :: hs2)) → (∀ d, d ∈ w_locks w ↔ d ∈ held (hs1 ++ h :: hs2)) →
  NoDup (held (hs1 ++ holds h e :: hs2)) ∧ (∀ d, d ∈ w_locks w' ↔ d ∈ held (hs1 ++ holds h e :: hs2)).
Proof.
  intros Hl Hs Hnd Hin. rewrite (eff_locks _ _ _ _ Hs). rewrite !held_app in *. cbn in *.
  destruct e; cbn in *; try done.
  - destruct Hl as [-> _], Hs as [Hfree _]. cbn in *. rewrite Hin in Hfree. split.
    + rewrite <- Permutation_middle. by constructor.
    + intros d. rewrite elem_of_union, elem_of_singleton, Hin, !elem_of_app, elem_of_cons. tauto.
  - destruct Hl as [-> _]. cbn in *. rewrite <- Permutation_middle in Hnd. apply NoDup_cons in Hnd as [Hnin Hnd].
    split; [done|]. intros d. rewrite elem_of_difference, elem_of_singleton, Hin, !elem_of_app, elem_of_cons.
    split; [tauto|]. intros Hd. split; [tauto|]. intros ->. apply Hnin. by rewrite elem_of_app.
Qed.

Lemma locks_ok_step entry restart c c' :
  (∀ p, entry p → locking None p) → (∀ t, locking None (body t)) → (∀ w w', restart w w' → w_locks w' = ∅) →
  step body entry restart c c' → locks_ok c → locks_ok c'.
Proof.
  intros Hentry Hbody Hrestart [w w' ts1 ts2 X e k x Hs|w ts p Hp|w w' ts Hr] (hs & HF & Hnd & Hin); cbn in *.
  - apply Forall2_app_inv_r in HF as (hs1 & hs2 & HF1 & HF2 & ->).
    apply Forall2_cons_inv_r in HF2 as (h & hs3 & Hl & HF3 & ->).
    destruct (held_step e k h hs1 hs3 w x w' Hl Hs Hnd Hin) as [Hnd' Hin'].
    exists (hs1 ++ holds h e :: hs3 ++ (const None <$> spawned body e)). split_and!.
    + apply Forall2_app; [done|]. constructor; [by apply locking_step|]. apply Forall2_app; [done|].
      destruct e; cbn; repeat constructor. apply Hbody.
    + replace (held _) with (held (hs1 ++ holds h e :: hs3)); [done|].
      rewrite !held_app. cbn. destruct (id (holds h e)); rewrite held_app; by destruct e; cbn; rewrite ?app_nil_r.
    + intros d. rewrite Hin'. rewrite !elem_of_held, !elem_of_app, !elem_of_cons, elem_of_app.
      assert (Some d ∉ const None <$> spawned body e) by (intros (? & [=] & _)%list_elem_of_fmap). tauto.
  - exists (hs ++ [None]). rewrite held_app, app_nil_r. split_and!; [|done|done].
    apply Forall2_app; [done|]. repeat constructor. auto.
  - exists []. split_and!; [constructor|constructor|]. intros d. cbn. rewrite (Hrestart _ _ Hr). set_solver.
Qed.

(** A coroutine that is not done can move, or waits for one that can. *)
Lemma work_progress c : locks_ok c → Forall finished (c_threads c) ∨ ∃ c', work body c c'.
Proof.
  destruct c as [w ts]. intros (hs & HF & _ & Hin). cbn in *.
  assert (∀ h p, (h, p) ∈ zip hs ts → locking h p → (∃ d, h = Some d) ∨ ¬ finished p →
    (∀ X (e : eff X) k, p = Vis e k → ¬ waits e w) → ∃ c', work body (mk_config w ts) c') as Hmove.
  { intros h p Hzip Hl Hp Hw. destruct p as [a|e|X e k]; [destruct Hp as [[d ->]|[]]; done..|].
    destruct (eff_enabled e w (Hw X e k eq_refl)) as (x & w' & Hs).
    apply elem_of_zip_r, list_elem_of_split in Hzip as (ts1 & ts2 & ->). eexists. by apply step_eff. }
  destruct (decide (Forall finished ts)) as [|Hn]; [by left|right].
  apply not_Forall_Exists in Hn; [|apply _]. apply Exists_exists in Hn as (p & Hp & Hnf).
  assert (∀ p, p ∈ ts → ∃ h, (h, p) ∈ zip hs ts ∧ locking h p) as Hholds.
  { intros q Hq. apply list_elem_of_lookup_1 in Hq as [i Hi].
    destruct (Forall2_lookup_r _ _ _ _ _ HF Hi) as (h & Hh & Hl). exists h. split; [|done].
    apply list_elem_of_lookup. exists i. by rewrite lookup_zip_with, Hh, Hi. }
  destruct (Hholds p Hp) as (h & Hzip & Hl). destruct p as [a|e|X e k]; [by destruct Hnf..|].
  destruct (decide (waits e w)) as [Hw|Hw].
  - destruct e; try done. apply Hin, elem_of_held in Hw. clear h Hl Hzip.
    apply list_elem_of_lookup_1 in Hw as [i Hi]. destruct (Forall2_lookup_l _ _ _ _ _ HF Hi) as (q & Hq & Hl).
    apply (Hmove (Some domain) q); [|done|by left; eexists|].
    + apply list_elem_of_lookup. exists i. by rewrite lookup_zip_with, Hi, Hq.
    + intros Y e' k' ->. destruct e'; try (by intros []). by destruct Hl.
  - apply (Hmove h (Vis e k)); [done|done|by right|]. intros Y e' k' E. clear -E Hw.
    change (match (Vis e k : prog unit) with Vis e _ => ¬ waits e w | _ => True end) in Hw. by rewrite E in Hw.
Qed.

(** All done, all locks are free. *)
Lemma finished_free c : locks_ok c → Forall finished (c_threads c) → w_locks (c_world c) = ∅.
Proof.
  intros (hs & HF & _ & Hin) Hfin. apply set_eq. intros d. rewrite Hin, elem_of_held, elem_of_empty.
  split; [|done]. intros [i Hi]%list_elem_of_lookup_1.
  destruct (Forall2_lookup_l _ _ _ _ _ HF Hi) as (q & Hq & Hl).
  pose proof (Forall_lookup_1 _ _ _ _ Hfin Hq) as Hf. by destruct q.
Qed.
End locks.

(** ** The server *)

Section server.
Context `{Ext} (cfg : Settings).

(** The transactions do not matter. *)
Lemma unlocked_exec {X} (t : tx X) : every (@unlocked_eff) (exec t).
Proof. by apply every_perform_res. Qed.
#[local] Hint Resolve unlocked_exec : every.

Lemma handle_unlocked r rq : every (@unlocked_eff) (handle cfg r rq).
Proof.
  assert (starts_task r ∨ ¬ starts_task r) as [Hr|Hr] by (destruct r; cbn; tauto); [|apply handle_every; [apply _|done]].
  destruct r; try done; cbn [handle]; [unfold finalize_order|unfold acknowledge_challenge]; every_auto.
Qed.

Lemma entry_locking p : entry cfg p → locking None p.
Proof.
  intros [r rq|]; apply locking_every; [|apply prune_every, _].
  pose proof (handle_unlocked r rq). unfold serve, dispatch, call_next. every_auto.
Qed.

Lemma body_locking t : locking None (task_body cfg t).
Proof.
  destruct t as [ka ko|ko domain csr]; cbn [task_body]; [apply locking_every, run_challenge_every, _|].
  rewrite process_finalize_eq. intros [o|]; cbn; [|done].
  apply locking_bind; [|intros a; apply locking_every, after_issuance_every, _].
  apply locking_catch; [|done]. apply locking_bind; [apply order_cert_locking|done].
Qed.

Lemma body_spawnless t : every (@spawnless_eff) (task_body cfg t).
Proof. by apply body_every; [apply _|..]. Qed.

Lemma restart_locks w w' : restart w w' → w_locks w' = ∅.
Proof. intros (w1 & x & w2 & <- & Hs & He). cbn in Hs, He. destruct Hs as [-> ->]. by destruct He as [<- _]. Qed.

Lemma reachable_locks_ok c c' : locks_ok c → rtc (server_step cfg) c c' → locks_ok c'.
Proof.
  intros Hc Hsteps. induction Hsteps as [c|c c1 c2 Hstep _ IH]; [done|]. apply IH.
  eapply locks_ok_step; [apply entry_locking|apply body_locking|apply restart_locks|exact Hstep|done].
Qed.
Lemma initial_locks_ok : locks_ok initial.
Proof. exists []. split_and!; [constructor|constructor|]. intros d. cbn. set_solver. Qed.

(** The coroutines alone are a behaviour of the server. *)
Lemma work_server c c' : work (task_body cfg) c c' → server_step cfg c c'.
Proof. intros [w w' ts1 ts2 X e k x Hs|w ts p []|w w' ts []]. by apply step_eff. Qed.
Lemma work_reachable c c' : reachable cfg c → rtc (work (task_body cfg)) c c' → reachable cfg c'.
Proof.
  intros Hc Hw. unfold reachable in *. etrans; [exact Hc|]. eapply rtc_subrel; [|exact Hw].
  intros x y. apply work_server.
Qed.

(** A state in which every coroutine has ended. *)
Definition quiescent (c : config) : Prop := Forall finished (c_threads c).

(** Left alone, the server comes to rest. *)
Lemma drained c : reachable cfg c → ∃ c', rtc (work (task_body cfg)) c c' ∧ quiescent c'.
Proof.
  intros Hc. pose proof (work_terminates (task_body cfg) body_spawnless c) as Hsn. revert Hc.
  induction Hsn as [c _ IH]. intros Hc.
  destruct (work_progress (task_body cfg) c) as [Hq|[c1 Hw]]; [|by exists c|].
  - eapply reachable_locks_ok, Hc. apply initial_locks_ok.
  - destruct (IH c1 Hw) as (c' & Hc' & Hq); [by eapply work_reachable, rtc_once|].
    exists c'. split; [by eapply rtc_l|done].
Qed.
End server.

(** ** Properties *)

(** C10: the server runs dry: in every reachable state, when nothing new arrives,
    every schedule of the coroutines is finite; a schedule stops only when all
    coroutines have ended (no deadlock on the domain locks), and then all domain
    locks are free. *)
Theorem server_drains `{Ext} cfg c :
  reachable cfg c →
  sn (work (task_body cfg)) c ∧
  ∀ c', rtc (work (task_body cfg)) c c' →
    (∃ c'', work (task_body cfg) c' c'') ∨ (quiescent c' ∧ w_locks (c_world c') = ∅).
Proof.
  intros Hc. split; [apply work_terminates, body_spawnless|]. intros c' Hw.
  assert (locks_ok c') as Hl by (eapply reachable_locks_ok, work_reachable, Hw; [apply initial_locks_ok|done]).
  destruct (work_progress (task_body cfg) c' Hl) as [Hq|]; [right|by left].
  split; [done|]. by apply finished_free.
Qed.

#[local] Opaque processing_world.
(** A finalization is under way. *)
Lemma server_drains_witness :
  ∃ ts, ts ≠ [] ∧ sn (work (@task_body Toy.ext Toy.cfg)) (mk_config processing_world ts).
Proof.
  destruct processing_reachable as (ts & Hne & Hts). exists ts. split; [exact Hne|].
  exact (proj1 (@server_drains Toy.ext Toy.cfg (mk_config processing_world ts) Hts)).
Defined.
