(* ===== verification/Theorems.v ===== *)
(** * Properties of the whole server

    Consequences of the system invariant for every reachable state: any number
    of requests from anyone, any interleaving of their coroutines with the
    background tasks and the prune timer, any answers of the network, and
    restarts at any point. *)
From S2P Require Import Prelude PyStr Json Base64 External PyStd Models Config Prog Nonce Jws Schemas.
From S2P Require Import Ownership Ip Http01 LeClient Worker Orders Routes Main System Safety Scenario.

Section theorems.
Context `{Ext} (cfg : Settings).

Lemma initial_invariant : invariant cfg (c_world initial).
Proof.
  split; cbn.
  - by split; cbn; setoid_rewrite lookup_empty.
  - by intros d [->|(d' & []%elem_of_nil)].
  - intros ev Hev. by apply elem_of_nil in Hev.
  - intros v. unfold spent, live. cbn. by rewrite lookup_empty.
Qed.

(** The invariant, and what every coroutine still guarantees. *)
Definition guarded (c : config) : Prop :=
  invariant cfg (c_world c) ∧ Forall (λ p, rg (shared cfg) (shared cfg) p (λ _ _, True) (c_world c)) (c_threads c).

Lemma server_shared c c' : guarded c → rtc (server_step cfg) c c' → shared cfg (c_world c) (c_world c') ∧ guarded c'.
Proof.
  intros [Hi Hts] Hsteps.
  destruct (server_invariant (task_body cfg) (entry cfg) restart (shared cfg) (invariant cfg) c c')
    as (HT & Hi' & Hts'); [..|done]; [| | | |done|done|done].
  - intros w p Hw [r rq|]; [by apply serve_rg|]. apply prune_safe, _.
  - intros w w' t Hw Hs HT. cbn in Hs. subst w'. pose proof (invariant_T cfg _ _ HT Hw) as Hi'.
    assert (event_ok cfg (w_record (EvSpawn t) w) (EvSpawn t)) as Hok by (apply (inv_events _ _ Hi'); left).
    destruct t as [ka ko|ko domain csr]; cbn [task_body].
    + destruct Hok as (a & Ha & Hk). by eapply run_challenge_rg.
    + by apply process_finalize_rg.
  - intros w w' _. apply restart_shared.
  - intros w w' HT. by apply invariant_T.
Qed.

Lemma reachable_guarded c : reachable cfg c → guarded c.
Proof. intros Hc. apply (server_shared initial c); [|done]. split; [apply initial_invariant|constructor]. Qed.
Lemma reachable_invariant c : reachable cfg c → invariant cfg (c_world c).
Proof. intros Hc. apply reachable_guarded, Hc. Qed.
End theorems.

#[local] Opaque final_world ready_world.

(** The evidence behind an authorization: an HTTP-01 exchange for its domain,
    on the path of its token, answered with the key authorization of a key of
    the account that placed the order. *)
Definition evidence `{Ext} (cfg : Settings) (w : world) (order_id domain : str) : Prop :=
  ∃ o ka a token key expected,
    orders (w_db w) !! order_id = Some o ∧ order_domain o = Some domain ∧
    authzs (w_db w) !! ka = Some a ∧ authz_order_id a = order_id ∧ authz_identifier a = domain ∧
    authz_challenge_token a = Some token ∧ past_key w (order_account_id o) key ∧
    key_authorization token key = inr expected ∧ exchanged cfg domain token expected w.

Lemma authorized_evidence `{Ext} cfg w k domain :
  0 < challenge_retries cfg → authorized cfg w k domain → evidence cfg w k domain.
Proof.
  intros Hr (o & ka & a & Ho & Hd & Ha & Hk & Hi & (a' & o' & token & key & ex & Ha' & Ho' & Ht & Hkey & He & Hx)).
  assert (a' = a) as -> by congruence. assert (o' = o) as -> by congruence. subst domain.
  exists o, ka, a, token, key, ex. auto 10.
Qed.

(** ** Properties *)





(** C8: in every reachable state, a valid order points to a stored certificate
    that was issued for that very order. *)
Theorem valid_order_has_certificate `{Ext} cfg c k o :
  reachable cfg c →
  orders (w_db (c_world c)) !! k = Some o → order_status o = Valid →
  ∃ kc cert, order_cert_id o = Some kc ∧ certs (w_db (c_world c)) !! kc = Some cert ∧
    cert_order_id cert = k.
Proof.
  intros Hc Ho Hst. pose proof (inv_tables _ _ (reachable_invariant cfg c Hc)) as Hok.
  destruct (tok_valid_order _ _ _ Hok k o Ho Hst) as [kc Hkc].
  destruct (tok_cert _ _ _ Hok k o kc Ho Hkc) as (cert & ? & ?). by exists kc, cert.
Qed.

Lemma valid_order_has_certificate_witness :
  ∃ o kc cert, orders (w_db final_world) !! order_id = Some o ∧ order_cert_id o = Some kc ∧
    certs (w_db final_world) !! kc = Some cert ∧ cert_order_id cert = order_id.
Proof.
  destruct final_reachable as [ts Hts].
  destruct (order_with_status final_world order_id Valid) as (o & Ho & Hst); [vm_compute; reflexivity|].
  destruct (@valid_order_has_certificate Toy.ext Toy.cfg (mk_config final_world ts) order_id o Hts Ho Hst)
    as (kc & cert & Hcert). exists o, kc, cert. split; [exact Ho|exact Hcert].
Defined.

(** C2: replay protection: in every reachable state, no nonce value has been
    accepted more often than it has been issued, under any interleaving of
    generation, consumption and pruning, and across restarts. *)
Theorem nonce_single_use `{Ext} cfg c v :
  reachable cfg c →
  (count (consumes v) (w_log (c_world c)) ≤ count (issues v) (w_log (c_world c)))%nat.
Proof.
  intros Hc. pose proof (inv_nonces _ _ (reachable_invariant cfg c Hc) v) as Hs.
  unfold spent in Hs. lia.
Qed.

Lemma nonce_single_use_witness :
  count (consumes (rtok 5)) (w_log final_world) = 1%nat ∧
  (count (consumes (rtok 5)) (w_log final_world) ≤ count (issues (rtok 5)) (w_log final_world))%nat.
Proof.
  destruct final_reachable as [ts Hts]. split; [vm_compute; reflexivity|].
  exact (@nonce_single_use Toy.ext Toy.cfg (mk_config final_world ts) (rtok 5) Hts).
Defined.

(** C5: SSRF protection: in every reachable state, every HTTP request the relay
    made as a validator went to the URL of an address that an earlier
    resolution of the challenged domain returned, and all addresses of that
    resolution are outside the blocked ranges. *)
Theorem fetches_are_vetted `{Ext} cfg c url host r :
  reachable cfg c →
  EvHttp url host r ∈ w_log (c_world c) →
  ∃ domain ip path, url = target_url cfg ip path ∧ host = host_header cfg domain ∧
    is_blocked ip = false ∧ vetted domain ip (c_world c).
Proof.
  intros Hc Hev. destruct (inv_events _ _ (reachable_invariant cfg c Hc) _ Hev)
    as (dm & ip & path & -> & -> & Hv).
  exists dm, ip, path. split_and!; try done. destruct Hv as (rs & _ & HF & Hin).
  apply list_elem_of_fmap in Hin as (fa & -> & Hfa). rewrite Forall_forall in HF. by apply HF.
Qed.

Lemma fetches_are_vetted_witness :
  ∃ url host, ∃ domain ip path, url = target_url Toy.cfg ip path ∧ host = host_header Toy.cfg domain ∧
    is_blocked ip = false ∧ vetted domain ip final_world.
Proof.
  destruct final_reachable as [ts Hts]. destruct final_fetched as (url & host & r & Hev). exists url, host.
  exact (@fetches_are_vetted Toy.ext Toy.cfg (mk_config final_world ts) url host r Hts Hev).
Defined.
