(* ===== verification/Handlers.v ===== *)
(** * Properties of the request handlers

    Which requests the handlers answer and for whom: authentication and
    ownership on every route under any interference, the headers the middleware
    adds, and what a download returns. *)
From S2P Require Import Prelude PyStr Json Base64 External PyStd Models Config Prog Nonce Jws Schemas.
From S2P Require Import Ownership Ip Http01 LeClient Worker Orders Routes Main.

(** ** Executions of authenticated handlers *)

(** The routes that carry a JWS. *)
Definition protected_route (r : route) : bool :=
  match r with
  | R_directory | R_new_nonce_head | R_new_nonce_post | R_healthz | R_version | R_terms => false
  | _ => true
  end.

(** [acct] owns the resource a route names: the row is in [d1] and the order it
    belongs to in [d2]. *)
Definition owns (acct : str) (r : route) (d1 d2 : db) : Prop :=
  match r with
  | R_get_order id | R_finalize_order id => ∃ o, orders d1 !! id = Some o ∧ order_account_id o = acct
  | R_get_authz id | R_challenge id =>
      ∃ a o, authzs d1 !! id = Some a ∧ orders d2 !! authz_order_id a = Some o ∧ order_account_id o = acct
  | R_cert id =>
      ∃ c o, certs d1 !! id = Some c ∧ orders d2 !! cert_order_id c = Some o ∧ order_account_id o = acct
  | _ => True
  end.

Section handlers.
Context `{Ext} (cfg : Settings) (T : relation world) `{!Tolerant T}.

Lemma execs_bind_inr {A B} (p : prog A) (f : A → prog B) w b w' :
  execs T (p ≫= f) w (inr b) w' → ∃ a w1, execs T p w (inr a) w1 ∧ execs T (f a) w1 (inr b) w'.
Proof. intros [?|(e & ? & _)]%execs_bind; [done|done|apply _]. Qed.

Lemma verified_execs {B} rq (f : json * str → prog B) w b w' :
  execs T (verify_jws cfg rq ≫= f) w (inr b) w' →
  ∃ payload acct wa, accepted cfg rq T acct w wa ∧ execs T (f (payload, acct)) wa (inr b) w'.
Proof.
  intros ([payload acct] & wa & Hv & He)%execs_bind_inr. exists payload, acct, wa. split; [|done].
  refine (rg_execs T T _ (λ r w', ∀ payload acct, r = inr (payload, acct) →
    accepted cfg rq T acct w w') w _ wa _ Hv payload acct eq_refl).
  apply verify_jws_rg; [apply _|]. auto.
Qed.

Lemma lifted_execs {A B} (a : res A) (f : A → prog B) w b w' :
  execs T (lift a ≫= f) w (inr b) w' → ∃ x w1, a = inr x ∧ T w w1 ∧ execs T (f x) w1 (inr b) w'.
Proof.
  intros (x & w1 & He & Hf)%execs_bind_inr. destruct a as [e|y]; cbn in He; destruct He as [Hw [=]].
  subst y. by exists x, w1.
Qed.

Lemma order_owner_execs {B} id acct (f : Order → prog B) w b w' :
  execs T (require_order_owner id acct ≫= f) w (inr b) w' →
  ∃ o w1 w2, T w w1 ∧ T w1 w2 ∧ orders (w_db w1) !! id = Some o ∧ order_account_id o = acct ∧
    execs T (f o) w2 (inr b) w'.
Proof.
  intros (o & w2 & Ho & He)%execs_bind_inr.
  destruct (rg_execs T T _ (λ r w', ∀ o, r = inr o → order_account_id o = acct ∧
     ∃ w1, T w w1 ∧ T w1 w' ∧ orders (w_db w1) !! id = Some o) w (inr o) w2
     (require_order_owner_rg T id acct _ w (λ r w' _ Hr, Hr)) Ho o eq_refl) as (? & w1 & ? & ? & ?).
  by exists o, w1, w2.
Qed.

Lemma authz_owner_execs {B} id acct (f : Authorization → prog B) w b w' :
  execs T (require_authz_owner id acct ≫= f) w (inr b) w' →
  ∃ a o w1 w2 w3, T w w1 ∧ T w1 w2 ∧ T w2 w3 ∧ authzs (w_db w1) !! id = Some a ∧
    orders (w_db w2) !! authz_order_id a = Some o ∧ order_account_id o = acct ∧
    execs T (f a) w3 (inr b) w'.
Proof.
  intros (a & w3 & Ha & He)%execs_bind_inr.
  destruct (rg_execs T T _ (λ r w', ∀ a, r = inr a → ∃ w1 w2 o, T w w1 ∧ T w1 w2 ∧ T w2 w' ∧
     authzs (w_db w1) !! id = Some a ∧ orders (w_db w2) !! authz_order_id a = Some o ∧
     order_account_id o = acct) w (inr a) w3
     (require_authz_owner_rg T id acct _ w (λ r w' _ Hr, Hr)) Ha a eq_refl)
    as (w1 & w2 & o & ? & ? & ? & ? & ? & ?).
  exists a, o, w1, w2, w3. by split_and!.
Qed.

Lemma cert_owner_execs {B} id acct (f : Certificate → prog B) w b w' :
  execs T (require_cert_owner id acct ≫= f) w (inr b) w' →
  ∃ c o w1 w2 w3, T w w1 ∧ T w1 w2 ∧ T w2 w3 ∧ certs (w_db w1) !! id = Some c ∧
    orders (w_db w2) !! cert_order_id c = Some o ∧ order_account_id o = acct ∧
    execs T (f c) w3 (inr b) w'.
Proof.
  intros (c & w3 & Hc & He)%execs_bind_inr.
  destruct (rg_execs T T _ (λ r w', ∀ c, r = inr c → ∃ w1 w2 o, T w w1 ∧ T w1 w2 ∧ T w2 w' ∧
     certs (w_db w1) !! id = Some c ∧ orders (w_db w2) !! cert_order_id c = Some o ∧
     order_account_id o = acct) w (inr c) w3
     (require_cert_owner_rg T id acct _ w (λ r w' _ Hr, Hr)) Hc c eq_refl)
    as (w1 & w2 & o & ? & ? & ? & ? & ? & ?).
  exists c, o, w1, w2, w3. by split_and!.
Qed.

Lemma handled_accepted r rq w resp w' :
  protected_route r = true → execs T (handle cfg r rq) w (inr resp) w' →
  ∃ acct wa w1 w2, accepted cfg rq T acct w wa ∧ T wa w1 ∧ T w1 w2 ∧ owns acct r (w_db w1) (w_db w2).
Proof.
  intros Hr He. destruct r; try done; cbn [handle] in He;
    apply verified_execs in He as (payload & acct & wa & Ha & He); exists acct, wa;
    try (exists wa, wa; by split_and!).
  - apply order_owner_execs in He as (o & w1 & w2 & H1 & H2 & Ho & Hac & _).
    exists w1, w1. split_and!; try done. by exists o.
  - apply lifted_execs in He as (csr & w0 & _ & H0 & He).
    apply order_owner_execs in He as (o & w1 & w2 & H1 & H2 & Ho & Hac & _).
    exists w1, w1. split_and!; [done|by trans w0|done|]. by exists o.
  - apply authz_owner_execs in He as (a & o & w1 & w2 & w3 & H1 & H2 & H3 & Hz & Ho & Hac & _).
    exists w1, w2. split_and!; try done. by exists a, o.
  - apply authz_owner_execs in He as (a & o & w1 & w2 & w3 & H1 & H2 & H3 & Hz & Ho & Hac & _).
    exists w1, w2. split_and!; try done. by exists a, o.
  - apply cert_owner_execs in He as (a & o & w1 & w2 & w3 & H1 & H2 & H3 & Hz & Ho & Hac & _).
    exists w1, w2. split_and!; try done. by exists a, o.
Qed.
End handlers.

(** ** Fresh nonces *)

Section fresh.
Context `{Ext} (cfg : Settings) (T : relation world) `{!Tolerant T}.

(** [generate_nonce] returned: a token issued during the call, or nothing
    because the table was full at some instant of it. *)
Definition generated (w : world) (n : option str) (w' : world) : Prop :=
  match n with
  | Some v => token_ok v ∧ ∃ ev, recorded w w' ev ∧ issues v ev = true
  | None => ∃ w1, T w w1 ∧ T w1 w' ∧ 0 < nonce_max cfg ≤ Z.of_nat (size (nonces (w_db w1)))
  end.

Lemma issue_rg w0 (Q : res (option str) → world → Prop) w :
  T w0 w → (∀ r w', T w0 w' → (∀ v, r = inr (Some v) → generated w0 (Some v) w') →
    (r = inr None → False) → Q r w') →
  rg T T (value ← perform EToken; now ← perform ENow;
    exec (insert_nonce value (mk_Nonce false now)) ;; Ret (Some value)) Q w.
Proof.
  intros H0 HQ. apply rg_frame; [apply _|].
  apply rg_bind, rg_silent; [apply _..|exact I|]. intros v w1 H1 [Hv _] w2 H2.
  apply rg_bind, rg_silent; [apply _..|exact I|]. intros now w3 H3 _ w4 H4.
  apply rg_bind, rg_exec; [apply _..| |].
  2:{ intros e w5 H5 Hw. apply HQ; [by trans w|done|done]. }
  intros w5 [] d H5 (_ & Hn & ->)%insert_row_inr.
  split; [by apply tol_nonces, nonces_step_insert|]. intros w6 H6.
  apply rg_ret. intros w7 H7 Hw. apply HQ; [by trans w|intros v'|done].
  intros [= <-]. split; [done|].
  set (d := set_nonces _ _) in *. exists (EvTx (w_db w5) d). split.
  - apply (recorded_later T w0 w5 (w_commit d w5) w7); [|by exists [EvTx (w_db w5) d]; split; [|left]|].
    + trans w; [done|]. trans w1; [done|]. trans w2; [done|]. trans w3; [done|]. by trans w4.
    + by trans w6.
  - cbn. by rewrite Hn, lookup_insert_eq.
Qed.

Lemma generate_nonce_rg (Q : res (option str) → world → Prop) w :
  (∀ r w', T w w' → (∀ n, r = inr n → generated w n w') → Q r w') →
  rg T T (generate_nonce cfg) Q w.
Proof.
  intros HQ. apply rg_frame; [apply _|]. unfold generate_nonce.
  assert (∀ w0, T w w0 → rg T T (value ← perform EToken; now ← perform ENow;
    exec (insert_nonce value (mk_Nonce false now)) ;; Ret (Some value)) (λ r w', T w w' → Q r w') w0) as Hi.
  { intros w0 H0. apply (issue_rg w); [done|]. intros r w' Hw Hs Hn _. apply HQ; [done|].
    intros [v|] ->; [by apply Hs|by destruct Hn]. }
  apply rg_bind; [apply _|]. destruct (Z.ltb_spec 0 (nonce_max cfg)) as [Hcap|Hcap].
  - apply rg_bind, rg_query; [apply _..|]. intros w1 w2 H1 H2. apply rg_ret. intros w3 H3.
    destruct (Z.leb_spec (nonce_max cfg) (Z.of_nat (size (nonces (w_db w1))))) as [Hfull|Hfree].
    + apply rg_ret. intros w4 H4 Hw. apply HQ; [done|]. intros n [= <-]. exists w1.
      split_and!; [done| |done..]. trans w2; [done|]. by trans w3.
    + apply Hi. trans w1; [done|]. by trans w2.
  - apply rg_ret. intros w3 H3. by apply Hi.
Qed.

Lemma header_get_set k v l : header_get k (header_set k v l) = v.
Proof.
  unfold header_set. induction l as [|[k' v'] l IH]; [by cbn; rewrite decide_True|].
  rewrite filter_cons. destruct (decide _) as [Hk|Hk]; cbn [fst] in Hk; [|done].
  cbn [app header_get]. by rewrite decide_False.
Qed.

Lemma header_get_set_ne k k' v l : k ≠ k' → header_get k (header_set k' v l) = header_get k l.
Proof.
  intros Hne. unfold header_set. induction l as [|[k1 v1] l IH]; [by cbn; rewrite decide_False|].
  rewrite filter_cons. case_decide as Hk; cbn [fst] in Hk; cbn [app header_get].
  - case_decide; [done|apply IH].
  - subst k1. by rewrite decide_False.
Qed.

Lemma generated_later w n w1 w' : T w1 w' → generated w n w1 → generated w n w'.
Proof.
  intros H1. destruct n as [v|]; cbn.
  - intros (Hv & ev & Hrec & Hev). split; [done|]. exists ev. split; [|done].
    by apply (recorded_later T w w w1 w').
  - intros (wq & Hq & Hq' & Hn). exists wq. split_and!; try apply Hn; [done|]. by trans w1.
Qed.

(** The middleware's last step, on a response [resp1]. *)
Definition with_nonce (resp1 : response) (n : option str) : response :=
  match n with Some n => add_header (u "Replay-Nonce") n resp1 | None => resp1 end.

Lemma attach_nonce_execs resp1 w1 resp w' :
  execs T (nonce ← generate_nonce cfg; Ret (with_nonce resp1 nonce)) w1 (inr resp) w' →
  ∃ n, generated w1 n w' ∧ resp = with_nonce resp1 n.
Proof.
  intros (n & w2 & Hg & [H2 [= ->]])%execs_bind_inr; [|done]. exists n. split; [|done].
  apply (generated_later _ _ w2); [done|].
  refine (rg_execs T T _ (λ r w', ∀ n, r = inr n → generated w1 n w') w1 (inr n) w2 _ Hg n eq_refl).
  by apply generate_nonce_rg.
Qed.

End fresh.

(** ** A concrete store *)

#[local] Existing Instance Toy.ext.

Module Store.
Definition cert : Certificate := mk_Certificate (u "o1") (u "PEM") 0 0 None.
Definition order : Order := mk_Order Toy.acct Valid (u "[]") None (Some (u "c1")) None 0 None.
Definition world : world :=
  mk_world (set_certs {[u "c1" := cert]} (set_orders {[u "o1" := order]} Toy.db0)) ∅ [].
Definition url : str := u "https://relay.test/acme/cert/c1".
Definition request : request := Toy.sign (Toy.header_kid (u "n1") url Toy.acct) (JStr []) url.
End Store.

Lemma store_download :
  ∃ resp w', execs grows (download_cert Toy.cfg (u "c1") Store.request) Store.world (inr resp) w'.
Proof.
  destruct (run (download_cert Toy.cfg (u "c1") Store.request) Store.world Toy.no_answers)
    as [[r w'] s'] eqn:E.
  assert (∃ resp, r = inr resp) as [resp ->].
  { assert (match (run (download_cert Toy.cfg (u "c1") Store.request) Store.world Toy.no_answers).1.1 with
            | inr _ => true | inl _ => false end = true) as Hr by (vm_compute; reflexivity).
    rewrite E in Hr. cbn in Hr. destruct r as [|resp]; [discriminate|by exists resp]. }
  exists resp, w'. apply (execs_rely (=)); [by intros w ? <-|].
  apply (run_execs _ _ Toy.no_answers _ _ s'); [|split; constructor|exact E].
  vm_compute. tauto.
Qed.

(** ** Properties *)

(** C11: authentication and ownership, under any interference: when the handler
    of a route that carries a JWS answers, the request was accepted by
    [verify_jws] for some account (so it is authentic and spent a nonce), and
    afterwards the order, authorization or certificate the path names was found
    and belongs to that account. *)
Theorem routes_authenticate `{Ext} cfg (T : relation world) `{!Tolerant T} r rq w resp w' :
  protected_route r = true → execs T (handle cfg r rq) w (inr resp) w' →
  ∃ acct wa w1 w2, accepted cfg rq T acct w wa ∧ T wa w1 ∧ T w1 w2 ∧ owns acct r (w_db w1) (w_db w2).
Proof. apply handled_accepted, _. Qed.

Lemma routes_authenticate_witness :
  ∃ acct wa w1 w2, accepted Toy.cfg Store.request grows acct Store.world wa ∧ grows wa w1 ∧ grows w1 w2 ∧
    owns acct (R_cert (u "c1")) (w_db w1) (w_db w2).
Proof.
  destruct store_download as (resp & w' & He).
  exact (routes_authenticate Toy.cfg grows (R_cert (u "c1")) Store.request Store.world resp w' eq_refl He).
Defined.

(** Certificate download, under any interference, returns exactly the stored
    chain of the requested certificate, and only for an accepted request of the
    account its order belongs to. *)
Theorem download_cert_spec `{Ext} cfg (T : relation world) `{!Tolerant T} id rq w resp w' :
  execs T (download_cert cfg id rq) w (inr resp) w' →
  ∃ acct c o wa w1 w2, accepted cfg rq T acct w wa ∧ T wa w1 ∧ T w1 w2 ∧
    certs (w_db w1) !! id = Some c ∧ orders (w_db w2) !! cert_order_id c = Some o ∧
    order_account_id o = acct ∧
    resp = mk_response 200 [] (BText (u "application/pem-certificate-chain") (cert_pem_chain c)).
Proof.
  intros (payload & acct & wa & Ha & He)%verified_execs; [|done].
  apply cert_owner_execs in He as (c & o & w1 & w2 & w3 & H1 & H2 & H3 & Hc & Ho & Hac & [_ [= ->]]); [|done].
  exists acct, c, o, wa, w1, w2. by split_and!.
Qed.

Lemma download_cert_spec_witness :
  ∃ resp w', execs grows (download_cert Toy.cfg (u "c1") Store.request) Store.world (inr resp) w' ∧
  ∃ acct c o wa w1 w2, accepted Toy.cfg Store.request grows acct Store.world wa ∧ grows wa w1 ∧ grows w1 w2 ∧
    certs (w_db w1) !! u "c1" = Some c ∧ orders (w_db w2) !! cert_order_id c = Some o ∧
    order_account_id o = acct ∧
    resp = mk_response 200 [] (BText (u "application/pem-certificate-chain") (cert_pem_chain c)).
Proof.
  destruct store_download as (resp & w' & He). exists resp, w'. split; [exact He|].
  exact (download_cert_spec Toy.cfg grows (u "c1") Store.request Store.world resp w' He).
Defined.


