(* ===== verification/Accounts.v ===== *)
(** * Properties of account, key-change and revocation requests

    The key an account is registered or re-keyed with is the one that signed;
    the certificate a revocation selects is the caller's and has the serial. *)
From S2P Require Import Prelude PyStr Json Base64 External PyStd Models Config Prog Nonce Jws Schemas.
From S2P Require Import Ownership Worker Routes.

(** ** Inversion of fallible code *)

(** Follows the successful path of a chain of checks. *)
Ltac res_inv :=
  repeat match goal with
  | H : mbind _ _ = inr _ |- _ => apply res_bind_inr in H; destruct H as (? & ? & H)
  | H : or_raise _ _ = inr _ |- _ => apply or_raise_inr in H
  | H : (if ?b then inl _ else _) = inr _ |- _ => destruct b eqn:?; [discriminate H|]
  | H : inr _ = inr _ |- _ => injection H as H
  end.

(** ** Serial numbers *)

(** The value of a hexadecimal text. *)
Definition hex_value (s : str) : Z := foldl (λ acc c, 16 * acc + default 0 (hex_val c)) 0 s.

Lemma hex_digits_spec fuel n : 0 ≤ n → Z.log2 n < Z.of_nat fuel →
  hex_value (hex_digits fuel n) = n ∧ ∃ c r, hex_digits fuel n = c :: r ∧ c ≠ 45.
Proof.
  revert n. induction fuel as [|fuel IH]; intros n Hn Hf.
  { pose proof (Z.log2_nonneg n). lia. }
  cbn [hex_digits]. destruct (Z.ltb_spec n 16) as [Hlt|Hge].
  - unfold hex_value. cbn [foldl]. rewrite hex_val_digit by lia. cbn [from_option]; unfold id. split; [lia|].
    exists (hex_digit n), []. split; [done|]. unfold hex_digit. destruct (Z.ltb_spec n 10); lia.
  - assert (Z.log2 (n / 16) < Z.of_nat fuel) as Hl.
    { change 16 with (2 ^ 4). rewrite <- Z.shiftr_div_pow2, Z.log2_shiftr by lia.
      assert (4 ≤ Z.log2 n) by (apply (Z.log2_le_mono 16); lia). lia. }
    pose proof (Z.mod_pos_bound n 16). pose proof (Z.div_mod n 16).
    destruct (IH (n / 16)) as (Hv & c & r & Hr & Hc); [apply Z.div_pos; lia|done|].
    unfold hex_value in *. rewrite foldl_app, Hv. cbn [foldl]. rewrite hex_val_digit by lia.
    cbn [from_option]; unfold id. split; [lia|]. rewrite Hr. by exists c, (r ++ [hex_digit (n mod 16)]).
Qed.

Lemma format_nonneg_spec n : 0 ≤ n →
  hex_value (hex_digits (S (Z.to_nat (Z.log2 n))) n) = n ∧
  ∃ c r, hex_digits (S (Z.to_nat (Z.log2 n))) n = c :: r ∧ c ≠ 45.
Proof. intros Hn. apply hex_digits_spec; [done|]. pose proof (Z.log2_nonneg n). lia. Qed.

(** [serial_hex] distinguishes any two serial numbers. *)
Lemma serial_hex_inj n m : serial_hex n = serial_hex m → n = m.
Proof.
  unfold serial_hex, format_hex.
  destruct (Z.ltb_spec n 0) as [Hn|Hn], (Z.ltb_spec m 0) as [Hm|Hm].
  - destruct (format_nonneg_spec (- n)) as [En _]; [lia|].
    destruct (format_nonneg_spec (- m)) as [Em _]; [lia|]. intros E%(f_equal tail). cbn [tail] in E. rewrite E in En. lia.
  - destruct (format_nonneg_spec m) as (_ & c & r & Er & Hc); [lia|]. congruence.
  - destruct (format_nonneg_spec n) as (_ & c & r & Er & Hc); [lia|]. congruence.
  - destruct (format_nonneg_spec n) as [En _]; [lia|].
    destruct (format_nonneg_spec m) as [Em _]; [lia|]. intros E. rewrite E in En. lia.
Qed.

(** ** Searching a certificate *)

Section certificates.
Context `{Ext}.

(** The serial column is what [store_cert] writes, or was never written. *)
Definition serial_column_ok (d : db) : Prop :=
  ∀ k c, certs d !! k = Some c → cert_serial c = leaf_serial_hex (cert_pem_chain c) ∨ cert_serial c = None.

(** A certificate of the account whose leaf has the serial. *)
Definition owned_with_serial (acct : str) (serial : Z) (d : db) (k : str) (c : Certificate) : Prop :=
  certs d !! k = Some c ∧ serial_from_pem (cert_pem_chain c) = Some serial ∧
  ∃ o, orders d !! cert_order_id c = Some o ∧ order_account_id o = acct.

Lemma elem_of_account_certs acct p d k c :
  (k, c) ∈ account_certs acct p d ↔ certs d !! k = Some c ∧ p (cert_serial c) = true ∧
    ∃ o, orders d !! cert_order_id c = Some o ∧ order_account_id o = acct.
Proof.
  unfold account_certs. rewrite elem_of_select. cbn beta.
  destruct (orders d !! cert_order_id c) as [o|]; [|naive_solver].
  rewrite andb_true_iff, bool_decide_eq_true. naive_solver.
Qed.

Lemma leaf_serial_hex_eq pem serial :
  leaf_serial_hex pem = Some (serial_hex serial) ↔ serial_from_pem pem = Some serial.
Proof.
  unfold leaf_serial_hex, serial_from_pem. destruct (parse_pem pem) as [x|]; cbn; [|done].
  split; [intros [= E]; f_equal; by apply serial_hex_inj|by intros [= ->]].
Qed.
End certificates.

(** ** Registered keys *)

Section accounts.
Context `{Ext} (cfg : Settings).

(** What a request does while it is verified: it changes nonces only. *)
Definition nonces_only (w w' : world) : Prop :=
  grows w w' ∧ ∃ t, w_db w' = set_nonces t (w_db w).

#[local] Instance nonces_only_tolerant : Tolerant nonces_only.
Proof.
  split.
  - split.
    + intros w. split; [done|]. exists (nonces (w_db w)). by destruct (w_db w).
    + intros w1 w2 w3 [H1 [t1 E1]] [H2 [t2 E2]]. split; [by trans w2|]. exists t2. by rewrite E2, E1.
  - by intros w w' [].
  - intros w h r. split; [apply tol_resolve|]. exists (nonces (w_db w)). cbn; by destruct (w_db w).
  - intros w s. split; [apply (tol_locks (T:=grows))|]. exists (nonces (w_db w)). cbn; by destruct (w_db w).
  - intros w t Ht. split; [by apply tol_nonces|]. by exists t.
Qed.

(** A request handled alone: accepted, then answered, on tables that differ
    from the first ones in nonces only. *)
Lemma verified_alone {B} rq (f : json * str → prog B) w b w' :
  execs (=) (verify_jws cfg rq ≫= f) w (inr b) w' →
  ∃ payload acct wa, accepted cfg rq nonces_only acct w wa ∧ nonces_only w wa ∧
    execs (=) (f (payload, acct)) wa (inr b) w'.
Proof.
  intros [([payload acct] & wa & Hv & He)|(e & ? & _)]%execs_bind; [|done|apply _].
  exists payload, acct, wa.
  assert (execs nonces_only (verify_jws cfg rq) w (inr (payload, acct)) wa) as Hv'.
  { apply (execs_rely (=)); [|done]. intros ? ? <-. reflexivity. }
  destruct (rg_execs nonces_only nonces_only _ (λ r w', nonces_only w w' ∧
    ∀ payload acct, r = inr (payload, acct) → accepted cfg rq nonces_only acct w w') w _ wa
    (verify_jws_rg cfg nonces_only rq _ w (λ r w' H1 H2, conj H1 H2)) Hv') as [Hn Ha].
  split_and!; [by apply (Ha payload)|done|done].
Qed.

(** [_extract_jwk] finds the key the request was verified with. *)
Lemma py_item_get k dflt d x : py_item k d = inr x → py_get k dflt d = inr x.
Proof. destruct d; try done. cbn. by intros ->%or_raise_inr. Qed.

Lemma extract_jwk_protected rq raw p pl sg prot alg j :
  jws_envelope rq = inr (p, pl, sg, prot, alg) → loads_bytes (rq_body rq) = Some raw →
  extract_jwk raw = inr j → py_item "jwk" prot = inr j.
Proof.
  intros He Hraw Hj. unfold jws_envelope, request_json in He. rewrite Hraw in He.
  destruct raw as [| | | | | |kvs]; try (by destruct (negb (jose_content_type rq))).
  unfold extract_jwk in Hj. res_inv. match goal with E : JObj kvs = ?y |- _ => subst y end.
  match goal with H1 : py_item "protected" _ = inr ?a, H2 : py_get "protected" _ _ = inr ?b |- _ =>
    apply (py_item_get _ (JStr [])) in H1; assert (a = b) as -> by congruence end.
  match goal with H1 : b64url_arg ?a ≫= _ = Some ?x, H2 : b64url_arg ?a ≫= _ = Some ?y |- _ =>
    assert (x = y) as -> by congruence end.
  repeat case_match; try done. by injection He as -> -> -> -> ->.
Qed.

Lemma embedded_key prot acct k d j :
  key_for cfg prot acct k d → acct = [] → py_item "jwk" prot = inr j → jwk_from_json j = Some k.
Proof.
  intros [(_ & j' & Hj' & Hk)|[Hne _]] Hacct Hj; [|done].
  apply (py_item_get _ JNull) in Hj. congruence.
Qed.

(** What new-account does in a state, for the key [key]. *)
Definition registered (key : str) (resp : response) (w w' : world) : Prop :=
  match accounts_with_key key (w_db w) with
  | [] =>
      (rs_status resp = 400 ∧ w' = w) ∨
      ∃ id contact now, accounts (w_db w) !! id = None ∧ rs_status resp = 201 ∧
        rs_headers resp = [(u "Location", account_url cfg id)] ∧
        w' = w_commit (set_accounts (<[id := mk_Account key contact (u "valid") now]> (accounts (w_db w)))
                         (w_db w)) w
  | [(id, _)] => rs_status resp = 200 ∧ rs_headers resp = [(u "Location", account_url cfg id)] ∧ w' = w
  | _ => False
  end.

Lemma lift_alone {A B} (a : res A) (f : A → prog B) w b w' :
  execs (=) (lift a ≫= f) w (inr b) w' → ∃ x, a = inr x ∧ execs (=) (f x) w (inr b) w'.
Proof.
  intros [(x & w1 & [Hx ->]%execs_lift & He)|(e & ? & _)]%execs_bind; [|done|apply _]. by exists x.
Qed.
Lemma query_alone {X B} (q : db → X) (f : X → prog B) w b w' :
  execs (=) (query q ≫= f) w (inr b) w' → execs (=) (f (q (w_db w))) w (inr b) w'.
Proof. by intros (w1 & x & w2 & <- & [-> ->] & He). Qed.

Lemma register_alone key acct_req resp w w' :
  execs (=)
    (rows ← query (accounts_with_key key);
     existing ← lift (scalar_one_or_none rows);
     match existing with
     | Some (id, a) =>
         c ← lift (load_contact (account_contact a));
         Ret (json_response (AccountResponse (account_status a) c (account_url cfg id ++ u "/orders"))
                200 [(u "Location", account_url cfg id)])
     | None =>
         if onlyReturnExisting acct_req
         then Ret (json_response (problem_status (u "urn:ietf:params:acme:error:accountDoesNotExist")
                                    (u "No account found for this key") 400) 400 [])
         else
           account_id ← perform EUuid4;
           now ← perform ENow;
           exec (insert_account account_id (mk_Account key
             (c ← contact acct_req; match c with [] => None | _ => Some (json_dumps (strs c)) end)
             (u "valid") now)) ;;
           Ret (json_response (AccountResponse (u "valid") (contact acct_req)
                                 (account_url cfg account_id ++ u "/orders"))
                  201 [(u "Location", account_url cfg account_id)])
     end) w (inr resp) w' → registered key resp w w'.
Proof.
  intros He%query_alone. apply lift_alone in He as (existing & Hrows & He). unfold registered.
  destruct (accounts_with_key key (w_db w)) as [|[id a] [|]]; [| |done]; injection Hrows as <-.
  - destruct (onlyReturnExisting acct_req).
    + destruct He as [<- [= ->]]. by left.
    + destruct He as (w1 & id & w2 & <- & [_ ->] & w3 & now & w4 & <- & -> & He). right.
      destruct He as (w5 & x & w6 & <- & Hx & He). cbn in Hx.
      destruct (insert_account _ _ _) as [e|[[] d]] eqn:E; destruct Hx as [-> ->]; [by destruct He|].
      apply insert_row_inr in E as (_ & Hid & ->). destruct He as [<- [= ->]].
      eexists id, _, now. done.
  - apply lift_alone in He as (c & _ & <- & [= ->]). done.
Qed.
End accounts.

(** ** Properties *)


#[local] Existing Instance Toy.ext.


(** C22: key rollover: the inner JWS is accepted only when the new key itself
    signed it (with an allowed algorithm, over exactly the received header and
    payload), for the key-change URL, without a [kid], and when its payload
    names the requesting account and an old key whose canonical text is the
    stored one. *)
Theorem verify_inner_jws_spec `{Ext} inner url old_key kc_url new :
  verify_inner_jws inner url old_key kc_url = inr new →
  ∃ p pl sg protected alg k msg sig payload old,
    py_get "protected" (JStr []) inner = inr p ∧ py_get "payload" (JStr []) inner = inr pl ∧
    py_get "signature" (JStr []) inner = inr sg ∧
    b64url_arg p ≫= loads_bytes = Some protected ∧
    py_get "alg" (JStr []) protected = inr (JStr alg) ∧ alg ∈ ALLOWED_ALGS ∧
    py_get "url" JNull protected = inr (JStr kc_url) ∧
    py_get "kid" JNull protected = inr JNull ∧
    py_get "jwk" JNull protected = inr new ∧ jwk_from_json new = Some k ∧
    ascii_encode (py_format p ++ u "." ++ py_format pl) = Some msg ∧ b64url_arg sg = Some sig ∧
    jwa_verify alg k msg sig = Some true ∧
    b64url_arg pl ≫= loads_bytes = Some payload ∧
    py_get "account" JNull payload = inr (JStr url) ∧
    py_get "oldKey" JNull payload = inr old ∧ canonical_jwk old = old_key.
Proof.
  unfold verify_inner_jws. intros Hv. res_inv. cbv zeta in Hv. res_inv. bool_to_prop. subst.
  match goal with H : default false ?o = true |- _ =>
    destruct o as [[]|] eqn:Ever; try discriminate H; clear H end.
  apply bind_Some in Ever as (k & Hk & (msg & Hmsg & (sig & Hsig & (alg & Halg & Hver)%bind_Some)%bind_Some)%bind_Some).
  match goal with H : alg_allowed ?a = _ |- _ =>
    destruct a; try discriminate Halg; injection Halg as ->; injection H as H;
    apply bool_decide_eq_true in H end.
  match goal with H : is_null ?a = true |- _ => destruct a; try discriminate H end.
  by repeat eexists.
Qed.

Lemma verify_inner_jws_spec_witness :
  let url := u "https://relay.test/acme/key-change" in
  let acct := account_url Toy.cfg Toy.acct in
  let rq := Toy.sign (Toy.header_jwk [] url)
              (JObj [(u "account", JStr acct); (u "oldKey", Toy.key)]) url in
  ∃ inner, loads (rq_body rq) = Some inner ∧ ∃ p protected k msg sig,
    py_get "protected" (JStr []) inner = inr p ∧ b64url_arg p ≫= loads_bytes = Some protected ∧
    py_get "jwk" JNull protected = inr Toy.key ∧ jwa_verify (u "ES256") k msg sig = Some true.
Proof.
  intros url acct rq. destruct (loads (rq_body rq)) as [inner|] eqn:E; [|vm_compute in E; discriminate].
  exists inner. split; [reflexivity|].
  assert (verify_inner_jws inner acct (canonical_jwk Toy.key) url = inr Toy.key) as Hv.
  { vm_compute in E. injection E as <-. vm_compute. reflexivity. }
  destruct (verify_inner_jws_spec inner acct (canonical_jwk Toy.key) url Toy.key Hv)
    as (p & pl & sg & protected & alg & k & msg & sig & payload & old &
        Hp & _ & _ & Hprot & Halg & _ & _ & _ & Hj & _ & _ & _ & Hver & _).
  exists p, protected, k, msg, sig. split; [exact Hp|]. split; [exact Hprot|]. split; [exact Hj|exact Hver].
Defined.

(** C24: revocation selects, among the certificates of the requesting account,
    one whose leaf has exactly the submitted serial number, and finds one
    whenever the account owns such a certificate: on tables whose serial column
    holds what [store_cert] writes or nothing, the indexed lookup and its
    fallback together are the search by parsed serial number. *)
Theorem find_cert_exact `{Ext} acct serial w r w' :
  serial_column_ok (w_db w) → execs (=) (find_cert acct serial) w (inr r) w' →
  w' = w ∧
  match r with
  | Some (k, c) => owned_with_serial acct serial (w_db w) k c
  | None => ∀ k c, ¬ owned_with_serial acct serial (w_db w) k c
  end.
Proof.
  intros Hcol He%query_alone.
  destruct (account_certs acct (λ s, bool_decide (s = Some (serial_hex serial))) (w_db w))
    as [|[k c] l] eqn:Ecol.
  - apply query_alone in He as [<- [= ->]]. split; [done|].
    destruct (filter _ _) as [|[k c] l] eqn:Eleg; cbn [head].
    + intros k c (Hc & Hs & Ho). destruct (Hcol k c Hc) as [Hser|Hser].
      * assert ((k, c) ∈ ([] : list (str * Certificate))) as []%elem_of_nil. rewrite <- Ecol.
        apply elem_of_account_certs. split_and!; [done| |done]. apply bool_decide_eq_true.
        rewrite Hser. by apply leaf_serial_hex_eq.
      * assert ((k, c) ∈ ([] : list (str * Certificate))) as []%elem_of_nil. rewrite <- Eleg.
        apply list_elem_of_filter. split; [done|]. apply elem_of_account_certs.
        split_and!; [done| |done]. by apply bool_decide_eq_true.
    + assert ((k, c) ∈ (k, c) :: l) as Hin by left. rewrite <- Eleg in Hin.
      apply list_elem_of_filter in Hin as [Hs (Hc & _ & Ho)%elem_of_account_certs]. done.
  - destruct He as [<- [= ->]]. split; [done|].
    assert ((k, c) ∈ (k, c) :: l) as Hin by left. rewrite <- Ecol in Hin.
    apply elem_of_account_certs in Hin as (Hc & Hser%bool_decide_eq_true & Ho). split_and!; [done| |done].
    apply leaf_serial_hex_eq. destruct (Hcol k c Hc) as [Hl|Hl]; congruence.
Qed.

Lemma find_cert_exact_witness :
  let c := mk_Certificate (u "o1") (u "PEM") 0 0 None in
  let o := mk_Order (u "a1") Valid (u "[]") None (Some (u "c1")) None 0 None in
  let w := mk_world (set_certs {[u "c1" := c]} (set_orders {[u "o1" := o]} empty_db)) ∅ [] in
  owned_with_serial (u "a1") 255 (w_db w) (u "c1") c ∧
  ∀ k c, ¬ owned_with_serial (u "a2") 255 (w_db w) k c.
Proof.
  intros c o w.
  assert (serial_column_ok (w_db w)) as Hcol.
  { intros k c'. change (certs (w_db w)) with ({[u "c1" := c]} : gmap str Certificate). rewrite lookup_singleton_Some. intros [_ <-]. right. reflexivity. }
  split.
  - refine (proj2 (find_cert_exact (u "a1") 255 w (Some (u "c1", c)) w Hcol _)).
    apply (run_execs _ _ Toy.no_answers _ _ Toy.no_answers); [vm_compute; tauto|split; constructor|].
    vm_compute. reflexivity.
  - refine (proj2 (find_cert_exact (u "a2") 255 w None w Hcol _)).
    apply (run_execs _ _ Toy.no_answers _ _ Toy.no_answers); [vm_compute; tauto|split; constructor|].
    vm_compute. reflexivity.
Defined.
