(* ===== verification/Credits.v ===== *)
(** * Issuance is counted

    Each claim of an order (its change from ready to processing) pays for one
    finalization task, and each such task for one call of the CA.  A coroutine
    is run with a credit that its paying effects use up; over any interleaving
    the payments recorded in the history never exceed the earnings. *)
From S2P Require Import Prelude PyStr Json Base64 External PyStd Models Config Prog Nonce Jws Schemas.
From S2P Require Import Ownership Ip Http01 LeClient Worker Orders Routes Main Effects Scenario.

(** ** Coroutines that neither ask the CA nor start an issuance *)

Definition frugal_eff {X} (e : eff X) : Prop :=
  match e with ESpawn (process_finalize_task _ _ _) | ESign _ _ => False | _ => True end.
Abbreviation frugal := (every (@frugal_eff)).
#[export] Instance frugal_allows : Allows (@frugal_eff).
Proof. by intros X []. Qed.
#[export] Instance frugal_nonce : AllowsNonce (@frugal_eff).
Proof. done. Qed.
(** The transactions do not matter. *)
Lemma frugal_exec {X} (t : tx X) : frugal (exec t).
Proof. by apply every_perform_res. Qed.
#[export] Hint Resolve frugal_exec : every.

(** ** Credit accounting for interleaved coroutines *)

Section credits.
(** The recorded events that pay, and those that earn, one credit; the credit a
    task starts with. *)
Context (pay earn : event → bool) (start : task → nat).

(** The credit an effect hands to the coroutine it starts. *)
Definition handed {X} (e : eff X) : nat := match e with ESpawn t => start t | _ => 0 end.

(** The events an effect records between two worlds. *)
Definition records (w w' : world) (l : list event) : Prop := w_log w' = l ++ w_log w.

(** [p] runs with credit [n]: on every path its payments and hand-outs are
    covered by [n] and what it earned before. *)
Fixpoint solvent {A} (p : prog A) (n : nat) : Prop :=
  match p with
  | Vis e k => ∀ w x w', eff_step e w x w' → ∃ l m, records w w' l ∧
      (count pay l + handed e + m ≤ n + count earn l)%nat ∧ solvent (k x) m
  | _ => True
  end.

(** Only starting an issuance and asking the CA are paid for. *)
Context (pay_only : ∀ ev, pay ev = true →
  match ev with EvSpawn (process_finalize_task _ _ _) | EvSign _ _ => True | _ => False end).
Context (start_only : ∀ ka ko, start (run_challenge_task ka ko) = 0%nat).

Lemma frugal_pays {X} (e : eff X) w x w' : frugal_eff e → eff_step e w x w' →
  ∃ l, records w w' l ∧ count pay l = 0%nat ∧ handed e = 0%nat.
Proof.
  intros He Hs.
  assert (∀ ev, match ev with EvSpawn (process_finalize_task _ _ _) | EvSign _ _ => False | _ => True end →
    count pay [ev] = 0%nat) as Hev.
  { intros ev Hev. rewrite count_cons. destruct (pay ev) eqn:E; [|done]. apply pay_only in E.
    by destruct ev as [| | |[]|]. }
  assert (∀ ev, w_log w' = ev :: w_log w →
    match ev with EvSpawn (process_finalize_task _ _ _) | EvSign _ _ => False | _ => True end →
    ∃ l, records w w' l ∧ count pay l = 0%nat) as Hone by (intros ev Hl Hok; exists [ev]; auto).
  assert (w_log w' = w_log w → ∃ l, records w w' l ∧ count pay l = 0%nat) as Hnone by (intros Hl; by exists []).
  assert ((∃ l, records w w' l ∧ count pay l = 0%nat) ∧ handed e = 0%nat) as [(l & ? & ?) ?];
    [|by exists l].
  destruct e; cbn in He, Hs; try done;
    try (split; [apply Hnone; by destruct Hs; subst|done]);
    try (split; [apply Hnone; by subst|done]); try (split; [subst; by eapply Hone|done]).
  - split; [|done]. destruct (t (w_db w)) as [ex|[y d]]; destruct Hs as [_ ->]; [by apply Hnone|].
    by apply (Hone (EvTx (w_db w) d)).
  - destruct t; [|done]. split; [subst; by eapply Hone|apply start_only].
Qed.

Lemma solvent_bind {A B} (p : prog A) (f : A → prog B) n :
  frugal p → (∀ a, solvent (f a) n) → solvent (p ≫= f) n.
Proof.
  intros Hp Hf. induction p as [a|e|X e k IH]; [apply Hf|done|].
  destruct Hp as [He Hk]. intros w x w' Hs. destruct (frugal_pays e w x w' He Hs) as (l & Hl & Hpay & Hh).
  exists l, n. split_and!; [done|lia|]. by apply IH.
Qed.

Lemma solvent_frugal {A} (p : prog A) n : frugal p → solvent p n.
Proof.
  induction p as [a|e|X e k IH]; [done..|]. intros [He Hk] w x w' Hs.
  destruct (frugal_pays e w x w' He Hs) as (l & Hl & Hpay & Hh).
  exists l, n. split_and!; [done|lia|]. auto.
Qed.

Lemma solvent_catch {A} (p : prog A) h n :
  solvent p n → (∀ e, frugal (h e)) → solvent (catch p h) n.
Proof.
  intros Hp Hh. revert n Hp. induction p as [a|e|X e k IH]; intros n; cbn [catch solvent]; [done| |].
  - intros _. by apply solvent_frugal.
  - intros Hp w x w' Hs. destruct (Hp w x w' Hs) as (l & m & Hl & Hle & Hk). exists l, m. auto.
Qed.

(** Only the first part pays. *)
Lemma solvent_then {A B} (p : prog A) (f : A → prog B) n :
  solvent p n → (∀ a, frugal (f a)) → solvent (p ≫= f) n.
Proof.
  intros Hp Hf. revert n Hp. induction p as [a|e|X e k IH]; intros n; [|done|].
  - intros _. apply solvent_frugal, Hf.
  - intros Hp w x w' Hs. destruct (Hp w x w' Hs) as (l & m & Hl & Hle & Hk). exists l, m.
    split_and!; [done|done|]. by apply IH.
Qed.

(** What a transaction earned is there afterwards. *)
Lemma solvent_exec {X B} (t : tx X) (f : X → prog B) n :
  (∀ d x d', t d = inr (x, d') → solvent (f x) (n + count earn [EvTx d d'])) →
  solvent (exec t ≫= f) n.
Proof.
  intros Ht w r w' Hs. cbn in Hs. destruct (t (w_db w)) as [ex|[x d]] eqn:E; destruct Hs as [-> ->].
  - exists [], 0%nat. split_and!; [done|cbn; lia|done].
  - exists [EvTx (w_db w) d], (n + count earn [EvTx (w_db w) d])%nat. split_and!; [done| |by apply Ht].
    rewrite (count_cons pay). destruct (pay _) eqn:Hp; [by apply pay_only in Hp|]. cbn. lia.
Qed.

Lemma solvent_spawn {B} t (f : unit → prog B) n :
  (count pay [EvSpawn t] + start t ≤ n)%nat → frugal (f tt) → solvent (perform (ESpawn t) ≫= f) n.
Proof.
  intros Hn Hf w [] w' ->. exists [EvSpawn t], 0%nat. split_and!; [done|cbn [handed]; lia|].
  by apply solvent_frugal.
Qed.

Lemma solvent_sign domain csr n :
  (count pay [EvSign domain csr] ≤ n)%nat → solvent (perform_res (ESign domain csr)) n.
Proof.
  intros Hn w r w' ->. exists [EvSign domain csr], 0%nat. split_and!; [done|cbn [handed]; lia|].
  apply solvent_frugal, every_lift.
Qed.

(** A task pays from its own start credit; entries and restarts pay nothing. *)
Context (body : task → prog unit) (entry : prog unit → Prop) (restart : world → world → Prop).

Lemma credit_invariant c c' :
  (∀ p, entry p → solvent p 0) → (∀ t, solvent (body t) (start t)) →
  (∀ w w', restart w w' → ∃ l, records w w' l ∧ count pay l = 0%nat) →
  rtc (step body entry restart) c c' →
  (∃ ns, Forall2 solvent (c_threads c) ns ∧
     (count pay (w_log (c_world c)) + sum_list ns ≤ count earn (w_log (c_world c)))%nat) →
  ∃ ns, Forall2 solvent (c_threads c') ns ∧
     (count pay (w_log (c_world c')) + sum_list ns ≤ count earn (w_log (c_world c')))%nat.
Proof.
  intros Hentry Hbody Hrestart Hsteps. induction Hsteps as [c|c c1 c2 Hstep _ IH]; [done|].
  intros Hc. apply IH. clear IH. destruct Hc as (ns & HF & Hle).
  assert (∀ (f : event → bool) l1 l2, count f (l1 ++ l2) = (count f l1 + count f l2)%nat) as Happ.
  { intros f l1 l2. unfold count. by rewrite filter_app, length_app. }
  destruct Hstep as [w w' ts1 ts2 X e k x Hs|w ts p Hp|w w' ts Hr]; cbn [c_world c_threads] in *.
  - apply Forall2_app_inv_l in HF as (ns1 & ns2 & HF1 & HF2 & ->).
    apply Forall2_cons_inv_l in HF2 as (n & ns3 & Hv & HF3 & ->).
    destruct (Hv w x w' Hs) as (l & m & Hl & Hcr & Hk). unfold records in Hl.
    exists (ns1 ++ m :: ns3 ++ (match e with ESpawn t => [start t] | _ => [] end)). split.
    + apply Forall2_app; [done|]. constructor; [done|]. apply Forall2_app; [done|].
      destruct e; cbn [spawned]; repeat constructor. apply Hbody.
    + rewrite Hl, !Happ. rewrite sum_list_with_app in Hle. cbn in Hle.
      rewrite sum_list_with_app. cbn. rewrite sum_list_with_app.
      assert (sum_list (match e with ESpawn t => [start t] | _ => [] end) = handed e) as -> by (destruct e; cbn; lia).
      lia.
  - exists (ns ++ [0%nat]). split.
    + apply Forall2_app; [done|]. repeat constructor. auto.
    + rewrite sum_list_with_app. cbn. lia.
  - destruct (Hrestart w w' Hr) as (l & Hl & Hpay). exists []. split; [constructor|].
    rewrite Hl, !Happ. cbn. lia.
Qed.
End credits.

(** ** The coroutines of the server *)

Section server.
Context `{Ext} (cfg : Settings).

(** Every route but finalization. *)
Lemma handle_frugal r rq : (∀ id, r ≠ R_finalize_order id) → frugal (handle cfg r rq).
Proof.
  intros Hr. destruct r; try (by apply handle_every; [apply _|intros []]); [by destruct (Hr id)|].
  cbn [handle]. unfold acknowledge_challenge. every_auto.
Qed.

Section accounting.
Context (pay earn : event → bool) (start : task → nat).
Context (pay_only : ∀ ev, pay ev = true →
  match ev with EvSpawn (process_finalize_task _ _ _) | EvSign _ _ => True | _ => False end).
Context (start_only : ∀ ka ko, start (run_challenge_task ka ko) = 0%nat).
(** A claim earns what the start of the order's finalization costs, and a
    finalization starts with what asking the CA once costs. *)
Context (claim_earns : ∀ k domain csr d d', claim_order k d = inr (1, d') →
  let t := process_finalize_task k domain csr in
  (count pay [EvSpawn t] + start t ≤ count earn [EvTx d d'])%nat).
Context (start_pays : ∀ k domain csr domain' csr',
  (count pay [EvSign domain' csr'] ≤ start (process_finalize_task k domain csr))%nat).
#[local] Abbreviation solvent := (solvent pay earn start).

Ltac solvent_frugal_step := apply solvent_bind; [done|done|solve [every_auto]|intros ?].

Lemma finalize_solvent id rq : solvent (finalize_order cfg id rq) 0.
Proof.
  unfold finalize_order. solvent_frugal_step. destruct a as [payload acct].
  do 2 solvent_frugal_step. destruct (negb _); [done|].
  do 2 solvent_frugal_step. destruct (negb _); [done|]. solvent_frugal_step.
  apply solvent_exec; [done|]. intros d n d' E. cbn [Nat.add].
  destruct (Z.eqb_spec n 0) as [Hn|Hn]; [apply solvent_frugal; [done|done|every_auto]|].
  assert (n = 1) as ->.
  { unfold claim_order in E. destruct (orders d !! id); [case_decide|]; injection E; congruence. }
  apply solvent_spawn; [done|done|by apply claim_earns|every_auto].
Qed.

Lemma order_cert_solvent domain csr n :
  (∀ domain csr, count pay [EvSign domain csr] ≤ n)%nat → solvent (order_cert domain csr) n.
Proof.
  intros Hn. unfold order_cert. solvent_frugal_step. solvent_frugal_step.
  apply solvent_then; [done|done| |intros ?; every_auto].
  apply solvent_catch; [done|done|by apply solvent_sign|intros ?; every_auto].
Qed.

Lemma process_finalize_solvent id domain csr :
  solvent (process_finalize id domain csr) (start (process_finalize_task id domain csr)).
Proof.
  unfold process_finalize. solvent_frugal_step. destruct a; [|done].
  apply solvent_then; [done|done| |intros ?; unfold cert_expiry_from_pem, store_cert; every_auto].
  apply solvent_catch; [done|done| |done]. apply solvent_then; [done|done| |done].
  apply order_cert_solvent. auto.
Qed.

Lemma serve_solvent r rq : solvent (serve cfg r rq) 0.
Proof.
  unfold serve. apply solvent_catch; [done|done| |done]. apply solvent_then; [done|done| |done].
  unfold dispatch. apply solvent_then; [done|done| |intros ?; cbv zeta; every_auto].
  unfold call_next. apply solvent_catch; [done|done| |intros []; done].
  assert ((∃ id, r = R_finalize_order id) ∨ ∀ id, r ≠ R_finalize_order id) as [[id ->]|Hr]
    by (destruct r; eauto).
  - apply finalize_solvent.
  - apply solvent_frugal; [done|done|]. by apply handle_frugal.
Qed.

(** The books of every reachable state. *)
Lemma reachable_solvent c : reachable cfg c →
  (count pay (w_log (c_world c)) ≤ count earn (w_log (c_world c)))%nat.
Proof.
  intros Hc.
  destruct (credit_invariant pay earn start (task_body cfg) (entry cfg) restart initial c) as (ns & _ & Hle);
    [| | |exact Hc| |lia].
  - intros p [r rq|]; [apply serve_solvent|]. apply solvent_frugal; [done|done|apply prune_every, _].
  - intros [ka ko|ko domain csr]; cbn [task_body]; [|apply process_finalize_solvent].
    apply solvent_frugal; [done|done|apply run_challenge_every, _].
  - intros w w' (w1 & x & w2 & <- & Hs & He). destruct Hs as [-> ->]. destruct He as [<- _].
    eexists [_]. split; [done|]. rewrite count_cons. destruct (pay _) eqn:Hp; [by apply pay_only in Hp|done].
  - exists []. split; [constructor|]. cbn. lia.
Qed.
End accounting.

(** ** Claims *)

(** A transaction moved order [k] from ready to processing. *)
Definition claims (k : str) (ev : event) : bool :=
  match ev with
  | EvTx b a => bool_decide (order_status <$> orders b !! k = Some Ready) &&
                bool_decide (order_status <$> orders a !! k = Some Processing)
  | _ => false
  end.
(** A transaction moved some order from ready to processing. *)
Definition claims_any (ev : event) : bool :=
  match ev with EvTx b a => existsb (λ ko, claims ko.1 ev) (map_to_list (orders b)) | _ => false end.

(** A finalization task of order [k] was started; the CA was asked. *)
Definition finalizes (k : str) (ev : event) : bool :=
  match ev with EvSpawn (process_finalize_task k' _ _) => bool_decide (k' = k) | _ => false end.
Definition signs (ev : event) : bool := match ev with EvSign _ _ => true | _ => false end.

Lemma claim_order_claims k d d' : claim_order k d = inr (1, d') →
  claims k (EvTx d d') = true ∧ claims_any (EvTx d d') = true.
Proof.
  unfold claim_order. destruct (orders d !! k) as [o|] eqn:Ho; [|done]. case_decide as Hst; [|done].
  intros [= <-].
  assert (claims k (EvTx d (set_orders (<[k:=set_order_status Processing o]> (orders d)) d)) = true) as Hk.
  { cbn. by rewrite Ho, lookup_insert_eq, andb_true_iff, !bool_decide_eq_true; cbn; rewrite Hst. }
  split; [done|]. cbn [claims_any]. apply existsb_exists. exists (k, o). split; [|done].
  by apply list_elem_of_In, elem_of_map_to_list.
Qed.

End server.

(** ** Properties *)

#[local] Opaque final_world.

(** In every reachable state, a finalization task has been started for an
    order no more often than a request claimed it (moved it from ready to
    processing), whatever the interleaving of the requests. *)
Theorem finalized_once_per_claim `{Ext} cfg c k : reachable cfg c →
  (count (finalizes k) (w_log (c_world c)) ≤ count (claims k) (w_log (c_world c)))%nat.
Proof.
  apply (reachable_solvent cfg _ _ (λ _, 0%nat)).
  - by intros [| | |[]|].
  - done.
  - intros k' domain csr d d' [Hk _]%claim_order_claims. cbv zeta. rewrite !count_cons.
    destruct (finalizes k (EvSpawn (process_finalize_task k' domain csr))) eqn:E; [|cbn; lia].
    apply bool_decide_eq_true in E. subst k'. by rewrite Hk.
  - done.
Qed.

Lemma finalized_once_per_claim_witness :
  count (finalizes order_id) (w_log final_world) = 1%nat ∧
  (count (finalizes order_id) (w_log final_world) ≤ count (claims order_id) (w_log final_world))%nat.
Proof.
  destruct final_reachable as [ts Hts]. split; [vm_compute; reflexivity|].
  exact (@finalized_once_per_claim Toy.ext Toy.cfg (mk_config final_world ts) order_id Hts).
Defined.

(** C6: in every reachable state, the CA has been asked to sign at most once for
    each claim of an order: retried, duplicated or concurrent finalize requests
    cause no further issuance. *)
Theorem signed_once_per_claim `{Ext} cfg c : reachable cfg c →
  (count signs (w_log (c_world c)) ≤ count claims_any (w_log (c_world c)))%nat.
Proof.
  apply (reachable_solvent cfg _ _ (λ t, match t with process_finalize_task _ _ _ => 1 | _ => 0 end)%nat).
  - by intros [| | |[]|].
  - done.
  - intros k domain csr d d' [_ Hk]%claim_order_claims. rewrite !count_cons, Hk. done.
  - done.
Qed.

Lemma signed_once_per_claim_witness :
  count signs (w_log final_world) = 1%nat ∧
  (count signs (w_log final_world) ≤ count claims_any (w_log final_world))%nat.
Proof.
  destruct final_reachable as [ts Hts]. split; [vm_compute; reflexivity|].
  exact (@signed_once_per_claim Toy.ext Toy.cfg (mk_config final_world ts) Hts).
Defined.
