(* ===== verification/Outcomes.v ===== *)
(** * What the background tasks and the recovery do

    The effect on the tables of each background task run alone, for every
    answer of the network, and of the recovery at start-up. *)
From S2P Require Import Prelude PyStr Json Base64 External PyStd Models Config Prog Nonce Jws Schemas.
From S2P Require Import Ownership Ip Http01 LeClient Worker Orders Routes Main.

(** ** Coroutines that write nothing *)

Definition reads {X} (e : eff X) : Prop := match e with EExec _ => False | _ => True end.
Abbreviation readonly := (every (@reads)).

Lemma readonly_run {A} (p : prog A) w s : readonly p → w_db (run p w s).1.2 = w_db w.
Proof.
  revert w s. induction p as [a|e|X e k IH]; intros w s; [done..|]. intros [He Hk].
  cbn [run erun eff_runs]. destruct (run_eff e w s) as [[x w1] s1] eqn:E.
  assert (w_db w1 = w_db w) as <- by (destruct e; try done; destruct s; cbn in E; by injection E as _ <- _).
  by apply IH.
Qed.

Lemma validate_readonly `{Ext} cfg domain token expected : readonly (validate_http01 cfg domain token expected).
Proof.
  unfold validate_http01. induction (Z.to_nat (challenge_retries cfg)) as [|n IH]; [done|].
  cbn [validate_attempts]. unfold attempt_validation, fetch_and_compare, resolve_and_check. every_auto.
Qed.

(** ** Flushing assignments *)

Lemma set_orders_id d k o : orders d !! k = Some o → set_orders (<[k := o]> (orders d)) d = d.
Proof. intros Ho. destruct d. unfold set_orders; cbn in *. f_equal. by apply insert_id. Qed.
Lemma set_authzs_id d k a : authzs d !! k = Some a → set_authzs (<[k := a]> (authzs d)) d = d.
Proof. intros Ho. destruct d. unfold set_authzs; cbn in *. f_equal. by apply insert_id. Qed.

(** A flush stores the assigned object, an UPDATE being issued or not. *)
Lemma flush_order_eq d k o changes : orders d !! k = Some o →
  flush_changes flush_order k changes d =
  inr (tt, set_orders (<[k := foldl (λ r f, f r) o (omap id changes)]> (orders d)) d).
Proof.
  intros Ho. unfold flush_changes. destruct (omap id changes) as [|f fs] eqn:E.
  - cbn [foldl]. by rewrite set_orders_id.
  - unfold flush_order, flush_row. by rewrite Ho.
Qed.
Lemma flush_authz_eq d k a changes : authzs d !! k = Some a →
  flush_changes flush_authz k changes d =
  inr (tt, set_authzs (<[k := foldl (λ r f, f r) a (omap id changes)]> (authzs d)) d).
Proof.
  intros Ho. unfold flush_changes. destruct (omap id changes) as [|f fs] eqn:E.
  - cbn [foldl]. by rewrite set_authzs_id.
  - unfold flush_authz, flush_row. by rewrite Ho.
Qed.

(** Assignments of loaded objects are assignments. *)
Lemma assigned_order_status o s :
  foldl (λ r f, f r) o (omap id [assign (order_status o) s set_order_status]) = set_order_status s o.
Proof. unfold assign. destruct o; cbn. case_decide; cbn; by subst. Qed.
Lemma assigned_order_error o s e :
  foldl (λ r f, f r) o (omap id [assign (order_status o) s set_order_status;
                                 assign (order_error o) e set_order_error])
  = set_order_error e (set_order_status s o).
Proof. unfold assign. destruct o; cbn. repeat case_decide; cbn; by subst. Qed.
Lemma assigned_order_cert o c s :
  foldl (λ r f, f r) o (omap id [assign (order_cert_id o) c set_order_cert;
                                 assign (order_status o) s set_order_status])
  = set_order_status s (set_order_cert c o).
Proof. unfold assign. destruct o; cbn. repeat case_decide; cbn; by subst. Qed.
Lemma assigned_authz_error a s e :
  foldl (λ r f, f r) a (omap id [assign (authz_status a) s set_authz_status;
                                 assign (authz_error a) e set_authz_error])
  = set_authz_error e (set_authz_status s a).
Proof. unfold assign. destruct a; cbn. repeat case_decide; cbn; by subst. Qed.

(** ** The outcome of a validation task *)

(** The tables after a successful validation. *)
Definition challenge_passed (ka ko : str) (a : Authorization) (o : Order) (d : db) : db :=
  let d1 := set_authzs (<[ka := set_authz_status Valid a]> (authzs d)) d in
  if all_valid ko d1 then set_orders (<[ko := set_order_status Ready o]> (orders d1)) d1 else d1.
(** The tables after a failure. *)
Definition challenge_failed (ka ko : str) (a : Authorization) (o : Order) (error : json) (d : db) : db :=
  set_authzs (<[ka := set_authz_error (Some (json_dumps error)) (set_authz_status Invalid a)]> (authzs d))
    (set_orders (<[ko := set_order_status Invalid o]> (orders d)) d).

Lemma complete_run ka ko a o w s :
  authzs (w_db w) !! ka = Some a → orders (w_db w) !! ko = Some o →
  ∃ w', run (complete_challenge ka ko a o) w s = (inr tt, w', s) ∧
    w_db w' = challenge_passed ka ko a o (w_db w).
Proof.
  intros Ha Ho. unfold complete_challenge, challenge_passed. case_decide as Hst.
  - assert (set_authz_status Valid a = a) as -> by (by destruct a; cbn in *; subst).
    rewrite set_authzs_id by done. cbn. destruct (all_valid ko (w_db w)); cbn; [|by eexists].
    rewrite (flush_order_eq _ _ o), assigned_order_status by done. by eexists.
  - cbn. unfold flush_authz, flush_row, mbind, tx_bind, tx_query. rewrite Ha. cbn.
    set (d1 := set_authzs _ _). destruct (all_valid ko d1); cbn; [|by eexists].
    rewrite (flush_order_eq _ _ o), assigned_order_status by done. by eexists.
Qed.

Lemma fail_run ka ko a o error w s :
  authzs (w_db w) !! ka = Some a → orders (w_db w) !! ko = Some o →
  ∃ w', run (fail_challenge ka ko a o error) w s = (inr tt, w', s) ∧
    w_db w' = challenge_failed ka ko a o error (w_db w).
Proof.
  intros Ha Ho. unfold fail_challenge, commit_authz_order, challenge_failed. cbn.
  unfold mbind, tx_bind. rewrite (flush_order_eq _ _ o), assigned_order_status by done.
  rewrite (flush_authz_eq _ _ a), assigned_authz_error by done. by eexists.
Qed.

Lemma run_validation `{Ext} cfg domain token expected w s :
  run (catch (validate_http01 cfg domain token expected ;; Ret None)
         (λ e, Ret (Some (validation_problem e)))) w s =
  let '(v, w1, s1) := run (validate_http01 cfg domain token expected) w s in
  (inr (match v with inr _ => None | inl e => Some (validation_problem e) end), w1, s1).
Proof.
  rewrite run_catch, run_bind. destruct (run _ w s) as [[v w1] s1]. by destruct v.
Qed.

Lemma run_query {X B} (q : db → X) (f : X → prog B) w s : run (query q ≫= f) w s = run (f (q (w_db w))) w s.
Proof. done. Qed.
Lemma run_lift {A B} (a : A) (f : A → prog B) w s : run (lift (inr a) ≫= f) w s = run (f a) w s.
Proof. done. Qed.

(** ** The outcome of a finalization task *)

Section finalization.
Context `{Ext}.

(** What [order_cert] returns for an answer of the CA. *)
Definition issue (csr : bytes) (answer : res bytes) : res str :=
  _ ← or_raise (PyErr ValueError []) (csr_der_to_pem csr);
  result ← answer;
  or_raise (PyErr UnicodeError []) (utf8_decode false result).

(** The tables after a failed and after a successful issuance; the INSERT of
    the certificate may raise. *)
Definition issuance_failed (k : str) (o : Order) (e : exn) (d : db) : db :=
  set_orders (<[k := set_order_error (Some (json_dumps (acme_problem e))) (set_order_status Invalid o)]>
                (orders d)) d.
Definition issued_cert (k pem : str) (issued expires : Z) : Certificate :=
  mk_Certificate k pem issued expires (leaf_serial_hex pem).
Definition issuance_stored (k kc : str) (o : Order) (c : Certificate) (d : db) : res db :=
  '(_, d1) ← insert_cert kc c d;
  inr (set_orders (<[k := set_order_status Valid (set_order_cert (Some kc) o)]> (orders d1)) d1).

Lemma order_cert_run domain csr w s :
  ∃ w1 s1, run (order_cert domain csr) w s = (issue csr (next no_answer (an_sign s)), w1, s1) ∧
    w_db w1 = w_db w ∧ an_uuids s1 = an_uuids s.
Proof.
  unfold order_cert, issue. destruct (csr_der_to_pem csr) as [pem|]; cbn [or_raise].
  - destruct s as [c i t dn h g v]. cbn. destruct (next no_answer g) as [e|result]; cbn; [by eexists _, _|].
    destruct (utf8_decode false result); cbn; by eexists _, _.
  - by eexists _, _.
Qed.

Lemma cert_expiry_run pem w s :
  ∃ expires s1, run (cert_expiry_from_pem pem) w s = (inr expires, w, s1) ∧ an_uuids s1 = an_uuids s.
Proof.
  unfold cert_expiry_from_pem. destruct (parse_pem pem) as [c|]; [by eexists _, _|].
  destruct s. cbn. by eexists _, _.
Qed.

Lemma run_uuid {B} (f : str → prog B) w c i t dn h g v :
  run (id ← perform EUuid4; f id) w (mk_answers c i t dn h g v) =
  run (f (next default_uuid i)) w (mk_answers c (tail i) t dn h g v).
Proof. done. Qed.
Lemma run_now {B} (f : Z → prog B) w c i t dn h g v :
  run (now ← perform ENow; f now) w (mk_answers c i t dn h g v) =
  run (f (next 0 c)) w (mk_answers (tail c) i t dn h g v).
Proof. done. Qed.
Lemma run_exec {X B} (t : tx X) (f : X → prog B) w s :
  run (exec t ≫= f) w s =
  match t (w_db w) with inl e => (inl e, w, s) | inr (x, d) => run (f x) (w_commit d w) s end.
Proof. cbn. by destruct (t (w_db w)) as [e|[x d]]. Qed.

Lemma store_cert_run k pem expires w s :
  let kc := next default_uuid (an_uuids s) in
  ∃ issued s', run (store_cert k pem expires) w s =
    match insert_cert kc (issued_cert k pem issued expires) (w_db w) with
    | inl e => (inl e, w, s')
    | inr (_, d) => (inr kc, w_commit d w, s')
    end.
Proof.
  destruct s as [c i t dn h g v]. cbn [an_uuids]. exists (next 0 c), (mk_answers (tail c) (tail i) t dn h g v).
  unfold store_cert. rewrite run_uuid, run_now, run_exec. fold (issued_cert k pem (next 0 c) expires).
  by destruct (insert_cert _ _ _) as [e|[[] d]].
Qed.

Lemma store_run k o pem expires w s :
  orders (w_db w) !! k = Some o →
  let kc := next default_uuid (an_uuids s) in
  ∃ issued r w' s',
    run (cert_id ← store_cert k pem expires;
         exec (flush_changes flush_order k [assign (order_cert_id o) (Some cert_id) set_order_cert;
                                            assign (order_status o) Valid set_order_status])) w s
    = (r, w', s') ∧
    match issuance_stored k kc o (issued_cert k pem issued expires) (w_db w) with
    | inl e => r = inl e ∧ w' = w
    | inr d => r = inr tt ∧ w_db w' = d
    end.
Proof.
  intros Ho kc. destruct (store_cert_run k pem expires w s) as (issued & s' & Hs). fold kc in Hs.
  exists issued. unfold issuance_stored. rewrite run_bind, Hs.
  destruct (insert_cert kc _ (w_db w)) as [e|[[] d]] eqn:E; [by eexists _, _, _|].
  assert (orders d !! k = Some o) as Hd by (by apply insert_row_inr in E as (_ & _ & ->)).
  unfold exec, perform_res. cbn [run erun eff_runs run_eff w_db w_commit].
  rewrite (flush_order_eq _ _ o), assigned_order_cert by done. by eexists _, _, _.
Qed.
End finalization.

(** ** A concrete store *)

#[local] Existing Instance Toy.ext.

Module Pending.
Definition order : Order := mk_Order Toy.acct Processing (u "[]") None None None 0 None.
Definition authz : Authorization :=
  mk_Authorization (u "o1") (u "a.org") Processing (Some (u "tok")) None 0 None.
Definition world : world :=
  mk_world (set_authzs {[u "z1" := authz]} (set_orders {[u "o1" := order]} Toy.db0)) ∅ [].
Definition signed : answers := mk_answers [] [] [] [] [] [inr (u "PEM")] [].
End Pending.

(** ** Properties *)





(** Recovery at start-up: after a restart no order and no authorization is
    left processing, each order that was becomes invalid with the
    interruption's problem document, every other order is untouched, and
    accounts, certificates and nonces are kept. *)
Theorem restart_recovers w w' :
  restart w w' →
  (∀ k o, orders (w_db w') !! k = Some o → order_status o ≠ Processing) ∧
  (∀ k a, authzs (w_db w') !! k = Some a → authz_status a ≠ Processing) ∧
  (∀ k o, orders (w_db w) !! k = Some o → order_status o = Processing →
     orders (w_db w') !! k =
     Some (set_order_error (Some INTERRUPTED_ORDER_ERROR) (set_order_status Invalid o))) ∧
  (∀ k o, orders (w_db w) !! k = Some o → order_status o ≠ Processing → orders (w_db w') !! k = Some o) ∧
  accounts (w_db w') = accounts (w_db w) ∧ certs (w_db w') = certs (w_db w) ∧
  nonces (w_db w') = nonces (w_db w) ∧ w_locks w' = ∅.
Proof.
  intros (w1 & x & w2 & <- & Hs & He). destruct Hs as [-> ->]. destruct He as [<- _].
  cbn [w_db w_commit w_lock w_locks orders authzs accounts certs nonces set_orders set_authzs].
  split_and!; try done; intros k y; rewrite lookup_fmap.
  - intros (o & _ & ->)%fmap_Some. by case_decide.
  - intros (a & _ & ->)%fmap_Some. by case_decide.
  - intros -> Hst. cbn. by rewrite decide_True.
  - intros -> Hst. cbn. by rewrite decide_False.
Qed.

Lemma restart_recovers_witness :
  ∃ w', restart Pending.world w' ∧
    orders (w_db w') !! u "o1" =
    Some (set_order_error (Some INTERRUPTED_ORDER_ERROR) (set_order_status Invalid Pending.order)).
Proof.
  destruct (reset_stmt (w_db Pending.world)) as [e|[[] d]] eqn:E; [discriminate|].
  set (w' := w_commit d (w_lock ∅ Pending.world)).
  assert (restart Pending.world w') as Hr.
  { exists (w_lock ∅ Pending.world), (inr tt), w'. split; [reflexivity|]. split; [|split; reflexivity].
    cbn [estep eff_steps eff_step]. change (w_db (w_lock ∅ Pending.world)) with (w_db Pending.world). rewrite E.
    split; reflexivity. }
  exists w'. split; [exact Hr|].
  exact (proj1 (proj2 (proj2 (restart_recovers Pending.world w' Hr))) (u "o1") Pending.order eq_refl eq_refl).
Defined.

(** Log hygiene: what is logged of a client's text has no line break, so a
    request cannot forge a log line, and a text without line breaks is logged
    as it is. *)
Theorem log_safe_one_line v :
  (10 ∉ log_safe v) ∧ (13 ∉ log_safe v) ∧ ((10 ∉ v) → (13 ∉ v) → log_safe v = v).
Proof.
  assert (∀ c new s x, x ∈ replace_char c new s ↔ (x ∈ s ∧ x ≠ c) ∨ (c ∈ s ∧ x ∈ new)) as Hr.
  { intros c new s x. unfold replace_char. rewrite list_elem_of_bind. split.
    - intros (y & Hx & Hy). destruct (y =? c) eqn:E; [right; apply Z.eqb_eq in E; by subst y|].
      apply list_elem_of_singleton in Hx as ->. left. split; [done|by apply Z.eqb_neq].
    - intros [[Hx Hne]|[Hc Hx]].
      + exists x. rewrite (proj2 (Z.eqb_neq x c) Hne). split; [by apply list_elem_of_singleton|done].
      + exists c. by rewrite Z.eqb_refl. }
  assert (∀ c new s, (c ∉ s) → replace_char c new s = s) as Hid.
  { intros c new s. unfold replace_char. induction s as [|y s IH]; [done|].
    rewrite not_elem_of_cons. intros [Hne Hs]. cbn.
    rewrite (proj2 (Z.eqb_neq y c)) by congruence. cbn. f_equal. by apply IH. }
  unfold log_safe. split_and!.
  - rewrite !Hr. intros [[[[_ ?]|[_ Hin]] _]|[_ Hin]]; [done|..]; revert Hin; by apply (bool_decide_eq_false_1 _).
  - rewrite !Hr. intros [[_ ?]|[_ Hin]]; [done|]. revert Hin. by apply (bool_decide_eq_false_1 _).
  - intros H10 H13. by rewrite (Hid 10), (Hid 13).
Qed.

(** ** Late validations *)

(** A second validation task of an order whose certificate is already issued
    makes the order ready again when it succeeds (its tables are those of a
    passed challenge): the status is assigned without looking at it. *)
Lemma late_validation_reopens ka ko a o d :
  authzs d !! ka = Some a → authz_status a = Valid → orders d !! ko = Some o → order_status o = Valid →
  all_valid ko d = true →
  order_status <$> orders (challenge_passed ka ko a o d) !! ko = Some Ready.
Proof.
  intros Ha Hst Ho _ Hall. unfold challenge_passed.
  assert (set_authz_status Valid a = a) as -> by (by destruct a; cbn in *; subst).
  rewrite set_authzs_id by done. rewrite Hall. cbn [orders set_orders].
  by rewrite lookup_insert_eq.
Qed.
