(* ===== verification/Settle.v ===== *)
(** * Every row in progress is attended to

    A row in status "processing" has a coroutine that will move it on: the task
    that works on it, or the request that is about to start that task.  Once the
    server has run dry nothing is left in progress, except where a task has died
    of an exception it does not handle. *)
From S2P Require Import Prelude PyStr Json Base64 External PyStd Models Config Prog Nonce Jws Schemas.
From S2P Require Import Ownership Ip Http01 LeClient Worker Orders Routes Main Effects Pool System Safety Scenario.
From S2P Require Import Theorems Outcomes.

(** ** Coroutines that settle a row *)

(** The task that works on a row. *)
Definition owner (i : item) (t : task) : Prop :=
  match i, t with
  | AnOrder k, process_finalize_task k' _ _ => k' = k
  | AnAuthz k, run_challenge_task k' _ => k' = k
  | _, _ => False
  end.

(** [p] does not end before the row has left "processing" or its task was
    started, except by an exception of [E].  The tables are known to satisfy [F];
    what happens once the row is no longer in progress does not matter. *)
Fixpoint settles (F : db → Prop) (E : exn → Prop) (i : item) {A} (p : prog A) : Prop :=
  match p with
  | Ret _ => False
  | Raise e => E e
  | Vis e k =>
      match e in eff X return (X → Prop) → Prop with
      | EQuery q => λ K, ∀ d, F d → busy i d → K (q d)
      | EExec t => λ K, ∀ d, F d → busy i d →
          match t d with inl ex => K (inl ex) | inr (x, d') => busy i d' → K (inr x) end
      | ESpawn t => λ K, owner i t ∨ K tt
      | _ => λ K, ∀ x, K x
      end (λ x, settles F E i (k x))
  end.

(** The exceptions of [p] are of [E]. *)
Fixpoint raises (E : exn → Prop) {A} (p : prog A) : Prop :=
  match p with
  | Ret _ => True
  | Raise e => E e
  | Vis e k =>
      match e in eff X return (X → Prop) → Prop with
      | EExec t => λ K, ∀ d, match t d with inl ex => K (inl ex) | inr (x, _) => K (inr x) end
      | _ => λ K, ∀ x, K x
      end (λ x, raises E (k x))
  end.

Lemma raises_bind {A B} E (p : prog A) (f : A → prog B) :
  raises E p → (∀ a, raises E (f a)) → raises E (p ≫= f).
Proof.
  intros Hp Hf. induction p as [a|e|X e k IH]; [apply Hf|done|].
  destruct e; cbn in *; try (by intros x; apply IH).
  intros d. specialize (Hp d). destruct (t d) as [ex|[x d']]; by apply IH.
Qed.
Lemma raises_catch {A} E (p : prog A) h : (∀ e, raises E (h e)) → raises E (catch p h).
Proof.
  intros Hh. induction p as [a|e|X e k IH]; [done|apply Hh|].
  destruct e; cbn in *; try (by intros x; apply IH). intros d. destruct (t d) as [ex|[x d']]; apply IH.
Qed.

Section settles.
Context (F : db → Prop) (E : exn → Prop) (i : item).
#[local] Abbreviation settles := (settles F E i).

(** What precedes does not matter. *)
Lemma settles_bind {A B} (p : prog A) (f : A → prog B) :
  raises E p → (∀ a, settles (f a)) → settles (p ≫= f).
Proof.
  intros Hp Hf. induction p as [a|e|X e k IH]; [apply Hf|done|].
  destruct e; cbn in *; try (by intros x; apply IH); try (by intros d _ _; apply IH); [|by right; apply IH].
  intros d _ _. specialize (Hp d). destruct (t d) as [ex|[x d']]; [|intros _]; by apply IH.
Qed.
Lemma settles_query {X B} (q : db → X) (f : X → prog B) :
  (∀ d, F d → busy i d → settles (f (q d))) → settles (query q ≫= f).
Proof. done. Qed.
Lemma settles_exec {X} (t : tx X) :
  (∀ d, F d → busy i d → match t d with inl ex => E ex | inr (_, d') => ¬ busy i d' end) → settles (exec t).
Proof. intros Ht d Hd Hb. specialize (Ht d Hd Hb). by destruct (t d) as [ex|[x d']]. Qed.
Lemma settles_lift {A B} (r : res A) (f : A → prog B) :
  (∀ e, r = inl e → E e) → (∀ a, settles (f a)) → settles (lift r ≫= f).
Proof. intros He Hf. destruct r as [e|a]; [by apply He|apply Hf]. Qed.
End settles.

(** A coroutine in a context: continued, with a handler, with more exceptions. *)
Lemma settles_map {A B} F (E E' : exn → Prop) i (g : prog A → prog B) (p : prog A) :
  (∀ X (e : eff X) k, g (Vis e k) = Vis e (λ x, g (k x))) → (∀ e, E e → settles F E' i (g (Raise e))) →
  settles F E i p → settles F E' i (g p).
Proof.
  intros Hg HE. induction p as [a|e|X e k IH]; [done|apply HE|]. rewrite Hg.
  destruct e; cbn; try (by intros Hp x; apply IH).
  - intros Hp d Hd Hb. by apply IH, Hp.
  - intros Hp d Hd Hb. specialize (Hp d Hd Hb). destruct (t d) as [ex|[x d']]; [|intros Hb']; by apply IH; auto.
  - intros [Ho|Hp]; [by left|right]. by apply IH.
Qed.
Lemma settles_then {A B} F E i (p : prog A) (f : A → prog B) :
  settles F (λ _, False) i p → settles F E i (p ≫= f).
Proof. by apply (settles_map F _ E i (λ p, p ≫= f)). Qed.
Lemma settles_catch {A} F E i (p : prog A) h :
  settles F (λ _, False) i p → settles F E i (catch p h).
Proof. by apply (settles_map F _ E i (λ p, catch p h)). Qed.
Lemma settles_weaken {A} F E i (p : prog A) : settles F (λ _, False) i p → settles F E i p.
Proof. by apply (settles_map F _ E i id). Qed.

(** ** The tasks settle their rows *)

(** An UPDATE that gives the row another status. *)
Lemma flush_order_settles k changes (E : exn → Prop) d :
  is_Some (orders d !! k) → (∀ r, order_status (foldl (λ r f, f r) r (omap id changes)) ≠ Processing) →
  match flush_changes flush_order k changes d with inl ex => E ex | inr (_, d') => ¬ busy (AnOrder k) d' end.
Proof.
  intros [o Ho] Hst. rewrite (flush_order_eq _ _ o) by done. cbn. rewrite lookup_insert_eq. cbn.
  intros [= Hs]. by apply (Hst o).
Qed.
Lemma flush_authz_settles k changes (E : exn → Prop) d :
  is_Some (authzs d !! k) → (∀ r, authz_status (foldl (λ r f, f r) r (omap id changes)) ≠ Processing) →
  match flush_changes flush_authz k changes d with inl ex => E ex | inr (_, d') => ¬ busy (AnAuthz k) d' end.
Proof.
  intros [o Ho] Hst. rewrite (flush_authz_eq _ _ o) by done. cbn. rewrite lookup_insert_eq. cbn.
  intros [= Hs]. by apply (Hst o).
Qed.

(** The rows a task was started for. *)
Definition known (t : task) (d : db) : Prop :=
  match t with
  | run_challenge_task ka ko => is_Some (authzs d !! ka) ∧ is_Some (orders d !! ko)
  | process_finalize_task ko _ _ => is_Some (orders d !! ko)
  end.
Lemma known_extends t d d' : extends d d' → known t d → known t d'.
Proof.
  intros [HA HO _ _].
  assert (∀ k, is_Some (orders d !! k) → is_Some (orders d' !! k)) as Ho.
  { intros k [o (o' & Ho' & _)%HO]. by exists o'. }
  destruct t as [ka ko|ko domain csr]; cbn; [|apply Ho].
  intros [[a (a' & Ha' & _)%HA] Hk]. split; [by exists a'|by apply Ho].
Qed.

Section tasks.
Context `{Ext} (cfg : Settings).

(** What a task may die of: a statement that cannot store the new certificate,
    a key authorization that cannot be computed. *)
Definition task_error (e : exn) : Prop :=
  e = PyErr UnicodeError [] ∨ e = PyErr IntegrityError [] ∨ ∃ token key, key_authorization token key = inl e.

Lemma store_raises ko pem exp : raises task_error (store_cert ko pem exp).
Proof.
  intros kc now d. unfold insert_cert, insert_row. destruct (negb _); [by left|].
  destruct (certs d !! kc); [by right; left|done].
Qed.

Lemma fail_settles ka ko a o e : authz_status a = Processing →
  settles (known (run_challenge_task ka ko)) task_error (AnAuthz ka) (fail_challenge ka ko a o e).
Proof.
  intros Hst. apply settles_exec. intros d [Ha [o' Ho']] _. unfold commit_authz_order, mbind, tx_bind.
  rewrite (flush_order_eq _ _ o') by done. cbv iota beta. apply flush_authz_settles; [done|].
  intros r. unfold assign. rewrite (decide_False (P := authz_status a = Invalid)) by congruence.
  by destruct (decide (authz_error a = _)).
Qed.

Lemma complete_settles ka ko a o : authz_status a = Processing →
  settles (known (run_challenge_task ka ko)) task_error (AnAuthz ka) (complete_challenge ka ko a o).
Proof.
  intros Hst. unfold complete_challenge. rewrite decide_False by congruence. apply settles_exec.
  intros d [[a' Ha'] [o' Ho']] _. unfold mbind, tx_bind, tx_query, flush_authz, flush_row. rewrite Ha'. cbv iota beta.
  set (d6 := set_authzs _ d). assert (orders d6 !! ko = Some o') as Ho6 by done.
  destruct (all_valid ko d6).
  - rewrite (flush_order_eq _ _ o') by done. cbn. rewrite lookup_insert_eq. by intros [=].
  - cbn. rewrite lookup_insert_eq. by intros [=].
Qed.

Lemma run_challenge_settles ka ko :
  settles (known (run_challenge_task ka ko)) task_error (AnAuthz ka) (run_challenge cfg ka ko).
Proof.
  unfold run_challenge. apply settles_query. intros d1 [[a Ha] _] Hb. cbn in Hb. rewrite Ha in Hb |- *.
  injection Hb as Hst. apply settles_query. intros d2 [_ [o Ho]] _. rewrite Ho.
  destruct (authz_challenge_token a) as [token|]; [|by apply fail_settles].
  apply settles_query. intros d3 _ _. destruct (accounts d3 !! _) as [acc|]; [|by apply fail_settles].
  apply settles_lift; [intros e He; right; right; eauto|]. intros expected.
  apply settles_bind; [by apply raises_catch|]. intros error.
  apply settles_query. intros d4 [[a4 Ha4] _] Hb. cbn in Hb. rewrite Ha4 in Hb |- *. injection Hb as Hst4.
  apply settles_query. intros d5 [_ [o5 Ho5]] _. rewrite Ho5.
  destruct error as [e|]; [by apply fail_settles|by apply complete_settles].
Qed.

Lemma process_finalize_settles ko domain csr :
  settles (known (process_finalize_task ko domain csr)) task_error (AnOrder ko) (process_finalize ko domain csr).
Proof.
  rewrite process_finalize_eq. apply settles_query. intros d1 [o1 Ho1] _. rewrite Ho1.
  apply settles_bind; [by apply raises_catch|]. intros [e|pem]; cbn [after_issuance].
  - apply settles_query. intros d2 [o Ho] Hb. cbn in Hb. rewrite Ho in Hb |- *. injection Hb as Hst.
    apply settles_exec. intros d Hk _. apply flush_order_settles; [exact Hk|]. intros r. unfold assign.
    rewrite (decide_False (P := order_status o = Invalid)) by congruence. by destruct (decide (order_error o = _)).
  - apply settles_bind; [unfold cert_expiry_from_pem; by destruct (parse_pem pem)|]. intros exp.
    apply settles_query. intros d2 [o Ho] Hb. cbn in Hb. rewrite Ho in Hb |- *. injection Hb as Hst.
    apply settles_bind; [apply store_raises|]. intros kc.
    apply settles_exec. intros d Hk _. apply flush_order_settles; [exact Hk|]. intros r. unfold assign.
    rewrite (decide_False (P := order_status o = Valid)) by congruence. by destruct (decide (order_cert_id o = _)).
Qed.

Lemma body_settles i t : owner i t → settles (known t) task_error i (task_body cfg t).
Proof.
  destruct i as [k|k], t as [ka ko|ko domain csr]; intros Ho; try done; cbn in Ho; subst.
  - apply process_finalize_settles.
  - apply run_challenge_settles.
Qed.
End tasks.

(** ** Work on a row is started by those who attend to it *)

(** Between two tables, [i] has come in progress; the first processing of an
    order is attended to by its authorization. *)
Definition begins (i : item) (d d' : db) : Prop :=
  busy i d' ∧ ¬ busy i d ∧
  match i with AnOrder k => order_status <$> orders d !! k ≠ Some Pending | AnAuthz _ => True end.

(** Whatever row [p] brings in progress, it settles. *)
Fixpoint careful {A} (p : prog A) : Prop :=
  match p with
  | Vis e k =>
      match e in eff X return (item → X → Prop) → Prop with
      | EExec t => λ K, ∀ d x d' i, t d = inr (x, d') → begins i d d' → K i (inr x)
      | _ => λ K, True
      end (λ i x, settles (λ _, True) (λ _, False) i (k x)) ∧ ∀ x, careful (k x)
  | _ => True
  end.

Definition calm_eff {X} (e : eff X) : Prop := match e with EExec t => calm t | _ => True end.
#[export] Instance calm_allows : Allows (@calm_eff).
Proof. intros X [] He; by try apply He. Qed.
#[export] Instance calm_allows_nonce : AllowsNonce (@calm_eff).
Proof. intros k n. apply calm_nonce. Qed.

Lemma careful_eff {X A} (e : eff X) (k : X → prog A) :
  calm_eff e → (∀ x, careful (k x)) → careful (Vis e k).
Proof.
  intros He Hk. split; [|done]. destruct e; try done. intros d x d' i Et (Hb & Hn & _).
  destruct Hn. by eapply He.
Qed.
Lemma careful_every {A} (p : prog A) : every (@calm_eff) p → careful p.
Proof. induction p as [a|e|X e k IH]; [done..|]. intros [He Hk]. apply careful_eff; auto. Qed.
Lemma careful_bind {A B} (p : prog A) (f : A → prog B) :
  every (@calm_eff) p → (∀ a, careful (f a)) → careful (p ≫= f).
Proof.
  intros Hp Hf. induction p as [a|e|X e k IH]; [apply Hf|done|]. destruct Hp as [He Hk].
  apply careful_eff; [done|]. intros x. by apply IH.
Qed.
Lemma careful_then {A B} (p : prog A) (f : A → prog B) :
  careful p → (∀ a, every (@calm_eff) (f a)) → careful (p ≫= f).
Proof.
  intros Hp Hf. induction p as [a|e|X e k IH]; [apply careful_every, Hf|done|].
  destruct Hp as [He Hk]. split; [|intros x; apply IH, Hk]. destruct e; try done.
  intros d x d' i Et Hb. by eapply settles_then, He.
Qed.
Lemma careful_catch {A} (p : prog A) h :
  careful p → (∀ e, every (@calm_eff) (h e)) → careful (catch p h).
Proof.
  intros Hp Hh. induction p as [a|e|X e k IH]; [done|apply careful_every, Hh|].
  destruct Hp as [He Hk]. split; [|intros x; apply IH, Hk]. destruct e; try done.
  intros d x d' i Et Hb. by eapply settles_catch, He.
Qed.
(** A transaction followed by what it begins. *)
Lemma careful_exec {X B} (t : tx X) (f : X → prog B) :
  (∀ d x d' i, t d = inr (x, d') → begins i d d' → settles (λ _, True) (λ _, False) i (f x)) →
  (∀ x, careful (f x)) → careful (exec t ≫= f).
Proof. intros Ht Hf. split; [exact Ht|]. intros [e|x]; [done|apply Hf]. Qed.

(** *** The transactions that begin work *)

Lemma claim_begins k d n d' i : claim_order k d = inr (n, d') → begins i d d' → n = 1 ∧ i = AnOrder k.
Proof.
  intros [[-> ->]|(o & Ho & Hst & -> & ->)]%claim_order_inr (Hb & Hn & _); [done|]. split; [done|].
  destruct i as [k'|k']; cbn in *; [|done]. destruct (decide (k' = k)) as [->|Hk]; [done|].
  by rewrite lookup_insert_ne in Hb.
Qed.
Lemma start_begins ka ko d x d' i : start_challenge ka ko d = inr (x, d') → begins i d d' → i = AnAuthz ka.
Proof.
  intros ([] & d1 & (a & Ha & E1)%flush_row_inr & E)%tx_bind_inr.
  apply tx_bind_inr in E as (oo & d2 & [= <- <-] & E).
  assert (authzs d' = authzs d1 ∧ (orders d' = orders d1 ∨ ∃ o, orders d1 !! ko = Some o ∧ order_status o = Pending ∧
    orders d' = <[ko := set_order_status Processing o]> (orders d1))) as [Ez Eo].
  { destruct (orders d1 !! ko) as [o|] eqn:Ho; [|injection E as _ <-; auto]. case_decide; [|injection E as _ <-; auto].
    apply flush_row_inr in E as (r & Hr & ->). assert (r = o) as -> by congruence. eauto 10. }
  intros (Hb & Hn & Hp). subst d1. cbn in Ez, Eo. destruct i as [k|k]; cbn in *.
  - destruct Eo as [Eo|(o & Ho & Hst & Eo)]; rewrite Eo in Hb; [done|].
    destruct (decide (k = ko)) as [->|Hk]; [|by rewrite lookup_insert_ne in Hb]. rewrite Ho in Hp. cbn in Hp. congruence.
  - rewrite Ez in Hb. destruct (decide (k = ka)) as [->|Hk]; [done|]. by rewrite lookup_insert_ne in Hb.
Qed.

Section requests.
Context `{Ext} (cfg : Settings).
Ltac calm_prefix := apply careful_bind; [every_auto|intros ?].

Lemma finalize_careful id rq : careful (finalize_order cfg id rq).
Proof.
  unfold finalize_order. calm_prefix. destruct a as [payload acct]. do 2 calm_prefix. destruct (negb _); [done|].
  do 2 calm_prefix. destruct (negb _); [done|]. calm_prefix. apply careful_exec.
  - intros d n d' i Et [-> ->]%(claim_begins _ _ _ _ _ Et). by left.
  - intros n. apply careful_every. every_auto.
Qed.
Lemma acknowledge_careful ka rq : careful (acknowledge_challenge cfg ka rq).
Proof.
  unfold acknowledge_challenge. calm_prefix. destruct a as [payload acct]. calm_prefix. destruct (negb _); [done|].
  case_decide; [|apply careful_every; every_auto]. apply careful_exec.
  - intros d x d' i Et ->%(start_begins _ _ _ _ _ _ Et). by left.
  - intros x. apply careful_every. every_auto.
Qed.

Lemma entry_careful p : entry cfg p → careful p.
Proof.
  intros [r rq|]; [|apply careful_every, prune_every, _]. unfold serve. apply careful_catch; [|done].
  apply careful_then; [|done]. unfold dispatch. apply careful_then; [|intros ?; cbv zeta; every_auto].
  unfold call_next. apply careful_catch; [|intros []; done].
  assert (starts_task r ∨ ¬ starts_task r) as [Hr|Hr] by (destruct r; cbn; tauto).
  - destruct r; try done; [apply finalize_careful|apply acknowledge_careful].
  - apply careful_every, handle_every; [apply _|done].
Qed.

Lemma body_careful t : careful (task_body cfg t).
Proof. by apply careful_every, body_every; [apply _|..]. Qed.
End requests.

(** ** The invariant of the pool *)

Section pool.
Context `{Ext} (cfg : Settings).

(** Row [i] is attended to: a coroutine settles it, or (an order in its first
    processing) its authorization is. *)
Definition attended (w : world) (ts : list (prog unit)) (i : item) : Prop :=
  (∃ p F, p ∈ ts ∧ (∀ d d', extends d d' → F d → F d') ∧ F (w_db w) ∧ settles F task_error i p) ∨
  match i with AnOrder k => virgin w k | AnAuthz _ => False end.

Definition pool_ok (c : config) : Prop :=
  Forall careful (c_threads c) ∧ ∀ i, busy i (w_db (c_world c)) → attended (c_world c) (c_threads c) i.

(** A task that was started knows its rows. *)
Lemma spawned_known w t : invariant cfg (w_record (EvSpawn t) w) → known t (w_db w).
Proof.
  intros Hi. assert (event_ok cfg (w_record (EvSpawn t) w) (EvSpawn t)) as Hok by (apply (inv_events _ _ Hi); left).
  destruct t as [ka ko|ko domain csr]; cbn in *.
  - destruct Hok as (a & Ha & <-). split; [by exists a|].
    destruct (tok_authz _ _ _ (inv_tables _ _ Hi) ka a Ha) as (o & Ho & _). by exists o.
  - destruct Hok as (o & ? & ? & Ho & _). by exists o.
Qed.

(** An effect commits, or leaves the tables and the transactions of the history. *)
Lemma eff_step_db {X} (e : eff X) w x w' : eff_step e w x w' →
  w' = w_commit (w_db w') w ∨ (w_db w' = w_db w ∧ ∀ b a, EvTx b a ∈ w_log w' → EvTx b a ∈ w_log w).
Proof.
  assert (∀ ev, (∀ b a, ev ≠ EvTx b a) → w_db (w_record ev w) = w_db w ∧
    ∀ b a, EvTx b a ∈ w_log (w_record ev w) → EvTx b a ∈ w_log w) as Hrec.
  { intros ev Hne. split; [done|]. intros b a [E|?]%elem_of_cons; [by destruct (Hne b a)|done]. }
  destruct e; cbn; intros Hs; try (right; first [subst w'|destruct Hs as [_ ->]]; solve [done|by apply Hrec]).
  destruct (t (w_db w)) as [ex|[y d]]; destruct Hs as [_ ->]; [by right|by left].
Qed.
Lemma past_step {X} (e : eff X) w x w' d : eff_step e w x w' → past w' d → past w d ∨ d = w_db w'.
Proof.
  intros Hs [->|(d' & Hd')]; [by right|left].
  destruct (eff_step_db e w x w' Hs) as [E|[_ Hl]]; [|right; eauto].
  rewrite E in Hd'. cbn in Hd'. apply elem_of_cons in Hd' as [[= -> _]|]; [by left|right; by exists d'].
Qed.

Lemma virgin_step {X} (e : eff X) w x w' k :
  eff_step e w x w' → virgin w k → busy (AnOrder k) (w_db w') → virgin w' k.
Proof.
  intros Hs Hv Hb d o Hd Ho. apply (past_step _ _ _ _ _ Hs) in Hd as [Hd| ->]; [by eapply Hv|].
  cbn in Hb. rewrite Ho in Hb. injection Hb as ->. by right.
Qed.

(** A coroutine that settles a row goes on to settle it. *)
Lemma settles_step {X} F i (e : eff X) (k : X → prog unit) w x w' :
  settles F task_error i (Vis e k) → F (w_db w) → busy i (w_db w) → eff_step e w x w' → busy i (w_db w') →
  settles F task_error i (k x) ∨ match e with ESpawn t => owner i t | _ => False end.
Proof.
  intros Hp HF Hb Hs Hb'. destruct e; cbn in Hp, Hs; try (left; apply Hp).
  - destruct Hs as [-> _]. left. by apply Hp.
  - left. specialize (Hp _ HF Hb). destruct (t (w_db w)) as [ex|[y d]]; destruct Hs as [-> ->]; auto.
  - destruct x. by destruct Hp; [right|left].
Qed.
(** What a careful coroutine brings in progress, it settles. *)
Lemma careful_step {X} i (e : eff X) (k : X → prog unit) w x w' :
  careful (Vis e k) → eff_step e w x w' → begins i (w_db w) (w_db w') →
  settles (λ _, True) (λ _, False) i (k x).
Proof.
  intros [He _] Hs Hb. destruct e; cbn in He, Hs;
    try (first [subst w'|destruct Hs as [_ ->]]; by destruct Hb as (? & ? & _)).
  destruct (t (w_db w)) as [ex|[y d]] eqn:Et; destruct Hs as [-> ->]; [by destruct Hb as (? & ? & _)|].
  by eapply He.
Qed.

Lemma restart_settled w w' i : restart w w' → ¬ busy i (w_db w').
Proof.
  intros (w1 & x & w2 & <- & Hs & He). cbn in Hs, He. destruct Hs as [-> ->]. destruct He as [<- _].
  destruct i as [k|k]; cbn; rewrite lookup_fmap; [destruct (orders _ !! k)|destruct (authzs _ !! k)]; cbn; [|done| |done];
    case_decide; cbn; intros [=]; done.
Qed.

Lemma attended_more w ts ts' i : (∀ p, p ∈ ts → p ∈ ts') → attended w ts i → attended w ts' i.
Proof. intros Hts [(p & F & Hp & HF)|]; [left|by right]. exists p, F. split; [by apply Hts|done]. Qed.

(** One effect of one coroutine. *)
Lemma attended_step {X} (e : eff X) (k : X → prog unit) x w w' ts1 ts2 i :
  shared cfg w w' → invariant cfg w → careful (Vis e k) → eff_step e w x w' →
  (busy i (w_db w) → attended w (ts1 ++ Vis e k :: ts2) i) → busy i (w_db w') →
  attended w' (ts1 ++ k x :: ts2 ++ spawned (task_body cfg) e) i.
Proof.
  intros HT Hi Hc Hs Hatt Hb'. pose proof (later_db _ _ (later_T cfg _ _ HT)) as Hext.
  assert (∀ k', i = AnOrder k' → virgin w k' → attended w' (ts1 ++ k x :: ts2 ++ spawned (task_body cfg) e) i) as Hvirgin.
  { intros k' -> Hv. right. by eapply virgin_step. }
  destruct (decide (busy i (w_db w))) as [Hb|Hb].
  - destruct (Hatt Hb) as [(p & F & Hp & HF & HFw & Hset)|Hv]; [|destruct i as [k'|k']; [by eapply Hvirgin|done]].
    assert (F (w_db w')) as HFw' by eauto. rewrite elem_of_app, elem_of_cons in Hp. destruct Hp as [Hp|[->|Hp]].
    + left. exists p, F. split; [by apply elem_of_app; left|done].
    + destruct (settles_step F i e k w x w' Hset HFw Hb Hs Hb') as [Hk|Ho].
      * left. exists (k x), F. split; [apply elem_of_app; right; left|done].
      * destruct e; try done. cbn in Hs. subst w'. left. exists (task_body cfg t), (known t). split_and!.
        -- apply elem_of_app; right; right. apply elem_of_app. right. left.
        -- intros d d'. apply known_extends.
        -- apply (spawned_known w). by apply (proj2 HT).
        -- by apply body_settles.
    + left. exists p, F. split; [|done]. apply elem_of_app; right; right. apply elem_of_app. by left.
  - assert (begins i (w_db w) (w_db w') ∨ ∃ k' o, i = AnOrder k' ∧ orders (w_db w) !! k' = Some o ∧ order_status o = Pending)
      as [Hbeg|(k' & o & -> & Ho & Hst)].
    { destruct i as [k'|k']; [|by left]. destruct (orders (w_db w) !! k') as [o|] eqn:Ho; [|left; split_and!; [done..|by rewrite Ho]].
      destruct (decide (order_status o = Pending)) as [Hst|Hst]; [right; eauto|left]. split_and!; [done..|]. rewrite Ho. cbn. congruence. }
    + left. exists (k x), (λ _, True). split_and!; [apply elem_of_app; right; left|done|done|].
      by eapply settles_weaken, careful_step.
    + eapply Hvirgin; [done|]. by eapply pending_virgin.
Qed.

Lemma pool_ok_step c c' : guarded cfg c → server_step cfg c c' → pool_ok c → pool_ok c'.
Proof.
  intros Hg Hstep [Hcar Hatt]. pose proof (proj1 (server_shared cfg c c' Hg (rtc_once _ _ Hstep))) as HT.
  destruct Hg as [Hi _]. destruct Hstep as [w w' ts1 ts2 X e k x Hs|w ts p Hp|w w' ts Hr]; cbn in *.
  - pose proof Hcar as Hcar'. apply Forall_app in Hcar' as [H1 [Hk H2]%Forall_cons]. split; cbn.
    + apply Forall_app. split; [done|]. constructor; [apply Hk|]. apply Forall_app. split; [done|].
      destruct e; cbn; repeat constructor. apply body_careful.
    + intros i Hb. apply (attended_step e k x w); auto.
  - split; cbn.
    + apply Forall_app. split; [done|]. repeat constructor. by eapply entry_careful.
    + intros i Hb. eapply attended_more; [|by apply Hatt]. intros q Hq. apply elem_of_app. by left.
  - split; [constructor|]. cbn. intros i Hb. by destruct (restart_settled _ _ _ Hr Hb).
Qed.

Lemma reachable_pool_ok c : reachable cfg c → pool_ok c.
Proof.
  intros Hc. assert (guarded cfg initial ∧ pool_ok initial) as Hinit.
  { split; [apply reachable_guarded; constructor|]. split; [constructor|]. intros [k|k]; cbn; by rewrite lookup_empty. }
  unfold reachable in Hc. revert Hinit. generalize initial Hc. clear Hc. intros c0 Hsteps [Hg Hp].
  induction Hsteps as [c|c c1 c2 Hstep _ IH]; [done|].
  apply IH; [|by eapply pool_ok_step]. by apply (server_shared cfg c c1 Hg), rtc_once.
Qed.

(** When every coroutine has ended, an attended row had its task die. *)
Lemma quiescent_attended c i : quiescent c → attended (c_world c) (c_threads c) i → busy i (w_db (c_world c)) →
  (∃ e, Raise e ∈ c_threads c ∧ task_error e) ∨ match i with AnOrder k => virgin (c_world c) k | AnAuthz _ => False end.
Proof.
  intros Hq [(p & F & Hp & _ & _ & Hset)|Hv] Hb; [left|by right].
  pose proof (proj1 (Forall_forall _ _) Hq p Hp) as Hf. destruct p as [a|e|X e k]; [done|by exists e|done].
Qed.
End pool.

(** ** Properties *)

(** C9: nothing stays in progress: from every reachable state, when nothing new
    arrives the coroutines can run to their ends; and once they have, whatever
    the schedule and the answers of the network, no order and no authorization
    is in status "processing", unless a task has died of an exception it does
    not handle: the certificate's row could not be inserted, or the key
    authorization could not be computed. *)
Theorem rows_settle `{Ext} cfg c :
  reachable cfg c →
  (∃ c', rtc (work (task_body cfg)) c c' ∧ quiescent c') ∧
  ∀ c' i, rtc (work (task_body cfg)) c c' → quiescent c' → busy i (w_db (c_world c')) →
    ∃ e, Raise e ∈ c_threads c' ∧ task_error e.
Proof.
  intros Hc. split; [by apply drained|]. intros c' i Hw Hq Hb.
  pose proof (work_reachable cfg c c' Hc Hw) as Hc'. destruct (reachable_pool_ok cfg c' Hc') as [_ Hatt].
  destruct (quiescent_attended c' i Hq (Hatt i Hb) Hb) as [|Hv]; [done|]. destruct i as [k|k]; [|done].
  pose proof (inv_tables _ _ (reachable_invariant cfg c' Hc')) as Hok.
  apply fmap_Some in Hb as (o & Ho & Hst). destruct (tok_order _ _ _ Hok k o Ho) as (ka & a & Ha & Hk).
  assert (busy (AnAuthz ka) (w_db (c_world c'))) as Hba.
  { cbn. rewrite Ha. cbn. f_equal. eapply (tok_first _ _ _ Hok); [done|by rewrite Hk|by rewrite Hk|done]. }
  by destruct (quiescent_attended c' (AnAuthz ka) Hq (Hatt _ Hba) Hba).
Qed.

#[local] Opaque processing_world.
(** An order in progress, and the end of its finalization. *)
Lemma rows_settle_witness :
  busy (AnOrder order_id) (w_db processing_world) ∧
  ∃ ts c', rtc (work (@task_body Toy.ext Toy.cfg)) (mk_config processing_world ts) c' ∧ quiescent c' ∧
    (busy (AnOrder order_id) (w_db (c_world c')) → ∃ e, Raise e ∈ c_threads c' ∧ @task_error Toy.ext e).
Proof.
  split; [vm_compute; reflexivity|]. destruct processing_reachable as (ts & _ & Hts).
  destruct (@rows_settle Toy.ext Toy.cfg (mk_config processing_world ts) Hts) as [[c' [Hw Hq]] Hall].
  exists ts, c'. split; [exact Hw|]. split; [exact Hq|]. exact (Hall c' (AnOrder order_id) Hw Hq).
Defined.
