(* ===== verification/Races.v ===== *)
(** * Interleavings that go wrong

    A scheduler that interleaves the coroutines of the server effect by effect,
    and executions that exhibit what the program does not prevent: a validation
    task that ends late reopens an order that is already valid, and concurrent
    registrations of one key create two accounts. *)
From S2P Require Import Prelude PyStr Json Base64 External PyStd Models Config Prog Nonce Jws Schemas.
From S2P Require Import Ownership Ip Http01 LeClient Worker Orders Routes Main Effects Pool Scenario.

(** ** A scheduler *)

(** A coroutine performs its next [n] effects, unless it ends or must wait. *)
Fixpoint advance (n : nat) (p : prog unit) (w : world) (s : answers) : prog unit * world * answers * list task :=
  match n, p with
  | S n, Vis e k =>
      if decide (waits e w) then (p, w, s, [])
      else
        let '(x, w1, s1) := run_eff e w s in
        let '(p', w2, s2, ts) := advance n (k x) w1 s1 in
        (p', w2, s2, spawns e ++ ts)
  | _, _ => (p, w, s, [])
  end.

(** A request arrives; coroutine [i] takes a turn of [n] effects. *)
Inductive act := Arrive (r : route) (rq : request) | Turn (i n : nat).

Section scheduler.
Context `{Ext} (cfg : Settings).

Definition act_step (a : act) (c : config) (s : answers) : config * answers :=
  match a with
  | Arrive r rq => (mk_config (c_world c) (c_threads c ++ [serve cfg r rq]), s)
  | Turn i n =>
      match c_threads c !! i with
      | Some p =>
          let '(p', w', s', tasks) := advance n p (c_world c) s in
          (mk_config w' (<[i := p']> (c_threads c) ++ (task_body cfg <$> tasks)), s')
      | None => (c, s)
      end
  end.
Fixpoint schedule (acts : list act) (c : config) (s : answers) : config * answers :=
  match acts with
  | [] => (c, s)
  | a :: acts => let '(c1, s1) := act_step a c s in schedule acts c1 s1
  end.

Lemma advance_steps n p w s p' w' s' tasks ts1 ts2 :
  answers_ok s → advance n p w s = (p', w', s', tasks) →
  rtc (work (task_body cfg)) (mk_config w (ts1 ++ p :: ts2))
    (mk_config w' (ts1 ++ p' :: ts2 ++ (task_body cfg <$> tasks))) ∧ answers_ok s'.
Proof.
  revert p w s tasks ts2. induction n as [|n IH]; intros p w s tasks ts2 Hs; cbn [advance].
  { intros [= <- <- <- <-]. by rewrite app_nil_r. }
  destruct p as [a|e|X e k]; [intros [= <- <- <- <-]; by rewrite app_nil_r..|].
  destruct (decide (waits e w)) as [Hw|Hw]; [intros [= <- <- <- <-]; by rewrite app_nil_r|].
  destruct (run_eff e w s) as [[x w1] s1] eqn:E.
  destruct (advance n (k x) w1 s1) as [[[p1 w2] s2] ts] eqn:E2. intros [= <- <- <- <-].
  destruct (run_eff_step e w s x w1 s1) as [Hstep Hs1]; [by destruct e|done|done|].
  destruct (IH (k x) w1 s1 ts (ts2 ++ spawned (task_body cfg) e) Hs1 E2) as [Hsteps Hs2]. split; [|done].
  eapply rtc_l; [by apply step_eff|].
  replace (ts2 ++ (task_body cfg <$> spawns e ++ ts))
    with ((ts2 ++ spawned (task_body cfg) e) ++ (task_body cfg <$> ts)); [done|].
  rewrite fmap_app, <- (assoc_L (++)). by destruct e.
Qed.

(** A turn is work on what has arrived. *)
Lemma turn_steps i n c s : answers_ok s →
  rtc (work (task_body cfg)) c (act_step (Turn i n) c s).1 ∧ answers_ok (act_step (Turn i n) c s).2.
Proof.
  intros Hs. destruct c as [w ts]. cbn.
  destruct (ts !! i) as [p|] eqn:Ei; [|done]. destruct (advance n p w s) as [[[p' w'] s'] tasks] eqn:E. cbn.
  rewrite insert_take_drop by (by eapply lookup_lt_Some).
  destruct (advance_steps n p w s p' w' s' tasks (take i ts) (drop (S i) ts) Hs E) as [Hst Hs']. split; [|done].
  rewrite (take_drop_middle ts i p Ei) in Hst. by rewrite <- (assoc_L (++)).
Qed.
Lemma act_steps a c s : answers_ok s →
  rtc (server_step cfg) c (act_step a c s).1 ∧ answers_ok (act_step a c s).2.
Proof.
  intros Hs. destruct a as [r rq|i n].
  - split; [|done]. destruct c. apply rtc_once, step_start. constructor.
  - destruct (turn_steps i n c s Hs) as [Hw ?]. split; [|done]. eapply rtc_subrel; [|exact Hw].
    intros x y. apply work_server.
Qed.

Lemma schedule_steps acts c s : answers_ok s →
  rtc (server_step cfg) c (schedule acts c s).1 ∧ answers_ok (schedule acts c s).2.
Proof.
  revert c s. induction acts as [|a acts IH]; intros c s Hs; [done|]. cbn [schedule].
  destruct (act_steps a c s Hs) as [H1 Hs1]. destruct (act_step a c s) as [c1 s1]. cbn in *.
  destruct (IH c1 s1 Hs1) as [H2 Hs2]. split; [etrans; [exact H1|exact H2]|done].
Qed.

Lemma schedule_app acts1 acts2 c s :
  schedule (acts1 ++ acts2) c s = schedule acts2 (schedule acts1 c s).1 (schedule acts1 c s).2.
Proof.
  revert c s. induction acts1 as [|a acts1 IH]; intros c s; [done|]. cbn. destruct (act_step a c s). apply IH.
Qed.

(** Schedules that go on. *)
Lemma last_turn_works acts i n c s : answers_ok s →
  rtc (work (task_body cfg)) (schedule acts c s).1 (schedule (acts ++ [Turn i n]) c s).1.
Proof.
  intros Hs. rewrite schedule_app. destruct (schedule_steps acts c s Hs) as [_ Hs1].
  destruct (schedule acts c s) as [c1 s1]. cbn [schedule fst snd] in *.
  destruct (turn_steps i n c1 s1 Hs1) as [Hw _]. by destruct (act_step (Turn i n) c1 s1).
Qed.
Lemma schedule_continues acts acts' c s : answers_ok s →
  rtc (server_step cfg) (schedule acts c s).1 (schedule (acts ++ acts') c s).1.
Proof. intros Hs. rewrite schedule_app. by apply schedule_steps, schedule_steps. Qed.
End scheduler.

#[local] Existing Instance Toy.ext.

(** The answers of a long run: enough identifiers and tokens, a host that serves
    the key authorization, a CA that signs. *)
Definition long_answers : answers := {|
  an_clock := []; an_uuids := [account_id; order_id; authz_id; ruuid 100; ruuid 101; ruuid 102];
  an_tokens := rtok <$> [1; 2; 3; 4; 5; 6; 7; 8; 9];
  an_dns := replicate 4 (inr [(AF_INET, u "10.0.0.7")]); an_http := replicate 4 (inr host_answer);
  an_sign := replicate 2 (inr (u "-----BEGIN CERTIFICATE-----")); an_revoke := [] |}.

Lemma long_answers_ok : answers_ok long_answers.
Proof.
  split.
  - cbn [an_uuids long_answers]. repeat apply Forall_cons_2; try apply Forall_nil_2; done.
  - cbn [an_tokens long_answers]. apply Forall_fmap.
    repeat apply Forall_cons_2; try apply Forall_nil_2; apply rtok_ok; unfold is_octet; lia.
Qed.

(** A whole coroutine in one turn. *)
Definition Whole (i : nat) : act := Turn i 1000.

Definition new_order_request (nonce : str) : act := Arrive R_new_order (post nonce (u "/acme/new-order")
  (JObj [(u "identifiers", JArr [Identifier_dump (mk_Identifier (u "dns") (u "host.test"))])])).
Definition challenge_request (nonce : str) : act :=
  Arrive (R_challenge authz_id) (post nonce (u "/acme/challenge/" ++ authz_id) (JObj [])).
Definition finalize_request (nonce : str) : act := Arrive (R_finalize_order order_id)
  (post nonce (u "/acme/order/" ++ order_id ++ u "/finalize") (JObj [(u "csr", JStr (u "AAAA"))])).
Definition new_account_request (nonce : str) : act := Arrive R_new_account
  (Toy.sign (Toy.header_jwk nonce (url_of (u "/acme/new-account"))) (JObj []) (url_of (u "/acme/new-account"))).
Definition nonce_request : act := Arrive R_new_nonce_head (mk_request None [] []).

(** ** A late validation reopens a valid order *)

(** The challenge is posted twice before its validation ends; the first
    validation and the finalization end, ... *)
Definition issued_run : list act := [
  nonce_request; Whole 0; new_account_request (rtok 1); Whole 1; new_order_request (rtok 2); Whole 2;
  challenge_request (rtok 4); Whole 3; challenge_request (rtok 5); Whole 5;
  Whole 4; finalize_request (rtok 6); Whole 7; Whole 8].
(** ... then the second validation. *)
Definition reopened_run : list act := issued_run ++ [Whole 6].

Definition at_end (acts : list act) : config := (schedule Toy.cfg acts initial long_answers).1.
Definition status_at (acts : list act) : option status :=
  order_status <$> orders (w_db (c_world (at_end acts))) !! order_id.

Lemma at_end_reachable acts : reachable Toy.cfg (at_end acts).
Proof. apply schedule_steps, long_answers_ok. Qed.
(** ... and another finalization. *)
Definition again_run : list act := reopened_run ++ [finalize_request (rtok 7); Whole 9; Whole 10].

(** ** Two registrations of one key *)

(** The first stops before its INSERT until the second has ended. *)
Definition twice_run : list act := [
  nonce_request; Whole 0; nonce_request; Whole 1; new_account_request (rtok 1); new_account_request (rtok 2);
  Turn 2 3; Whole 3; Whole 2].

(** ** Properties *)

(** C21: the lifecycle of RFC 8555 is not kept: there is a reachable state in which
    an order is valid, with its certificate, and whose coroutines alone bring the
    order back to ready; it can be finalized again, so that the CA has signed
    twice for the one order of the database. *)
Theorem valid_order_reopened :
  ∃ c c', reachable Toy.cfg c ∧ rtc (work (task_body Toy.cfg)) c c' ∧
    order_status <$> orders (w_db (c_world c)) !! order_id = Some Valid ∧
    is_Some (orders (w_db (c_world c)) !! order_id ≫= order_cert_id) ∧
    order_status <$> orders (w_db (c_world c')) !! order_id = Some Ready ∧
    ∃ c'', rtc (server_step Toy.cfg) c' c'' ∧ size (orders (w_db (c_world c''))) = 1%nat ∧
      length (filter (λ ev, match ev with EvSign _ _ => true | _ => false end = true) (w_log (c_world c''))) = 2%nat.
Proof.
  exists (at_end issued_run), (at_end reopened_run). split_and!; [apply at_end_reachable| | | | |].
  - apply last_turn_works, long_answers_ok.
  - vm_compute. reflexivity.
  - apply (bool_decide_unpack _). vm_compute. exact I.
  - vm_compute. reflexivity.
  - exists (at_end again_run). split_and!; [|vm_compute; reflexivity..].
    apply schedule_continues, long_answers_ok.
Qed.

(** In some reachable state two accounts have the same public key. *)
Theorem accounts_duplicated :
  ∃ c k1 k2 a1 a2, reachable Toy.cfg c ∧ k1 ≠ k2 ∧
    accounts (w_db (c_world c)) !! k1 = Some a1 ∧ accounts (w_db (c_world c)) !! k2 = Some a2 ∧
    account_public_key a1 = account_public_key a2.
Proof.
  exists (at_end twice_run), account_id, order_id.
  assert (∃ a1 a2, accounts (w_db (c_world (at_end twice_run))) !! account_id = Some a1 ∧
    accounts (w_db (c_world (at_end twice_run))) !! order_id = Some a2 ∧
    account_public_key a1 = account_public_key a2) as (a1 & a2 & H1 & H2 & H3).
  { do 2 eexists. split_and!; [vm_compute; reflexivity|vm_compute; reflexivity|reflexivity]. }
  exists a1, a2. split_and!; [apply at_end_reachable|vm_compute; discriminate|done..].
Qed.
