(* ===== verification/Ceiling.v ===== *)
(** * The nonce ceiling under concurrency

    [NONCE_MAX] bounds the stored nonces, but [generate_nonce] counts in one
    step and inserts in another.  Coroutines are followed by whether they have
    counted below the ceiling and not yet inserted ([armed]); over any
    interleaving the table exceeds the ceiling by less than the number of
    coroutines in progress at one time. *)
From S2P Require Import Prelude PyStr Json Base64 External PyStd Models Config Prog Nonce Jws Schemas.
From S2P Require Import Ownership Ip Http01 LeClient Worker Orders Routes Main Effects Scenario Pool Races.

(** ** Coroutines that store no nonce *)

Definition lean_eff {X} (e : eff X) : Prop := match e with EExec t => lean t | _ => True end.
#[export] Instance lean_allows : Allows (@lean_eff).
Proof. intros X [] He; by try apply He. Qed.

Abbreviation stored w := (size (nonces (w_db w))).

Lemma lean_step {X} (e : eff X) w x w' : lean_eff e → eff_step e w x w' → (stored w' <= stored w)%nat.
Proof.
  intros He Hs. destruct e; cbn in He, Hs; try (by destruct Hs as [_ ->]); try (by subst).
  destruct (t (w_db w)) as [ex|[a d]] eqn:E; destruct Hs as [_ ->]; [done|]. cbn. by eapply He.
Qed.

(** ** Armed coroutines *)

Section thrifty.
Context (cap : nat).

(** [p] stores a nonce only when it is armed, which it then is no more; it gets
    armed where it sees the table below the ceiling. *)
Fixpoint thrifty {A} (armed : bool) (p : prog A) : Prop :=
  match p with
  | Vis e k => ∀ w x w', eff_step e w x w' → ∃ armed' : bool, thrifty armed' (k x) ∧
      ((stored w' + Nat.b2n armed' <= stored w + Nat.b2n armed)%nat ∨
       ((stored w < cap)%nat ∧ (stored w' <= stored w)%nat))
  | _ => True
  end.

Lemma thrifty_lean {A} (p : prog A) : every (@lean_eff) p → thrifty false p.
Proof.
  induction p as [a|e|X e k IH]; [done..|]. intros [He Hk] w x w' Hs. exists false.
  split; [by apply IH|left]. pose proof (lean_step e w x w' He Hs). cbn. lia.
Qed.
Lemma thrifty_bind {A B} (p : prog A) (f : A → prog B) :
  every (@lean_eff) p → (∀ a, thrifty false (f a)) → thrifty false (p ≫= f).
Proof.
  intros Hp Hf. induction p as [a|e|X e k IH]; [apply Hf|done|]. destruct Hp as [He Hk]. intros w x w' Hs.
  exists false. split; [by apply IH|left]. pose proof (lean_step e w x w' He Hs). cbn. lia.
Qed.
Lemma thrifty_then {A B} (p : prog A) (f : A → prog B) b :
  thrifty b p → (∀ b' a, thrifty b' (f a)) → thrifty b (p ≫= f).
Proof.
  intros Hp Hf. revert b Hp. induction p as [a|e|X e k IH]; intros b; [intros _; apply Hf|done|].
  intros Hp w x w' Hs. destruct (Hp w x w' Hs) as (b' & Hk & Hn). exists b'. split; [by apply IH|done].
Qed.
Lemma thrifty_catch {A} (p : prog A) h b :
  thrifty b p → (∀ b' e, thrifty b' (h e)) → thrifty b (catch p h).
Proof.
  intros Hp Hf. revert b Hp. induction p as [a|e|X e k IH]; intros b; [done|intros _; apply Hf|].
  intros Hp w x w' Hs. destruct (Hp w x w' Hs) as (b' & Hk & Hn). exists b'. split; [by apply IH|done].
Qed.

(** ** The pool *)

Definition live (p : prog unit) : bool := match p with Vis _ _ => true | _ => false end.
(** The coroutines that have not ended. *)
Definition crowd (c : config) : nat := length (filter (λ p, live p = true) (c_threads c)).

Context (body : task → prog unit) (entry : prog unit → Prop) (restart : world → world → Prop) (K : nat).
(** Steps of the server while at most [K] coroutines are in progress. *)
Definition crowded_step : relation config := λ c c', step body entry restart c c' ∧ (crowd c' <= K)%nat.

(** The books: which coroutines are armed. *)
Definition books (c : config) : Prop := ∃ bs : list bool,
  Forall2 (λ p b, thrifty b p ∧ (b = true → live p = true)) (c_threads c) bs ∧
  (stored (c_world c) + sum_list (Nat.b2n <$> bs) + 1 <= cap + K)%nat.

Lemma armed_live ts bs : Forall2 (λ p b, thrifty b p ∧ (b = true → live p = true)) ts bs →
  (sum_list (Nat.b2n <$> bs) <= length (filter (λ p, live p = true) ts))%nat.
Proof.
  induction 1 as [|p b ts bs [_ Hl] _ IH]; [done|]. rewrite filter_cons. cbn.
  destruct b; [rewrite decide_True by auto|case_decide]; cbn; lia.
Qed.
Lemma thrifty_ended b (p : prog unit) : thrifty b p → thrifty (b && live p) p.
Proof. destruct p, b; done. Qed.
Lemma thrifty_pool ts : (∀ p, p ∈ ts → thrifty false p) →
  Forall2 (λ p b, thrifty b p ∧ (b = true → live p = true)) ts (replicate (length ts) false).
Proof.
  induction ts as [|p ts IH]; intros Hts; [constructor|]. constructor; [|apply IH; intros q Hq; apply Hts; by right].
  split; [apply Hts; left|done].
Qed.
Lemma sum_disarmed n : sum_list (Nat.b2n <$> replicate n false) = 0%nat.
Proof. by induction n. Qed.
#[local] Lemma sum_bits_app (l k : list bool) :
  sum_list (Nat.b2n <$> l ++ k) = (sum_list (Nat.b2n <$> l) + sum_list (Nat.b2n <$> k))%nat.
Proof. by rewrite fmap_app, sum_list_with_app. Qed.

#[local] Lemma sum_bits_cons b (l : list bool) :
  sum_list (Nat.b2n <$> b :: l) = (Nat.b2n b + sum_list (Nat.b2n <$> l))%nat.
Proof. done. Qed.

Context (entry_thrifty : ∀ p, entry p → thrifty false p) (body_thrifty : ∀ t, thrifty false (body t)).
Context (restart_lean : ∀ w w', restart w w' → (stored w' <= stored w)%nat).

Lemma books_step c c' : crowded_step c c' → books c → books c'.
Proof.
  intros [Hstep Hcrowd] (bs & HF & Hle).
  destruct Hstep as [w w' ts1 ts2 X e k x Hs|w ts p Hp|w w' ts Hr]; cbn [c_world c_threads] in *.
  - apply Forall2_app_inv_l in HF as (bs1 & bs2 & HF1 & HF2 & ->).
    apply Forall2_cons_inv_l in HF2 as (b & bs3 & [Hv _] & HF3 & ->).
    destruct (Hv w x w' Hs) as (b' & Hk & Hn).
    set (bs' := bs1 ++ (b' && live (k x)) :: bs3 ++ replicate (length (spawned body e)) false).
    assert (HF' : Forall2 (λ p b, thrifty b p ∧ (b = true → live p = true)) (ts1 ++ k x :: ts2 ++ spawned body e) bs').
    { apply Forall2_app; [done|]. constructor; [split; [by apply thrifty_ended|by intros [_ ?]%andb_prop]|].
      apply Forall2_app; [done|]. apply thrifty_pool. intros q Hq. destruct e; try by apply elem_of_nil in Hq.
      apply list_elem_of_singleton in Hq as ->. apply body_thrifty. }
    exists bs'. split; [exact HF'|]. cbn [c_world]. destruct Hn as [Hn|[Hlt Hn]].
    + unfold bs'. rewrite !sum_bits_app, !sum_bits_cons, ?sum_bits_app, sum_disarmed in *.
      assert (Nat.b2n (b' && live (k x)) <= Nat.b2n b')%nat by (destruct b', (live (k x)); cbn; lia). lia.
    + pose proof (armed_live _ _ HF'). unfold crowd in Hcrowd. cbn [c_threads] in Hcrowd. lia.
  - exists (bs ++ [false]). split; [|rewrite sum_bits_app; cbn; lia].
    apply Forall2_app; [done|]. repeat constructor; [by apply entry_thrifty|done].
  - exists []. split; [constructor|]. apply restart_lean in Hr. cbn. lia.
Qed.
Lemma books_steps c c' : rtc crowded_step c c' → books c → books c'.
Proof. induction 1; eauto using books_step. Qed.
End thrifty.

(** ** The coroutines of the server *)

Section server.
Context `{Ext} (cfg : Settings).
#[local] Abbreviation cap := (Z.to_nat (nonce_max cfg)).

Lemma start_lean ka ko : lean (start_challenge ka ko).
Proof.
  apply lean_bind; [apply lean_authz|]. intros _. apply lean_bind; [apply lean_query|]. intros [o|]; [|apply lean_ret].
  case_decide; [|apply lean_ret]. lean_row.
Qed.
Lemma claim_lean k : lean (claim_order k).
Proof.
  apply lean_same. intros d x d'. unfold claim_order. destruct (orders d !! k); [case_decide|]; by intros [= _ <-].
Qed.
#[local] Hint Extern 0 (@lean_eff _ _) => exact I : every.
Lemma lean_exec {X} (t : tx X) : lean t → every (@lean_eff) (exec t).
Proof. intros Ht. by apply every_perform_res. Qed.
#[local] Hint Resolve start_lean claim_lean lean_exec : every.

Lemma handle_lean r rq : every (@lean_eff) (handle cfg r rq).
Proof.
  destruct r; try (by apply handle_every; [apply _|intros []]); cbn [handle].
  - unfold finalize_order. every_auto.
  - unfold acknowledge_challenge. every_auto.
Qed.

(** Counting below the ceiling arms, inserting disarms. *)
Lemma armed_insert value now : thrifty cap true (exec (insert_nonce value (mk_Nonce false now)) ;; Ret (Some value)).
Proof.
  intros w x w' Hs. cbn in Hs. destruct (insert_nonce _ _ (w_db w)) as [ex|[a d]] eqn:E; destruct Hs as [-> ->];
    exists false; (split; [done|left]); [cbn; lia|].
  apply insert_row_inr in E as (_ & Hn & ->). cbn. rewrite map_size_insert_None by done. lia.
Qed.
Lemma generate_thrifty : 0 < nonce_max cfg → thrifty cap false (generate_nonce cfg).
Proof.
  intros Hcap. unfold generate_nonce. assert (0 <? nonce_max cfg = true) as -> by lia.
  intros w x w' [-> ->]. destruct (nonce_max cfg <=? Z.of_nat (stored w)) eqn:Ec.
  { exists false. cbn. rewrite Ec. split; [done|left; lia]. }
  exists true. split; [|right; lia]. cbn. rewrite Ec.
  intros w1 value w1' [_ ->]. exists true. split; [|left; lia].
  intros w2 now w2' ->. exists true. split; [|left; lia]. apply armed_insert.
Qed.

Lemma serve_thrifty r rq : 0 < nonce_max cfg → thrifty cap false (serve cfg r rq).
Proof.
  intros Hcap. unfold serve. apply thrifty_catch; [|done]. apply thrifty_then; [|done].
  unfold dispatch. apply thrifty_bind.
  - unfold call_next. apply every_catch; [apply handle_lean|]. intros []; done.
  - intros resp. cbv zeta. destruct (route_method r); try done; (apply thrifty_then; [by apply generate_thrifty|done]).
Qed.
Lemma entry_thrifty p : 0 < nonce_max cfg → entry cfg p → thrifty cap false p.
Proof. intros Hcap [r rq|]; [by apply serve_thrifty|]. apply thrifty_lean, prune_every, _. Qed.
Lemma body_thrifty t : thrifty cap false (task_body cfg t).
Proof. apply thrifty_lean, body_every; [apply _|done..]. Qed.
Lemma restart_lean w w' : restart w w' → (stored w' <= stored w)%nat.
Proof. intros (w1 & x & w2 & <- & Hs & He). destruct Hs as [-> ->]. by destruct He as [<- _]. Qed.

(** Reachable while at most [K] coroutines are in progress. *)
Definition reachable_within (K : nat) (c : config) : Prop :=
  rtc (crowded_step (task_body cfg) (entry cfg) restart K) initial c.
Lemma within_reachable K c : reachable_within K c → reachable cfg c.
Proof. apply rtc_subrel. by intros x y [? _]. Qed.
End server.

(** ** Schedules, one effect at a time *)

Section single.
Context `{Ext} (cfg : Settings) (K : nat).

Definition single (a : act) : bool := match a with Turn _ n => (n =? 1)%nat | Arrive _ _ => true end.
(** Every state of a schedule has at most [K] coroutines in progress. *)
Fixpoint within (acts : list act) (c : config) (s : answers) : bool :=
  match acts with
  | [] => true
  | a :: acts => let '(c1, s1) := act_step cfg a c s in single a && (crowd c1 <=? K)%nat && within acts c1 s1
  end.

Lemma single_step a c s : answers_ok s → single a = true → (crowd (act_step cfg a c s).1 <= K)%nat →
  rtc (crowded_step (task_body cfg) (entry cfg) restart K) c (act_step cfg a c s).1.
Proof.
  intros Hs Ha Hc. destruct c as [w ts]. destruct a as [r rq|i n].
  - apply rtc_once. split; [apply step_start; constructor|done].
  - apply Nat.eqb_eq in Ha as ->. cbn in Hc |- *. destruct (ts !! i) as [p|] eqn:Ei; [|done].
    destruct p as [a|e|X e k]; [by rewrite app_nil_r, list_insert_id..|]. cbn in Hc |- *.
    destruct (decide (waits e w)) as [Hw|Hw]; [by rewrite app_nil_r, list_insert_id|].
    destruct (run_eff e w s) as [[x w1] s1] eqn:E. cbn in Hc |- *.
    destruct (run_eff_step e w s x w1 s1) as [Hstep _]; [by destruct e|done|done|].
    apply rtc_once. split; [|done]. rewrite <- (take_drop_middle ts i (Vis e k)) at 1 by done.
    rewrite insert_take_drop, <- (assoc_L (++)) by (by eapply lookup_lt_Some).
    replace (task_body cfg <$> spawns e ++ []) with (spawned (task_body cfg) e); [by apply step_eff|].
    rewrite app_nil_r. by destruct e.
Qed.
Lemma within_steps acts c s : answers_ok s → within acts c s = true →
  rtc (crowded_step (task_body cfg) (entry cfg) restart K) c (schedule cfg acts c s).1.
Proof.
  revert c s. induction acts as [|a acts IH]; intros c s Hs; [done|]. cbn [within schedule].
  pose proof (act_steps cfg a c s Hs) as [_ Hs1]. pose proof (single_step a c s Hs) as Hstep.
  destruct (act_step cfg a c s) as [c1 s1]. cbn [fst snd] in *.
  intros [[Ha Hc%Nat.leb_le]%andb_prop Hw]%andb_prop. etrans; [by apply Hstep|by apply IH].
Qed.
End single.

(** ** Property *)

(** C28: with the ceiling on, and at most [K] coroutines in progress at any time
    (requests, tasks, the timer, with restarts in between), the table never holds
    more than [NONCE_MAX + K - 1] nonces: concurrent requests exceed the ceiling,
    by less than their number. *)
Theorem nonces_bounded `{Ext} cfg K c : 0 < nonce_max cfg → reachable_within cfg K c →
  Z.of_nat (size (nonces (w_db (c_world c)))) ≤ nonce_max cfg + Z.of_nat K - 1.
Proof.
  intros Hcap Hc. destruct (books_steps (Z.to_nat (nonce_max cfg)) _ _ _ K (λ p, entry_thrifty cfg p Hcap)
    (body_thrifty cfg) restart_lean initial c Hc) as (bs & _ & Hle); [|lia].
  exists []. split; [constructor|]. change (stored (c_world initial)) with 0%nat. cbn. lia.
Qed.

#[local] Existing Instance Toy.ext.

(** A ceiling of one nonce, and two requests that both count before they insert:
    two nonces. *)
Definition one_nonce : Settings :=
  let s := Toy.cfg in
  mk_Settings (dns_provider s) (relay_domain s) (acme_email s) (le_directory s) (dns_propagation_wait s)
    (database_url s) (le_account_key_path s) (ssl_dir s) (nonce_ttl s) 1
    (log_level s) (serve_tls s) (allowed_domains s) (le_verify_ssl s) (challenge_http_port s)
    (challenge_timeout s) (challenge_retries s) (challenge_retry_delay s) (dns_zone_overrides s)
    (order_rate_limit s) (order_rate_window s).
Definition both_count : list act :=
  [nonce_request; nonce_request; Turn 0 1; Turn 1 1; Turn 0 1; Turn 0 1; Turn 0 1; Turn 1 1; Turn 1 1; Turn 1 1].
Definition both_end : config := (schedule one_nonce both_count initial long_answers).1.

Lemma nonces_bounded_witness :
  size (nonces (w_db (c_world both_end))) = 2%nat ∧ nonce_max one_nonce = 1 ∧
  Z.of_nat (size (nonces (w_db (c_world both_end)))) ≤ nonce_max one_nonce + Z.of_nat 2 - 1.
Proof.
  split; [vm_compute; reflexivity|]. split; [reflexivity|].
  apply (nonces_bounded one_nonce 2 both_end); [reflexivity|].
  apply within_steps; [exact long_answers_ok|vm_compute; reflexivity].
Defined.
