(* ===== verification/Departures.v ===== *)
(** * Departures from the documentation

    Executions of the server that do what a docstring or the README excludes.
    Each is a reachable state, or a run of a function, computed. *)
From S2P Require Import Prelude PyStr Json Base64 External PyStd Models Config Prog Nonce Jws Schemas.
From S2P Require Import Ownership Ip Http01 LeClient Worker Orders Routes Main Effects Pool Scenario Races.

#[local] Existing Instance Toy.ext.

(** The end of a schedule from the initial state, with any answers. *)
Definition end_of (s : answers) (acts : list act) : config := (schedule Toy.cfg acts initial s).1.
Lemma end_of_reachable s acts : answers_ok s → reachable Toy.cfg (end_of s acts).
Proof. intros Hs. by apply schedule_steps. Qed.

(** The same answers, from another clock. *)
Definition clocked (clock : list Z) : answers :=
  mk_answers clock (an_uuids long_answers) (an_tokens long_answers) (an_dns long_answers) (an_http long_answers)
    (an_sign long_answers) (an_revoke long_answers).
Lemma clocked_ok clock : answers_ok (clocked clock).
Proof. destruct long_answers_ok. by split. Qed.

(** ** An order of nobody *)

(** [services/jws.py]: "For all other requests, kid identifies the account". *)
Definition anonymous_order_request (nonce : str) : act := Arrive R_new_order
  (Toy.sign (Toy.header_jwk nonce (url_of (u "/acme/new-order")))
     (JObj [(u "identifiers", JArr [Identifier_dump (mk_Identifier (u "dns") (u "host.test"))])])
     (url_of (u "/acme/new-order"))).
Definition anonymous_run : list act := [nonce_request; Whole 0; anonymous_order_request (rtok 1); Whole 1].
Definition other_key : json := JObj [(u "kty", JStr (u "oct")); (u "k", JStr (u "BBBB"))].
Definition read_order (nonce path : str) : request :=
  Toy.sign (JObj [(u "alg", JStr (u "ES256")); (u "nonce", JStr nonce); (u "url", JStr (url_of path)); (u "jwk", other_key)])
    (JObj []) (url_of path).

(** The status of the response to a request in a state. *)
Definition status_of (r : route) (rq : request) (c : config) (s : answers) : option Z :=
  match (run (dispatch Toy.cfg r rq) (c_world c) s).1.1 with
  | inr resp => Some (rs_status resp)
  | inl _ => None
  end.

(** A request signed with an embedded key creates an order of the account with the
    empty identifier, which does not exist; a request signed with another embedded
    key reads it. *)
Lemma anonymous_order : ∃ c o, reachable Toy.cfg c ∧ orders (w_db (c_world c)) !! account_id = Some o ∧
  order_account_id o = [] ∧ accounts (w_db (c_world c)) = ∅ ∧
  ∃ s, status_of (R_get_order account_id) (read_order (rtok 3) (u "/acme/order/" ++ account_id)) c s = Some 200.
Proof.
  exists (end_of long_answers anonymous_run). eexists.
  split_and!; [apply end_of_reachable, long_answers_ok|vm_compute; reflexivity..|].
  exists (schedule Toy.cfg anonymous_run initial long_answers).2. vm_compute. reflexivity.
Qed.

(** ** An account of no key *)

Definition null_key_request (nonce : str) : act :=
  let url := url_of (u "/acme/new-account") in
  Arrive R_new_account (Toy.sign
    (JObj [(u "alg", JStr (u "ES256")); (u "nonce", JStr nonce); (u "url", JStr url);
           (u "kid", JStr (account_url_prefix Toy.cfg ++ account_id)); (u "jwk", JNull)]) (JObj []) url).
Definition null_key_run : list act :=
  [nonce_request; Whole 0; new_account_request (rtok 1); Whole 1; null_key_request (rtok 2); Whole 2].
Lemma null_account : ∃ c k a, reachable Toy.cfg c ∧ accounts (w_db (c_world c)) !! k = Some a ∧
  account_public_key a = u "null".
Proof.
  exists (end_of long_answers null_key_run), order_id. eexists.
  split_and!; [apply end_of_reachable, long_answers_ok|vm_compute; reflexivity..].
Qed.

(** ** An expired order is issued *)

(** The clock jumps by two days before the finalization. *)
Definition late : Z := 2 * 86400 * 1000000.
Definition expired_run : list act := [
  nonce_request; Whole 0; new_account_request (rtok 1); Whole 1; new_order_request (rtok 2); Whole 2;
  challenge_request (rtok 4); Whole 3; Whole 4; nonce_request; Whole 5; finalize_request (rtok 6); Whole 6; Whole 7].

(** A certificate stored for an order after the order had expired. *)
Lemma expired_order_issued : ∃ c o k cert exp, reachable Toy.cfg c ∧
  orders (w_db (c_world c)) !! order_id = Some o ∧ order_status o = Valid ∧ order_expires_at o = Some exp ∧
  order_cert_id o = Some k ∧ certs (w_db (c_world c)) !! k = Some cert ∧ exp < cert_issued_at cert.
Proof.
  exists (end_of (clocked (replicate 10 0 ++ replicate 20 late)) expired_run). do 4 eexists.
  split_and!; [apply end_of_reachable, clocked_ok|vm_compute; reflexivity..].
Qed.

(** ** Malformed requests *)

(** A protected header that is JSON but no object. *)
Definition array_header : request := Toy.sign (JArr []) (JObj []) (url_of (u "/acme/new-order")).
Lemma array_header_raises w s :
  ∃ e w' s', run (verify_jws Toy.cfg array_header) w s = (inl e, w', s') ∧
    match e with HTTPException _ _ => False | _ => True end.
Proof. do 3 eexists. split; [vm_compute; reflexivity|exact I]. Qed.

(** A zone override of one dot is the empty zone. *)
Lemma dot_override (s : Settings) : dns_zone_overrides s = u "." → dns_zone_override_list s = [[]].
Proof. unfold dns_zone_override_list. intros ->. vm_compute. reflexivity. Qed.
