(* ===== verification/Os.v ===== *)
(** * Paths, files, the operating system

    [pathlib] paths, the file-system calls of the program with what they leave
    behind when they fail or the process dies inside them, random numbers, the
    wall clock, and the live TLS context ([ssl.SSLContext.load_cert_chain]). *)
From S2P Require Import Prelude PyStr Json PyStd Models Coro Crash.

(** ** [pathlib.PurePosixPath] *)

(** A root and the components after it. *)
Definition path : Type := str * list str.
Definition Path_of (s : str) : path :=
  ((if startswith s (u "//") && negb (startswith s (u "///")) then u "//"
    else if startswith s (u "/") then u "/" else []),
   filter (λ c, c ≠ [] ∧ c ≠ u ".") (split 47 s)).
(** [p / name] for a plain file name. *)
Definition path_child (p : path) (name : str) : path := (p.1, p.2 ++ [name]).
Definition path_parent (p : path) : path := (p.1, removelast p.2).
Definition path_name (p : path) : str := List.last p.2 [].
Definition with_name (p : path) (name : str) : path := path_child (path_parent p) name.
(** The directory and its ancestors. *)
Definition ancestors (p : path) : gset path :=
  list_to_set ((λ n, (p.1, take n p.2)) <$> seq 0 (S (length p.2))).

(** ** Effects *)

Inductive os : Type → Type :=
| OsExists (p : path) : os bool                      (** [p.exists()] *)
| OsRead (p : path) : os (res bytes)                 (** [p.read_bytes()] *)
| OsMkdir (p : path) : os (res unit)                 (** [p.mkdir(parents=True, exist_ok=True)] *)
| OsWrite (p : path) (data : bytes) : os (res unit)  (** [p.write_bytes(data)] *)
| OsChmod (p : path) (mode : Z) : os (res unit)
| OsReplace (src dst : path) : os (res unit)         (** [os.replace(src, dst)] *)
| OsRandom : os Z                                    (** the randomness of a new key *)
| OsNow : os Z                                       (** [datetime.now(UTC)] *)
| OsLoadChain (cert key : path) : os (res unit).     (** [ssl_context.load_cert_chain] *)

Record file := mk_file { f_data : bytes; f_mode : Z }.

(** The files, the directories, and the certificate and key the live TLS
    context presents. *)
Record os_state := mk_os {
  os_files : gmap path file; os_dirs : gset path; os_umask : Z; os_tls : option (bytes * bytes) }.
Definition set_files (f : gmap path file) (w : os_state) : os_state :=
  mk_os f (os_dirs w) (os_umask w) (os_tls w).
Definition add_dirs (d : gset path) (w : os_state) : os_state :=
  mk_os (os_files w) (d ∪ os_dirs w) (os_umask w) (os_tls w).
Definition set_tls (c : option (bytes * bytes)) (w : os_state) : os_state :=
  mk_os (os_files w) (os_dirs w) (os_umask w) c.
Definition read_file (p : path) (w : os_state) : option bytes := f_data <$> os_files w !! p.

(** Opening for writing truncates, and creates with the mode left by the umask. *)
Definition put_file (p : path) (data : bytes) (w : os_state) : os_state :=
  let mode := match os_files w !! p with
    | Some f => f_mode f
    | None => Z.ldiff 438 (os_umask w)
    end in
  set_files (<[p := mk_file data mode]> (os_files w)) w.
Definition replace_file (src dst : path) (f : file) (w : os_state) : os_state :=
  set_files (<[dst := f]> (delete src (os_files w))) w.

(** Does the private key belong to the certificate? (OpenSSL's check) *)
Class TlsExt := { key_matches : bytes → bytes → bool }.

Section os.
Context `{TlsExt}.

Definition no_file (d : gset path) (w : os_state) : Prop := set_Forall (λ q, os_files w !! q = None) d.
#[export] Instance no_file_dec d w : Decision (no_file d w).
Proof. unfold no_file. apply _. Defined.

(** Any call may fail with an [OSError]; a failing write may have truncated or
    partly written the file. *)
Definition os_step {X} (e : os X) : os_state → X → os_state → Prop :=
  match e in os X return os_state → X → os_state → Prop with
  | OsExists p => λ w x w', x = bool_decide (is_Some (os_files w !! p) ∨ p ∈ os_dirs w) ∧ w' = w
  | OsRead p => λ w x w', w' = w ∧
      match x with inr b => read_file p w = Some b | inl e => ∃ m, e = OSErr m end
  | OsMkdir p => λ w x w',
      match x with
      | inr _ => no_file (ancestors p) w ∧ w' = add_dirs (ancestors p) w
      | inl e => (∃ m, e = OSErr m) ∧ ∃ d, d ⊆ ancestors p ∧ w' = add_dirs d w
      end
  | OsWrite p data => λ w x w',
      match x with
      | inr _ => path_parent p ∈ os_dirs w ∧ (p ∉ os_dirs w) ∧ w' = put_file p data w
      | inl e => (∃ m, e = OSErr m) ∧ (w' = w ∨ ∃ n, w' = put_file p (take n data) w)
      end
  | OsChmod p mode => λ w x w',
      match x with
      | inr _ => ∃ f, os_files w !! p = Some f ∧
          w' = set_files (<[p := mk_file (f_data f) mode]> (os_files w)) w
      | inl e => (∃ m, e = OSErr m) ∧ w' = w
      end
  | OsReplace src dst => λ w x w',
      match x with
      | inr _ => ∃ f, os_files w !! src = Some f ∧ (dst ∉ os_dirs w) ∧ w' = replace_file src dst f w
      | inl e => (∃ m, e = OSErr m) ∧ w' = w
      end
  | OsRandom => λ w x w', w' = w
  | OsNow => λ w x w', w' = w
  | OsLoadChain cert key => λ w x w',
      match x with
      | inr _ => ∃ c k, read_file cert w = Some c ∧ read_file key w = Some k ∧
          key_matches c k = true ∧ w' = set_tls (Some (c, k)) w
      | inl e => (∃ m, e = OSErr m) ∧ ∃ c, w' = set_tls c w
      end
  end.
#[export] Instance os_steps : Steps os os_state := @os_step.

(** The process may die inside a write, leaving any prefix, or between the
    directories of [mkdir]; [os.replace] is atomic. *)
#[export] Instance os_tears : Tears os os_state := λ X e,
  match e with
  | OsMkdir p => λ w w', ∃ d, d ⊆ ancestors p ∧ w' = add_dirs d w
  | OsWrite p data => λ w w', ∃ n, w' = put_file p (take n data) w
  | _ => λ w w', False
  end.

(** ** Execution *)

(** Random numbers, clock readings, and the failures of the calls to come
    ([None], or no entry: no failure). *)
Record os_supply := mk_os_supply { su_random : list Z; su_clock : list Z; su_faults : list (option str) }.

Definition attempt {X} (ok : os_state → option (X * os_state)) (w : os_state) (s : os_supply) :
    res X * os_state * os_supply :=
  let s' := mk_os_supply (su_random s) (su_clock s) (tail (su_faults s)) in
  match head (su_faults s) with
  | Some (Some m) => (inl (OSErr m), w, s')
  | _ => match ok w with Some (x, w') => (inr x, w', s') | None => (inl (OSErr []), w, s') end
  end.

Definition run_os {X} (e : os X) : os_state → os_supply → X * os_state * os_supply :=
  match e in os X return os_state → os_supply → X * os_state * os_supply with
  | OsExists p => λ w s, (bool_decide (is_Some (os_files w !! p) ∨ p ∈ os_dirs w), w, s)
  | OsRead p => attempt (λ w, (., w) <$> read_file p w)
  | OsMkdir p => attempt (λ w,
      if decide (no_file (ancestors p) w) then Some (tt, add_dirs (ancestors p) w) else None)
  | OsWrite p data => attempt (λ w,
      if decide (path_parent p ∈ os_dirs w ∧ (p ∉ os_dirs w)) then Some (tt, put_file p data w) else None)
  | OsChmod p mode => attempt (λ w,
      f ← os_files w !! p; Some (tt, set_files (<[p := mk_file (f_data f) mode]> (os_files w)) w))
  | OsReplace src dst => attempt (λ w,
      f ← os_files w !! src;
      if decide (dst ∉ os_dirs w) then Some (tt, replace_file src dst f w) else None)
  | OsRandom => λ w s, (default 0 (head (su_random s)), w,
      mk_os_supply (tail (su_random s)) (su_clock s) (su_faults s))
  | OsNow => λ w s, (default 0 (head (su_clock s)), w,
      mk_os_supply (su_random s) (tail (su_clock s)) (su_faults s))
  | OsLoadChain cert key => attempt (λ w,
      c ← read_file cert w; k ← read_file key w;
      if key_matches c k then Some (tt, set_tls (Some (c, k)) w) else None)
  end.

Lemma attempt_inv {X} (ok : os_state → option (X * os_state)) w s r w' s' :
  attempt ok w s = (r, w', s') →
  match r with inr x => ok w = Some (x, w') | inl e => (∃ m, e = OSErr m) ∧ w' = w end.
Proof. unfold attempt. repeat case_match; intros [= <- <- <-]; eauto. Qed.

Lemma run_os_step {X} (e : os X) w s x w' s' :
  True → True → run_os e w s = (x, w', s') → os_step e w x w' ∧ True.
Proof.
  intros _ _ E. split; [|done]. destruct e; cbn in E |- *; try (by injection E as <- <- _);
    apply attempt_inv in E.
  - destruct x as [e|b]; [naive_solver|]. destruct (read_file p w); [|done]. by injection E as <- <-.
  - destruct x as [e|[]].
    + destruct E as [? ->]. split; [done|]. exists ∅. split; [set_solver|].
      unfold add_dirs. destruct w; cbn. f_equal. set_solver.
    + case_decide; [|done]. by injection E as <-.
  - destruct x as [e|[]]; [naive_solver|]. case_decide; [|done]. injection E as <-. tauto.
  - destruct x as [e|[]]; [naive_solver|]. destruct (os_files w !! p) eqn:?; [|done]. injection E as <-. eauto.
  - destruct x as [e|[]]; [naive_solver|]. destruct (os_files w !! src) eqn:?; [|done]. cbn in E.
    case_decide; [|done]. injection E as <-. eauto.
  - destruct x as [e|[]].
    + destruct E as [? ->]. split; [done|]. exists (os_tls w). by destruct w.
    + destruct (read_file cert w) as [c|] eqn:?; [|done]. cbn in E.
      destruct (read_file key w) as [k|] eqn:?; [|done]. cbn in E.
      destruct (key_matches c k) eqn:?; [|done]. injection E as <-. eauto 8.
Qed.

#[export] Instance os_runs : Runs os os_state os_supply := {|
  erun := @run_os;
  can_run := λ _ _ _, True;
  supply_ok := λ _, True;
  erun_step := @run_os_step |}.

(** No call waits: what [run] computes is an execution. *)
Lemma os_run_execs {A} (p : coro os A) w s : execs (=) p w (run p w s).1.1 (run p w s).1.2.
Proof.
  destruct (run p w s) as [[r w'] s'] eqn:E. apply (run_execs p w s r w' s'); [|done|done].
  clear E. revert w s. induction p as [a|e|X e k IH]; intros w s; cbn [unblocked]; [done..|].
  split; [done|]. destruct (erun e w s) as [[x w1] s1]. apply IH.
Qed.
End os.

(** [p.write_text(s)]: the file is opened before the text is encoded. *)
Definition write_text (p : path) (s : str) : coro os unit :=
  match utf8_encode s with
  | Some data => perform_res (OsWrite p data)
  | None => perform_res (OsWrite p []) ;; Raise (PyErr UnicodeError [])
  end.

(** ** Lemmas *)

Example Path_of_ex :
  Path_of (u "/data//ssl/") = (u "/", [u "data"; u "ssl"]) ∧ Path_of (u "a/./b") = ([], [u "a"; u "b"]) ∧
  path_parent (Path_of (u "/data/le_account.key")) = Path_of (u "/data").
Proof. vm_compute. done. Qed.

Lemma path_parent_child p name : path_parent (path_child p name) = p.
Proof. destruct p as [r cs]. unfold path_parent, path_child; cbn. by rewrite removelast_last. Qed.
Lemma path_name_child p name : path_name (path_child p name) = name.
Proof. unfold path_name, path_child; cbn. apply last_last. Qed.
Lemma path_child_inj p a b : path_child p a = path_child p b → a = b.
Proof. unfold path_child. intros [= E]. by apply app_inj_tail in E as [_ ->]. Qed.
Lemma path_self_ancestor p : p ∈ ancestors p.
Proof.
  unfold ancestors. apply elem_of_list_to_set, list_elem_of_fmap. exists (length p.2).
  split; [|apply elem_of_seq; lia]. rewrite firstn_all. by destruct p.
Qed.

Lemma read_put p q data w : read_file q (put_file p data w) = if decide (p = q) then Some data else read_file q w.
Proof.
  unfold read_file, put_file; cbn. case_decide as E; [subst; by rewrite lookup_insert_eq|by rewrite lookup_insert_ne].
Qed.
Lemma read_add_dirs p d w : read_file p (add_dirs d w) = read_file p w.
Proof. done. Qed.
Lemma read_chmod p q f mode w : os_files w !! p = Some f →
  read_file q (set_files (<[p := mk_file (f_data f) mode]> (os_files w)) w) = read_file q w.
Proof.
  intros Hf. unfold read_file; cbn. destruct (decide (p = q)) as [<-|].
  - by rewrite lookup_insert_eq, Hf.
  - by rewrite lookup_insert_ne.
Qed.
Lemma read_replace src dst f w q :
  read_file q (replace_file src dst f w) =
  if decide (dst = q) then Some (f_data f) else if decide (src = q) then None else read_file q w.
Proof.
  unfold read_file, replace_file; cbn. case_decide; [subst; by rewrite lookup_insert_eq|].
  rewrite lookup_insert_ne by done. case_decide; [subst; by rewrite lookup_delete_eq|by rewrite lookup_delete_ne].
Qed.

(** ** What a call leaves alone *)

Definition touched {X} (e : os X) : list path :=
  match e with OsWrite p _ | OsChmod p _ => [p] | OsReplace src dst => [src; dst] | _ => [] end.

Lemma put_file_other p q data w : q ≠ p → os_files (put_file p data w) !! q = os_files w !! q.
Proof. intros. cbn. by rewrite lookup_insert_ne. Qed.

Lemma os_step_frame `{TlsExt} {X} (e : os X) w x w' q :
  os_step e w x w' → q ∉ touched e → os_files w' !! q = os_files w !! q.
Proof.
  destruct e; cbn; rewrite ?elem_of_cons, ?elem_of_nil; intros Hs Hq.
  - by destruct Hs as [_ ->].
  - by destruct Hs as [-> _].
  - destruct x; [destruct Hs as (_ & d & _ & ->)|destruct Hs as [_ ->]]; done.
  - destruct x; [|destruct Hs as (_ & _ & ->); apply put_file_other; tauto].
    destruct Hs as (_ & [->|(n & ->)]); [done|]. apply put_file_other; tauto.
  - destruct x; [by destruct Hs as [_ ->]|]. destruct Hs as (f & _ & ->). cbn.
    rewrite lookup_insert_ne; [done|]. intros ->. tauto.
  - destruct x; [by destruct Hs as [_ ->]|]. destruct Hs as (f & _ & _ & ->). cbn.
    rewrite lookup_insert_ne, lookup_delete_ne; [done|..]; intros ->; tauto.
  - by subst.
  - by subst.
  - destruct x; [destruct Hs as (_ & c & ->)|destruct Hs as (c & k & _ & _ & _ & ->)]; done.
Qed.

Lemma os_torn_frame {X} (e : os X) w w' q :
  torn e w w' → q ∉ touched e → os_files w' !! q = os_files w !! q.
Proof.
  destruct e; cbn; rewrite ?elem_of_cons, ?elem_of_nil; try done.
  - by intros (d & _ & ->) _.
  - intros (n & ->) Hq. apply put_file_other. tauto.
Qed.

(** One call, then the rest of the coroutine, with no one else on the files. *)
Lemma wpc_call `{TlsExt} {X A} (e : os (res X)) (p : coro os A) Q (C : os_state → Prop) w :
  C w → (∀ w', torn e w w' → C w') →
  (∀ ex w', os_step e w (inl ex) w' → C w' ∧ Q (inl ex) w') →
  (∀ x w', os_step e w (inr x) w' → C w' ∧ wpc (=) p Q C w') →
  wpc (=) (perform_res e ;; p) Q C w.
Proof.
  intros HC Ht He Hk. apply (wpc_bind (=)), wpc_perform_res. intros w1 <-. split_and!; [done..|].
  intros [ex|x] w2 Hs w' <-; [by apply He|by eapply Hk].
Qed.
