(* ===== verification/RelayCert.v ===== *)
(** * The relay's own certificate: [services/relay_cert.py]

    Writing the certificate and its key, the checks of what is on disk,
    issuance through the Let's Encrypt client, and one round of the renewal
    loop.  Coroutines here act on the server's world and on the file system. *)
From S2P Require Import Prelude PyStr Json External PyStd Models Config Prog LeClient Os.

(** Private keys (cryptography): made from randomness, written as PEM. *)
Class KeyExt := {
  pkey : Type;
  generate_private_key : Z → pkey;
  private_pem : pkey → str;                       (** PKCS8, no encryption *)
  load_pem_private_key : bytes → option pkey;     (** [None] raises *)
  relay_csr : pkey → str → option bytes           (** DER, CN and SAN the domain; [None] raises *)
}.
(** A PEM text is ASCII, and loads as the key it was written from. *)
Class KeyLaws `{KeyExt} := {
  private_pem_ascii : ∀ k, forallb (λ c, (0 <=? c) && (c <? 128)) (private_pem k) = true;
  load_private_pem : ∀ k, load_pem_private_key (private_pem k) = Some k
}.

Definition CERT_FILENAME : str := u "fullchain.pem".
Definition KEY_FILENAME : str := u "privkey.pem".
Definition RENEW_THRESHOLD_DAYS : Z := 30.

(** [p.with_name(p.name + ".tmp")]. *)
Definition tmp_path (p : path) : path := with_name p (path_name p ++ u ".tmp").

Definition write_relay_cert (cert_path key_path : path) (pem_chain key_pem : str) : coro os unit :=
  perform_res (OsMkdir (path_parent cert_path)) ;;
  write_text (tmp_path cert_path) pem_chain ;;
  write_text (tmp_path key_path) key_pem ;;
  perform_res (OsChmod (tmp_path key_path) 384) ;;
  perform_res (OsReplace (tmp_path key_path) key_path) ;;
  perform_res (OsReplace (tmp_path cert_path) cert_path).

Section relay.
Context `{Ext} `{KeyExt} (cfg : Settings).

Definition cert_path : path := path_child (Path_of (ssl_dir cfg)) CERT_FILENAME.
Definition key_path : path := path_child (Path_of (ssl_dir cfg)) KEY_FILENAME.

Definition read_cert : coro os x509cert :=
  data ← perform_res (OsRead cert_path);
  lift (or_raise (PyErr ValueError []) (load_pem_x509_certificate data)).

Definition relay_cert_exists : coro os bool :=
  cert ← perform (OsExists cert_path);
  key ← (if (cert : bool) then perform (OsExists key_path) else Ret false);
  if negb cert || negb key then Ret false
  else catch (read_cert ;; Ret true) (λ _, Ret false).

(** The time left, in microseconds (the code's float of days is compared with
    whole numbers of days only). *)
Definition relay_cert_days_remaining : coro os (option Z) :=
  cert ← perform (OsExists cert_path);
  if negb cert then Ret None
  else catch (c ← read_cert; now ← perform OsNow; Ret (Some (not_valid_after c - now))) (λ _, Ret None).

Abbreviation relay := (coro (eff ⊕ os)).

Definition issue_relay_cert (relay_domain : str) : relay unit :=
  seed ← perform (EffR OsRandom);
  let priv := generate_private_key seed in
  csr_der ← lift (or_raise (PyErr ValueError []) (relay_csr priv relay_domain));
  pem_chain ← embed_l (order_cert relay_domain csr_der);
  embed_r (write_relay_cert cert_path key_path pem_chain (private_pem priv)).

(** One round of [renewal_loop]. *)
Definition renewal_round (relay_domain : str) (ssl_context : bool) : relay unit :=
  perform (EffL (ESleep 86400)) ;;
  remaining ← embed_r relay_cert_days_remaining;
  match remaining with
  | None => Ret tt
  | Some remaining =>
      if days RENEW_THRESHOLD_DAYS <=? remaining then Ret tt
      else
        renewed ← catch (issue_relay_cert relay_domain ;; Ret true) (λ _, Ret false);
        if (renewed : bool) && ssl_context then perform_res (EffR (OsLoadChain cert_path key_path)) else Ret tt
  end.
End relay.

(** ** Writing survives a crash *)

Lemma path_child_ne p a b : a ≠ b → path_child p a ≠ path_child p b.
Proof. intros Hab E. by apply path_child_inj in E. Qed.

Section write.
Context `{TlsExt} (dir : path) (pem_chain key_pem : str) (w0 : os_state).
Let cert := path_child dir CERT_FILENAME.
Let key := path_child dir KEY_FILENAME.

(** The states the two files go through: both as before; the new key beside
    the old certificate; both new.  The key is readable by its owner only. *)
Definition key_written (w : os_state) : Prop :=
  ∃ kb, utf8_encode key_pem = Some kb ∧ os_files w !! key = Some (mk_file kb 384).
Definition untouched (w : os_state) : Prop :=
  os_files w !! cert = os_files w0 !! cert ∧ os_files w !! key = os_files w0 !! key.
Definition key_replaced (w : os_state) : Prop :=
  os_files w !! cert = os_files w0 !! cert ∧ key_written w.
Definition both_replaced (w : os_state) : Prop :=
  (∃ pb, utf8_encode pem_chain = Some pb ∧ read_file cert w = Some pb) ∧ key_written w.
Definition crash_safe (w : os_state) : Prop := untouched w ∨ key_replaced w ∨ both_replaced w.
Definition written (r : res unit) (w : os_state) : Prop :=
  match r with inr _ => both_replaced w | inl _ => untouched w ∨ key_replaced w end.

Lemma tmp_child name : tmp_path (path_child dir name) = path_child dir (name ++ u ".tmp").
Proof. unfold tmp_path, with_name. by rewrite path_parent_child, path_name_child. Qed.

Lemma untouched_step {X} (e : os X) w x w' :
  untouched w → os_step e w x w' → cert ∉ touched e → key ∉ touched e → untouched w'.
Proof. intros [H1 H2] Hs Hc Hk. by split; rewrite (os_step_frame e w x w' _ Hs). Qed.
Lemma untouched_torn {X} (e : os X) w w' :
  untouched w → torn e w w' → cert ∉ touched e → key ∉ touched e → untouched w'.
Proof. intros [H1 H2] Hs Hc Hk. by split; rewrite (os_torn_frame e w w' _ Hs). Qed.

(** A call that leaves both files alone, while they are as before. *)
Lemma wpc_aside {X} (e : os (res X)) (p : coro os unit) w :
  untouched w → cert ∉ touched e → key ∉ touched e →
  (∀ x w', os_step e w (inr x) w' → untouched w' → wpc (=) p written crash_safe w') →
  wpc (=) (perform_res e ;; p) written crash_safe w.
Proof.
  intros Hw Hc Hk Hp. apply wpc_call.
  - by left.
  - intros w' Ht. left. by eapply untouched_torn.
  - intros ex w' Hs. assert (untouched w') by (by eapply untouched_step). split; by left.
  - intros x w' Hs. assert (untouched w') as Hw' by (by eapply untouched_step).
    split; [by left|]. by eapply Hp.
Qed.

(** Writing a temporary file. *)
Lemma wpc_write_text q data (p : coro os unit) w :
  untouched w → q ≠ cert → q ≠ key →
  (∀ b w', utf8_encode data = Some b → untouched w' → read_file q w' = Some b →
     (∀ q', q' ≠ q → read_file q' w' = read_file q' w) → wpc (=) p written crash_safe w') →
  wpc (=) (write_text q data ;; p) written crash_safe w.
Proof.
  intros Hw Hc Hk Hp. unfold write_text. destruct (utf8_encode data) as [b|] eqn:Eb.
  - apply wpc_aside; [done|cbn; set_solver..|]. intros [] w' (_ & _ & ->) Hw'.
    apply (Hp b); [done|done|by rewrite read_put, decide_True|].
    intros q' Hq'. by rewrite read_put, decide_False.
  - apply (wpc_bind (=)), wpc_call.
    + by left.
    + intros w' Ht. left. eapply untouched_torn; [done..|set_solver|set_solver].
    + intros ex w' Hs. assert (untouched w') by (eapply untouched_step; [done..|set_solver|set_solver]).
      split; by left.
    + intros x w' Hs. assert (untouched w') by (eapply untouched_step; [done..|set_solver|set_solver]).
      split; [by left|]. intros w1 <-. split; by left.
Qed.

(** The two renames. *)
Lemma wpc_renames pb kb w :
  utf8_encode pem_chain = Some pb → utf8_encode key_pem = Some kb →
  untouched w → read_file (tmp_path cert) w = Some pb →
  os_files w !! tmp_path key = Some (mk_file kb 384) →
  wpc (=) (perform_res (OsReplace (tmp_path key) key) ;; perform_res (OsReplace (tmp_path cert) cert))
    written crash_safe w.
Proof.
  intros Hpb Hkb Hw Hct Hkt. unfold cert, key in *. rewrite !tmp_child in *.
  apply wpc_call; [by left|by intros ? []| |].
  - intros ex w' [_ ->]. split; by left.
  - intros [] w1 (f & Hf & _ & ->). rewrite Hf in Hkt. injection Hkt as ->.
    set (w1 := replace_file _ _ _ w).
    assert (key_replaced w1) as Hw1.
    { destruct Hw as [Hw _]. split; [|exists kb; split; [done|]]; unfold w1; cbn.
      - rewrite lookup_insert_ne, lookup_delete_ne; [done|..]; by apply path_child_ne.
      - by rewrite lookup_insert_eq. }
    split; [by right; left|]. apply wpc_perform_res. intros ? <-.
    split_and!; [by right; left|by intros ? []|].
    intros [ex|[]] w2 Hs ? <-; [destruct Hs as [_ ->]; split; [by right; left|by right]|].
    destruct Hs as (g & Hg & _ & ->).
    assert (read_file (path_child dir (CERT_FILENAME ++ u ".tmp")) w1 = Some pb) as Hct1.
    { unfold w1. rewrite read_replace, decide_False, decide_False; [done|..]; by apply path_child_ne. }
    unfold read_file in Hct1. rewrite Hg in Hct1. injection Hct1 as Hgd.
    assert (both_replaced (replace_file (path_child dir (CERT_FILENAME ++ u ".tmp"))
      (path_child dir CERT_FILENAME) g w1)) as Hb.
    { split; [exists pb; split; [done|]; by rewrite read_replace, decide_True, Hgd|].
      destruct Hw1 as [_ (kb' & Hkb' & Hk)]. exists kb'. split; [done|]. cbn.
      rewrite lookup_insert_ne, lookup_delete_ne; [done|..]; by apply path_child_ne. }
    split; [by right; right|done].
Qed.

Lemma tmp_distinct :
  tmp_path cert ≠ cert ∧ tmp_path cert ≠ key ∧ tmp_path key ≠ cert ∧ tmp_path key ≠ key ∧
  tmp_path cert ≠ tmp_path key.
Proof. unfold cert, key. rewrite !tmp_child. split_and!; by apply path_child_ne. Qed.

Lemma write_relay_cert_wpc :
  wpc (=) (write_relay_cert cert key pem_chain key_pem) written crash_safe w0.
Proof.
  destruct tmp_distinct as (H1 & H2 & H3 & H4 & H5).
  unfold write_relay_cert. replace (path_parent cert) with dir by (symmetry; apply path_parent_child).
  apply wpc_aside; [done|cbn; set_solver..|]. intros [] w1 _ Hw1.
  apply wpc_write_text; [done..|]. intros pb w2 Hpb Hw2 Hct _.
  apply wpc_write_text; [done..|]. intros kb w3 Hkb Hw3 Hkt Ho.
  apply wpc_aside; [done|cbn; by rewrite list_elem_of_singleton..|].
  intros [] w4 (f & Hf & Hw4) Hu4. unfold read_file in Hkt. rewrite Hf in Hkt. injection Hkt as Hfd.
  apply (wpc_renames pb kb); [done..| |].
  - subst w4. rewrite (read_chmod _ _ f) by done. by rewrite Ho.
  - subst w4. cbn. by rewrite lookup_insert_eq, Hfd.
Qed.
End write.

(** ** Issuance and renewal *)

Section renewal.
Context `{Ext} `{TlsExt} `{KeyLaws} (cfg : Settings).

Definition cert_file (v : os_state) : option bytes := read_file (cert_path cfg) v.
Definition key_file (v : os_state) : option file := os_files v !! key_path cfg.
Definition same_files (v v' : os_state) : Prop :=
  os_files v' !! cert_path cfg = os_files v !! cert_path cfg ∧ key_file v' = key_file v.
(** The file of a generated private key, readable by its owner only. *)
Definition fresh_key (v : os_state) : Prop :=
  ∃ seed, key_file v = Some (mk_file (private_pem (generate_private_key seed)) 384).
Definition fresh_cert (v : os_state) : Prop :=
  ∃ pem data, utf8_encode pem = Some data ∧ cert_file v = Some data.
(** What a failed or interrupted issuance may leave, and what a finished one leaves. *)
Definition interrupted (v v' : os_state) : Prop :=
  same_files v v' ∨ (os_files v' !! cert_path cfg = os_files v !! cert_path cfg ∧ fresh_key v').
Definition renewed (v' : os_state) : Prop := fresh_cert v' ∧ fresh_key v'.

Lemma ascii_utf8 s : forallb (λ c, (0 <=? c) && (c <? 128)) s = true → utf8_encode s = Some s.
Proof.
  unfold utf8_encode. induction s as [|c s IH]; [done|]. cbn [forallb].
  intros [[Hc0 Hc]%andb_true_iff Hs%IH]%andb_true_iff.
  assert (utf8_char c = Some [c]) as Ec by (unfold utf8_char; by rewrite Hc).
  simpl. rewrite Ec. simpl. destruct (mapM utf8_char s) as [l|]; [|done]. injection Hs as Hs.
  simpl. by rewrite Hs.
Qed.
Lemma private_pem_utf8 k : utf8_encode (private_pem k) = Some (private_pem k).
Proof. apply ascii_utf8, private_pem_ascii. Qed.

Lemma issue_relay_cert_wpc domain (w : world * os_state) :
  wpc frame_l (issue_relay_cert cfg domain)
    (λ r w', match r with inr _ => renewed w'.2 | inl _ => interrupted w.2 w'.2 end)
    (λ w', interrupted w.2 w'.2 ∨ renewed w'.2) w.
Proof.
  assert (interrupted w.2 w.2) as Hw0 by (by left).
  unfold issue_relay_cert. apply wpc_bind; [apply _|]. apply wpc_perform. intros w1 HR1.
  rewrite HR1. split_and!; [by left|by intros ? [[] _]|]. intros seed w2 [Hs Hl] w3 HR3. cbn in Hs.
  assert (w3.2 = w.2) as E3 by (by rewrite HR3, Hs). rewrite E3. split; [by left|].
  apply wpc_bind; [apply _|]. apply wpc_lift. intros w4 HR4. assert (w4.2 = w.2) as E4 by (by rewrite HR4).
  rewrite E4. split; [by left|]. destruct (or_raise _ _) as [|csr]; [done|].
  apply wpc_bind; [apply _|]. eapply wpc_mono; [| |apply (wpc_embed_l _
    (λ r v, v = w.2) (λ v, v = w.2))]; [|by intros w' ->; left|done..].
  intros [|pem] w5 E5; [by rewrite E5|]. rewrite <- E5.
  eapply wpc_mono; [| |apply wpc_embed_r, write_relay_cert_wpc].
  - intros [e|[]] w6; cbn.
    + intros [[? ?]|[? (kb & Hkb & Hk)]]; [by left|right]. split; [done|]. exists seed.
      rewrite private_pem_utf8 in Hkb. by injection Hkb as <-.
    + intros [(pb & Hpb & Hc) (kb & Hkb & Hk)]. split; [by exists pem, pb|]. exists seed.
      rewrite private_pem_utf8 in Hkb. by injection Hkb as <-.
  - intros w6 [[? ?]|[[? (kb & Hkb & Hk)]|[(pb & Hpb & Hc) (kb & Hkb & Hk)]]].
    + by left; left.
    + left; right. split; [done|]. exists seed. rewrite private_pem_utf8 in Hkb. by injection Hkb as <-.
    + right. split; [by exists pem, pb|]. exists seed. rewrite private_pem_utf8 in Hkb. by injection Hkb as <-.
Qed.

(** The check only reads, and never raises. *)
Lemma days_remaining_wpc v :
  wpc (=) (relay_cert_days_remaining cfg) (λ r v', (∃ d, r = inr d) ∧ v' = v) (λ v', v' = v) v.
Proof.
  unfold relay_cert_days_remaining. apply wpc_bind; [apply _|]. apply wpc_perform. intros v1 <-.
  split_and!; [done|by intros ? []|]. intros b v2 [_ ->] v3 <-. split; [done|].
  destruct b; [|intros ? <-; eauto]. cbn [negb]. apply wpc_catch; [apply _|].
  apply wpc_bind; [apply _|]. unfold read_cert. apply wpc_bind; [apply _|].
  apply wpc_perform_res. intros v4 <-. split_and!; [done|by intros ? []|]. intros r v5 [-> _] v6 <-.
  split; [done|]. destruct r as [e|data]; [intros ? <-; eauto|].
  apply wpc_lift. intros v7 <-. split; [done|].
  destruct (or_raise _ _) as [e|c]; [intros ? <-; eauto|].
  apply wpc_bind; [apply _|]. apply wpc_perform. intros v8 <-. split_and!; [done|by intros ? []|].
  intros now v9 -> v10 <-. split; [done|]. intros ? <-. eauto.
Qed.

(** The live TLS context presents the files on disk, which fit together. *)
Definition presented (v : os_state) : Prop :=
  ∃ c k, cert_file v = Some c ∧ f_data <$> key_file v = Some k ∧
    key_matches c k = true ∧ os_tls v = Some (c, k).

(** What a round of the renewal loop ends with. *)
Definition round_outcome (ssl_context : bool) (v : os_state) (r : res unit) (v' : os_state) : Prop :=
  match r with
  | inr _ => interrupted v v' ∨ (renewed v' ∧ (ssl_context = true → presented v'))
  | inl e => ssl_context = true ∧ renewed v' ∧ ∃ m, e = OSErr m
  end.

Lemma renewal_round_wpc domain ssl (w : world * os_state) :
  wpc frame_l (renewal_round cfg domain ssl) (λ r w', round_outcome ssl w.2 r w'.2)
    (λ w', interrupted w.2 w'.2 ∨ renewed w'.2) w.
Proof.
  assert (interrupted w.2 w.2) as Hw0 by (by left).
  unfold renewal_round. apply wpc_bind; [apply _|]. apply wpc_perform. intros w1 HR1.
  rewrite HR1. split_and!; [by left|by intros ? [[] _]|]. intros [] w2 [_ Hl] w3 HR3.
  assert (w3.2 = w.2) as E3 by (by rewrite HR3, Hl, HR1). rewrite E3. split; [by left|].
  apply wpc_bind; [apply _|]. rewrite <- E3.
  eapply wpc_mono; [| |apply wpc_embed_r, days_remaining_wpc]; [|intros w' ->; rewrite E3; by left].
  intros r w4 [[d ->] E4]. rewrite E3 in E4.
  assert (wpc frame_l (Ret (E := eff ⊕ os) tt) (λ r w', round_outcome ssl w3.2 r w'.2)
    (λ w', interrupted w3.2 w'.2 ∨ renewed w'.2) w4) as Hidle.
  { intros w5 HR5. rewrite HR5, E4, E3. split; [by left|]. by left. }
  destruct d as [left|]; [|done]. destruct (_ <=? _); [done|]. clear Hidle.
  apply wpc_bind; [apply _|]. apply wpc_catch; [apply _|]. apply wpc_bind; [apply _|].
  rewrite E3, <- E4.
  eapply wpc_mono; [| |apply issue_relay_cert_wpc]; [|done]. intros [e|[]] w5 H5; intros w6 HR6; rewrite HR6.
  - split; [by left|]. intros w7 HR7. rewrite HR7, HR6. split; [by left|]. by left.
  - split; [by right|]. destruct ssl; cbn [andb].
    + apply wpc_perform_res. intros w7 HR7. rewrite HR7, HR6. split_and!; [by right|by intros ? [[] _]|].
      intros r w8 [Hs _] w9 HR9. cbn in Hs. rewrite HR9. destruct r as [e|[]].
      * destruct Hs as ([m ->] & c & Hs). rewrite Hs. rewrite HR7, HR6. split; [by right|].
        split_and!; [done|exact H5|eauto].
      * destruct Hs as (c & k & Hc & Hk & Hm & Hs). rewrite Hs. split; [right; rewrite HR7, HR6; exact H5|].
        right. split; [rewrite HR7, HR6; exact H5|]. intros _. by exists c, k.
    + intros w7 HR7. rewrite HR7, HR6. split; [by right|]. right. by split.
Qed.
End renewal.

(** ** A concrete installation *)

#[export] Instance toy_tls : TlsExt := {| key_matches := λ c k, bool_decide (last c = last k) |}.
(** Two private keys. *)
#[export] Instance toy_keys : KeyExt := {|
  pkey := bool;
  generate_private_key := Z.even;
  private_pem := λ k, u "PRIVATE KEY " ++ u (if k then "A" else "B");
  load_pem_private_key := λ b,
    match last b with Some c => if c =? 65 then Some true else if c =? 66 then Some false else None
                    | None => None end;
  relay_csr := λ k domain, Some (domain ++ u (if k then "A" else "B")) |}.
#[export] Instance toy_key_laws : KeyLaws.
Proof. split; by intros []. Qed.

(** An installation whose certificate expires in 10 days, a CA that issues, and
    another private key. *)
Module Relay.
#[export] Existing Instance toy.
Definition cfg : Settings := Settings_defaults (u "null") (u "relay.test") (u "a@relay.test").
Definition dir : path := Path_of (ssl_dir cfg).
Definition disk : os_state :=
  mk_os {[cert_path cfg := mk_file (u "CERT A") 420; key_path cfg := mk_file (u "PRIVATE KEY A") 384]}
    (ancestors dir) 18 None.
Definition start : world * os_state := (mk_world empty_db ∅ [], disk).
Definition supply : answers * os_supply :=
  (mk_answers [] [] [] [] [] [inr (u "CERT B")] [], mk_os_supply [1] [- days 10] []).

(** Decides that no domain's lock is waited for. *)
Fixpoint relay_free {A} (p : coro (eff ⊕ os) A) (w : world * os_state) (s : answers * os_supply) : bool :=
  match p with
  | Vis e k =>
      (match e with EffL (EAcquire d) => bool_decide ((d ∉ w_locks w.1)) | _ => true end) &&
      let '(x, w', s') := erun e w s in relay_free (k x) w' s'
  | _ => true
  end.
Lemma relay_free_unblocked {A} (p : coro (eff ⊕ os) A) w s : relay_free p w s = true → unblocked p w s.
Proof.
  revert w s. induction p as [a|e|X e k IH]; intros w s; [done..|]. cbn [relay_free unblocked].
  intros [Hr Hk]%andb_true_iff. split.
  - destruct e as [e|]; [destruct e|]; try done. by apply bool_decide_eq_true in Hr.
  - destruct (erun e w s) as [[x w1] s1]. by apply IH.
Qed.
Lemma supply_answers : supply_ok supply.
Proof. by repeat constructor. Qed.
Lemma round_free : unblocked (renewal_round cfg (u "relay.test") true) start supply.
Proof. apply relay_free_unblocked. vm_compute. reflexivity. Qed.
Definition finish : world * os_state := (run (renewal_round cfg (u "relay.test") true) start supply).1.2.
Lemma round_execs : execs frame_l (renewal_round cfg (u "relay.test") true) start (inr tt) finish.
Proof.
  apply (execs_rely (=)); [by intros w w' ->|].
  assert ((run (renewal_round cfg (u "relay.test") true) start supply).1.1 = inr tt) as Er
    by (vm_compute; reflexivity).
  unfold finish. destruct (run _ start supply) as [[r w'] s'] eqn:E. cbn in Er. subst r.
  exact (run_execs _ _ _ _ _ _ round_free supply_answers E).
Qed.
End Relay.
#[local] Existing Instance toy.

(** ** Properties *)



(** A round of the renewal loop survives every failure of the check and of
    issuance: it ends normally, with the files as after an interrupted issuance,
    or renewed and presented by the live TLS context; the only exception that
    escapes it (and so ends the loop) is a failing reload of that context, after
    a completed renewal. *)
Theorem renewal_round_outcome `{Ext} `{TlsExt} `{KeyLaws} cfg domain ssl (w : world * os_state) r w' :
  execs frame_l (renewal_round cfg domain ssl) w r w' →
  match r with
  | inr _ => interrupted cfg w.2 w'.2 ∨ (renewed cfg w'.2 ∧ (ssl = true → presented cfg w'.2))
  | inl e => ssl = true ∧ renewed cfg w'.2 ∧ ∃ m, e = OSErr m
  end.
Proof. intros He. exact (wpc_execs _ _ _ _ _ _ _ (renewal_round_wpc cfg domain ssl w) He). Qed.

Lemma renewal_round_outcome_witness :
  ∃ w', execs frame_l (renewal_round Relay.cfg (u "relay.test") true) Relay.start (inr tt) w' ∧
    (interrupted Relay.cfg Relay.start.2 w'.2 ∨
     (renewed Relay.cfg w'.2 ∧ (true = true → presented Relay.cfg w'.2))).
Proof.
  assert (He : execs frame_l (renewal_round Relay.cfg (u "relay.test") true) Relay.start (inr tt) Relay.finish).
  { exact Relay.round_execs. }
  exists Relay.finish. split; [exact He|].
  exact (renewal_round_outcome Relay.cfg (u "relay.test") true Relay.start (inr tt) Relay.finish He).
Defined.
