(* ===== verification/Net.v ===== *)
(** * The outbound side: effects and state

    What the Let's Encrypt client and the DNS providers do to the outside: HTTP
    requests (httpx), signed requests to the CA (gufo-acme's [_post]), the
    clock, pauses, the providers' locks, and the client's map of order URLs.
    The outside itself (the CA, the DNS services, the clock) is a state of any
    type that answers each request in any way: the class [Outside]. *)
From S2P Require Import Prelude PyStr Json PyStd Models Coro.

(** ** Requests and replies *)

Inductive http_body := NoBody | JsonBody (j : json) | FormBody (fields : list (str * str)) | TextBody (s : str).
Record http_request := mk_http_request {
  rq_method : str; rq_url : str; rq_params : list (str * str); rq_headers : list (str * str);
  rq_body : http_body }.
(** [r.status_code], [r.text], [r.content]. *)
Record http_reply := mk_http_reply { rp_status : Z; rp_text : str; rp_content : bytes }.

Definition is_success (r : http_reply) : bool := (200 <=? rp_status r) && (rp_status r <=? 299).
Definition raise_for_status (r : http_reply) : res unit :=
  if is_success r then inr tt else inl (PyErr HTTPStatusError (str_of_int (rp_status r))).
(** [r.json()]. *)
Definition reply_json (r : http_reply) : res json :=
  or_raise (PyErr ValueError (u "JSONDecodeError")) (loads_bytes (rp_content r)).

(** gufo's reply to a signed request: the body and the [Location] header. *)
Record acme_reply := mk_acme_reply { ar_content : bytes; ar_location : option bytes }.
Definition acme_json (r : acme_reply) : res json :=
  or_raise (PyErr ValueError (u "JSONDecodeError")) (loads_bytes (ar_content r)).

(** [j[key]], [j.get(key)], [key in j] on a value that should be a dict. *)
Definition subscript (j : json) (key : str) : res json :=
  match j with
  | JObj kvs => or_raise (PyErr KeyError key) (dict_get key kvs)
  | _ => inl (PyErr TypeError [])
  end.
Definition dict_lookup (j : json) (key : str) : res (option json) :=
  match j with JObj kvs => inr (dict_get key kvs) | _ => inl (PyErr AttributeError key) end.
Definition as_text (j : json) : res str :=
  match j with JStr s => inr s | _ => inl (PyErr TypeError []) end.
Definition text_field (j : json) (key : str) : res str := subscript j key ≫= as_text.
Definition list_items (j : json) : res (list json) :=
  match j with JArr l => inr l | _ => inl (PyErr TypeError []) end.

(** ** Effects *)

Inductive net : Type → Type :=
| NHttp (rq : http_request) : net (res http_reply)
| NPost (url : str) (payload : option json) : net (res acme_reply)  (** [self._post] *)
| NNewOrderUrl : net (res str)               (** [(await self._get_directory()).new_order] *)
| NCheckBound : net (res unit)               (** [self._check_bound()] *)
| NNewAccount (email : str) : net (res unit) (** gufo's [new_account] *)
| NNow : net Z
| NSleep (us : Z) : net unit
| NSetUrl (finalize url : str) : net unit    (** [self._order_urls[finalize] = url] *)
| NPopUrl (finalize : str) : net (option str)
| NAcquire (domain : str) : net unit         (** a provider's lock of an apex domain *)
| NRelease (domain : str) : net unit.

Class Outside := {
  outside : Type;
  o_http : http_request → outside → res http_reply * outside;
  o_post : str → option json → outside → res acme_reply * outside;
  o_new_order : outside → res str * outside;
  o_bound : outside → res unit;
  o_new_account : str → outside → res unit * outside;
  o_clock : outside → Z * outside
}.

Inductive net_event := HttpSent (rq : http_request) | Posted (url : str) (payload : option json) | Slept (us : Z).

(** The outside, the client's [_order_urls], the locks held, and what was done,
    newest first. *)
Record net_state `{Outside} := mk_net {
  n_out : outside; n_urls : gmap str str; n_locks : gset str; n_log : list net_event }.

Section net.
Context `{Outside}.

Definition n_answer {X} (ev : option net_event) (a : X * outside) (w : net_state) : X * net_state :=
  (a.1, mk_net _ a.2 (n_urls w) (n_locks w) (option_list ev ++ n_log w)).
Definition n_with_urls (m : gmap str str) (w : net_state) : net_state :=
  mk_net _ (n_out w) m (n_locks w) (n_log w).
Definition n_with_locks (l : gset str) (w : net_state) : net_state :=
  mk_net _ (n_out w) (n_urls w) l (n_log w).

(** The outside answers an effect; a lock is waited for ([net_ready]). *)
Definition net_act {X} (e : net X) : net_state → X * net_state :=
  match e in net X return net_state → X * net_state with
  | NHttp rq => λ w, n_answer (Some (HttpSent rq)) (o_http rq (n_out w)) w
  | NPost url payload => λ w, n_answer (Some (Posted url payload)) (o_post url payload (n_out w)) w
  | NNewOrderUrl => λ w, n_answer None (o_new_order (n_out w)) w
  | NCheckBound => λ w, (o_bound (n_out w), w)
  | NNewAccount email => λ w, n_answer None (o_new_account email (n_out w)) w
  | NNow => λ w, n_answer None (o_clock (n_out w)) w
  | NSleep us => λ w, n_answer (Some (Slept us)) (tt, n_out w) w
  | NSetUrl f url => λ w, (tt, n_with_urls (<[f := url]> (n_urls w)) w)
  | NPopUrl f => λ w, (n_urls w !! f, n_with_urls (delete f (n_urls w)) w)
  | NAcquire d => λ w, (tt, n_with_locks ({[d]} ∪ n_locks w) w)
  | NRelease d => λ w, (tt, n_with_locks (n_locks w ∖ {[d]}) w)
  end.
Definition net_ready {X} (e : net X) (w : net_state) : Prop :=
  match e with NAcquire d => (d ∉ n_locks w) | _ => True end.

#[export] Instance net_steps : Steps net net_state :=
  λ X e w x w', net_ready e w ∧ net_act e w = (x, w').
#[export, refine] Instance net_runs : Runs net net_state unit := {|
  erun := λ X e w s, let '(x, w') := net_act e w in (x, w', s);
  can_run := @net_ready;
  supply_ok := λ _, True |}.
Proof.
  intros X e w s x w' s' Hr _ E. destruct (net_act e w) as [y w1] eqn:E1.
  injection E as <- <- <-. done.
Defined.

(** [p] run alone. *)
Definition play {A} (p : coro net A) (w : net_state) : res A * net_state := (run p w tt).1.

Lemma play_ret {A} (a : A) w : play (Ret a) w = (inr a, w).
Proof. done. Qed.
Lemma play_vis {X A} (e : net X) (k : X → coro net A) w :
  play (Vis e k) w = play (k (net_act e w).1) (net_act e w).2.
Proof. unfold play. cbn. by destruct (net_act e w). Qed.
Lemma play_bind {A B} (p : coro net A) (f : A → coro net B) w :
  play (p ≫= f) w =
  let '(r, w1) := play p w in match r with inl e => (inl e, w1) | inr a => play (f a) w1 end.
Proof. unfold play. rewrite run_bind. destruct (run p w tt) as [[[e|a] w1] []]; done. Qed.
Lemma play_catch {A} (p : coro net A) h w :
  play (catch p h) w =
  let '(r, w1) := play p w in match r with inl e => play (h e) w1 | inr a => (inr a, w1) end.
Proof. unfold play. rewrite run_catch. destruct (run p w tt) as [[[e|a] w1] []]; done. Qed.
Lemma play_lift {A} (r : res A) w : play (lift r) w = (r, w).
Proof. by destruct r. Qed.
Lemma play_perform_res {X} (e : net (res X)) w : play (perform_res e) w = net_act e w.
Proof. unfold perform_res. rewrite play_vis, play_lift. by destruct (net_act e w). Qed.
Lemma play_perform {X} (e : net X) w : play (perform e) w = (inr (net_act e w).1, (net_act e w).2).
Proof. unfold perform. by rewrite play_vis, play_ret. Qed.

(** Decides that no lock is waited for. *)
Fixpoint never_waits {A} (p : coro net A) (w : net_state) : bool :=
  match p with
  | Vis e k =>
      (match e with NAcquire d => bool_decide ((d ∉ n_locks w)) | _ => true end) &&
      let '(x, w') := net_act e w in never_waits (k x) w'
  | _ => true
  end.
Lemma never_waits_unblocked {A} (p : coro net A) w : never_waits p w = true → unblocked p w tt.
Proof.
  revert w. induction p as [a|e|X e k IH]; intros w; [done..|]. cbn [never_waits unblocked].
  intros [Hr Hk]%andb_true_iff. split.
  - destruct e; try done. by apply bool_decide_eq_true in Hr.
  - cbn [erun net_runs]. destruct (net_act e w) as [x w1]. by apply IH.
Qed.

(** [play] is an execution when no lock is waited for. *)
Lemma play_execs {A} (p : coro net A) w : unblocked p w tt → execs (=) p w (play p w).1 (play p w).2.
Proof.
  intros Hu. unfold play. destruct (run p w tt) as [[r w'] s'] eqn:E. cbn.
  by apply (run_execs p w tt r w' s').
Qed.
End net.

(** ** DNS providers: [dns/base.py] *)

Class DNSProvider := {
  set_txt : str → str → str → coro net unit;     (** domain, name, value *)
  delete_txt : str → str → coro net unit
}.
