(* ===== verification/AcmeClient.v ===== *)
(** * The Let's Encrypt client: [JackdawAcmeClient] and the account key

    The overridden protocol steps of [services/le_client.py] (new order,
    authorization status, DNS-01 fulfilment, finalization and its polling), the
    registry of per-domain locks, the account key on disk and [init_account].
    gufo-acme's own operations are the class [Gufo] and the effects of [Net];
    the DNS provider is any [DNSProvider]. *)
From S2P Require Import Prelude PyStr Json Base64 PyStd Sha256 Models Config Schemas LeClient Coro Crash Os RelayCert Net.

(** gufo-acme and josepy, for one client (the key authorization and the signing
    key are the client's). *)
Class Gufo := {
  domain_to_identifiers : str → list json;
  get_order_status : acme_reply → res str;
  pem_to_der : bytes → res bytes;
  encode_b64jose : bytes → str;
  get_key_authorization : str → bytes
}.

Record AcmeAuthorization := mk_AcmeAuthorization { aa_domain : str; aa_url : str }.
Record AcmeOrder := mk_AcmeOrder { ao_authorizations : list AcmeAuthorization; ao_finalize : str }.
Record AcmeChallenge := mk_AcmeChallenge { ac_type : str; ac_url : str; ac_token : str }.
Record AcmeAuthorizationStatus := mk_AcmeAuthorizationStatus {
  as_status : str; as_challenges : list AcmeChallenge }.

(** [base64url(SHA-256(keyAuthorization))], unpadded. *)
Definition dns01_txt_value (key_authorization : bytes) : str := b64url_encode (sha256 key_authorization).

(** [_FINALIZE_POLL_INTERVAL], [_FINALIZE_POLL_ATTEMPTS]. *)
Definition FINALIZE_POLL_INTERVAL : Z := seconds 2.
Definition FINALIZE_POLL_ATTEMPTS : nat := 60.

Definition acme_failure (msg : str) : exn := AcmeExc AcmeCertificateError msg.

(** [key in d] for a decoded value [d]. *)
Definition py_in (key : str) (d : json) : res bool :=
  match d with
  | JObj kvs => inr (bool_decide (is_Some (dict_get key kvs)))
  | JStr s => inr (str_contains key s)
  | JArr l => inr (existsb (json_eqb (JStr key)) l)
  | _ => inl (PyErr TypeError [])
  end.

Section client.
Context `{Gufo} `{DNSProvider} (propagation_wait : Z) (zone_overrides : list str).

(** ** Orders and authorizations *)

Definition read_challenge (d : json) : res AcmeChallenge :=
  type ← text_field d (u "type"); url ← text_field d (u "url"); token ← text_field d (u "token");
  mret (mk_AcmeChallenge type url token).
(** [[AcmeChallenge(...) for d in l if "token" in d]]. *)
Fixpoint read_challenges (l : list json) : res (list AcmeChallenge) :=
  match l with
  | [] => mret []
  | d :: l =>
      has_token ← py_in (u "token") d;
      if (has_token : bool) then c ← read_challenge d; cs ← read_challenges l; mret (c :: cs)
      else read_challenges l
  end.

Definition get_authorization_status (auth : AcmeAuthorization) : coro net AcmeAuthorizationStatus :=
  resp ← perform_res (NPost (aa_url auth) None);
  lift (data ← acme_json resp;
        status ← text_field data (u "status");
        items ← subscript data (u "challenges"); l ← py_iter items;
        cs ← read_challenges l;
        mret (mk_AcmeAuthorizationStatus status cs)).

(** [[AcmeAuthorization(domain=i["value"], url=a) for i, a in zip(ids, urls, strict=True)]]. *)
Fixpoint read_authorizations (ids urls : list json) : res (list AcmeAuthorization) :=
  match ids, urls with
  | [], [] => mret []
  | i :: ids, a :: urls =>
      value ← text_field i (u "value"); url ← as_text a;
      rest ← read_authorizations ids urls; mret (mk_AcmeAuthorization value url :: rest)
  | _, _ => inl (PyErr ValueError (u "zip"))
  end.

(** The order URL of the [Location] header is kept under the finalize URL. *)
Definition capture_location (resp : acme_reply) (data : json) : coro net unit :=
  match ar_location resp with
  | None => Ret tt
  | Some loc =>
      url ← lift (or_raise (PyErr UnicodeError []) (utf8_decode false loc));
      finalize ← lift (text_field data (u "finalize"));
      perform (NSetUrl finalize url)
  end.

Definition client_new_order (domain : str) : coro net AcmeOrder :=
  let identifiers := domain_to_identifiers domain in
  perform_res NCheckBound ;;
  new_order_url ← perform_res NNewOrderUrl;
  resp ← perform_res (NPost new_order_url (Some (JObj [(u "identifiers", JArr identifiers)])));
  data ← lift (acme_json resp);
  capture_location resp data ;;
  lift (items ← subscript data (u "authorizations"); urls ← py_iter items;
        auths ← read_authorizations identifiers urls;
        finalize ← text_field data (u "finalize");
        mret (mk_AcmeOrder auths finalize)).

(** ** Finalization *)

(** [(await self._post(data["certificate"], None)).content]. *)
Definition download_certificate (data : json) : coro net bytes :=
  url ← lift (text_field data (u "certificate"));
  resp ← perform_res (NPost url None);
  Ret (ar_content resp).

Fixpoint poll_attempts (attempts : nat) (order_uri : str) : coro net bytes :=
  match attempts with
  | O => Raise (acme_failure (u "Order " ++ order_uri ++ u " did not become valid within 120s"))
  | S n =>
      resp ← perform_res (NPost order_uri None);
      status ← lift (get_order_status resp);
      if decide (status = u "valid") then data ← lift (acme_json resp); download_certificate data
      else if decide (status = u "invalid")
      then Raise (acme_failure (u "Order " ++ order_uri ++ u " became invalid during finalization"))
      else perform (NSleep FINALIZE_POLL_INTERVAL) ;; poll_attempts n order_uri
  end.

Definition poll_order_for_cert (order_uri : str) : coro net bytes :=
  perform (NSleep (seconds 1)) ;; poll_attempts FINALIZE_POLL_ATTEMPTS order_uri.

(** The finalize request: the reply, or the stored order URL to recover from. *)
Definition post_finalize (order : AcmeOrder) (stored_order_url : option str) (csr : bytes) :
    coro net (acme_reply + str) :=
  catch
    (der ← lift (pem_to_der csr);
     resp ← perform_res (NPost (ao_finalize order) (Some (JObj [(u "csr", JStr (encode_b64jose der))])));
     Ret (inl resp))
    (λ exc, match exc, stored_order_url with
            | AcmeExc _ msg, Some url => if is_order_already_finalized msg then Ret (inr url) else Raise exc
            | _, _ => Raise exc
            end).

(** The certificate of a finalize response that names no order URL. *)
Definition cert_in_body (resp : acme_reply) : coro net bytes :=
  data ← lift (acme_json resp);
  status ← lift (dict_lookup data (u "status"));
  certificate ← lift (dict_lookup data (u "certificate"));
  if decide (status = Some (JStr (u "valid")) ∧ is_Some certificate) then download_certificate data
  else Raise (acme_failure (u "Finalize response missing Location header and no order URL available")).

Definition finalize_and_wait (order : AcmeOrder) (csr : bytes) : coro net bytes :=
  stored_order_url ← perform (NPopUrl (ao_finalize order));
  outcome ← post_finalize order stored_order_url csr;
  match outcome with
  | inr url => poll_order_for_cert url
  | inl resp =>
      lift (get_order_status resp) ;;
      match ar_location resp, stored_order_url with
      | Some loc, _ =>
          url ← lift (or_raise (PyErr UnicodeError []) (utf8_decode false loc)); poll_order_for_cert url
      | None, Some url => poll_order_for_cert url
      | None, None => cert_in_body resp
      end
  end.

(** ** DNS-01 *)

Definition challenge_name (domain : str) : str := u "_acme-challenge." ++ domain.

Definition fulfill_dns_01 (domain : str) (challenge : AcmeChallenge) : coro net bool :=
  let apex := apex_domain domain zone_overrides in
  let value := dns01_txt_value (get_key_authorization (ac_token challenge)) in
  done ← catch (set_txt apex (challenge_name domain) value ;; Ret true) (λ _, Ret false);
  if (done : bool) then
    (if propagation_wait =? 0 then Ret tt else perform (NSleep (seconds propagation_wait))) ;; Ret true
  else Ret false.

Definition clear_dns_01 (domain : str) : coro net unit :=
  let apex := apex_domain domain zone_overrides in
  catch (delete_txt apex (challenge_name domain)) (λ _, Ret tt).
End client.

(** ** Locks *)

(** [domain_lock]: the registry maps domains to locks, numbered in order of
    creation. *)
Definition domain_lock (locks : gmap str nat) (domain : str) : nat * gmap str nat :=
  match locks !! domain with
  | Some lock => (lock, locks)
  | None => (size locks, <[domain := size locks]> locks)
  end.

(** ** The account *)

Section account.
Context `{KeyExt}.

Definition load_or_create_account_key (key_path : path) : coro os pkey :=
  present ← perform (OsExists key_path);
  if (present : bool) then
    raw ← perform_res (OsRead key_path);
    lift (or_raise (PyErr ValueError []) (load_pem_private_key raw))
  else
    perform_res (OsMkdir (path_parent key_path)) ;;
    seed ← perform OsRandom;
    let private_key := generate_private_key seed in
    perform_res (OsWrite key_path (private_pem private_key)) ;;
    perform_res (OsChmod key_path 384) ;;
    Ret private_key.

Record acme_client := mk_acme_client {
  cl_directory : str; cl_key : pkey; cl_propagation_wait : Z; cl_verify_ssl : bool;
  cl_zone_overrides : list str }.

Definition init_account (cfg : Settings) : coro (os ⊕ net) acme_client :=
  key ← embed_l (load_or_create_account_key (Path_of (le_account_key_path cfg)));
  perform_res (EffR (NNewAccount (acme_email cfg))) ;;
  Ret (mk_acme_client (le_directory cfg) key (dns_propagation_wait cfg) (le_verify_ssl cfg)
         (dns_zone_override_list cfg)).
End account.

(** ** Polling *)

Fixpoint posts (l : list net_event) : nat :=
  match l with [] => 0 | Posted _ _ :: l => S (posts l) | _ :: l => posts l end.
Fixpoint pauses (l : list net_event) : Z :=
  match l with [] => 0 | Slept us :: l => us + pauses l | _ :: l => pauses l end.
Lemma posts_app l k : posts (l ++ k) = (posts l + posts k)%nat.
Proof. induction l as [|[] l IH]; cbn; lia. Qed.
Lemma pauses_app l k : pauses (l ++ k) = pauses l + pauses k.
Proof. induction l as [|[] l IH]; cbn; lia. Qed.

Section polling.
Context `{Gufo} `{Outside}.

(** What [p] adds to the log of a world. *)
Definition logged {A} (p : coro net A) (w : net_state) (P : list net_event → Prop) : Prop :=
  ∃ l, n_log (play p w).2 = l ++ n_log w ∧ P l.

Lemma logged_ret {A} (a : A) w (P : list net_event → Prop) : P [] → logged (Ret a) w P.
Proof. by exists []. Qed.
Lemma logged_lift {A} (r : res A) w (P : list net_event → Prop) : P [] → logged (lift r) w P.
Proof. exists []. by rewrite play_lift. Qed.
Lemma logged_raise {A} e w (P : list net_event → Prop) : P [] → logged (Raise (A:=A) e) w P.
Proof. by exists []. Qed.
Lemma logged_bind {A B} (p : coro net A) (f : A → coro net B) w (P : list net_event → Prop) :
  logged p w (λ l, P l ∧ ∀ a w1, logged (f a) w1 (λ l', P (l' ++ l))) → logged (p ≫= f) w P.
Proof.
  intros (l & Hl & HP & Hf). unfold logged. rewrite play_bind. destruct (play p w) as [[e|a] w1]; cbn in *.
  - by exists l.
  - destruct (Hf a w1) as (l' & Hl' & HP'). exists (l' ++ l). split; [|done].
    by rewrite Hl', Hl, (assoc_L (++)).
Qed.
Lemma logged_post {A} url payload (f : acme_reply → coro net A) w (P : list net_event → Prop) :
  P [Posted url payload] → (∀ r w1, logged (f r) w1 (λ l, P (l ++ [Posted url payload]))) →
  logged (perform_res (NPost url payload) ≫= f) w P.
Proof.
  intros HP Hf. apply logged_bind. exists [Posted url payload]. by rewrite play_perform_res.
Qed.
Lemma logged_sleep {A} us (f : unit → coro net A) w (P : list net_event → Prop) :
  P [Slept us] → (∀ r w1, logged (f r) w1 (λ l, P (l ++ [Slept us]))) →
  logged (perform (NSleep us) ≫= f) w P.
Proof. intros HP Hf. apply logged_bind. exists [Slept us]. by rewrite play_perform. Qed.

#[local] Ltac log_lia :=
  rewrite ?posts_app, ?pauses_app, ?Nat2Z.inj_succ; cbn -[Z.mul Z.add Z.of_nat Z.succ FINALIZE_POLL_INTERVAL]; lia.

Lemma download_cert_log data w : logged (download_certificate data) w (λ l, (posts l ≤ 1)%nat ∧ pauses l = 0).
Proof.
  unfold download_certificate. apply logged_bind, logged_lift. split; [log_lia|]. intros url w1.
  apply logged_post; [log_lia|]. intros r w2. apply logged_ret. log_lia.
Qed.

Lemma poll_attempts_log n uri w :
  logged (poll_attempts n uri) w (λ l, (posts l ≤ n + 1)%nat ∧ pauses l ≤ 2000000 * Z.of_nat n).
Proof.
  pose proof (eq_refl : FINALIZE_POLL_INTERVAL = 2000000) as HI.
  revert w. induction n as [|n IH]; intros w; cbn [poll_attempts]; [apply logged_raise; log_lia|].
  apply logged_post; [log_lia|]. intros resp w1. apply logged_bind, logged_lift. split; [log_lia|].
  intros st w2. case_decide; [|case_decide].
  - apply logged_bind, logged_lift. split; [log_lia|]. intros data w3.
    destruct (download_cert_log data w3) as (l & Hl & Hp & Hs). exists l. split; [done|].
    log_lia.
  - apply logged_raise. log_lia.
  - apply logged_sleep; [log_lia|]. intros [] w3. destruct (IH w3) as (l & Hl & Hp & Hs). exists l.
    split; [done|]. log_lia.
Qed.

(** The CA's side of polling: the order is unfinished for [n] polls, then valid,
    and the certificate it names is downloaded. *)
Inductive becomes_valid (uri : str) : nat → net_state → bytes → net_state → Prop :=
| valid_now w resp w1 url cert w2 :
    net_act (NPost uri None) w = (inr resp, w1) → get_order_status resp = inr (u "valid") →
    (data ← acme_json resp; text_field data (u "certificate")) = inr url →
    net_act (NPost url None) w1 = (inr cert, w2) →
    becomes_valid uri 0 w (ar_content cert) w2
| valid_later n w resp w1 st cert w2 :
    net_act (NPost uri None) w = (inr resp, w1) → get_order_status resp = inr st →
    st ≠ u "valid" → st ≠ u "invalid" →
    becomes_valid uri n (net_act (NSleep FINALIZE_POLL_INTERVAL) w1).2 cert w2 →
    becomes_valid uri (S n) w cert w2.

Lemma download_cert_play data w cert w' :
  play (download_certificate data) w = (inr cert, w') ↔
  ∃ url reply, text_field data (u "certificate") = inr url ∧
    net_act (NPost url None) w = (inr reply, w') ∧ cert = ar_content reply.
Proof.
  unfold download_certificate. rewrite play_bind, play_lift. split.
  - destruct (text_field data _) as [e|url]; [done|]. rewrite play_bind, play_perform_res.
    destruct (net_act (NPost url None) w) as [[e|reply] w1] eqn:E1; [done|]. intros [= <- <-]. eauto.
  - intros (url & reply & -> & Hn & ->). by rewrite play_bind, play_perform_res, Hn.
Qed.

Lemma poll_attempts_play k uri w cert w' :
  play (poll_attempts k uri) w = (inr cert, w') ↔ ∃ n, (n < k)%nat ∧ becomes_valid uri n w cert w'.
Proof.
  revert w. induction k as [|k IH]; intros w; cbn [poll_attempts].
  - split; [done|]. intros (n & ? & _). lia.
  - rewrite play_bind, play_perform_res. split.
    + destruct (net_act (NPost uri None) w) as [[e|resp] w1] eqn:Er; [done|].
      rewrite play_bind, play_lift. destruct (get_order_status resp) as [e|st] eqn:Es; [done|].
      case_decide as Hv; [subst st|case_decide as Hi].
      * rewrite play_bind, play_lift. destruct (acme_json resp) as [e|data] eqn:Ed; [done|].
        intros (url & reply & Hu & Hn & ->)%download_cert_play. exists 0%nat. split; [lia|].
        eapply valid_now; [done|done| |done]. by rewrite Ed.
      * done.
      * rewrite play_bind, play_perform. intros (n & Hn & Hb)%IH. exists (S n). split; [lia|].
        by eapply valid_later.
    + intros (n & Hn & Hb). destruct Hb as [w resp w1 url cert w2 Hr Hs Hu Hc|n w resp w1 st cert w2 Hr Hs Hv Hi Hb].
      * rewrite Hr, play_bind, play_lift, Hs, decide_True by done.
        apply res_bind_inr in Hu as (data & Hd & Hu). rewrite play_bind, play_lift, Hd.
        apply download_cert_play. eauto.
      * rewrite Hr, play_bind, play_lift, Hs, !decide_False by done. rewrite play_bind, play_perform.
        apply IH. exists n. split; [lia|done].
Qed.

Lemma poll_order_play uri w cert w' :
  play (poll_order_for_cert uri) w = (inr cert, w') ↔
  ∃ n, (n < FINALIZE_POLL_ATTEMPTS)%nat ∧ becomes_valid uri n (net_act (NSleep (seconds 1)) w).2 cert w'.
Proof.
  unfold poll_order_for_cert. rewrite play_bind, play_perform. cbv beta iota. apply poll_attempts_play.
Qed.
End polling.

(** ** Finalization recovers *)

Section finalization.
Context `{Gufo} `{Outside}.

(** The world in which the order's captured URL has been taken out. *)
Definition url_taken (order : AcmeOrder) (w : net_state) : net_state :=
  n_with_urls (delete (ao_finalize order) (n_urls w)) w.
Definition finalize_request (order : AcmeOrder) (der : bytes) : net (res acme_reply) :=
  NPost (ao_finalize order) (Some (JObj [(u "csr", JStr (encode_b64jose der))])).

Lemma finalize_not_ready order csr der url kind msg w w1 :
  n_urls w !! ao_finalize order = Some url → pem_to_der csr = inr der →
  net_act (finalize_request order der) (url_taken order w) = (inl (AcmeExc kind msg), w1) →
  is_order_already_finalized msg = true →
  play (finalize_and_wait order csr) w = play (poll_order_for_cert url) w1.
Proof.
  intros Hu Hd Hn Hm. unfold finalize_and_wait. rewrite play_bind, play_perform.
  change (net_act (NPopUrl (ao_finalize order)) w) with (n_urls w !! ao_finalize order, url_taken order w).
  cbn [fst snd]. rewrite Hu. unfold post_finalize.
  rewrite play_bind, play_catch, play_bind, play_lift, Hd.
  rewrite play_bind, play_perform_res. unfold finalize_request in Hn. rewrite Hn, Hm. done.
Qed.

End finalization.

(** ** Orders do not disturb each other's URLs *)

Section isolation.
Context `{Gufo} `{Outside} (f : str).

Definition keeps_url : relation net_state := λ w w', n_urls w' !! f = n_urls w !! f.
#[export] Instance keeps_url_preorder : PreOrder keeps_url.
Proof. unfold keeps_url. split; [done|]. by intros ??? -> ->. Qed.

(** The effects that do not write the entry. *)
Definition spares_url {X} (e : net X) : Prop :=
  match e with NSetUrl g _ | NPopUrl g => g ≠ f | _ => True end.
Lemma spares_url_step {X} (e : net X) w x w' : spares_url e → estep e w x w' → keeps_url w w'.
Proof.
  intros He [_ E]. unfold keeps_url.
  destruct e; cbn in E, He; injection E as _ <-; cbn; rewrite ?lookup_insert_ne, ?lookup_delete_ne by done; done.
Qed.
Lemma safe_spares {X} (e : net X) : spares_url e → safe keeps_url (perform e).
Proof.
  intros He w. apply rg_perform. intros w1 _ x w2 Hs. split; [by eapply spares_url_step|done].
Qed.
Lemma safe_spares_res {X} (e : net (res X)) : spares_url e → safe keeps_url (perform_res e).
Proof.
  intros He w. apply rg_perform_res. intros w1 _ x w2 Hs. split; [by eapply spares_url_step|done].
Qed.

Ltac spares_step :=
  lazymatch goal with
  | |- safe _ (mbind _ (lift _)) => apply safe_lift_bind; intros ? ?
  | |- safe _ (mbind _ _) => apply safe_bind; [apply _| |intros ?]
  | |- safe _ (catch _ _) => apply safe_catch; [apply _| |intros ?]
  | |- safe _ (perform_res _) => apply safe_spares_res; cbn; try done
  | |- safe _ (perform _) => apply safe_spares; cbn; try done
  | |- safe _ (lift _) => apply safe_lift
  | |- safe _ (Ret _) => apply safe_ret
  | |- safe _ (Raise _) => apply safe_raise
  | |- safe _ (match ?x with _ => _ end) => destruct x
  end.
Ltac spares := repeat spares_step.

Lemma poll_spares uri : safe keeps_url (poll_order_for_cert uri).
Proof.
  unfold poll_order_for_cert. spares_step; [spares|]. generalize FINALIZE_POLL_ATTEMPTS.
  intros n. induction n as [|n IH]; cbn [poll_attempts]; [spares|].
  unfold download_certificate. spares. apply IH.
Qed.

Lemma finalize_spares order csr : ao_finalize order ≠ f → safe keeps_url (finalize_and_wait order csr).
Proof.
  intros Hf. unfold finalize_and_wait, post_finalize, cert_in_body, download_certificate.
  spares; apply poll_spares.
Qed.

Lemma authorization_spares auth : safe keeps_url (get_authorization_status auth).
Proof. unfold get_authorization_status. spares. Qed.

Lemma new_order_spares domain :
  (∀ url payload out resp data, (o_post url payload out).1 = inr resp → acme_json resp = inr data →
     text_field data (u "finalize") ≠ inr f) →
  safe keeps_url (client_new_order domain).
Proof.
  intros Hf. unfold client_new_order. do 2 (spares_step; [spares|]).
  intros w. apply rg_bind; [apply _|]. apply rg_perform_res. intros w1 _ x w2 [_ Hs].
  assert (∀ resp, x = inr resp → ∀ data, acme_json resp = inr data → text_field data (u "finalize") ≠ inr f) as Hx.
  { intros resp -> data. injection Hs as Hs _. by eapply Hf. }
  split; [by injection Hs as _ <-|]. intros w3 _. destruct x as [e|resp]; [done|]. specialize (Hx resp eq_refl).
  revert w3. apply safe_lift_bind. intros data Hd. specialize (Hx data Hd).
  unfold capture_location. spares. congruence.
Qed.
End isolation.

(** ** DNS-01 *)

Lemma length_b2a_body bs : (length (b2a_body bs) = (4 * length bs + 2) / 3)%nat.
Proof.
  induction bs as [|a|a b|a b c l IH] using list_ind3; [done..|].
  cbn [b2a_body app length]. rewrite IH. replace (4 * S (S (S (length l))) + 2)%nat with (4 * length l + 2 + 4 * 3)%nat by lia.
  rewrite Nat.div_add by lia. lia.
Qed.

(** A character of the URL-safe alphabet. *)
Definition urlsafe_char (c : Z) : bool :=
  is_digit c || ((65 <=? c) && (c <=? 90)) || ((97 <=? c) && (c <=? 122)) || (c =? 45) || (c =? 95).

Lemma urlsafe_char_sextet v : 0 ≤ v < 64 → urlsafe_char (urlsafe_encode_char (b64_char v)) = true.
Proof.
  intros Hv. assert (forallb (λ v, urlsafe_char (urlsafe_encode_char (b64_char v))) (seqZ 0 64) = true) as HF
    by by vm_compute.
  rewrite forallb_forall in HF. apply HF, list_elem_of_In, elem_of_seqZ. lia.
Qed.

Lemma b64url_encode_chars bs : Forall is_octet bs → Forall (λ c, urlsafe_char c = true) (b64url_encode bs).
Proof.
  intros HF. destruct (urlsafe_b64encode_split bs HF) as [_ ->]. apply Forall_fmap.
  eapply Forall_impl; [by apply b2a_body_sextets|]. intros c (v & Hv & ->). cbn. by apply urlsafe_char_sextet.
Qed.

Lemma dns01_txt_value_shape ka :
  length (dns01_txt_value ka) = 43%nat ∧
  Forall (λ c, urlsafe_char c = true) (dns01_txt_value ka) ∧
  b64url_decode (dns01_txt_value ka) = Some (sha256 ka).
Proof.
  pose proof (sha256_octets ka) as Ho. unfold dns01_txt_value. split_and!.
  - destruct (urlsafe_b64encode_split _ Ho) as [_ ->]. rewrite length_fmap, length_b2a_body, length_sha256. done.
  - by apply b64url_encode_chars.
  - by apply b64url_roundtrip.
Qed.

Section dns01.
Context `{Gufo} `{Outside} `{DNSProvider}.

(** The pause for propagation. *)
Definition propagated (wait : Z) (w : net_state) : net_state :=
  if wait =? 0 then w else (net_act (NSleep (seconds wait)) w).2.

Lemma fulfill_play wait zones domain ch w :
  play (fulfill_dns_01 wait zones domain ch) w =
  let '(r, w1) := play (set_txt (apex_domain domain zones) (challenge_name domain)
                          (dns01_txt_value (get_key_authorization (ac_token ch)))) w in
  match r with inl _ => (inr false, w1) | inr _ => (inr true, propagated wait w1) end.
Proof.
  unfold fulfill_dns_01. rewrite play_bind, play_catch, play_bind.
  destruct (play (set_txt _ _ _) w) as [[e|[]] w1]; [done|]. rewrite play_ret, play_bind.
  unfold propagated. by destruct (wait =? 0).
Qed.
Lemma clear_play zones domain w :
  play (clear_dns_01 zones domain) w =
  (inr tt, (play (delete_txt (apex_domain domain zones) (challenge_name domain)) w).2).
Proof. unfold clear_dns_01. rewrite play_catch. by destruct (play (delete_txt _ _) w) as [[e|[]] w1]. Qed.
End dns01.

(** ** The lock registry *)

(** Locks are numbered below the size of the registry, one per domain. *)
Definition registry_ok (locks : gmap str nat) : Prop :=
  (∀ d n, locks !! d = Some n → (n < size locks)%nat) ∧
  (∀ d d' n, locks !! d = Some n → locks !! d' = Some n → d = d').

Lemma domain_lock_ok locks d : registry_ok locks →
  let '(n, locks') := domain_lock locks d in
  registry_ok locks' ∧ locks' !! d = Some n ∧ locks ⊆ locks' ∧ domain_lock locks' d = (n, locks').
Proof.
  intros [Hlt Hinj]. unfold domain_lock. destruct (locks !! d) as [n|] eqn:Hd; [by rewrite Hd|].
  rewrite lookup_insert_eq. split_and!; [split|done|by apply insert_subseteq|done].
  - intros d' n. rewrite map_size_insert_None by done. destruct (decide (d = d')) as [<-|].
    + rewrite lookup_insert_eq. intros [= <-]. lia.
    + rewrite lookup_insert_ne by done. intros Hn%Hlt. lia.
  - intros d1 d2 n. destruct (decide (d = d1)) as [<-|], (decide (d = d2)) as [<-|];
      rewrite ?lookup_insert_eq, ?lookup_insert_ne by done; [done| | |by apply Hinj].
    + intros [= <-] Hn%Hlt. lia.
    + intros Hn%Hlt [= <-]. lia.
Qed.

(** ** The account key on disk *)

Section key.
Context `{TlsExt} `{KeyLaws} (p : path).

Lemma account_key_written w k w' :
  execs (=) (load_or_create_account_key p) w (inr k) w' →
  ∃ data, read_file p w' = Some data ∧ load_pem_private_key data = Some k.
Proof.
  unfold load_or_create_account_key. intros (? & b & w1 & <- & [-> ->] & He).
  destruct (bool_decide _).
  - destruct He as (? & r & w2 & <- & [-> Hr] & He). destruct r as [e|data]; [by destruct He|].
    apply execs_lift in He as [He ->]. symmetry in He. apply or_raise_inr in He. eauto.
  - destruct He as (? & r & w2 & <- & Hm & He). destruct r as [e|[]]; [by destruct He|].
    destruct He as (? & seed & w3 & <- & Hs & He). cbn in Hs. subst w3.
    destruct He as (? & r & w4 & <- & Hw & He). destruct r as [e|[]]; [by destruct He|].
    destruct He as (? & r & w5 & <- & Hc & He). destruct r as [e|[]]; [by destruct He|].
    destruct He as [<- [= ->]]. destruct Hw as (_ & _ & ->). destruct Hc as (f & Hf & ->).
    exists (private_pem (generate_private_key seed)). split; [|apply load_private_pem].
    rewrite (read_chmod _ _ f) by done. by rewrite read_put, decide_True.
Qed.

Lemma account_key_loaded w data r w' :
  read_file p w = Some data → execs (=) (load_or_create_account_key p) w r w' →
  w' = w ∧ (r = or_raise (PyErr ValueError []) (load_pem_private_key data) ∨ ∃ m, r = inl (OSErr m)).
Proof.
  intros Hd. unfold load_or_create_account_key. intros (? & b & w1 & <- & [-> ->] & He).
  rewrite bool_decide_eq_true_2 in He by (left; unfold read_file in Hd; by apply fmap_Some in Hd as (f & -> & _)).
  destruct He as (? & x & w2 & <- & [-> Hx] & He). destruct x as [e|data'].
  - destruct Hx as [m ->]. destruct He as [<- ->]. eauto.
  - rewrite Hd in Hx. injection Hx as <-. apply execs_lift in He as [-> ->]. eauto.
Qed.

(** Dying inside the first write. *)
Lemma account_key_torn w :
  os_files w !! p = None → p ∉ os_dirs w → no_file (ancestors (path_parent p)) w →
  crashes (=) (load_or_create_account_key p) w
    (put_file p [] (add_dirs (ancestors (path_parent p)) w)).
Proof.
  intros Hp Hd Hn. unfold load_or_create_account_key. right. exists w. split; [done|]. right.
  exists false, w. split.
  { split; [|done]. symmetry. apply bool_decide_eq_false. rewrite Hp. intros [[? ?]|?]; done. }
  right. exists w. split; [done|]. right. exists (inr tt), (add_dirs (ancestors (path_parent p)) w).
  split; [by split|]. right. eexists. split; [done|]. right. exists 0, (add_dirs (ancestors (path_parent p)) w).
  split; [done|]. right. eexists. split; [done|]. left. exists 0%nat. done.
Qed.
End key.

(** ** A concrete client and a scripted CA *)

#[export] Instance toy_gufo : Gufo := {|
  domain_to_identifiers := λ d, [JObj [(u "type", JStr (u "dns")); (u "value", JStr d)]];
  get_order_status := λ r, data ← acme_json r; text_field data (u "status");
  pem_to_der := inr;
  encode_b64jose := b64url_encode;
  get_key_authorization := λ token, token ++ u ".thumbprint" |}.

(** The replies to come. *)
Record script := mk_script { sc_posts : list (res acme_reply); sc_http : list (res http_reply); sc_clock : list Z }.
Definition exhausted {X} : res X := inl (PyErr RuntimeError []).
#[export] Instance scripted : Outside := {|
  outside := script;
  o_http := λ _ s, (default exhausted (head (sc_http s)), mk_script (sc_posts s) (tail (sc_http s)) (sc_clock s));
  o_post := λ _ _ s, (default exhausted (head (sc_posts s)), mk_script (tail (sc_posts s)) (sc_http s) (sc_clock s));
  o_new_order := λ s, (inr (u "https://ca/new-order"), s);
  o_bound := λ _, inr tt;
  o_new_account := λ _ s, (inr tt, s);
  o_clock := λ s, (default 0 (head (sc_clock s)), mk_script (sc_posts s) (sc_http s) (tail (sc_clock s))) |}.

Definition ca_says (text : str) (location : option bytes) : res acme_reply := inr (mk_acme_reply text location).
Definition an_order : AcmeOrder := mk_AcmeOrder [] (u "https://ca/finalize/1").
(** The CA of the examples: the order was finalized already, is processing at the
    first poll, valid at the second. *)
Definition recovering : net_state :=
  mk_net scripted (mk_script
    [inl (AcmeExc AcmeError (u "[403] orderNotReady"));
     ca_says (u' "{'status': 'processing'}") None;
     ca_says (u' "{'status': 'valid', 'certificate': 'https://ca/cert/1'}") None;
     ca_says (u "PEM") None] [] [])
    {[ao_finalize an_order := u "https://ca/order/1"; u "https://ca/finalize/2" := u "https://ca/order/2"]} ∅ [].

(** ** Properties *)

(** C27: polling an order returns a certificate exactly when the CA reports the
    order valid at one of the sixty polls, every earlier poll having found it
    neither valid nor invalid, and the certificate it names is downloaded; the
    result is the content downloaded. *)
Theorem poll_order_iff `{Gufo} `{Outside} uri w cert w' :
  play (poll_order_for_cert uri) w = (inr cert, w') ↔
  ∃ n, (n < 60)%nat ∧ becomes_valid uri n (net_act (NSleep (seconds 1)) w).2 cert w'.
Proof. apply poll_order_play. Qed.

(** Polling ends: whatever the CA answers, it sends at most 61 requests and
    pauses for at most 121 seconds in all. *)
Theorem poll_order_bounded `{Gufo} `{Outside} uri w :
  ∃ l, n_log (play (poll_order_for_cert uri) w).2 = l ++ n_log w ∧
    (posts l ≤ 61)%nat ∧ pauses l ≤ seconds 121.
Proof.
  apply (logged_sleep (seconds 1) (λ _, poll_attempts FINALIZE_POLL_ATTEMPTS uri)); [cbn; split; [lia|done]|].
  intros _ w1. destruct (poll_attempts_log FINALIZE_POLL_ATTEMPTS uri w1) as (l & Hl & Hp & Hs).
  exists l. split; [done|]. rewrite posts_app, pauses_app. unfold FINALIZE_POLL_ATTEMPTS in *.
  unfold seconds. cbn [posts pauses]. lia.
Qed.

(** C29: an order another flow finalized first is recovered: when the CA refuses
    the finalize request with [orderNotReady] and the order then becomes valid
    within sixty polls of the URL captured when it was created, the client
    returns its certificate, and the captured URL is forgotten. *)
Theorem finalize_recovers `{Gufo} `{Outside} order csr der url kind msg n cert w w1 w' :
  n_urls w !! ao_finalize order = Some url → pem_to_der csr = inr der →
  net_act (finalize_request order der) (url_taken order w) = (inl (AcmeExc kind msg), w1) →
  str_contains (u "orderNotReady") msg = true →
  (n < 60)%nat → becomes_valid url n (net_act (NSleep (seconds 1)) w1).2 cert w' →
  play (finalize_and_wait order csr) w = (inr cert, w') ∧ n_urls w1 !! ao_finalize order = None.
Proof.
  intros Hu Hd Hn Hm Hlt Hb. split.
  - rewrite (finalize_not_ready order csr der url kind msg w w1 Hu Hd Hn Hm).
    apply poll_order_play. by exists n.
  - cbn in Hn. injection Hn as _ <-. cbn. apply lookup_delete_eq.
Qed.

Lemma finalize_recovers_witness :
  ∃ w1 w', play (finalize_and_wait an_order (u "CSR")) recovering = (inr (u "PEM"), w') ∧
    n_urls w1 !! ao_finalize an_order = None.
Proof.
  pose (w1 := (net_act (finalize_request an_order (u "CSR")) (url_taken an_order recovering)).2).
  pose (w' := (play (finalize_and_wait an_order (u "CSR")) recovering).2).
  exists w1, w'.
  refine (finalize_recovers an_order (u "CSR") (u "CSR") (u "https://ca/order/1") AcmeError
    (u "[403] orderNotReady") 1 (u "PEM") recovering w1 w' eq_refl eq_refl eq_refl eq_refl _ _); [lia|].
  eapply (valid_later _ 0 _ (mk_acme_reply (u' "{'status': 'processing'}") None) _ (u "processing")).
  - reflexivity.
  - vm_compute. reflexivity.
  - discriminate.
  - discriminate.
  - eapply (valid_now _ _ (mk_acme_reply (u' "{'status': 'valid', 'certificate': 'https://ca/cert/1'}") None) _
      (u "https://ca/cert/1") (mk_acme_reply (u "PEM") None)).
    + reflexivity.
    + vm_compute. reflexivity.
    + vm_compute. reflexivity.
    + reflexivity.
Defined.


(** Replies whose finalize URL is never [f2]. *)
Definition only_first : Outside := {|
  outside := unit;
  o_http := λ _ s, (exhausted, s);
  o_post := λ _ _ s, (ca_says (u' "{'authorizations': [], 'finalize': 'f1', 'status': 'pending'}") None, s);
  o_new_order := λ s, (inr [], s);
  o_bound := λ _, inr tt;
  o_new_account := λ _ s, (inr tt, s);
  o_clock := λ s, (0, s) |}.

(** The DNS-01 record value of any key authorization is 43 characters of the
    URL-safe base64 alphabet (so it needs no quoting in a TXT record) from which
    the CA recovers exactly the SHA-256 digest of the key authorization. *)
Theorem dns01_txt_value_spec key_authorization :
  length (dns01_txt_value key_authorization) = 43%nat ∧
  Forall (λ c, urlsafe_char c = true) (dns01_txt_value key_authorization) ∧
  b64url_decode (dns01_txt_value key_authorization) = Some (sha256 key_authorization).
Proof. apply dns01_txt_value_shape. Qed.

Example dns01_txt_value_ex :
  dns01_txt_value (u "LoqXcYV8q5ONbJQxbmR7SCTNo3tiAXDfowyjxAjEuX0.9jg46WB3rR_AHD-EBXdN7cBkH1WOu0tA3M9fm21mqTI")
  = u "LPsIwTo7o8BoG0-vjCyGQGBWSVIPxI-i_X336eUOQZo".
Proof. vm_compute. reflexivity. Qed.

(** The account key is created once: when the client has loaded or created its
    key, every later start leaves the disk alone and either returns the same key
    or fails because the file cannot be read. *)
Theorem account_key_stable `{TlsExt} `{KeyLaws} p w k w1 r w2 :
  execs (=) (load_or_create_account_key p) w (inr k) w1 →
  execs (=) (load_or_create_account_key p) w1 r w2 →
  w2 = w1 ∧ (r = inr k ∨ ∃ m, r = inl (OSErr m)).
Proof.
  intros (data & Hd & Hk)%account_key_written He.
  destruct (account_key_loaded p w1 data r w2 Hd He) as [-> Hr]. rewrite Hk in Hr. done.
Qed.

Definition key_file_path : path := Path_of (u "/data/le_account.key").
Definition empty_disk : os_state := mk_os ∅ {[Path_of (u "/data")]} 18 None.
Definition created : os_state :=
  (run (load_or_create_account_key key_file_path) empty_disk (mk_os_supply [] [] [])).1.2.
Lemma account_key_stable_witness :
  execs (=) (load_or_create_account_key key_file_path) empty_disk (inr true) created ∧
  ∃ w2, w2 = created ∧ (@inr exn _ true = inr true ∨ ∃ m, @inr exn _ true = inl (OSErr m)).
Proof.
  pose (p := load_or_create_account_key key_file_path). pose (s := mk_os_supply [] [] []).
  assert (execs (=) p empty_disk (inr true) created) as He1.
  { assert ((run p empty_disk s).1.1 = inr true) as <- by (vm_compute; reflexivity). exact (os_run_execs p empty_disk s). }
  assert (execs (=) p created (inr true) (run p created s).1.2) as He2.
  { assert ((run p created s).1.1 = inr true) as <- by (vm_compute; reflexivity). exact (os_run_execs p created s). }
  split; [exact He1|]. eexists. exact (account_key_stable key_file_path empty_disk true created (inr true) _ He1 He2).
Defined.

(** C37: creating the account key is not atomic: on a disk without the key, the
    process may die inside the first write, and the file it leaves, which is no
    PEM text, makes every later start fail. *)
Theorem account_key_crash `{TlsExt} `{KeyExt} p w :
  os_files w !! p = None → p ∉ os_dirs w → no_file (ancestors (path_parent p)) w →
  load_pem_private_key [] = None →
  ∃ w', crashes (=) (load_or_create_account_key p) w w' ∧
    ∀ r w2, execs (=) (load_or_create_account_key p) w' r w2 → ∃ e, r = inl e.
Proof.
  intros Hp Hd Hn Hl. eexists. split; [by apply account_key_torn|]. intros r w2 He.
  apply (account_key_loaded p _ []) in He as [_ [->|[m ->]]]; [rewrite Hl; eauto|eauto|].
  by rewrite read_put, decide_True.
Qed.

Lemma account_key_crash_witness :
  ∃ w', crashes (=) (load_or_create_account_key key_file_path) empty_disk w' ∧
    ∀ r w2, execs (=) (load_or_create_account_key key_file_path) w' r w2 → ∃ e, r = inl e.
Proof.
  apply (account_key_crash key_file_path empty_disk); [reflexivity| | |reflexivity].
  - apply (bool_decide_unpack _). vm_compute. exact I.
  - apply (bool_decide_unpack _). vm_compute. exact I.
Defined.
