(* ===== verification/DnsJson.v ===== *)
(** * DNS providers over JSON: [dns/providers/null.py], [porkbun.py], [cloudflare.py]

    Each provider is a [DNSProvider] built from its credentials.  A record is
    created by one request, and deleted by listing the matching records and
    deleting each by its id. *)
From S2P Require Import Prelude PyStr Json External PyStd Models Schemas Jws Coro Net.

(** [NullDNSProvider]. *)
Definition NullDNSProvider : DNSProvider := {|
  set_txt := λ domain name value, Ret tt;
  delete_txt := λ domain name, Ret tt |}.

(** Sends a request and raises for an error status. *)
Definition send (rq : http_request) : coro net http_reply :=
  r ← perform_res (NHttp rq); lift (raise_for_status r) ;; Ret r.

(** [r.json().get(key, [])]. *)
Definition json_list (key : str) (r : http_reply) : res json :=
  data ← reply_json r; found ← dict_lookup data key; mret (default (JArr []) found).

Fixpoint for_each {A} (l : list A) (f : A → coro net unit) : coro net unit :=
  match l with [] => Ret tt | x :: l => f x ;; for_each l f end.

(** [x.removesuffix(f".{domain}")]. *)
Definition relative_name (domain name : str) : str := removesuffix name (46 :: domain).

Section json_providers.
Context `{Ext}.

(** [f"{record['id']}"]. *)
Definition record_id (record : json) : res str := py_format <$> subscript record (u "id").

(** ** Porkbun *)

Record porkbun_settings := mk_porkbun_settings { pb_api_key : str; pb_secret_api_key : str }.
Definition porkbun_url : str := u "https://api.porkbun.com/api/json/v3".

Section porkbun.
Context (s : porkbun_settings).
Definition porkbun_auth : list (str * json) :=
  [(u "apikey", JStr (pb_api_key s)); (u "secretapikey", JStr (pb_secret_api_key s))].
Definition porkbun_post (path : str) (fields : list (str * json)) : http_request :=
  mk_http_request (u "POST") (porkbun_url ++ path) [] [] (JsonBody (JObj (porkbun_auth ++ fields))).

Definition porkbun_set_txt (domain name value : str) : coro net unit :=
  let subdomain := relative_name domain name in
  send (porkbun_post (u "/dns/create/" ++ domain)
    [(u "name", JStr subdomain); (u "type", JStr (u "TXT")); (u "content", JStr value); (u "ttl", JInt 120)]) ;;
  Ret tt.

(** The status of a deletion is not looked at. *)
Definition porkbun_delete_txt (domain name : str) : coro net unit :=
  let subdomain := relative_name domain name in
  r ← send (porkbun_post (u "/dns/retrieveByNameType/" ++ domain ++ u "/TXT/" ++ subdomain) []);
  records ← lift (json_list (u "records") r ≫= py_iter);
  for_each records (λ record,
    id ← lift (record_id record);
    perform_res (NHttp (porkbun_post (u "/dns/delete/" ++ domain ++ u "/" ++ id) [])) ;; Ret tt).

Definition PorkbunDNSProvider : DNSProvider :=
  {| set_txt := porkbun_set_txt; delete_txt := porkbun_delete_txt |}.
End porkbun.

(** ** Cloudflare *)

Definition cloudflare_url : str := u "https://api.cloudflare.com/client/v4".

Section cloudflare.
Context (api_token : str).
Definition cloudflare_rq (method path : str) (params : list (str * str)) (body : http_body) : http_request :=
  mk_http_request method (cloudflare_url ++ path) params
    [(u "Authorization", u "Bearer " ++ api_token); (u "Content-Type", u "application/json")] body.

(** [zones[0]["id"]]. *)
Definition first_id (zones : json) : res json :=
  match zones with
  | JArr (z :: _) => subscript z (u "id")
  | JObj _ => inl (PyErr KeyError [])
  | _ => inl (PyErr TypeError [])
  end.

Definition get_zone_id (domain : str) : coro net str :=
  r ← send (cloudflare_rq (u "GET") (u "/zones") [(u "name", domain); (u "status", u "active")] NoBody);
  zones ← lift (json_list (u "result") r);
  if negb (py_truthy zones)
  then Raise (PyErr ValueError (u "No active Cloudflare zone found for " ++ repr_str domain))
  else id ← lift (first_id zones); Ret (py_format id).

Definition cloudflare_set_txt (domain name value : str) : coro net unit :=
  zone_id ← get_zone_id domain;
  send (cloudflare_rq (u "POST") (u "/zones/" ++ zone_id ++ u "/dns_records") []
    (JsonBody (JObj [(u "type", JStr (u "TXT")); (u "name", JStr name); (u "content", JStr value);
                     (u "ttl", JInt 120)]))) ;;
  Ret tt.

Definition cloudflare_delete_txt (domain name : str) : coro net unit :=
  zone_id ← get_zone_id domain;
  r ← send (cloudflare_rq (u "GET") (u "/zones/" ++ zone_id ++ u "/dns_records")
        [(u "type", u "TXT"); (u "name", name)] NoBody);
  records ← lift (json_list (u "result") r ≫= py_iter);
  for_each records (λ record,
    id ← lift (record_id record);
    send (cloudflare_rq (u "DELETE") (u "/zones/" ++ zone_id ++ u "/dns_records/" ++ id) [] NoBody) ;; Ret tt).

Definition CloudflareDNSProvider : DNSProvider :=
  {| set_txt := cloudflare_set_txt; delete_txt := cloudflare_delete_txt |}.
End cloudflare.
End json_providers.

(** ** Deleting every record *)

Section deletion.
Context `{Ext} `{Outside}.

(** One deletion per id, in order, each with an answer that is accepted. *)
Inductive deletes (accept : http_reply → bool) (rq : str → http_request) : list str → net_state → net_state → Prop :=
| deletes_nil w : deletes accept rq [] w w
| deletes_cons id ids w r w1 w2 :
    net_act (NHttp (rq id)) w = (inr r, w1) → accept r = true → deletes accept rq ids w1 w2 →
    deletes accept rq (id :: ids) w w2.

Fixpoint record_ids (records : list json) : res (list str) :=
  match records with
  | [] => inr []
  | r :: records => id ← record_id r; ids ← record_ids records; inr (id :: ids)
  end.

Lemma send_play rq w r w' :
  play (send rq) w = (inr r, w') ↔ net_act (NHttp rq) w = (inr r, w') ∧ is_success r = true.
Proof.
  unfold send. rewrite play_bind, play_perform_res.
  destruct (net_act (NHttp rq) w) as [[e|r0] w1]; [by split; [|intros [? _]]|].
  rewrite play_bind, play_lift. unfold raise_for_status. destruct (is_success r0) eqn:E.
  - rewrite play_ret. split; [by intros [= <- <-]|by intros [[= <- <-] _]].
  - split; [done|]. intros [[= -> ->] ?]. congruence.
Qed.

Lemma any_play rq w r w' :
  play (perform_res (NHttp rq)) w = (inr r, w') ↔ net_act (NHttp rq) w = (inr r, w') ∧ true = true.
Proof. rewrite play_perform_res. by split; [|intros [? _]]. Qed.

(** The loop over the listed records, for requests sent and accepted in some way. *)
Lemma for_each_play (accept : http_reply → bool) (call : http_request → coro net http_reply)
    (rq : str → http_request) records w w' :
  (∀ rq w r w', play (call rq) w = (inr r, w') ↔ net_act (NHttp rq) w = (inr r, w') ∧ accept r = true) →
  play (for_each records (λ record, id ← lift (record_id record); call (rq id) ;; Ret tt)) w = (inr tt, w') ↔
  ∃ ids, record_ids records = inr ids ∧ deletes accept rq ids w w'.
Proof.
  intros Hcall. revert w. induction records as [|record records IH]; intros w; cbn [for_each].
  - rewrite play_ret. split.
    + intros [= <-]. exists []. split; [done|constructor].
    + intros (ids & [= <-] & Hd). by inversion Hd.
  - rewrite play_bind, play_bind, play_lift. cbn [record_ids].
    destruct (record_id record) as [e|id]; [split; [done|by intros (? & ? & ?)]|]. rewrite play_bind.
    destruct (play (call (rq id)) w) as [[e|r] w1] eqn:Es.
    + split; [done|]. intros (ids & Hids & Hd). cbn in Hids. apply res_bind_inr in Hids as (ids' & _ & [= <-]).
      inversion Hd as [|? ? ? r ? ? Hn Hr]; subst.
      assert (play (call (rq id)) w = (inr r, w2)) as E by (by apply Hcall). congruence.
    + rewrite play_ret, IH. apply Hcall in Es as [Hn Hr]. split.
      * intros (ids & Hids & Hd). exists (id :: ids). split; [|by eapply deletes_cons].
        cbn. by rewrite Hids.
      * intros (ids & Hids & Hd). cbn in Hids. apply res_bind_inr in Hids as (ids' & Hids & [= <-]). exists ids'. split; [done|].
        inversion Hd as [|? ? ? r' ? ? Hn' Hr' Hd']; subst. rewrite Hn in Hn'. by injection Hn' as <- <-.
Qed.

(** A listing that succeeds, and the deletion of what it lists. *)
Definition lists_and_deletes (list_rq : http_request) (key : str) (accept : http_reply → bool)
    (delete_rq : str → http_request) (w w' : net_state) : Prop :=
  ∃ reply w1 records ids,
    net_act (NHttp list_rq) w = (inr reply, w1) ∧ is_success reply = true ∧
    json_list key reply ≫= py_iter = inr records ∧ record_ids records = inr ids ∧
    deletes accept delete_rq ids w1 w'.
Lemma list_delete_play list_rq key accept call delete_rq w w' :
  (∀ rq w r w', play (call rq) w = (inr r, w') ↔ net_act (NHttp rq) w = (inr r, w') ∧ accept r = true) →
  play (r ← send list_rq; records ← lift (json_list key r ≫= py_iter);
        for_each records (λ record, id ← lift (record_id record); call (delete_rq id) ;; Ret tt)) w = (inr tt, w') ↔
  lists_and_deletes list_rq key accept delete_rq w w'.
Proof.
  intros Hcall. unfold lists_and_deletes. rewrite play_bind.
  destruct (play (send list_rq) w) as [[e|reply] w1] eqn:El.
  - split; [done|]. intros (reply & v1 & records & ids & Hn & Hr & _).
    assert (play (send list_rq) w = (inr reply, v1)) as E by (by apply send_play). congruence.
  - rewrite play_bind, play_lift. pose proof El as [Hn Hr]%send_play. split.
    + destruct (_ ≫= _) as [e|records] eqn:Ej; [done|].
      intros (ids & Hids & Hd)%(for_each_play accept call delete_rq); [|done]. eauto 12.
    + intros (reply' & v1 & records & ids & Hn' & _ & Hj & Hids & Hd).
      rewrite Hn in Hn'. injection Hn' as <- <-. rewrite Hj.
      apply (for_each_play accept call delete_rq); [done|]. eauto.
Qed.

(** The requests of Cloudflare's listing and deletion. *)
Definition cloudflare_list_rq (token zone_id name : str) : http_request :=
  cloudflare_rq token (u "GET") (u "/zones/" ++ zone_id ++ u "/dns_records") [(u "type", u "TXT"); (u "name", name)] NoBody.
Definition cloudflare_delete_rq (token zone_id id : str) : http_request :=
  cloudflare_rq token (u "DELETE") (u "/zones/" ++ zone_id ++ u "/dns_records/" ++ id) [] NoBody.
End deletion.

(** ** Properties *)

(** Cloudflare's [delete_txt] returns exactly when the zone was found, the
    listing of the TXT records of that name succeeded, and every record listed
    was deleted by its id, in order, each with a success status; the first
    failure raises. *)
Theorem cloudflare_delete_txt_spec `{Ext} `{Outside} token domain name w w' :
  play (cloudflare_delete_txt token domain name) w = (inr tt, w') ↔
  ∃ zone_id w1, play (get_zone_id token domain) w = (inr zone_id, w1) ∧
    lists_and_deletes (cloudflare_list_rq token zone_id name) (u "result") is_success
      (cloudflare_delete_rq token zone_id) w1 w'.
Proof.
  unfold cloudflare_delete_txt. rewrite play_bind.
  destruct (play (get_zone_id token domain) w) as [[e|zone_id] w1] eqn:Ez;
    [split; [done|by intros (? & ? & ? & _)]|].
  pose proof (list_delete_play (cloudflare_list_rq token zone_id name) (u "result") is_success send
    (cloudflare_delete_rq token zone_id) w1 w' send_play) as Hp. split.
  - intros Hd. exists zone_id, w1. split; [done|]. by apply Hp.
  - intros (z & v1 & [= <- <-] & Hd). by apply Hp.
Qed.

(** Porkbun's [delete_txt] returns when the listing succeeded and every record
    listed was asked to be deleted, whatever the service answered to that. *)
Theorem porkbun_delete_txt_spec `{Ext} `{Outside} s domain name w w' :
  play (porkbun_delete_txt s domain name) w = (inr tt, w') ↔
  lists_and_deletes
    (porkbun_post s (u "/dns/retrieveByNameType/" ++ domain ++ u "/TXT/" ++ relative_name domain name) [])
    (u "records") (λ _, true) (λ id, porkbun_post s (u "/dns/delete/" ++ domain ++ u "/" ++ id) []) w w'.
Proof.
  apply (list_delete_play _ _ _ (λ rq, perform_res (NHttp rq))
    (λ id, porkbun_post s (u "/dns/delete/" ++ domain ++ u "/" ++ id) [])). intros. apply any_play.
Qed.
