(* ===== verification/Namecheap.v ===== *)
(** * The Namecheap provider: [dns/providers/namecheap.py]

    The API replaces the whole host list of a domain, so both operations read
    the list, change it and write it back, under a lock of the domain. *)
From S2P Require Import Prelude PyStr Json Xml Models Coro Net DnsJson.

Record namecheap_settings := mk_namecheap_settings {
  nc_api_user : str; nc_api_key : str; nc_username : str; nc_client_ip : str }.

Definition NC_URL : str := u "https://api.namecheap.com/xml.response".
Definition NC_NS : str := u "http://api.namecheap.com/xml.response".

Record host := mk_host { h_name : str; h_type : str; h_address : str; h_mx_pref : str; h_ttl : str }.
#[export] Instance host_eq_dec : EqDecision host.
Proof. solve_decision. Defined.

(** [domain.split(".", 1)] into two. *)
Fixpoint split_domain (domain : str) : res (str * str) :=
  match domain with
  | [] => inl (PyErr ValueError (u "not enough values to unpack"))
  | c :: d => if c =? 46 then inr ([], d) else x ← split_domain d; mret (c :: x.1, x.2)
  end.

(** [async with self._lock_for(domain): p]. *)
Definition with_lock {A} (domain : str) (p : coro net A) : coro net A :=
  perform (NAcquire domain) ;;
  a ← catch p (λ e, perform (NRelease domain) ;; Raise e);
  perform (NRelease domain) ;;
  Ret a.

Section namecheap.
Context `{XmlParser} (s : namecheap_settings).

Definition nc_base_params (command sld tld : str) : list (str * str) :=
  [(u "ApiUser", nc_api_user s); (u "ApiKey", nc_api_key s);
   (u "UserName", match nc_username s with [] => nc_api_user s | n => n end);
   (u "ClientIp", nc_client_ip s); (u "Command", command); (u "SLD", sld); (u "TLD", tld)].

Definition nc_parse (r : http_reply) : res element := or_raise (PyErr ParseError []) (fromstring (rp_text r)).
Definition check_status (root : element) : res unit :=
  if decide (attr (u "Status") root = Some (u "OK")) then inr tt
  else
    let errors := (λ e, default [] (e_text e)) <$> findall_deep (qualified NC_NS (u "Error")) root in
    let msg := match join (u "; ") errors with [] => u "Unknown error" | m => m end in
    inl (PyErr RuntimeError (u "Namecheap API error: " ++ msg)).

Definition read_host (h : element) : host :=
  mk_host (attr_default (u "Name") [] h) (attr_default (u "Type") [] h) (attr_default (u "Address") [] h)
    (attr_default (u "MXPref") (u "10") h) (attr_default (u "TTL") (u "1800") h).

Definition get_hosts_rq (sld tld : str) : http_request :=
  mk_http_request (u "GET") NC_URL (nc_base_params (u "namecheap.domains.dns.getHosts") sld tld) [] NoBody.
Definition get_hosts (sld tld : str) : coro net (list host) :=
  r ← send (get_hosts_rq sld tld);
  root ← lift (nc_parse r);
  lift (check_status root) ;;
  Ret (read_host <$> findall_deep (qualified NC_NS (u "host")) root).

(** The numbered form fields of the hosts, from [i]. *)
Fixpoint host_fields (i : Z) (hosts : list host) : list (str * str) :=
  match hosts with
  | [] => []
  | h :: hosts =>
      let n := str_of_int i in
      [(u "HostName" ++ n, h_name h); (u "RecordType" ++ n, h_type h); (u "Address" ++ n, h_address h);
       (u "MXPref" ++ n, h_mx_pref h); (u "TTL" ++ n, h_ttl h)] ++ host_fields (i + 1) hosts
  end.
Definition set_hosts_rq (sld tld : str) (hosts : list host) : http_request :=
  mk_http_request (u "POST") NC_URL [] []
    (FormBody (nc_base_params (u "namecheap.domains.dns.setHosts") sld tld ++ host_fields 1 hosts)).
Definition set_hosts (sld tld : str) (hosts : list host) : coro net unit :=
  r ← send (set_hosts_rq sld tld hosts);
  lift (root ← nc_parse r; check_status root).

(** The host list with a TXT record added, and without the TXT records of a name. *)
Definition add_txt (rel_name value : str) (hosts : list host) : list host :=
  hosts ++ [mk_host rel_name (u "TXT") value (u "10") (u "120")].
Definition is_txt (rel_name : str) (h : host) : Prop := h_type h = u "TXT" ∧ h_name h = rel_name.
#[export] Instance is_txt_dec rel_name h : Decision (is_txt rel_name h).
Proof. unfold is_txt. apply _. Defined.
Definition drop_txt (rel_name : str) (hosts : list host) : list host :=
  filter (λ h, ¬ is_txt rel_name h) hosts.

Definition namecheap_set_txt (domain name value : str) : coro net unit :=
  x ← lift (split_domain domain); let '(sld, tld) := x in
  let rel_name := relative_name domain name in
  with_lock domain
    (hosts ← get_hosts sld tld;
     set_hosts sld tld (add_txt rel_name value hosts)).

Definition namecheap_delete_txt (domain name : str) : coro net unit :=
  x ← lift (split_domain domain); let '(sld, tld) := x in
  let rel_name := relative_name domain name in
  with_lock domain
    (hosts ← get_hosts sld tld;
     let kept := drop_txt rel_name hosts in
     if (length kept <? length hosts)%nat then set_hosts sld tld kept else Ret tt).

Definition NamecheapDNSProvider : DNSProvider :=
  {| set_txt := namecheap_set_txt; delete_txt := namecheap_delete_txt |}.
End namecheap.

(** ** Concurrent operations are atomic *)

Inductive nc_op := AddTxt (domain name value : str) | DropTxt (domain name : str).
Definition op_domain (op : nc_op) : str := match op with AddTxt d _ _ | DropTxt d _ => d end.
Definition op_key (op : nc_op) : option (str * str) :=
  match split_domain (op_domain op) with inr k => Some k | inl _ => None end.
(** The atomic operation on a host list. *)
Definition op_apply (op : nc_op) (hosts : list host) : list host :=
  match op with
  | AddTxt d n v => add_txt (relative_name d n) v hosts
  | DropTxt d n => drop_txt (relative_name d n) hosts
  end.
Definition op_code `{XmlParser} (s : namecheap_settings) (op : nc_op) : coro net unit :=
  match op with
  | AddTxt d n v => @set_txt (NamecheapDNSProvider s) d n v
  | DropTxt d n => @delete_txt (NamecheapDNSProvider s) d n
  end.

Lemma split_domain_inv d k : split_domain d = inr k → d = k.1 ++ 46 :: k.2.
Proof.
  revert k. induction d as [|c d IH]; intros k; [done|]. cbn [split_domain].
  destruct (Z.eqb_spec c 46) as [->|]; [by intros [= <-]|].
  intros (x & Hx & [= <-])%res_bind_inr. cbn. f_equal. by apply IH.
Qed.
Lemma op_key_domain op op' k : op_key op = Some k → op_key op' = Some k → op_domain op = op_domain op'.
Proof.
  unfold op_key. intros H1 H2. destruct (split_domain (op_domain op)) eqn:E1; [done|].
  destruct (split_domain (op_domain op')) eqn:E2; [done|].
  rewrite (split_domain_inv _ _ E1), (split_domain_inv _ _ E2). congruence.
Qed.

Lemma drop_txt_id rel hosts : (length (drop_txt rel hosts) <? length hosts)%nat = false → drop_txt rel hosts = hosts.
Proof.
  intros Hl%Nat.ltb_ge. unfold drop_txt in *. induction hosts as [|h hosts IH]; [done|].
  rewrite filter_cons in *. pose proof (length_filter (λ h, ¬ is_txt rel h) hosts).
  case_decide; cbn in Hl; [|lia]. f_equal. apply IH. lia.
Qed.

(** What the provider's service is documented to do: the host list of a domain is
    read and replaced as a whole. *)
Section service.
Context `{XmlParser} `{Outside} (s : namecheap_settings).

(** A reply the provider accepts, with its document. *)
Definition accepted (r : res http_reply) : option element :=
  match r with
  | inr rp =>
      if is_success rp then
        match nc_parse rp with
        | inr root => match check_status root with inr _ => Some root | inl _ => None end
        | inl _ => None
        end
      else None
  | inl _ => None
  end.

Class HostService (zone : outside → str * str → list host) := {
  hs_get k out r out' : o_http (get_hosts_rq s k.1 k.2) out = (r, out') →
    (∀ k', zone out' k' = zone out k') ∧
    ∀ root, accepted r = Some root →
      read_host <$> findall_deep (qualified NC_NS (u "host")) root = zone out k;
  hs_set k hosts out r out' : o_http (set_hosts_rq s k.1 k.2 hosts) out = (r, out') →
    (∀ k', k' ≠ k → zone out' k' = zone out k') ∧
    (zone out' k = hosts ∨ (accepted r = None ∧ zone out' k = zone out k))
}.
End service.
Arguments hs_get {_ _ _ _ _} k out r out'.
Arguments hs_set {_ _ _ _ _} k hosts out r out'.

Section pool.
Context `{XmlParser} `{Outside} (s : namecheap_settings) (zone : outside → str * str → list host).
Context `{!HostService s zone} (ops : list nc_op).

(** The operations run as coroutines of one process, in any interleaving. *)
Inductive pool_step : net_state * list (coro net unit) → net_state * list (coro net unit) → Prop :=
| pool_move w ts i X (e : net X) k x w' :
    ts !! i = Some (Vis e k) → estep e w x w' → pool_step (w, ts) (w', <[i := k x]> ts).

(** Where an operation stands; [committed]: its change is in the host list. *)
Inductive stage :=
| Waiting | Reading | Writing (hosts : list host) | Leaving (ok committed : bool) | Left (ok committed : bool).
Definition inside (st : stage) : bool :=
  match st with Reading | Writing _ | Leaving _ _ => true | _ => false end.
Definition has_committed (st : stage) : bool := match st with Leaving _ c | Left _ c => c | _ => false end.

Definition after_get (op : nc_op) (r : res http_reply) (st : stage) : Prop :=
  match accepted r with
  | None => st = Leaving false false
  | Some root =>
      let hosts := read_host <$> findall_deep (qualified NC_NS (u "host")) root in
      st = Writing hosts ∨ (op_apply op hosts = hosts ∧ st = Leaving true true)
  end.
Definition after_set (r : res http_reply) (st : stage) : Prop :=
  match accepted r with Some _ => st = Leaving true true | None => ∃ c, st = Leaving false c end.

(** The protocol: what is left of an operation that stands at a stage. *)
Fixpoint follows (op : nc_op) (st : stage) (p : coro net unit) : Prop :=
  match p with
  | Ret _ => st = Left true true
  | Raise _ => st = Waiting ∨ ∃ c, st = Left false c
  | Vis e k =>
      (match e in net X return (X → stage → Prop) → Prop with
       | NAcquire d => λ K, st = Waiting ∧ d = op_domain op ∧ is_Some (op_key op) ∧ K tt Reading
       | NRelease d => λ K, d = op_domain op ∧ ∃ ok c, st = Leaving ok c ∧ K tt (Left ok c)
       | NHttp rq => λ K,
           ∃ k, op_key op = Some k ∧
           ((st = Reading ∧ rq = get_hosts_rq s k.1 k.2 ∧ ∀ r, ∃ st', after_get op r st' ∧ K r st') ∨
            (∃ hosts, st = Writing hosts ∧ rq = set_hosts_rq s k.1 k.2 (op_apply op hosts) ∧
               ∀ r st', after_set r st' → K r st'))
       | _ => λ _, False
       end) (λ x st', follows op st' (k x))
  end.

(** The two requests, once the reply is there. *)
Definition read_reply (r : res http_reply) : res (list host) :=
  rp ← r; raise_for_status rp ;; root ← nc_parse rp; check_status root ;;
  mret (read_host <$> findall_deep (qualified NC_NS (u "host")) root).
Definition write_reply (r : res http_reply) : res unit :=
  rp ← r; raise_for_status rp ;; root ← nc_parse rp; check_status root.

Lemma get_hosts_vis sld tld : ∃ k, get_hosts s sld tld = Vis (NHttp (get_hosts_rq s sld tld)) k ∧
  ∀ r, k r = lift (read_reply r).
Proof.
  eexists. split; [reflexivity|]. intros [e|rp]; [done|]. cbn. unfold raise_for_status.
  destruct (is_success rp); [|done]. cbn. destruct (nc_parse rp) as [e|root]; [done|]. cbn.
  by destruct (check_status root).
Qed.
Lemma set_hosts_vis sld tld hosts : ∃ k, set_hosts s sld tld hosts = Vis (NHttp (set_hosts_rq s sld tld hosts)) k ∧
  ∀ r, k r = lift (write_reply r).
Proof.
  eexists. split; [reflexivity|]. intros [e|rp]; [done|]. cbn. unfold raise_for_status.
  destruct (is_success rp); [|done]. cbn. done.
Qed.
Lemma read_reply_spec r :
  match accepted r with
  | Some root => read_reply r = inr (read_host <$> findall_deep (qualified NC_NS (u "host")) root)
  | None => ∃ e, read_reply r = inl e
  end.
Proof.
  unfold accepted, read_reply. destruct r as [e|rp]; [by exists e|]. cbn. unfold raise_for_status.
  destruct (is_success rp); [|by eexists]. cbn. destruct (nc_parse rp) as [e|root]; [by exists e|]. cbn.
  destruct (check_status root) as [e|[]]; [by exists e|done].
Qed.
Lemma write_reply_spec r :
  match accepted r with Some _ => write_reply r = inr tt | None => ∃ e, write_reply r = inl e end.
Proof.
  unfold accepted, write_reply. destruct r as [e|rp]; [by exists e|]. cbn. unfold raise_for_status.
  destruct (is_success rp); [|by eexists]. cbn. destruct (nc_parse rp) as [e|root]; [by exists e|]. cbn.
  destruct (check_status root) as [e|[]]; [by exists e|done].
Qed.

(** The part of [with_lock] after the lock is taken. *)
Definition locked_part (d : str) (p : coro net unit) : coro net unit :=
  a ← catch p (λ e, perform (NRelease d) ;; Raise e); perform (NRelease d) ;; Ret a.

Lemma locked_ok op : follows op (Leaving true true) (locked_part (op_domain op) (Ret tt)).
Proof. cbn. split; [done|]. by exists true, true. Qed.
Lemma locked_err op c e : follows op (Leaving false c) (locked_part (op_domain op) (Raise e)).
Proof. cbn. split; [done|]. exists false, c. split; [done|]. eauto. Qed.

Lemma writing_follows op k hosts : op_key op = Some k →
  follows op (Writing hosts) (locked_part (op_domain op) (set_hosts s k.1 k.2 (op_apply op hosts))).
Proof.
  intros Hk. destruct (set_hosts_vis k.1 k.2 (op_apply op hosts)) as (f & -> & Hf).
  exists k. split; [done|]. right. exists hosts. split_and!; [done..|]. intros r st Hst.
  change (follows op st (locked_part (op_domain op) (f r))). rewrite Hf.
  unfold after_set in Hst. pose proof (write_reply_spec r) as Hr. destruct (accepted r).
  - subst st. rewrite Hr. apply locked_ok.
  - destruct Hst as [c ->], Hr as [e ->]. apply locked_err.
Qed.

(** Reading, then the part of the operation that writes. *)
Lemma reading_follows op k (f : list host → coro net unit) : op_key op = Some k →
  (∀ hosts, f hosts = set_hosts s k.1 k.2 (op_apply op hosts) ∨ (op_apply op hosts = hosts ∧ f hosts = Ret tt)) →
  follows op Reading (locked_part (op_domain op) (get_hosts s k.1 k.2 ≫= f)).
Proof.
  intros Hk Hf. destruct (get_hosts_vis k.1 k.2) as (g & -> & Hg).
  exists k. split; [done|]. left. split_and!; [done..|]. intros r.
  change (∃ st', after_get op r st' ∧ follows op st' (locked_part (op_domain op) (g r ≫= f))).
  rewrite Hg. unfold after_get. pose proof (read_reply_spec r) as Hr.
  destruct (accepted r) as [root|]; [|destruct Hr as [e ->]].
  - rewrite Hr. set (hosts := read_host <$> _). cbn [lift]. change (Ret hosts ≫= f) with (f hosts).
    destruct (Hf hosts) as [->|[Hid ->]].
    + exists (Writing hosts). split; [by left|]. by apply writing_follows.
    + exists (Leaving true true). split; [by right|]. apply locked_ok.
  - exists (Leaving false false). split; [done|]. apply locked_err.
Qed.

Lemma code_follows op : follows op Waiting (op_code s op).
Proof.
  destruct op as [d n v|d n]; cbn [op_code set_txt delete_txt NamecheapDNSProvider];
    [unfold namecheap_set_txt|unfold namecheap_delete_txt];
    (destruct (split_domain d) as [e|[sld tld]] eqn:Ed; [by left|]).
  - assert (op_key (AddTxt d n v) = Some (sld, tld)) as Hk by (unfold op_key; cbn; by rewrite Ed).
    split_and!; [done..|by eexists|].
    apply (reading_follows (AddTxt d n v) (sld, tld)); [done|]. intros hosts. by left.
  - assert (op_key (DropTxt d n) = Some (sld, tld)) as Hk by (unfold op_key; cbn; by rewrite Ed).
    split_and!; [done..|by eexists|].
    apply (reading_follows (DropTxt d n) (sld, tld)); [done|]. intros hosts. cbv zeta.
    destruct (_ <? _)%nat eqn:Hl; [by left|right]. split; [|done]. by apply drop_txt_id.
Qed.

(** *** The invariant of the pool *)

(** The operation of coroutine [i], on the host list of one domain. *)
Definition apply_at (k : str * str) (hosts : list host) (i : nat) : list host :=
  match ops !! i with
  | Some op => if decide (op_key op = Some k) then op_apply op hosts else hosts
  | None => hosts
  end.

Record pool_inv (w0 w : net_state) (ts : list (coro net unit)) (sts : nat → stage) (lin : list nat) : Prop := {
  pi_length : length ts = length ops;
  pi_follows i op p : ops !! i = Some op → ts !! i = Some p → follows op (sts i) p;
  pi_locked i op : ops !! i = Some op → inside (sts i) = true → op_domain op ∈ n_locks w;
  pi_alone i j op op' : ops !! i = Some op → ops !! j = Some op' → inside (sts i) = true →
    inside (sts j) = true → op_domain op = op_domain op' → i = j;
  pi_fresh i op hosts k : ops !! i = Some op → sts i = Writing hosts → op_key op = Some k →
    zone (n_out w) k = hosts;
  pi_nodup : NoDup lin;
  pi_committed i : i ∈ lin ↔ (i < length ops)%nat ∧ has_committed (sts i) = true;
  pi_zone k : zone (n_out w) k = foldl (apply_at k) (zone (n_out w0) k) lin
}.

Definition set_stage (i : nat) (st : stage) (sts : nat → stage) : nat → stage :=
  λ j, if decide (j = i) then st else sts j.
Lemma set_stage_eq i st sts : set_stage i st sts i = st.
Proof. unfold set_stage. by rewrite decide_True. Qed.
Lemma set_stage_ne i j st sts : j ≠ i → set_stage i st sts j = sts j.
Proof. intros. unfold set_stage. by rewrite decide_False. Qed.

(** A step of one operation from [st] to [st']: it enters with the lock free,
    keeps the lock while inside, and changes the host list only when it commits. *)
Record move (w w' : net_state) (op : nc_op) (st st' : stage) : Prop := {
  mv_committed : has_committed st = true → has_committed st' = true;
  mv_inside : inside st' = true → op_domain op ∈ n_locks w';
  mv_enter : inside st = false → inside st' = true → op_domain op ∉ n_locks w;
  mv_locks d : inside st = false ∨ d ≠ op_domain op → d ∈ n_locks w → d ∈ n_locks w';
  mv_fresh hosts k : st' = Writing hosts → op_key op = Some k → zone (n_out w') k = hosts;
  mv_zone k : op_key op = Some k → zone (n_out w') k =
    if has_committed st' && negb (has_committed st) then op_apply op (zone (n_out w) k)
    else zone (n_out w) k;
  mv_own k : op_key op = Some k → inside st = true ∨ zone (n_out w') k = zone (n_out w) k;
  mv_other k : op_key op ≠ Some k → zone (n_out w') k = zone (n_out w) k
}.

(** The order of the commits, extended when an operation commits. *)
Lemma commits_move sts lin i st (now := has_committed st && negb (has_committed (sts i))) :
  NoDup lin → (∀ j, j ∈ lin ↔ (j < length ops)%nat ∧ has_committed (sts j) = true) → (i < length ops)%nat →
  (has_committed (sts i) = true → has_committed st = true) →
  NoDup (if now then lin ++ [i] else lin) ∧
  (∀ j, j ∈ (if now then lin ++ [i] else lin) ↔ (j < length ops)%nat ∧ has_committed (set_stage i st sts j) = true).
Proof.
  intros Hnd Hc Hi Hst. pose proof (Hc i) as Hci. split.
  - subst now. destruct (has_committed st), (has_committed (sts i)); cbn; [done| |done..].
    apply NoDup_app. split_and!; [done| |apply NoDup_singleton].
    intros j Hj ->%list_elem_of_singleton. naive_solver.
  - intros j. destruct (decide (j = i)) as [->|Hne]; [rewrite set_stage_eq|rewrite set_stage_ne, <- Hc by done];
      subst now; destruct (has_committed st), (has_committed (sts i)); cbn;
      rewrite ?elem_of_app, ?list_elem_of_singleton; naive_solver.
Qed.

Lemma pool_inv_move w0 w w' ts sts lin i op st p :
  pool_inv w0 w ts sts lin → ops !! i = Some op → follows op st p → move w w' op (sts i) st →
  ∃ lin', pool_inv w0 w' (<[i := p]> ts) (set_stage i st sts) lin'.
Proof.
  intros [Hl Hf Hlk Hal Hfr Hnd Hc Hz] Hop Hp [Hst Hin Hnew Hkeep Hw Hzk Hown Hzo].
  set (now := has_committed st && negb (has_committed (sts i))) in *.
  assert (i < length ops)%nat as Hi by (by eapply lookup_lt_Some).
  destruct (commits_move sts lin i st Hnd Hc Hi Hst) as [Hnd' Hc'].
  exists (if now then lin ++ [i] else lin). split.
  - by rewrite length_insert.
  - intros j op' q Hj. destruct (decide (j = i)) as [->|Hne].
    + rewrite list_lookup_insert_eq by lia. intros [= <-]. rewrite set_stage_eq. congruence.
    + rewrite list_lookup_insert_ne, set_stage_ne by done. by apply Hf.
  - intros j op' Hj. destruct (decide (j = i)) as [->|Hne].
    + rewrite set_stage_eq. replace op' with op by congruence. done.
    + rewrite set_stage_ne by done. intros Hij. pose proof (Hlk j op' Hj Hij) as Hd.
      apply Hkeep; [|done]. destruct (inside (sts i)) eqn:Ei; [right|by left].
      intros E. apply Hne. by eapply Hal.
  - intros j j' op1 op2 Hj Hj'. destruct (decide (j = i)) as [->|Hne], (decide (j' = i)) as [->|Hne'];
      rewrite ?set_stage_eq, ?set_stage_ne by done; [done| | |by apply Hal].
    + replace op1 with op by congruence. intros H1 H2 E. destruct (inside (sts i)) eqn:Ei; [by apply (Hal i j' op op2)|].
      destruct (Hnew eq_refl H1). rewrite E. by apply (Hlk j').
    + replace op2 with op by congruence. intros H1 H2 E. destruct (inside (sts i)) eqn:Ei; [by apply (Hal j i op1 op)|].
      destruct (Hnew eq_refl H2). rewrite <- E. by apply (Hlk j).
  - intros j op' hosts k Hj. destruct (decide (j = i)) as [->|Hne].
    + rewrite set_stage_eq. replace op' with op by congruence. apply Hw.
    + rewrite set_stage_ne by done. intros Hjs Hk. rewrite <- (Hfr j op' hosts k Hj Hjs Hk).
      destruct (decide (op_key op = Some k)) as [Hk'|Hk']; [|by apply Hzo].
      destruct (Hown k Hk') as [Ei|E]; [|done]. destruct Hne.
      apply (Hal j i op' op); [done..|by rewrite Hjs|done|exact (op_key_domain _ _ k Hk Hk')].
  - exact Hnd'.
  - exact Hc'.
  - intros k. destruct (decide (op_key op = Some k)) as [Hk|Hk].
    + rewrite (Hzk k Hk). destruct now; [|done].
      rewrite foldl_app, <- Hz. cbn. unfold apply_at. by rewrite Hop, decide_True.
    + rewrite (Hzo k Hk). destruct now; [|done].
      rewrite foldl_app, <- Hz. cbn. unfold apply_at. by rewrite Hop, decide_False.
Qed.

(** The steps the protocol allows. *)
Lemma move_acquire w op x w' : inside Waiting = false → is_Some (op_key op) →
  estep (NAcquire (op_domain op)) w x w' → move w w' op Waiting Reading.
Proof.
  intros _ _ [Hr E]. cbn in Hr, E. injection E as _ <-. split; cbn; try done; [set_solver..|tauto].
Qed.
Lemma move_release w op ok c x w' :
  estep (NRelease (op_domain op)) w x w' → move w w' op (Leaving ok c) (Left ok c).
Proof.
  intros [_ E]. cbn in E. injection E as _ <-. split; cbn; try done; [set_solver| |tauto].
  intros k Hk. by destruct c.
Qed.

Lemma http_step rq w x w' : estep (NHttp rq) w x w' →
  o_http rq (n_out w) = (x, n_out w') ∧ n_locks w' = n_locks w.
Proof. intros [_ E]. cbn in E. injection E as <- <-. cbn. by destruct (o_http rq (n_out w)). Qed.

Lemma move_get w op k r w' st :
  op_key op = Some k → op_domain op ∈ n_locks w →
  estep (NHttp (get_hosts_rq s k.1 k.2)) w r w' → after_get op r st → move w w' op Reading st.
Proof.
  intros Hk Hd [Ho Hlk]%http_step Hst. destruct (hs_get k _ _ _ Ho) as [Hz Hroot].
  unfold after_get in Hst. destruct (accepted r) as [root|].
  - specialize (Hroot root eq_refl). cbv zeta in Hst. rewrite Hroot in Hst.
    destruct Hst as [->|[Hid ->]]; split; cbn; rewrite ?Hlk; try done; try tauto.
    + intros hosts k' [= <-] Hk'. rewrite Hz. congruence.
    + intros k' Hk'. replace k' with k by congruence. by rewrite Hid.
  - subst st. split; cbn; rewrite ?Hlk; try done; tauto.
Qed.

Lemma move_set w op k hosts r w' :
  op_key op = Some k → op_domain op ∈ n_locks w → zone (n_out w) k = hosts →
  estep (NHttp (set_hosts_rq s k.1 k.2 (op_apply op hosts))) w r w' →
  ∃ st, after_set r st ∧ move w w' op (Writing hosts) st.
Proof.
  intros Hk Hd Hh [Ho Hlk]%http_step. destruct (hs_set k _ _ _ _ Ho) as [Hz Hzk].
  assert (∀ ok c : bool, zone (n_out w') k = (if c then op_apply op (zone (n_out w) k) else zone (n_out w) k) →
    move w w' op (Writing hosts) (Leaving ok c)) as Hmove.
  { intros ok c Hc. split; cbn; rewrite ?Hlk; try done; try tauto.
    - intros k' Hk'. replace k' with k by congruence. by rewrite Hc, andb_true_r.
    - intros k' Hk'. apply Hz. congruence. }
  unfold after_set. destruct Hzk as [Hzk|[Hr Hzk]].
  - exists (Leaving (bool_decide (is_Some (accepted r))) true). split; [|apply Hmove; by rewrite Hzk, Hh].
    destruct (accepted r); [done|]. eauto.
  - exists (Leaving false false). rewrite Hr. split; [eauto|]. by apply Hmove.
Qed.

Lemma pool_inv_step w0 w ts w' ts' sts lin :
  pool_inv w0 w ts sts lin → pool_step (w, ts) (w', ts') →
  ∃ sts' lin', pool_inv w0 w' ts' sts' lin'.
Proof.
  intros Hinv Hstep. inversion Hstep as [w1 ts1 i X e k x w2 Hi Hs]; subst; clear Hstep.
  assert (is_Some (ops !! i)) as [op Hop].
  { apply lookup_lt_is_Some_2. rewrite <- (pi_length _ _ _ _ _ Hinv). by eapply lookup_lt_Some. }
  enough (∃ st, follows op st (k x) ∧ move w w' op (sts i) st) as (st & Hf & Hm).
  { eexists. by eapply pool_inv_move. }
  pose proof (pi_follows _ _ _ _ _ Hinv i op _ Hop Hi) as Hf. cbn [follows] in Hf.
  pose proof (pi_locked _ _ _ _ _ Hinv i op Hop) as Hlk.
  destruct e; try done.
  - destruct Hf as (key & Hk & [(Est & -> & Hf)|(hosts & Est & -> & Hf)]); rewrite Est in *.
    + destruct (Hf x) as (st & Hst & Hfx). exists st. split; [done|]. by eapply move_get; eauto.
    + destruct (move_set w op key hosts x w' Hk (Hlk eq_refl)
        (pi_fresh _ _ _ _ _ Hinv i op hosts key Hop Est Hk) Hs) as (st & Hst & Hm).
      exists st. split; [by apply Hf|done].
  - destruct Hf as (Est & -> & Hk & Hf). rewrite Est. destruct x. exists Reading. split; [done|].
    by eapply move_acquire.
  - destruct Hf as (-> & ok & c & Est & Hf). rewrite Est. destruct x. exists (Left ok c). split; [done|].
    by eapply move_release.
Qed.

Lemma pool_inv_init w0 : pool_inv w0 w0 (op_code s <$> ops) (λ _, Waiting) [].
Proof.
  split; try done.
  - by rewrite length_fmap.
  - intros i op p Hop. rewrite list_lookup_fmap, Hop. intros [= <-]. apply code_follows.
  - constructor.
  - intros i. split; [by intros ?%elem_of_nil|by intros [_ ?]].
Qed.
End pool.

(** ** Properties *)

(** C15: the provider's operations are atomic.  In every interleaving of any number
    of concurrent [set_txt] and [delete_txt] calls, whatever requests fail, the
    host list of every domain is the initial list transformed by the atomic
    operations of some of the calls, each at most once, in one order; a call that
    has returned is one of them, so no update is ever lost. *)
Theorem namecheap_linearizable `{XmlParser} `{Outside} s zone `{!HostService s zone} ops w0 w ts :
  rtc pool_step (w0, op_code s <$> ops) (w, ts) →
  ∃ lin : list nat, NoDup lin ∧ (∀ i, i ∈ lin → (i < length ops)%nat) ∧
    (∀ i, ts !! i = Some (Ret tt) → i ∈ lin) ∧
    ∀ k, zone (n_out w) k = foldl (apply_at ops k) (zone (n_out w0) k) lin.
Proof.
  intros Hsteps.
  assert (∀ c c', rtc pool_step c c' → (∃ sts lin, pool_inv s zone ops w0 c.1 c.2 sts lin) →
    ∃ sts lin, pool_inv s zone ops w0 c'.1 c'.2 sts lin) as Hgen.
  { intros c c'. induction 1 as [|[w1 ts1] [w2 ts2] c' Hs _ IH]; [done|]. intros (sts & lin & Hinv).
    apply IH. by eapply pool_inv_step. }
  destruct (Hgen _ _ Hsteps) as (sts & lin & Hinv); [do 2 eexists; by apply pool_inv_init|]. cbn in Hinv.
  exists lin. split_and!; [apply Hinv| | |apply Hinv].
  - intros i Hi. by apply (pi_committed _ _ _ _ _ _ _ _ Hinv) in Hi as [? _].
  - intros i Hi. apply (pi_committed _ _ _ _ _ _ _ _ Hinv).
    assert (i < length ops)%nat as Hlt.
    { rewrite <- (pi_length _ _ _ _ _ _ _ _ Hinv). by eapply lookup_lt_Some. }
    split; [done|]. destruct (lookup_lt_is_Some_2 ops i Hlt) as [op Hop].
    pose proof (pi_follows _ _ _ _ _ _ _ _ Hinv i op _ Hop Hi) as Hf. cbn in Hf. by rewrite Hf.
Qed.

(** ** A concrete service *)

Module Service.
#[local] Abbreviation host_tuple h := (h_name h, h_type h, h_address h, h_mx_pref h, h_ttl h).
#[export, refine] Instance host_countable : Countable host :=
  inj_countable' (λ h, host_tuple h) (λ '(n, t, a, m, l), mk_host n t a m l) _.
Proof. by intros []. Defined.

(** A document is written as one number, which encodes its hosts. *)
Definition host_element (h : host) : element :=
  Element (qualified NC_NS (u "host"))
    [(u "Name", h_name h); (u "Type", h_type h); (u "Address", h_address h);
     (u "MXPref", h_mx_pref h); (u "TTL", h_ttl h)] None [].
Definition write_hosts (hosts : list host) : str := [Zpos (encode hosts)].
Definition read_hosts (s : str) : list host :=
  match s with [Zpos p] => default [] (decode p) | _ => [] end.
#[export] Instance parser : XmlParser := {|
  fromstring := λ s, Some (Element (u "ApiResponse") [(u "Status", u "OK")] None (host_element <$> read_hosts s)) |}.

Fixpoint parse_fields (fields : list (str * str)) : list host :=
  match fields with
  | n :: t :: a :: m :: l :: r => mk_host n.2 t.2 a.2 m.2 l.2 :: parse_fields r
  | _ => []
  end.
Definition field_at (i : nat) (l : list (str * str)) : str := snd (nth i l ([], [])).

Abbreviation table := (gmap (str * str) (list host)).
Definition zone_of (out : table) (k : str * str) : list host := default [] (out !! k).
(** [getHosts] is a GET, [setHosts] a POST. *)
Definition serve (rq : http_request) (out : table) : res http_reply * table :=
  match rq_body rq with
  | FormBody fields =>
      (inr (mk_http_reply 200 [] []),
       <[(field_at 5 fields, field_at 6 fields) := parse_fields (drop 7 fields)]> out)
  | _ =>
      (inr (mk_http_reply 200 (write_hosts (zone_of out (field_at 5 (rq_params rq), field_at 6 (rq_params rq)))) []),
       out)
  end.
#[export] Instance service : Outside := {|
  outside := table;
  o_http := serve;
  o_post := λ _ _ s, (inl (PyErr RuntimeError []), s);
  o_new_order := λ s, (inr [], s);
  o_bound := λ _, inr tt;
  o_new_account := λ _ s, (inr tt, s);
  o_clock := λ s, (0, s) |}.

Lemma parse_host_fields i hosts : parse_fields (host_fields i hosts) = hosts.
Proof. revert i. induction hosts as [|[] hosts IH]; intros i; [done|]. cbn. by rewrite IH. Qed.
Lemma read_host_elements hosts :
  read_host <$> findall_deep (qualified NC_NS (u "host"))
    (Element (u "ApiResponse") [(u "Status", u "OK")] None (host_element <$> hosts)) = hosts.
Proof.
  unfold findall_deep. cbn [descendants].
  assert ((host_element <$> hosts) ≫= (λ x, x :: descendants x) = host_element <$> hosts) as ->.
  { induction hosts as [|h hosts IH]; [done|]. cbn in IH |- *. by rewrite IH. }
  unfold tagged. induction hosts as [|h hosts IH]; [done|]. rewrite fmap_cons, filter_cons_True by done.
  cbn [fmap list_fmap]. f_equal; [by destruct h|exact IH].
Qed.

Definition creds : namecheap_settings := mk_namecheap_settings (u "user") (u "key") [] (u "1.2.3.4").
Lemma serve_set (k k' : str * str) (hosts : list host) (out : table) :
  zone_of (serve (set_hosts_rq creds k.1 k.2 hosts) out).2 k' = if decide (k' = k) then hosts else zone_of out k'.
Proof.
  destruct k as [a b]. unfold serve, set_hosts_rq; cbn [rq_body snd fst].
  change (field_at 5 _) with a. change (field_at 6 _) with b.
  change (drop 7 _) with (host_fields 1 hosts). rewrite parse_host_fields. unfold zone_of.
  case_decide as E; [subst k'; by rewrite lookup_insert_eq|by rewrite lookup_insert_ne].
Qed.
#[export] Instance host_service : HostService creds zone_of.
Proof.
  split.
  - intros [a b] out r out' [= <- <-]. split; [done|]. cbn. intros root [= <-].
    rewrite decode_encode. cbn [default]. apply read_host_elements.
  - intros k hosts out r out' E. assert (out' = (serve (set_hosts_rq creds k.1 k.2 hosts) out).2) as ->
      by exact (eq_sym (f_equal snd E)).
    split; [intros k' Hk'|left]; rewrite serve_set; [by rewrite decide_False|by rewrite decide_True].
Qed.

Definition outcome {A} (r : res A) : coro net A := match r with inl e => Raise e | inr a => Ret a end.
(** One coroutine of a pool run to its end. *)
Lemma pool_run i (p : coro net unit) w ts : ts !! i = Some p → unblocked p w tt →
  rtc pool_step (w, ts) ((play p w).2, <[i := outcome (play p w).1]> ts).
Proof.
  unfold play. revert w ts. induction p as [a|e|X e k IH]; intros w ts Hi Hu; cbn [run fst snd outcome].
  - by rewrite list_insert_id.
  - by rewrite list_insert_id.
  - cbn [unblocked] in Hu. destruct Hu as [Hr Hu]. cbn [erun net_runs] in *.
    destruct (net_act e w) as [x w1] eqn:Ea. eapply rtc_l.
    { eapply pool_move; [done|]. by split. }
    assert (<[i := k x]> ts !! i = Some (k x)) as Hi'
      by (apply list_lookup_insert_eq; by eapply lookup_lt_Some).
    pose proof (IH x w1 _ Hi' Hu) as Hsteps. by rewrite list_insert_insert_eq in Hsteps.
Qed.

(** Two records of one domain, then one of them removed. *)
Definition call_add : nc_op := AddTxt (u "example.com") (u "_acme-challenge.a.example.com") (u "A").
Definition call_drop : nc_op := DropTxt (u "example.com") (u "_acme-challenge.b.example.com").
Definition calls : list nc_op := [call_add; call_drop].
Definition start : net_state :=
  mk_net service {[(u "example", u "com") := [mk_host (u "_acme-challenge.b") (u "TXT") (u "B") (u "10") (u "120")]]}
    ∅ ∅ [].
End Service.

#[local] Existing Instance Service.parser.
#[local] Existing Instance Service.service.
#[local] Existing Instance Service.host_service.

Lemma namecheap_linearizable_witness :
  ∃ w ts (lin : list nat),
    rtc (@pool_step Service.service) (Service.start, op_code Service.creds <$> Service.calls) (w, ts) ∧
    ts = [Ret tt; Ret tt] ∧ NoDup lin ∧ (∀ i, i ∈ lin → (i < 2)%nat) ∧
    (∀ i, ts !! i = Some (Ret tt) → i ∈ lin) ∧
    ∀ k, Service.zone_of (n_out w) k = foldl (apply_at Service.calls k) (Service.zone_of (n_out Service.start) k) lin.
Proof.
  pose (p0 := op_code Service.creds Service.call_add).
  pose (w1 := (play p0 Service.start).2).
  pose (p1 := op_code Service.creds Service.call_drop).
  assert (rtc (@pool_step Service.service) (Service.start, [p0; p1]) (w1, [Ret tt; p1])) as H1.
  { change [Ret tt; p1] with (<[0%nat := Service.outcome (inr tt)]> [p0; p1]).
    assert ((play p0 Service.start).1 = inr tt) as <- by (vm_compute; reflexivity).
    apply (Service.pool_run 0 p0); [reflexivity|]. apply never_waits_unblocked. vm_compute. reflexivity. }
  assert (rtc (@pool_step Service.service) (w1, [Ret tt; p1]) ((play p1 w1).2, [Ret tt; Ret tt])) as H2.
  { change [Ret tt; Ret tt] with (<[1%nat := Service.outcome (inr tt)]> [Ret tt; p1]).
    assert ((play p1 w1).1 = inr tt) as <- by (vm_compute; reflexivity).
    apply (Service.pool_run 1 p1); [reflexivity|]. apply never_waits_unblocked. vm_compute. reflexivity. }
  assert (rtc (@pool_step Service.service) (Service.start, op_code Service.creds <$> Service.calls)
    ((play p1 w1).2, [Ret tt; Ret tt])) as H3 by (by etrans).
  destruct (@namecheap_linearizable Service.parser Service.service Service.creds Service.zone_of Service.host_service Service.calls Service.start _ _ H3)
    as (lin & Hl). exists (play p1 w1).2, [Ret tt; Ret tt], lin. split; [exact H3|]. split; [reflexivity|exact Hl].
Defined.
