(* ===== verification/Route53.v ===== *)
(** * The Route 53 provider: [dns/providers/route53.py]

    Requests signed with AWS Signature Version 4, record changes as XML. *)
From S2P Require Import Prelude PyStr Json External PyStd Sha256 Xml Models Config Coro Net DnsJson.

Record route53_settings := mk_route53_settings {
  aws_access_key_id : str; aws_secret_access_key : str; aws_session_token : str }.

Definition R53_NS : str := u "https://route53.amazonaws.com/doc/2013-04-01/".
Definition R53_BASE : str := u "https://route53.amazonaws.com".
Definition R53_REGION : str := u "us-east-1".
Definition R53_SERVICE : str := u "route53".

(** ** Signatures *)

(** [s.encode()]. *)
Definition encode (s : str) : res bytes := or_raise (PyErr UnicodeError []) (utf8_encode s).
Definition mac (key : bytes) (msg : str) : res bytes := hmac_sha256 key <$> encode msg.
Definition derive_key (secret date : str) : res bytes :=
  k0 ← encode (u "AWS4" ++ secret); k1 ← mac k0 date; k2 ← mac k1 R53_REGION; k3 ← mac k2 R53_SERVICE;
  mac k3 (u "aws4_request").

(** [urllib.parse.quote(s, safe='')]. *)
Definition unreserved (b : Z) : bool :=
  is_digit b || ((65 <=? b) && (b <=? 90)) || ((97 <=? b) && (b <=? 122)) ||
  (b =? 95) || (b =? 46) || (b =? 45) || (b =? 126).
Definition upper_hex (d : Z) : Z := if d <? 10 then 48 + d else 55 + d.
Definition quote_octet (b : Z) : str := if unreserved b then [b] else [37; upper_hex (b / 16); upper_hex (b mod 16)].
Definition quote (s : str) : res str := (λ bs, bs ≫= quote_octet) <$> encode s.

Fixpoint quote_items (items : list (str * str)) : res (list str) :=
  match items with
  | [] => mret []
  | (k, v) :: items => k' ← quote k; v' ← quote v; rest ← quote_items items; mret ((k' ++ u "=" ++ v') :: rest)
  end.
Definition canonical_qs (params : list (str * str)) : res str :=
  join (u "&") <$> quote_items (merge_sort key_le params).

(** [now.strftime("%Y%m%d")], [now.strftime("%Y%m%dT%H%M%SZ")]. *)
Definition strftime_date (t : Z) : str :=
  let '(y, m, d) := civil_of_days (t / 86400000000) in zfill 4 y ++ zfill 2 m ++ zfill 2 d.
Definition strftime_amz (t : Z) : str :=
  let sod := t / 1000000 mod 86400 in
  strftime_date t ++ u "T" ++ zfill 2 (sod / 3600) ++ zfill 2 (sod / 60 mod 60) ++ zfill 2 (sod mod 60) ++ u "Z".

Definition newline : str := [10].

Definition sigv4_at (now : Z) (method path query body access_key secret_key session_token : str) :
    res (list (str * str)) :=
  let date := strftime_date now in
  let amzdate := strftime_amz now in
  let host := u "route53.amazonaws.com" in
  body_octets ← encode body;
  let body_hash := hexdigest (sha256 body_octets) in
  let '(canonical_headers, signed_headers) :=
    if truthy session_token then
      (u "host:" ++ host ++ newline ++ u "x-amz-date:" ++ amzdate ++ newline ++
         u "x-amz-security-token:" ++ session_token ++ newline,
       u "host;x-amz-date;x-amz-security-token")
    else (u "host:" ++ host ++ newline ++ u "x-amz-date:" ++ amzdate ++ newline, u "host;x-amz-date") in
  canonical ← encode (join newline [method; path; query; canonical_headers; signed_headers; body_hash]);
  let scope := date ++ u "/" ++ R53_REGION ++ u "/" ++ R53_SERVICE ++ u "/aws4_request" in
  let string_to_sign := join newline [u "AWS4-HMAC-SHA256"; amzdate; scope; hexdigest (sha256 canonical)] in
  key ← derive_key secret_key date;
  sig ← hexdigest <$> mac key string_to_sign;
  mret ([(u "X-Amz-Date", amzdate);
         (u "Authorization", u "AWS4-HMAC-SHA256 Credential=" ++ access_key ++ u "/" ++ scope ++
            u ", SignedHeaders=" ++ signed_headers ++ u ", Signature=" ++ sig)] ++
        (if truthy session_token then [(u "X-Amz-Security-Token", session_token)] else [])).

Definition sigv4_headers (method path query body access_key secret_key session_token : str) :
    coro net (list (str * str)) :=
  now ← perform NNow;
  lift (sigv4_at now method path query body access_key secret_key session_token).

(** ** Changes *)

Definition resource_record (v : str) : str :=
  u "<ResourceRecord><Value>" ++ escape v ++ u "</Value></ResourceRecord>".
Definition change_xml (action name : str) (values : list str) : str :=
  u' "<?xml version='1.0' encoding='UTF-8'?>" ++
  u' "<ChangeResourceRecordSetsRequest xmlns='" ++ R53_NS ++ u' "'>" ++
  u "<ChangeBatch><Changes><Change>" ++
  u "<Action>" ++ action ++ u "</Action>" ++
  u "<ResourceRecordSet>" ++
  u "<Name>" ++ escape name ++ u ".</Name>" ++
  u "<Type>TXT</Type><TTL>120</TTL>" ++
  u "<ResourceRecords>" ++ (values ≫= resource_record) ++ u "</ResourceRecords>" ++
  u "</ResourceRecordSet>" ++
  u "</Change></Changes></ChangeBatch>" ++
  u "</ChangeResourceRecordSetsRequest>".

(** ** The provider *)

(** [s.rsplit("/", 1)[-1]]. *)
Definition after_last_slash (s : str) : str := List.last (split 47 s) [].
Definition zones_params (domain : str) : list (str * str) := [(u "dnsname", domain); (u "maxitems", u "1")].
Definition list_params (name : str) : list (str * str) := [(u "maxitems", u "1"); (u "name", name); (u "type", u "TXT")].

Section route53.
Context `{Ext} `{XmlParser} (s : route53_settings).

Definition aws_auth (method path query body : str) : coro net (list (str * str)) :=
  sigv4_headers method path query body (aws_access_key_id s) (aws_secret_access_key s) (aws_session_token s).

Definition aws_get (path query : str) : coro net element :=
  headers ← aws_auth (u "GET") path query [];
  r ← send (mk_http_request (u "GET") (R53_BASE ++ path ++ u "?" ++ query) [] headers NoBody);
  lift (or_raise (PyErr ParseError []) (fromstring (rp_text r))).
Definition aws_post (path body : str) : coro net unit :=
  headers ← aws_auth (u "POST") path [] body;
  send (mk_http_request (u "POST") (R53_BASE ++ path) []
          (headers ++ [(u "Content-Type", u "text/xml")]) (TextBody body)) ;;
  Ret tt.

Definition zone_id (domain : str) : coro net str :=
  let path := u "/2013-04-01/hostedzonesbyname" in
  query ← lift (canonical_qs (zones_params domain));
  root ← aws_get path query;
  match head (findall_deep2 (qualified R53_NS (u "HostedZone")) (qualified R53_NS (u "Id")) root) with
  | Some id_el =>
      match e_text id_el with
      | Some text => Ret (after_last_slash text)
      | None => Raise (PyErr ValueError (u "No Route 53 hosted zone found for " ++ repr_str domain))
      end
  | None => Raise (PyErr ValueError (u "No Route 53 hosted zone found for " ++ repr_str domain))
  end.

Definition rrset_path (zone : str) : str := u "/2013-04-01/hostedzone/" ++ zone ++ u "/rrset".

Definition route53_set_txt (domain name value : str) : coro net unit :=
  zone ← zone_id domain;
  aws_post (rrset_path zone) (change_xml (u "CREATE") name [[34] ++ value ++ [34]]).

(** The values of the record set, when it is the one asked for. *)
Definition matching_values (name : str) (root : element) : option (list str) :=
  match head (findall_deep (qualified R53_NS (u "ResourceRecordSet")) root) with
  | None => None
  | Some rrs =>
      let rrset_name := rstrip (default [] (head (tagged (qualified R53_NS (u "Name")) (e_children rrs)) ≫= e_text)) (u ".") in
      if decide (lower rrset_name = lower name) then
        Some ((λ el, default [] (e_text el)) <$>
          findall_deep2 (qualified R53_NS (u "ResourceRecord")) (qualified R53_NS (u "Value")) rrs)
      else None
  end.

Definition route53_delete_txt (domain name : str) : coro net unit :=
  zone ← zone_id domain;
  query ← lift (canonical_qs (list_params name));
  root ← aws_get (rrset_path zone) query;
  match matching_values name root with
  | None => Ret tt
  | Some values => aws_post (rrset_path zone) (change_xml (u "DELETE") name values)
  end.

Definition Route53DNSProvider : DNSProvider :=
  {| set_txt := route53_set_txt; delete_txt := route53_delete_txt |}.
End route53.

(** ** Changes hold no markup from the outside *)

(** The tokens of the request body. *)
Definition value_tokens (v : str) : list token :=
  [Tag (u "ResourceRecord"); Tag (u "Value")] ++ chars v ++ [Tag (u "/Value"); Tag (u "/ResourceRecord")].
Definition change_tokens (action name : str) (values : list str) : list token :=
  [Tag (u' "?xml version='1.0' encoding='UTF-8'?");
   Tag (u' "ChangeResourceRecordSetsRequest xmlns='" ++ R53_NS ++ u' "'");
   Tag (u "ChangeBatch"); Tag (u "Changes"); Tag (u "Change"); Tag (u "Action")] ++ chars action ++
  [Tag (u "/Action"); Tag (u "ResourceRecordSet"); Tag (u "Name"); Chars (name ++ u "."); Tag (u "/Name");
   Tag (u "Type"); Chars (u "TXT"); Tag (u "/Type"); Tag (u "TTL"); Chars (u "120"); Tag (u "/TTL");
   Tag (u "ResourceRecords")] ++ (values ≫= value_tokens) ++
  [Tag (u "/ResourceRecords"); Tag (u "/ResourceRecordSet"); Tag (u "/Change"); Tag (u "/Changes");
   Tag (u "/ChangeBatch"); Tag (u "/ChangeResourceRecordSetsRequest")].

#[local] Ltac no_bracket := apply (bool_decide_unpack _); vm_compute; exact I.

Lemma resource_record_tokens v s :
  xml_tokens (resource_record v ++ s) = app (value_tokens v) <$> xml_tokens s.
Proof.
  unfold resource_record. rewrite <- !(assoc_L (++)).
  change (u "<ResourceRecord><Value>" ++ ?r) with
    (60 :: u "ResourceRecord" ++ 62 :: 60 :: u "Value" ++ 62 :: r).
  rewrite tokens_next_tag by no_bracket. rewrite tokens_next_tag by no_bracket.
  change (u "</Value></ResourceRecord>" ++ s) with
    (60 :: u "/Value" ++ 62 :: 60 :: u "/ResourceRecord" ++ 62 :: s).
  rewrite (tokens_text_tag (escape v) v) by (try apply escape_no_markup; try apply unescape_escape; no_bracket).
  rewrite tokens_next_tag by no_bracket. destruct (xml_tokens s) as [l|]; [|done]. cbn.
  unfold value_tokens. by rewrite <- !(assoc_L (++)).
Qed.
Lemma resource_records_tokens values s :
  xml_tokens ((values ≫= resource_record) ++ s) = app (values ≫= value_tokens) <$> xml_tokens s.
Proof.
  induction values as [|v values IH].
  - change (([] ≫= resource_record) ++ s) with s. by destruct (xml_tokens s).
  - change ((v :: values) ≫= resource_record) with (resource_record v ++ (values ≫= resource_record)).
    rewrite <- (assoc_L (++)), resource_record_tokens, IH.
    destruct (xml_tokens s) as [l|]; [|done]. cbn [fmap option_fmap option_map].
    change ((v :: values) ≫= value_tokens) with (value_tokens v ++ (values ≫= value_tokens)).
    by rewrite <- (assoc_L (++)).
Qed.

(** The rest of a body after the character data [t]. *)
Lemma tokens_const_text l t tag s :
  forallb (λ c, negb (c =? 60) && negb (c =? 62)) l = true → unescape l = Some t → 62 ∉ tag →
  xml_tokens (l ++ 60 :: tag ++ 62 :: s) = (λ rest, chars t ++ Tag tag :: rest) <$> xml_tokens s.
Proof.
  intros Hl. apply tokens_text_tag. apply Forall_forall. intros c Hc%list_elem_of_In.
  rewrite forallb_forall in Hl. apply Hl in Hc. bool_to_prop. by split.
Qed.

Lemma change_xml_tokens action name values :
  forallb (λ c, negb (c =? 60) && negb (c =? 62)) action = true → unescape action = Some action →
  xml_tokens (change_xml action name values) = Some (change_tokens action name values).
Proof.
  intros Ha Hua. unfold change_xml.
  change (u' "<?xml version='1.0' encoding='UTF-8'?>" ++ ?r) with
    (60 :: u' "?xml version='1.0' encoding='UTF-8'?" ++ 62 :: r).
  rewrite tokens_next_tag by no_bracket.
  change (u' "<ChangeResourceRecordSetsRequest xmlns='" ++ R53_NS ++ u' "'>" ++ ?r) with
    (60 :: (u' "ChangeResourceRecordSetsRequest xmlns='" ++ R53_NS ++ u' "'") ++ 62 :: r).
  rewrite tokens_next_tag by no_bracket.
  change (u "<ChangeBatch><Changes><Change>" ++ u "<Action>" ++ ?r) with
    (60 :: u "ChangeBatch" ++ 62 :: 60 :: u "Changes" ++ 62 :: 60 :: u "Change" ++ 62 :: 60 :: u "Action" ++ 62 :: r).
  do 4 rewrite tokens_next_tag by no_bracket.
  change (u "</Action>" ++ u "<ResourceRecordSet>" ++ u "<Name>" ++ ?r) with
    (60 :: u "/Action" ++ 62 :: 60 :: u "ResourceRecordSet" ++ 62 :: 60 :: u "Name" ++ 62 :: r).
  rewrite (tokens_const_text action action) by (done || no_bracket).
  do 2 rewrite tokens_next_tag by no_bracket.
  change (u ".</Name>" ++ u "<Type>TXT</Type><TTL>120</TTL>" ++ u "<ResourceRecords>" ++ ?r) with
    (u "." ++ 60 :: u "/Name" ++ 62 :: 60 :: u "Type" ++ 62 :: u "TXT" ++ 60 :: u "/Type" ++ 62 ::
       60 :: u "TTL" ++ 62 :: u "120" ++ 60 :: u "/TTL" ++ 62 :: 60 :: u "ResourceRecords" ++ 62 :: r).
  rewrite (assoc_L (++) (escape name)).
  rewrite (tokens_text_tag (escape name ++ u ".") (name ++ u ".")); [| |by apply unescape_escape_app|no_bracket];
    [|apply Forall_app; split; [apply escape_no_markup|repeat constructor; done]].
  rewrite tokens_next_tag by no_bracket. rewrite (tokens_const_text (u "TXT") (u "TXT")) by (done || no_bracket).
  rewrite tokens_next_tag by no_bracket. rewrite (tokens_const_text (u "120") (u "120")) by (done || no_bracket).
  rewrite tokens_next_tag by no_bracket. rewrite resource_records_tokens.
  change (xml_tokens _) with (Some [Tag (u "/ResourceRecords"); Tag (u "/ResourceRecordSet");
    Tag (u "/Change"); Tag (u "/Changes"); Tag (u "/ChangeBatch"); Tag (u "/ChangeResourceRecordSetsRequest")]).
  cbn [fmap option_fmap option_map]. unfold change_tokens. f_equal. cbn [app].
  destruct (name ++ u ".") as [|c n] eqn:E; [by destruct name|]. done.
Qed.

(** ** Query strings read back *)

(** Percent-decoding. *)
Fixpoint unquote (s : str) : option bytes :=
  match s with
  | [] => Some []
  | c :: r =>
      if c =? 37 then
        match r with
        | a :: b :: r' => x ← hex_val a; y ← hex_val b; cons (x * 16 + y) <$> unquote r'
        | _ => None
        end
      else cons c <$> unquote r
  end.
Definition parse_component (s : str) : option str := unquote s ≫= utf8_decode false.
Definition parse_item (item : str) : option (str * str) :=
  match split 61 item with [k; v] => k' ← parse_component k; v' ← parse_component v; Some (k', v') | _ => None end.
Definition parse_qs (q : str) : option (list (str * str)) := mapM parse_item (split 38 q).
Definition scalar_item (kv : str * str) : Prop :=
  forallb is_scalar kv.1 = true ∧ forallb is_scalar kv.2 = true.

Section qs.
#[local] Ltac Zify.zify_post_hook ::= Z.to_euclidean_division_equations.

Lemma upper_hex_val d : 0 ≤ d < 16 → hex_val (upper_hex d) = Some d.
Proof.
  intros Hd. assert (forallb (λ d, bool_decide (hex_val (upper_hex d) = Some d)) (seqZ 0 16) = true) as HF by by vm_compute.
  rewrite forallb_forall in HF. specialize (HF d). rewrite bool_decide_eq_true in HF. apply HF, list_elem_of_In, elem_of_seqZ. lia.
Qed.

Lemma unquote_octet b s : is_octet b → unquote (quote_octet b ++ s) = cons b <$> unquote s.
Proof.
  intros Hb. unfold is_octet in Hb. unfold quote_octet. destruct (unreserved b) eqn:Hu.
  - cbn [app unquote]. destruct (Z.eqb_spec b 37) as [->|]; [by vm_compute in Hu|done].
  - cbn [app unquote]. change (37 =? 37) with true. cbn iota.
    rewrite !upper_hex_val by lia. cbn. replace (b / 16 * 16 + b mod 16) with b by lia. done.
Qed.
End qs.

Lemma unquote_quoted bs s : Forall is_octet bs → unquote ((bs ≫= quote_octet) ++ s) = app bs <$> unquote s.
Proof.
  induction 1 as [|b bs Hb _ IH].
  - change (([] ≫= quote_octet) ++ s) with s. by destruct (unquote s).
  - change ((b :: bs) ≫= quote_octet) with (quote_octet b ++ (bs ≫= quote_octet)).
    rewrite <- (assoc_L (++)), unquote_octet, IH by done. by destruct (unquote s).
Qed.

Lemma upper_hex_plain d : 0 ≤ d < 16 → upper_hex d ≠ 38 ∧ upper_hex d ≠ 61.
Proof. intros Hd. unfold upper_hex. destruct (d <? 10) eqn:E; bool_to_prop; lia. Qed.
(** The separators do not occur in quoted text. *)
Lemma quoted_plain bs c : Forall is_octet bs → c = 38 ∨ c = 61 → c ∉ (bs ≫= quote_octet).
Proof.
  intros Hbs Hc Hin. apply list_elem_of_bind in Hin as (b & Hin & Hb).
  rewrite Forall_forall in Hbs. specialize (Hbs b Hb). unfold is_octet in Hbs. unfold quote_octet in Hin.
  destruct (unreserved b) eqn:Hu.
  - apply list_elem_of_singleton in Hin as <-. destruct Hc as [->| ->]; by vm_compute in Hu.
  - pose proof (upper_hex_plain (b / 16) ltac:(split; [apply Z.div_pos; lia|apply Z.div_lt_upper_bound; lia])).
    pose proof (upper_hex_plain (b mod 16) ltac:(apply Z.mod_pos_bound; lia)).
    rewrite !elem_of_cons, elem_of_nil in Hin. naive_solver lia.
Qed.

Lemma quote_spec s : forallb is_scalar s = true →
  ∃ bs, quote s = inr (bs ≫= quote_octet) ∧ Forall is_octet bs ∧ parse_component (bs ≫= quote_octet) = Some s.
Proof.
  intros Hs. destruct (utf8_roundtrip s Hs) as (bs & Hb & Ho & _). exists bs. split_and!; [|done|].
  - unfold quote, encode. by rewrite Hb.
  - unfold parse_component. pose proof (unquote_quoted bs [] Ho) as E. rewrite !app_nil_r in E. rewrite E. cbn.
    rewrite app_nil_r. by apply utf8_decode_encode.
Qed.

Lemma quote_item k v : scalar_item (k, v) →
  ∃ k' v', quote k = inr k' ∧ quote v = inr v' ∧
    parse_item (k' ++ u "=" ++ v') = Some (k, v) ∧ 38 ∉ k' ++ u "=" ++ v'.
Proof.
  intros [(bk & Qk & Ok & Pk)%quote_spec (bv & Qv & Ov & Pv)%quote_spec].
  exists (bk ≫= quote_octet), (bv ≫= quote_octet). split_and!; [done..| |].
  - unfold parse_item. change (u "=" ++ ?r) with (61 :: r). rewrite split_app_sep.
    rewrite !split_no_sep by (apply quoted_plain; auto). cbn [app]. by rewrite Pk, Pv.
  - rewrite !elem_of_app. intros [H|[H|H]].
    + by apply (quoted_plain bk 38) in H; auto.
    + apply list_elem_of_singleton in H. by vm_compute in H.
    + by apply (quoted_plain bv 38) in H; auto.
Qed.

Lemma quote_items_spec items : Forall scalar_item items →
  ∃ ws, quote_items items = inr ws ∧ mapM parse_item ws = Some items ∧ Forall (λ w, 38 ∉ w) ws ∧
    length ws = length items.
Proof.
  induction 1 as [|[k v] items (k' & v' & Qk & Qv & Hp & Hn)%quote_item _ (ws & Hq & Hps & Hs & Hl)]; [by exists []|].
  eexists (_ :: ws). split_and!; [|by apply mapM_cons_Some|by constructor|by cbn; rewrite Hl].
  cbn. rewrite Qk. cbn. rewrite Qv. cbn. by rewrite Hq.
Qed.

Lemma canonical_qs_parse params : params ≠ [] → Forall scalar_item params →
  ∃ q, canonical_qs params = inr q ∧ parse_qs q = Some (merge_sort key_le params).
Proof.
  intros Hne Hs. pose proof (merge_sort_Permutation key_le params) as Hperm.
  destruct (quote_items_spec (merge_sort key_le params)) as (ws & Hq & Hp & Hsep & Hl); [by rewrite Hperm|].
  exists (join (u "&") ws). unfold canonical_qs, parse_qs. rewrite Hq. split; [done|].
  change (u "&") with [38]. rewrite split_join; [done| |done].
  intros ->. apply Hne. pose proof (Permutation_length Hperm) as Hl'. rewrite <- Hl in Hl'. by destruct params.
Qed.

(** ** Properties *)

(** C34: the body of a record change has one markup structure, whatever the record
    name and the values are: read as XML it is the same tags with the name and
    each value as character data, unescaped to exactly what was given; no name
    or value can add or close an element. *)
Theorem change_xml_structure action name values :
  action = u "CREATE" ∨ action = u "DELETE" →
  xml_tokens (change_xml action name values) = Some (change_tokens action name values).
Proof. intros [->| ->]; by apply change_xml_tokens. Qed.

Lemma change_xml_structure_witness :
  let name := u "_acme-challenge.a</Name><Name>evil" in
  xml_tokens (change_xml (u "CREATE") name [u "&<v>"]) = Some (change_tokens (u "CREATE") name [u "&<v>"]) ∧
  Chars (name ++ u ".") ∈ change_tokens (u "CREATE") name [u "&<v>"].
Proof.
  intros name. split; [|vm_compute; do 10 right; left].
  exact (change_xml_structure (u "CREATE") name [u "&<v>"] (or_introl eq_refl)).
Defined.

(** C35: the query string of a signed request reads back as its parameters: splitting
    at ["&"] and ["="], percent-decoding and decoding UTF-8 gives exactly the
    names and values that were passed, whatever characters they hold, in order of
    the names. *)
Theorem canonical_qs_roundtrip params :
  params ≠ [] → Forall scalar_item params →
  ∃ q items, canonical_qs params = inr q ∧ parse_qs q = Some items ∧
    items ≡ₚ params ∧ StronglySorted key_le items.
Proof.
  intros Hne Hs. destruct (canonical_qs_parse params Hne Hs) as (q & Hq & Hp).
  exists q, (merge_sort key_le params). split_and!; [done|done| |].
  - apply merge_sort_Permutation.
  - apply (StronglySorted_merge_sort key_le).
Qed.

Lemma canonical_qs_roundtrip_witness :
  ∃ items, parse_qs (u "maxitems=1&name=a%26b%3D%C3%A9&type=TXT") = Some items ∧
    items ≡ₚ [(u "type", u "TXT"); (u "maxitems", u "1"); (u "name", u "a&b=" ++ [233])] ∧
    StronglySorted key_le items.
Proof.
  destruct (canonical_qs_roundtrip [(u "type", u "TXT"); (u "maxitems", u "1"); (u "name", u "a&b=" ++ [233])])
    as (q & items & Hq & Hp & He); [done|by repeat constructor|].
  exists items. vm_compute in Hq. injection Hq as <-. split; [exact Hp|exact He].
Defined.
