(* ===== verification/Loader.v ===== *)
(** * The provider registry: [dns/loader.py]

    The registered names, the classes they stand for, and their instantiation
    from the credentials in the environment. *)
From S2P Require Import Prelude PyStr Json External PyStd Xml Models Config Coro Net DnsJson Namecheap Route53.

(** [_REGISTRY]: names and class paths. *)
Definition REGISTRY : list (str * str) :=
  [(u "porkbun", u "jackdaw.dns.providers.porkbun.PorkbunDNSProvider");
   (u "cloudflare", u "jackdaw.dns.providers.cloudflare.CloudflareDNSProvider");
   (u "route53", u "jackdaw.dns.providers.route53.Route53DNSProvider");
   (u "namecheap", u "jackdaw.dns.providers.namecheap.NamecheapDNSProvider");
   (u "null", u "jackdaw.dns.providers.null.NullDNSProvider")].

(** What each provider's settings class reads from its environment variables
    ([None]: a required one is missing). *)
Record environment := mk_environment {
  env_porkbun : option porkbun_settings; env_cloudflare : option str;
  env_route53 : option route53_settings; env_namecheap : option namecheap_settings }.

Definition invalid_settings : exn := PyErr ValidationError [].

Section loader.
Context `{Ext} `{XmlParser} (env : environment).

(** [path.rsplit(".", 1)]. *)
Definition rsplit_dot (path : str) : str * str :=
  let parts := split 46 path in (join [46] (removelast parts), List.last parts []).

(** [getattr(importlib.import_module(module), name)()]: the constructor reads the
    provider's credentials; Cloudflare's token must not be empty. *)
Definition instantiate (module class : str) : res DNSProvider :=
  if decide (module = u "jackdaw.dns.providers.porkbun" ∧ class = u "PorkbunDNSProvider") then
    PorkbunDNSProvider <$> or_raise invalid_settings (env_porkbun env)
  else if decide (module = u "jackdaw.dns.providers.cloudflare" ∧ class = u "CloudflareDNSProvider") then
    token ← or_raise invalid_settings (env_cloudflare env);
    if truthy token then inr (CloudflareDNSProvider token) else inl invalid_settings
  else if decide (module = u "jackdaw.dns.providers.route53" ∧ class = u "Route53DNSProvider") then
    Route53DNSProvider <$> or_raise invalid_settings (env_route53 env)
  else if decide (module = u "jackdaw.dns.providers.namecheap" ∧ class = u "NamecheapDNSProvider") then
    NamecheapDNSProvider <$> or_raise invalid_settings (env_namecheap env)
  else if decide (module = u "jackdaw.dns.providers.null" ∧ class = u "NullDNSProvider") then
    inr NullDNSProvider
  else inl (PyErr AttributeError class).

Definition registry_get (name : str) : option str := assoc_get name REGISTRY.

Definition unknown_provider (name : str) : exn :=
  PyErr ValueError (u "Unknown DNS provider: " ++ repr_str name ++ u ". Available: " ++
    py_repr (JArr (JStr <$> merge_sort str_le REGISTRY.*1))).

Definition get_provider (name : str) : res DNSProvider :=
  match registry_get name with
  | None => inl (unknown_provider name)
  | Some path => let '(module, class) := rsplit_dot path in instantiate module class
  end.
End loader.

(** ** Properties *)

(** A provider is instantiated from its own credentials and no others, Cloudflare
    refuses an empty token, and a name that is not registered raises a
    [ValueError] that quotes the name and lists the registered ones in order. *)
Theorem get_provider_spec `{Ext} `{XmlParser} env name :
  get_provider env name =
  if decide (name = u "porkbun") then PorkbunDNSProvider <$> or_raise invalid_settings (env_porkbun env)
  else if decide (name = u "cloudflare") then
    match env_cloudflare env with
    | Some (c :: token) => inr (CloudflareDNSProvider (c :: token))
    | _ => inl invalid_settings
    end
  else if decide (name = u "route53") then Route53DNSProvider <$> or_raise invalid_settings (env_route53 env)
  else if decide (name = u "namecheap") then NamecheapDNSProvider <$> or_raise invalid_settings (env_namecheap env)
  else if decide (name = u "null") then inr NullDNSProvider
  else inl (PyErr ValueError (u "Unknown DNS provider: " ++ repr_str name ++
    u ". Available: ['cloudflare', 'namecheap', 'null', 'porkbun', 'route53']")).
Proof.
  destruct (decide (name = u "porkbun")) as [->|H1]; [reflexivity|].
  destruct (decide (name = u "cloudflare")) as [->|H2].
  { destruct env as [ep ec er en]. destruct ec as [[|c t]|]; reflexivity. }
  destruct (decide (name = u "route53")) as [->|H3]; [reflexivity|].
  destruct (decide (name = u "namecheap")) as [->|H4]; [reflexivity|].
  destruct (decide (name = u "null")) as [->|H5]; [reflexivity|].
  unfold get_provider, registry_get. cbn [REGISTRY assoc_get]. by rewrite !decide_False by congruence.
Qed.
