(* ===== verification/Loops.v ===== *)
(** * Loops that may never end

    [while True] loops of coroutines as interaction trees: the loop, its
    executable rounds, and its behaviour from a state on a supply of answers
    (a tree without effects: a result after finitely many rounds, or [spin]). *)
From Stdlib Require Import Classical.
From ITree Require Import ITree ITreeFacts Events.State Events.StateFacts.
From Paco Require Import paco.
From S2P Require Import Prelude PyStr Json Models Coro.

(** Looping without effects. *)
Lemma iter_spin {E R} : eutt (E:=E) (R1:=R) eq (ITree.iter (λ _ : unit, ITreeDefinition.Ret (inl tt)) tt) ITree.spin.
Proof. pcofix CIH. pfold. red. cbn. constructor. right. exact CIH. Qed.

(** A behaviour that is a result is one result. *)
Lemma behaviour_once {A} (x y : A) :
  eutt (E:=void1) eq (ITreeDefinition.Ret x) (ITreeDefinition.Ret y) → x = y.
Proof. apply eutt_inv_Ret. Qed.

Section loops.
Context {E W U} `{RE : Runs E W U}.

Fixpoint to_itree {A} (p : coro E A) : itree E (res A) :=
  match p with
  | Ret a => ITreeDefinition.Ret (inr a)
  | Raise e => ITreeDefinition.Ret (inl e)
  | Vis e k => ITreeDefinition.Vis e (λ x, to_itree (k x))
  end.

(** A coroutine, then a tree that uses its value. *)
Definition and_then {A B} (p : coro E A) (t : A → itree E (res B)) : itree E (res B) :=
  ITree.bind (to_itree p) (λ r, match r with inl e => ITreeDefinition.Ret (inl e) | inr a => t a end).
(** A tree, then a coroutine that uses its value. *)
Definition finally_do {A B} (t : itree E (res A)) (p : A → coro E B) : itree E (res B) :=
  ITree.bind t (λ r, match r with inl e => ITreeDefinition.Ret (inl e) | inr a => to_itree (p a) end).

(** [while True: body], where the body asks for another round with new loop
    variables, or leaves the loop with a value, or raises. *)
Definition outcome {I A} (r : res (I + A)) : I + res A :=
  match r with inl e => inr (inl e) | inr (inl i) => inl i | inr (inr a) => inr (inr a) end.
Definition loop {I A} (body : I → coro E (I + A)) (i : I) : itree E (res A) :=
  ITree.iter (λ i, ITree.bind (to_itree (body i)) (λ r, ITreeDefinition.Ret (outcome r))) i.

(** The loop variables, the state and the supply after [n] rounds that asked for more. *)
Fixpoint rounds {I A} (body : I → coro E (I + A)) (n : nat) (i : I) (w : W) (s : U) : option (I * W * U) :=
  match n with
  | O => Some (i, w, s)
  | S n => let '(r, w', s') := run (body i) w s in
      match outcome r with inl i' => rounds body n i' w' s' | inr _ => None end
  end.

(** ** Behaviour *)

Definition answer : ∀ X, E X → Monads.stateT (W * U) (itree void1) X :=
  λ X e ws, let '(x, w', s') := erun e ws.1 ws.2 in ITreeDefinition.Ret ((w', s'), x).
Definition behaviour {A} (t : itree E A) (w : W) (s : U) : itree void1 (W * U * A) :=
  interp_state answer t (w, s).

#[export] Instance behaviour_proper {A} : Proper (eutt eq ==> eq ==> eq ==> eutt eq) (@behaviour A).
Proof. intros t t' Ht w ? <- s ? <-. unfold behaviour. by rewrite Ht. Qed.

Lemma behaviour_coro {A} (p : coro E A) w s :
  eutt eq (behaviour (to_itree p) w s)
    (let '(r, w', s') := run p w s in ITreeDefinition.Ret ((w', s'), r)).
Proof.
  unfold behaviour. revert w s. induction p as [a|e|X e k IH]; intros w s; cbn [to_itree run].
  - by rewrite interp_state_ret.
  - by rewrite interp_state_ret.
  - rewrite interp_state_vis. unfold answer at 1. cbn [fst snd].
    destruct (erun e w s) as [[x w1] s1]. rewrite bind_ret_l, tau_eutt. apply IH.
Qed.

Lemma behaviour_bind {A B} (t : itree E A) (k : A → itree E B) w s :
  eutt eq (behaviour (ITree.bind t k) w s)
    (ITree.bind (behaviour t w s) (λ wsa, behaviour (k wsa.2) wsa.1.1 wsa.1.2)).
Proof.
  unfold behaviour. rewrite interp_state_bind. apply eutt_eq_bind. by intros [[w' s'] a].
Qed.

Lemma behaviour_ret {A} (a : A) w s :
  eutt eq (behaviour (ITreeDefinition.Ret a) w s) (ITreeDefinition.Ret ((w, s), a)).
Proof. unfold behaviour. by rewrite interp_state_ret. Qed.

Lemma behaviour_coro_bind {A B} (p : coro E A) (k : res A → itree E B) w s :
  eutt eq (behaviour (ITree.bind (to_itree p) k) w s)
    (let '(r, w', s') := run p w s in behaviour (k r) w' s').
Proof.
  rewrite behaviour_bind, behaviour_coro. destruct (run p w s) as [[r w'] s']. by rewrite bind_ret_l.
Qed.

Lemma behaviour_and_then {A B} (p : coro E A) (t : A → itree E (res B)) w s :
  eutt eq (behaviour (and_then p t) w s)
    (let '(r, w', s') := run p w s in
     match r with inl e => ITreeDefinition.Ret ((w', s'), inl e) | inr a => behaviour (t a) w' s' end).
Proof.
  unfold and_then. rewrite behaviour_coro_bind. destruct (run p w s) as [[[e|a] w'] s']; [|done].
  apply behaviour_ret.
Qed.

(** ** Rounds *)

Section body.
Context {I A : Type} (body : I → coro E (I + A)).

Lemma behaviour_round i w s :
  eutt eq (behaviour (loop body i) w s)
    (let '(r, w', s') := run (body i) w s in
     match outcome r with
     | inl i' => behaviour (loop body i') w' s'
     | inr a => ITreeDefinition.Ret ((w', s'), a)
     end).
Proof.
  unfold loop at 1. unfold behaviour at 1. rewrite unfold_iter, bind_bind.
  change (interp_state answer ?t (w, s)) with (behaviour t w s).
  rewrite behaviour_coro_bind. destruct (run (body i) w s) as [[r w1] s1].
  rewrite bind_ret_l. destruct (outcome r) as [i'|a].
  - unfold behaviour. rewrite interp_state_tau, tau_eutt. reflexivity.
  - apply behaviour_ret.
Qed.

Lemma loop_rounds n i w s i1 w1 s1 : rounds body n i w s = Some (i1, w1, s1) →
  eutt eq (behaviour (loop body i) w s) (behaviour (loop body i1) w1 s1).
Proof.
  revert i w s. induction n as [|n IH]; intros i w s; cbn [rounds]; [by intros [= -> -> ->]|].
  rewrite behaviour_round. destruct (run (body i) w s) as [[r w2] s2].
  destruct (outcome r) as [i'|a]; [apply IH|done].
Qed.

Lemma rounds_add n m i w s :
  rounds body (n + m) i w s =
  match rounds body n i w s with Some (i1, w1, s1) => rounds body m i1 w1 s1 | None => None end.
Proof.
  revert i w s. induction n as [|n IH]; intros i w s; [done|]. cbn [Nat.add rounds].
  destruct (run (body i) w s) as [[r w1] s1]. destruct (outcome r); [apply IH|done].
Qed.
Lemma rounds_snoc n i w s i1 w1 s1 : rounds body n i w s = Some (i1, w1, s1) →
  rounds body (S n) i w s = rounds body 1 i1 w1 s1.
Proof. intros E1. by rewrite <- Nat.add_1_r, rounds_add, E1. Qed.

(** The loop ends in a round that does not ask for another. *)
Lemma loop_ends n i w s i1 w1 s1 r w2 s2 a :
  rounds body n i w s = Some (i1, w1, s1) → run (body i1) w1 s1 = (r, w2, s2) → outcome r = inr a →
  eutt eq (behaviour (loop body i) w s) (ITreeDefinition.Ret ((w2, s2), a)).
Proof. intros Hn Hr Ha. by rewrite (loop_rounds _ _ _ _ _ _ _ Hn), behaviour_round, Hr, Ha. Qed.

(** It never ends when every round asks for another. *)
Lemma loop_spins i w s : (∀ n, is_Some (rounds body n i w s)) →
  eutt eq (behaviour (loop body i) w s) ITree.spin.
Proof.
  intros Hall. unfold behaviour, loop. rewrite eutt_eq_interp_state_iter, <- iter_spin.
  unfold Basics.iter, Basics.MonadIter_stateT0, Basics.iter, MonadIter_itree. cbn.
  apply (eutt_iter' (λ (x : W * U * I) (_ : unit), ∀ n, is_Some (rounds body n x.2 x.1.1 x.1.2))).
  - intros [[w1 s1] i1] [] H1. cbn in H1 |- *.
    change (interp_state answer ?t (w1, s1)) with (behaviour t w1 s1). rewrite behaviour_coro_bind.
    destruct (run (body i1) w1 s1) as [[r w2] s2] eqn:Er. rewrite behaviour_ret, bind_ret_l. cbn.
    apply eqit_Ret. destruct (outcome r) as [i2|a] eqn:Eo.
    + constructor. intros n. pose proof (H1 (S n)) as Hn. cbn [rounds] in Hn. by rewrite Er, Eo in Hn.
    + pose proof (H1 1%nat) as Hn. cbn [rounds] in Hn. rewrite Er, Eo in Hn. by destruct Hn.
  - done.
Qed.

(** A loop that ends does so in some round. *)
Lemma loop_returns i w s w2 s2 a :
  eutt eq (behaviour (loop body i) w s) (ITreeDefinition.Ret ((w2, s2), a)) →
  ∃ n i1 w1 s1 r, rounds body n i w s = Some (i1, w1, s1) ∧
    run (body i1) w1 s1 = (r, w2, s2) ∧ outcome r = inr a.
Proof.
  intros He. destruct (classic (∀ n, is_Some (rounds body n i w s))) as [Hall|Hn].
  - apply loop_spins in Hall. rewrite Hall in He. by apply eutt_spin_Ret_abs in He.
  - apply not_all_ex_not in Hn as [n Hn].
    induction n as [|n IH]; [by destruct Hn|]. destruct (rounds body n i w s) as [[[i1 w1] s1]|] eqn:En; [|].
    + rewrite (rounds_snoc _ _ _ _ _ _ _ En) in Hn. cbn [rounds] in Hn.
      destruct (run (body i1) w1 s1) as [[r w3] s3] eqn:Er. destruct (outcome r) as [i2|b] eqn:Eo; [by destruct Hn|].
      pose proof (loop_ends _ _ _ _ _ _ _ _ _ _ _ En Er Eo) as He'. rewrite He' in He.
      apply behaviour_once in He as [= <- <- <-]. by exists n, i1, w1, s1, r.
    + apply IH. by intros [].
Qed.
End body.

End loops.
