(* ===== verification/Serve.v ===== *)
(** * The entry point: [serve.py]

    Boot: the liveness listener, the relay certificate obtained with backoff
    before HTTPS is offered, the TLS server on the files on disk; and the
    renewal loop of [services/relay_cert.py].  The loops are interaction trees
    ([Loops]); while the process boots nothing else of it acts on the world. *)
From ITree Require Import ITree ITreeFacts.
From S2P Require Import Prelude PyStr Json External PyStd Models Config Xml Coro Crash Prog LeClient Os RelayCert Net AcmeClient Loader Loops.

(** ** uvicorn *)

Inductive asgi := app | health_app_callable.
(** A server: its application, its address, and the certificate and key it
    terminates TLS with. *)
Record server := mk_server { sv_app : asgi; sv_host : str; sv_port : Z; sv_ssl : option (path * path) }.
Inductive uvicorn_event :=
| ServeThread (s : server)   (** [Thread(target=s.run, daemon=True).start()] *)
| SetContext                 (** [minimum_version = TLSv1_2]; [app.state.relay_ssl_context = config.ssl] *)
| ServeRun (s : server)      (** [s.run()], until it is shut down *)
| ServeStop (s : server).    (** [s.should_exit = True] *)
Inductive uvicorn : Type → Type := Uvicorn (e : uvicorn_event) : uvicorn unit.

(** What was done, newest first. *)
#[export] Instance uvicorn_steps : Steps uvicorn (list uvicorn_event) :=
  λ X e, match e with Uvicorn e => λ w _ w', w' = e :: w end.
#[export, refine] Instance uvicorn_runs : Runs uvicorn (list uvicorn_event) unit := {|
  erun := λ X e, match e in uvicorn X return list uvicorn_event → unit → X * list uvicorn_event * unit with
    | Uvicorn e => λ w s, (tt, e :: w, s) end;
  can_run := λ _ _ _, True;
  supply_ok := λ _, True |}.
Proof. intros X [e] w s x w' s' _ _ [= <- <- <-]. done. Defined.

(** ** Settings, constants, the liveness application *)

Definition HTTP_PORT : Z := 8000.
Definition HTTPS_PORT : Z := 443.
Definition RETRY_INITIAL_S : Z := 60.
Definition RETRY_MAX_S : Z := 900.

Definition tls_enabled (cfg : Settings) : bool :=
  serve_tls cfg && negb (str_contains (u "://") (relay_domain cfg)).

(** ASGI messages. *)
Inductive asgi_message := ResponseStart (status : Z) (headers : list (str * str)) | ResponseBody (body : bytes).
(** [_health_app]: the messages it sends. *)
Definition health_app (scope : json) : res (list asgi_message) :=
  type ← subscript scope (u "type");
  if negb (json_eqb type (JStr (u "http"))) then inr [] else
  path ← subscript scope (u "path");
  let status := if json_eqb path (JStr (u "/healthz")) then 200 else 404 in
  inr [ResponseStart status []; ResponseBody []].

(** [getattr(logging, name.upper())] where [basicConfig] accepts it. *)
Definition upper (s : str) : str := (λ c, if (97 <=? c) && (c <=? 122) then c - 32 else c) <$> s.
Definition LEVELS : list (str * Z) :=
  [(u "CRITICAL", 50); (u "FATAL", 50); (u "ERROR", 40); (u "WARNING", 30); (u "WARN", 30);
   (u "INFO", 20); (u "DEBUG", 10); (u "NOTSET", 0)].
Definition logging_level (name : str) : res Z :=
  or_raise (PyErr AttributeError name) ((list_to_map LEVELS : gmap str Z) !! upper name).

(** ** Boot *)

(** The effects of the process while it boots. *)
Abbreviation boot := (coro (eff ⊕ os ⊕ net ⊕ uvicorn)).

Section serve.
Context `{Ext} `{TlsExt} `{KeyExt} `{XmlParser} (env : environment) (cfg : Settings).

Definition health_server : server := mk_server health_app_callable (u "127.0.0.1") HTTP_PORT None.
Definition plain_server : server := mk_server app (u "0.0.0.0") HTTP_PORT None.
Definition tls_server : server := mk_server app (u "0.0.0.0") HTTPS_PORT (Some (cert_path cfg, key_path cfg)).

Definition uvi (e : uvicorn_event) : boot unit := perform (EffR (Uvicorn e)).
Definition on_disk {A} (p : coro os A) : boot A := embed_l (embed_l (embed_r p)).
Definition on_client {A} (p : coro (os ⊕ net) A) : boot A :=
  embed_l (hoist (λ X e, match e with EffL e => EffL (EffR e) | EffR e => EffR e end) p).

Definition start_health_listener : boot unit := uvi (ServeThread health_server).

Definition cert_days_remaining_if_usable : coro os (option Z) :=
  present ← relay_cert_exists cfg;
  if negb (present : bool) then Ret None else relay_cert_days_remaining cfg.

(** [days is not None and days >= RENEW_THRESHOLD_DAYS], [... and days > 0]. *)
Definition fresh_enough (remaining : option Z) : bool :=
  match remaining with Some d => days RENEW_THRESHOLD_DAYS <=? d | None => false end.
Definition still_valid (remaining : option Z) : bool :=
  match remaining with Some d => 0 <? d | None => false end.

Definition issue : boot unit := embed_l (embed_l (issue_relay_cert cfg (relay_domain cfg))).
Definition setup : boot unit :=
  lift (get_provider env (dns_provider cfg)) ;; on_client (init_account cfg) ;; Ret tt.

(** One round of the retry loop; [inl] is the next delay. *)
Definition attempt_issue (remaining : option Z) (delay : Z) : boot (Z + unit) :=
  catch (issue ;; Ret (inr tt)) (λ _,
    if still_valid remaining then Ret (inr tt)
    else perform (EffL (EffR (NSleep (seconds delay)))) ;; Ret (inl (Z.min (delay * 2) RETRY_MAX_S))).

Definition retry_loop (remaining : option Z) : itree (eff ⊕ os ⊕ net ⊕ uvicorn) (res unit) :=
  loop (attempt_issue remaining) RETRY_INITIAL_S.

Definition ensure_relay_cert : itree (eff ⊕ os ⊕ net ⊕ uvicorn) (res unit) :=
  and_then (on_disk cert_days_remaining_if_usable) (λ remaining,
    if fresh_enough remaining then to_itree (Ret tt)
    else and_then setup (λ _, retry_loop remaining)).

(** [config.load()] loads the certificate and key into a new TLS context. *)
Definition build_tls_server : boot server :=
  on_disk (perform_res (OsLoadChain (cert_path cfg) (key_path cfg))) ;;
  uvi SetContext ;;
  Ret tls_server.

(** The end of [main]. *)
Definition serve_https : boot unit :=
  server ← build_tls_server;
  uvi (ServeRun server) ;;
  uvi (ServeStop health_server).

Definition main : itree (eff ⊕ os ⊕ net ⊕ uvicorn) (res unit) :=
  and_then (lift (logging_level (log_level cfg))) (λ _,
    if negb (tls_enabled cfg) then to_itree (uvi (ServeRun plain_server))
    else
      and_then start_health_listener (λ _,
      finally_do ensure_relay_cert (λ _, serve_https))).

(** [renewal_loop] of [services/relay_cert.py]: it never returns. *)
Definition renewal_loop (relay_domain : str) (ssl_context : bool) : itree (eff ⊕ os) (res False) :=
  loop (λ _ : unit, renewal_round cfg relay_domain ssl_context ;; Ret (inl tt)) tt.
End serve.

(** ** The retry loop *)

Section retry.
Context `{Ext} `{TlsExt} `{KeyExt} `{XmlParser} `{Outside} (env : environment) (cfg : Settings).

(** The state of the booting process. *)
Abbreviation boot_state := (world * os_state * net_state * list uvicorn_event)%type.
Abbreviation boot_supply := (answers * os_supply * unit * unit)%type.
Implicit Types (w : boot_state) (s : boot_supply).

Definition disk_of w : os_state := w.1.1.2.
Definition pauses_of w : Z := pauses (n_log w.1.2).
(** After a pause. *)
Definition slept (us : Z) w : boot_state :=
  (w.1.1, mk_net _ (n_out w.1.2) (n_urls w.1.2) (n_locks w.1.2) (Slept us :: n_log w.1.2), w.2).

Lemma run_attempt remaining delay w s :
  run (attempt_issue cfg remaining delay) w s =
  let '(r, w1, s1) := run (issue cfg) w s in
  match r with
  | inr _ => (inr (inr tt), w1, s1)
  | inl _ => if still_valid remaining then (inr (inr tt), w1, s1)
             else (inr (inl (Z.min (delay * 2) RETRY_MAX_S)), slept (seconds delay) w1, s1)
  end.
Proof.
  unfold attempt_issue. rewrite run_catch, run_bind.
  destruct (run (issue cfg) w s) as [[[e|[]] w1] s1]; [|done]. cbn [run].
  destruct (still_valid remaining); [done|]. rewrite run_bind. destruct w1 as [[[? ?] []] ?], s1 as [[? []] []]. done.
Qed.

Lemma issue_quiet w s r w1 s1 : run (issue cfg) w s = (r, w1, s1) → w1.1.2 = w.1.2 ∧ w1.2 = w.2.
Proof.
  unfold issue. rewrite !run_embed_l. destruct (run (issue_relay_cert _ _) _ _) as [[? ?] ?].
  by intros [= <- <- <-].
Qed.

(** The delay before attempt [n + 1] and the pauses before attempt [n],
    counted from 0. *)
Definition backoff (n : nat) : Z := Z.min (RETRY_INITIAL_S * 2 ^ Z.of_nat n) RETRY_MAX_S.
Definition paused (n : nat) : Z :=
  if (n <=? 4)%nat then RETRY_INITIAL_S * (2 ^ Z.of_nat n - 1) else RETRY_MAX_S * (Z.of_nat n - 3).

Lemma backoff_S n : Z.min (backoff n * 2) RETRY_MAX_S = backoff (S n).
Proof.
  unfold backoff, RETRY_INITIAL_S, RETRY_MAX_S. rewrite Nat2Z.inj_succ, Z.pow_succ_r by lia. lia.
Qed.
Lemma paused_S n : paused (S n) = paused n + backoff n.
Proof.
  unfold paused, backoff, RETRY_INITIAL_S, RETRY_MAX_S.
  do 5 (destruct n as [|n]; [done|]).
  destruct (Nat.leb_spec (S (S (S (S (S (S n)))))) 4); [lia|].
  destruct (Nat.leb_spec (S (S (S (S (S n))))) 4); [lia|].
  replace (Z.of_nat (S (S (S (S (S n)))))) with (4 + (Z.of_nat n + 1)) by lia.
  rewrite Z.pow_add_r by lia. pose proof (Z.pow_pos_nonneg 2 (Z.of_nat n + 1) ltac:(lia) ltac:(lia)). lia.
Qed.

Lemma retry_rounds remaining n w s delay w1 s1 :
  rounds (attempt_issue cfg remaining) n RETRY_INITIAL_S w s = Some (delay, w1, s1) →
  delay = backoff n ∧ pauses_of w1 = pauses_of w + seconds (paused n) ∧ w1.2 = w.2.
Proof.
  revert delay w1 s1. induction n as [|n IH]; intros delay w2 s2.
  { intros [= <- -> ->]. unfold paused, seconds. cbn. split_and!; [done|lia|done]. }
  destruct (rounds (attempt_issue cfg remaining) n RETRY_INITIAL_S w s) as [[[d1 w1] s1]|] eqn:En.
  - rewrite (rounds_snoc _ _ _ _ _ _ _ _ En). destruct (IH _ _ _ eq_refl) as (-> & Hp & Hu). cbn [rounds].
    rewrite run_attempt. destruct (run (issue cfg) w1 s1) as [[[e|[]] w3] s3] eqn:Ei; [|done].
    destruct (still_valid remaining); [done|]. cbn [outcome]. intros [= <- <- <-].
    apply issue_quiet in Ei as [Ei Eu]. rewrite backoff_S, paused_S. split_and!; [done| |by cbn; rewrite Eu].
    unfold pauses_of in *. cbn. rewrite Ei, Hp. unfold seconds. lia.
  - replace (S n) with (n + 1)%nat by lia. by rewrite rounds_add, En.
Qed.

(** An attempt leaves the loop when it issued, or when the certificate on disk
    is still valid. *)
Definition attempt_ends (remaining : option Z) w s w' s' : Prop :=
  ∃ r, run (issue cfg) w s = (r, w', s') ∧ (r = inr tt ∨ still_valid remaining = true).

Lemma retry_loop_iff remaining w s w' s' r :
  eutt eq (behaviour (retry_loop cfg remaining) w s) (ITreeDefinition.Ret ((w', s'), r)) ↔
  r = inr tt ∧ ∃ n delay w1 s1,
    rounds (attempt_issue cfg remaining) n RETRY_INITIAL_S w s = Some (delay, w1, s1) ∧
    attempt_ends remaining w1 s1 w' s'.
Proof.
  unfold retry_loop. split.
  - intros (n & delay & w1 & s1 & r1 & Hn & Hr & Ho)%loop_returns. rewrite run_attempt in Hr.
    unfold attempt_ends. destruct (run (issue cfg) w1 s1) as [[[e|[]] w2] s2] eqn:Ei.
    + destruct (still_valid remaining) eqn:Ev; injection Hr as <- <- <-; [|done].
      injection Ho as <-. split; [done|]. exists n, delay, w1, s1. split; [done|]. eauto.
    + injection Hr as <- <- <-. injection Ho as <-. split; [done|]. exists n, delay, w1, s1. split; [done|]. eauto.
  - intros (-> & n & delay & w1 & s1 & Hn & r1 & Hi & Hr).
    eapply (loop_ends _ n); [exact Hn| |].
    + rewrite run_attempt, Hi. destruct r1 as [e|[]]; [|done]. destruct Hr as [|Hr]; [done|]. by rewrite Hr.
    + done.
Qed.

Lemma retry_loop_spin remaining w s :
  eutt eq (behaviour (retry_loop cfg remaining) w s) ITree.spin ↔
  ∀ n delay w1 s1, rounds (attempt_issue cfg remaining) n RETRY_INITIAL_S w s = Some (delay, w1, s1) →
    ∀ w' s', ¬ attempt_ends remaining w1 s1 w' s'.
Proof.
  split.
  - intros Hs n delay w1 s1 Hn w' s' Ha.
    assert (eutt eq (behaviour (retry_loop cfg remaining) w s) (ITreeDefinition.Ret ((w', s'), inr tt))) as Hr.
    { apply retry_loop_iff. split; [done|]. by exists n, delay, w1, s1. }
    rewrite Hs in Hr. by apply eutt_spin_Ret_abs in Hr.
  - intros Hall. apply loop_spins. intros n. induction n as [|n [[[d1 w1] s1] En]]; [by eexists|].
    rewrite (rounds_snoc _ _ _ _ _ _ _ _ En). cbn [rounds]. rewrite run_attempt.
    destruct (run (issue cfg) w1 s1) as [[r w2] s2] eqn:Ei.
    specialize (Hall n d1 w1 s1 En w2 s2).
    destruct r as [e|[]]; [|exfalso; apply Hall; eexists; eauto].
    destruct (still_valid remaining) eqn:Ev; [exfalso; apply Hall; eexists; eauto|]. by eexists.
Qed.
End retry.

(** ** Serving *)

Section main.
Context `{Ext} `{TlsExt} `{KeyExt} `{XmlParser} `{Outside} (env : environment) (cfg : Settings).
Implicit Types (w : world * os_state * net_state * list uvicorn_event) (s : answers * os_supply * unit * unit).

Lemma on_disk_quiet {A} (p : coro os A) w s r w1 s1 : run (on_disk p) w s = (r, w1, s1) → w1.2 = w.2.
Proof. unfold on_disk. rewrite run_embed_l. destruct (run (embed_l _) _ _) as [[? ?] ?]. by intros [= <- <- <-]. Qed.
Lemma setup_quiet w s r w1 s1 : run (setup env cfg) w s = (r, w1, s1) → w1.2 = w.2.
Proof.
  unfold setup. rewrite run_bind, run_lift_alone. destruct (get_provider _ _) as [e|]; [by intros [= <- <- <-]|].
  rewrite run_bind. unfold on_client. rewrite run_embed_l.
  destruct (run (hoist _ _) _ _) as [[[e|] ?] ?]; by intros [= <- <- <-].
Qed.

Lemma ensure_quiet w s w1 s1 r :
  eutt eq (behaviour (ensure_relay_cert env cfg) w s) (ITreeDefinition.Ret ((w1, s1), r)) → w1.2 = w.2.
Proof.
  unfold ensure_relay_cert. rewrite behaviour_and_then.
  destruct (run (on_disk _) w s) as [[[e|remaining] w2] s2] eqn:Ec; apply on_disk_quiet in Ec; rewrite <- Ec.
  { by intros [= <- <- <-]%behaviour_once. }
  destruct (fresh_enough remaining).
  { rewrite behaviour_coro. by intros [= <- <- <-]%behaviour_once. }
  rewrite behaviour_and_then.
  destruct (run (setup env cfg) w2 s2) as [[[e|[]] w3] s3] eqn:Es; apply setup_quiet in Es; rewrite <- Es.
  { by intros [= <- <- <-]%behaviour_once. }
  intros [_ (n & delay & w4 & s4 & Hn & r' & Hi & _)]%retry_loop_iff.
  apply retry_rounds in Hn as (_ & _ & Hq). apply issue_quiet in Hi as [_ Hi]. by rewrite Hi, Hq.
Qed.

Lemma run_serve_https w s :
  ∃ v o w' s' r, run_os (OsLoadChain (cert_path cfg) (key_path cfg)) (disk_of w) s.1.1.2 = (v, o, s'.1.1.2) ∧
  run (serve_https cfg) w s = (r, w', s') ∧ disk_of w' = o ∧
  match v with
  | inl e => r = inl e ∧ w'.2 = w.2
  | inr _ => r = inr tt ∧ w'.2 = [ServeStop health_server; ServeRun (tls_server cfg); SetContext] ++ w.2
  end.
Proof.
  unfold serve_https, build_tls_server. rewrite !run_bind. unfold on_disk. rewrite run_embed_l, run_embed_l, run_embed_r.
  unfold perform_res. cbn [run].
  change (erun (OsLoadChain ?c ?k)) with (run_os (OsLoadChain c k)).
  destruct w as [[[w v] n] l], s as [[[a o] []] []]. unfold disk_of. cbn [fst snd].
  destruct (run_os _ v o) as [[x v'] o'] eqn:E. exists x, v'. rewrite run_lift_alone. cbn [fst snd].
  destruct x as [e|[]].
  - exists (w, v', n, l), (a, o', tt, tt), (inl e). done.
  - cbn. eexists (w, v', n, _), (a, o', tt, tt), (inr tt). done.
Qed.

(** The process after the liveness listener is up. *)
Definition with_health w : world * os_state * net_state * list uvicorn_event :=
  (w.1, ServeThread health_server :: w.2).

Lemma run_uvi e w s : run (uvi e) w s = (inr tt, (w.1, e :: w.2), s).
Proof. by destruct w, s as [s []]. Qed.

Lemma behaviour_main w s : behaviour (main env cfg) w s ≈
  match logging_level (log_level cfg) with
  | inl e => ITreeDefinition.Ret ((w, s), inl e)
  | inr _ =>
      if tls_enabled cfg then
        ITree.bind (behaviour (ensure_relay_cert env cfg) (with_health w) s) (λ wsr,
          match wsr.2 with
          | inl e => ITreeDefinition.Ret (wsr.1, inl e)
          | inr _ => let '(r, w', s') := run (serve_https cfg) wsr.1.1 wsr.1.2 in ITreeDefinition.Ret ((w', s'), r)
          end)
      else ITreeDefinition.Ret ((w.1, ServeRun plain_server :: w.2, s), inr tt)
  end.
Proof.
  unfold main. rewrite behaviour_and_then, run_lift_alone. destruct (logging_level _) as [e|]; [done|].
  destruct (tls_enabled cfg); cbn [negb].
  - rewrite behaviour_and_then. unfold start_health_listener. rewrite run_uvi. unfold finally_do. rewrite behaviour_bind. apply eutt_eq_bind. intros [[w1 s1] [e|[]]]; cbn [fst snd].
    + apply behaviour_ret.
    + apply behaviour_coro.
  - by rewrite behaviour_coro, run_uvi.
Qed.

Lemma main_serves w s w' s' r sv :
  behaviour (main env cfg) w s ≈ ITreeDefinition.Ret ((w', s'), r) → w.2 = [] → ServeRun sv ∈ w'.2 →
  if tls_enabled cfg then
    w'.2 = [ServeStop health_server; ServeRun (tls_server cfg); SetContext; ServeThread health_server] ∧
    presented cfg (disk_of w')
  else w'.2 = [ServeRun plain_server].
Proof.
  rewrite behaviour_main. intros Hm Hw Hin. destruct (logging_level _) as [e|].
  { apply behaviour_once in Hm as [= <- <- <-]. rewrite Hw in Hin. by apply elem_of_nil in Hin. }
  destruct (tls_enabled cfg).
  2:{ apply behaviour_once in Hm as [= <- <- <-]. cbn. by rewrite Hw. }
  apply eutt_inv_bind_ret in Hm as [[[w1 s1] r1] [He Hm]]. apply ensure_quiet in He.
  unfold with_health in He. cbn [fst snd] in He, Hm. rewrite Hw in He. destruct r1 as [e|[]].
  { apply behaviour_once in Hm as [= <- <- <-]. rewrite He in Hin. by apply list_elem_of_singleton in Hin. }
  destruct (run_serve_https w1 s1) as (v & o & w2 & s2 & r2 & Hl & Hr & Ho & Hv). rewrite Hr in Hm.
  apply behaviour_once in Hm as [= <- <- <-]. apply attempt_inv in Hl. destruct v as [e|[]].
  - destruct Hv as [_ Hv]. rewrite Hv, He in Hin. by apply list_elem_of_singleton in Hin.
  - destruct Hv as [_ Hv]. split; [by rewrite Hv, He|]. rewrite Ho.
    destruct (read_file (cert_path cfg) _) as [c|] eqn:Ec; [|done]. cbn in Hl.
    destruct (read_file (key_path cfg) _) as [k|] eqn:Ek; [|done]. cbn in Hl.
    destruct (key_matches c k) eqn:Em; [|done]. injection Hl as <-. exists c, k. done.
Qed.

(** A certificate and a key that do not belong together cannot be served. *)
Lemma serve_mismatch w s c k :
  read_file (cert_path cfg) (disk_of w) = Some c → read_file (key_path cfg) (disk_of w) = Some k →
  key_matches c k = false →
  ∃ m w' s', run (serve_https cfg) w s = (inl (OSErr m), w', s') ∧ w'.2 = w.2.
Proof.
  intros Hc Hk Hm. destruct (run_serve_https w s) as (v & o & w2 & s2 & r2 & Hl & Hr & Ho & Hv).
  apply attempt_inv in Hl. destruct v as [e|[]].
  - destruct Hl as [[m ->] _], Hv as [-> Hv]. by exists m, w2, s2.
  - rewrite Hc, Hk in Hl. cbn in Hl. by rewrite Hm in Hl.
Qed.
End main.

(** ** A concrete boot *)

Module Boot.
#[export] Existing Instance toy.
#[export] Existing Instance scripted.
#[export] Instance no_xml : XmlParser := {| fromstring := λ _, None |}.
Definition env : environment := mk_environment None None None None.
Abbreviation cfg := Relay.cfg.
Abbreviation boot_state := (world * os_state * net_state * list uvicorn_event)%type.
Abbreviation boot_supply := (answers * os_supply * unit * unit)%type.
(** The process on a disk, the clock at [now], a CA that refuses everything. *)
Definition boot_at (disk : os_state) : boot_state :=
  (mk_world empty_db ∅ [], disk, mk_net _ (mk_script [] [] []) ∅ ∅ [], []).
Definition supply (now : Z) : boot_supply :=
  (mk_answers [] [] [] [] [] [] [], mk_os_supply [] [now] [], tt, tt).

(** The disk after a crash between the two renames of a renewal. *)
Definition crashed : os_state :=
  (run_steps 13 (renewal_round cfg (u "relay.test") true) Relay.start Relay.supply).2.

Lemma run_split {A} (p : coro (eff ⊕ os ⊕ net ⊕ uvicorn) A) (w : boot_state) (s : boot_supply) r :
  (run p w s).1.1 = r → run p w s = (r, (run p w s).1.2, (run p w s).2).
Proof. intros <-. by destruct (run p w s) as [[? ?] ?]. Qed.

Lemma log_level_ok : logging_level (log_level cfg) = inr 20.
Proof. vm_compute. reflexivity. Qed.

(** With a certificate that is good for 60 days nothing is issued. *)
Definition after_check : boot_state * boot_supply :=
  let '(_, w, s) := run (on_disk (cert_days_remaining_if_usable cfg)) (with_health (boot_at Relay.disk)) (supply (- days 60)) in
  (w, s).
Definition served : boot_state * boot_supply :=
  let '(_, w, s) := run (serve_https cfg) after_check.1 after_check.2 in (w, s).
Lemma boot_fresh :
  behaviour (main env cfg) (boot_at Relay.disk) (supply (- days 60)) ≈ ITreeDefinition.Ret (served, inr tt).
Proof.
  rewrite behaviour_main, log_level_ok.
  assert (tls_enabled cfg = true) as -> by (vm_compute; reflexivity).
  unfold ensure_relay_cert. rewrite behaviour_and_then.
  rewrite (run_split _ _ _ (inr (Some (days 60)))) by (vm_compute; reflexivity).
  assert (fresh_enough (Some (days 60)) = true) as -> by (vm_compute; reflexivity).
  rewrite behaviour_coro. cbn [run]. rewrite bind_ret_l. cbn [fst snd].
  assert (after_check = ((run (on_disk (cert_days_remaining_if_usable cfg)) (with_health (boot_at Relay.disk)) (supply (- days 60))).1.2,
    (run (on_disk (cert_days_remaining_if_usable cfg)) (with_health (boot_at Relay.disk)) (supply (- days 60))).2)) as Ea.
  { unfold after_check. by destruct (run _ _ _) as [[? ?] ?]. }
  unfold served. rewrite Ea. cbn [fst snd].
  rewrite (run_split (serve_https cfg) _ _ (inr tt)) by (vm_compute; reflexivity). reflexivity.
Qed.
End Boot.
#[local] Existing Instance toy.
#[local] Existing Instance scripted.
#[local] Existing Instance Boot.no_xml.

(** ** Properties *)

(** C13: obtaining the relay's certificate ends exactly when some attempt issues it
    (or fails while the certificate on disk is still valid), after the finitely
    many attempts before it, and always normally; it runs for ever exactly when
    every attempt fails. *)
Theorem retry_loop_ends `{Ext} `{TlsExt} `{KeyExt} `{Outside} cfg remaining w s :
  (∀ w' s' r, behaviour (retry_loop cfg remaining) w s ≈ ITreeDefinition.Ret ((w', s'), r) ↔
    r = inr tt ∧ ∃ n delay w1 s1,
      rounds (attempt_issue cfg remaining) n RETRY_INITIAL_S w s = Some (delay, w1, s1) ∧
      attempt_ends cfg remaining w1 s1 w' s') ∧
  (behaviour (retry_loop cfg remaining) w s ≈ ITree.spin ↔
    ∀ n delay w1 s1, rounds (attempt_issue cfg remaining) n RETRY_INITIAL_S w s = Some (delay, w1, s1) →
      ∀ w' s', ¬ attempt_ends cfg remaining w1 s1 w' s').
Proof. split; [intros w' s' r; apply retry_loop_iff|apply retry_loop_spin]. Qed.

(** C33: the delays double from one minute and stay at 15 minutes, and the pauses
    before attempt [n] (from 0) add up to [paused n]: 60 s, 180 s, 420 s, 900 s,
    and 15 minutes more each; so seven attempts start within the first 45 minutes
    of pauses. *)
Theorem retry_schedule `{Ext} `{TlsExt} `{KeyExt} `{Outside} cfg remaining n w s delay w1 s1 :
  rounds (attempt_issue cfg remaining) n RETRY_INITIAL_S w s = Some (delay, w1, s1) →
  delay = Z.min (60 * 2 ^ Z.of_nat n) 900 ∧
  pauses_of w1 = pauses_of w + seconds (paused n) ∧
  ((n ≤ 6)%nat → paused n ≤ 2700).
Proof.
  intros (Hd & Hp & _)%retry_rounds. split_and!; [exact Hd|exact Hp|]. clear.
  intros Hn. do 7 (destruct n as [|n]; [done|]). lia.
Qed.

Lemma retry_schedule_witness :
  let w := Boot.boot_at Relay.disk in let s := Boot.supply 0 in
  ∃ w1 s1, rounds (attempt_issue Relay.cfg None) 6 RETRY_INITIAL_S w s = Some (900, w1, s1) ∧
    pauses_of w1 = seconds 2700.
Proof.
  intros w s.
  assert (fst ∘ fst <$> rounds (attempt_issue Relay.cfg None) 6 RETRY_INITIAL_S w s = Some 900) as Hd
    by (vm_compute; reflexivity).
  destruct (rounds (attempt_issue Relay.cfg None) 6 RETRY_INITIAL_S w s) as [[[d w1] s1]|] eqn:Er; [|done].
  cbn in Hd. injection Hd as ->. exists w1, s1. split; [done|].
  pose proof (retry_schedule Relay.cfg None 6 w s 900 w1 s1 Er) as (_ & Hp & _). exact Hp.
Defined.

(** C12: the public HTTPS listener is started only when TLS is enabled, after the
    liveness listener, and with a certificate and key from disk that belong
    together; without TLS only the plain listener is started. *)
Theorem https_presents `{Ext} `{TlsExt} `{KeyExt} `{XmlParser} `{Outside} env cfg w s w' s' r sv :
  behaviour (main env cfg) w s ≈ ITreeDefinition.Ret ((w', s'), r) → w.2 = [] → ServeRun sv ∈ w'.2 →
  if tls_enabled cfg then
    w'.2 = [ServeStop health_server; ServeRun (tls_server cfg); SetContext; ServeThread health_server] ∧
    presented cfg (disk_of w')
  else w'.2 = [ServeRun plain_server].
Proof. apply main_serves. Qed.

Lemma https_presents_witness :
  let w' := Boot.served.1 in
  w'.2 = [ServeStop health_server; ServeRun (tls_server Relay.cfg); SetContext; ServeThread health_server] ∧
  presented Relay.cfg (disk_of w').
Proof.
  intros w'.
  apply (https_presents Boot.env Relay.cfg (Boot.boot_at Relay.disk) (Boot.supply (- days 60)) w' Boot.served.2
    (inr tt) (tls_server Relay.cfg)).
  - rewrite Boot.boot_fresh. by destruct Boot.served.
  - reflexivity.
  - assert (w'.2 = [ServeStop health_server; ServeRun (tls_server Relay.cfg); SetContext; ServeThread health_server])
      as -> by (vm_compute; reflexivity). right. left.
Defined.


