(* ===== verification/Schema.v ===== *)
(** * The database schema and its migrations

    SQLite's data definition statements on a database of typed tables and
    indexes, the revisions under [migrations/versions/], and the metadata the
    ORM classes of [db/models.py] declare.  Identifiers are lower case, as in
    the program. *)
From S2P Require Import Prelude PyStr Models.

(** ** Databases *)

(** The type is the declared one; a cell is a value written out, or NULL. *)
Record column := mk_column { col_name : str; col_type : str; col_not_null : bool; col_pk : bool }.
Abbreviation cell := (option str).
(** Columns, foreign keys (column, table and column referred to), rows. *)
Record table := mk_table {
  tb_columns : list column; tb_keys : list (str * (str * str)); tb_rows : list (list cell) }.
(** Tables, and indexes with their table and columns. *)
Record database := mk_database { db_tables : gmap str table; db_indexes : gmap str (str * list str) }.

#[export] Instance column_eq_dec : EqDecision column.
Proof. solve_decision. Defined.
#[export] Instance table_eq_dec : EqDecision table.
Proof. solve_decision. Defined.
#[export] Instance database_eq_dec : EqDecision database.
Proof. solve_decision. Defined.

Definition put_table (n : str) (t : table) (d : database) : database :=
  mk_database (<[n := t]> (db_tables d)) (db_indexes d).
Definition no_tables : database := mk_database ∅ ∅.

(** Code that acts on a database; what it did before an exception stays (SQLite
    commits each definition statement by itself). *)
Definition dbm (A : Type) : Type := database → res A * database.
#[export] Instance dbm_ret : MRet dbm := λ A a d, (inr a, d).
#[export] Instance dbm_bind : MBind dbm := λ A B f m d,
  match m d with (inl e, d') => (inl e, d') | (inr a, d') => f a d' end.
Definition dbm_lift {A} (r : res A) : dbm A := λ d, (r, d).

(** ** Statements *)

Inductive ddl :=
| CreateTable (name : str) (columns : list column) (keys : list (str * (str * str)))
| CreateIndex (if_not_exists : bool) (name table : str) (columns : list str)
| AddColumn (table column type : str)
| DropColumn (table column : str)
| DropTable (name : str).

Definition op_error : exn := PyErr OperationalError [].
Definition has_column (t : table) (c : str) : bool := existsb (λ x, bool_decide (col_name x = c)) (tb_columns t).
Definition keep {A} (mask : list bool) (l : list A) : list A := snd <$> filter (λ p, p.1 = true) (zip mask l).

(** A column that no statement may drop: a key, or used by a foreign key or an index. *)
Definition pinned (d : database) (name : str) (t : table) (c : str) : Prop :=
  existsb (λ x, bool_decide (col_name x = c) && col_pk x) (tb_columns t) = true ∨
  c ∈ (tb_keys t).*1 ∨ ¬ map_Forall (λ _ i, ¬ (i.1 = name ∧ c ∈ i.2)) (db_indexes d).
#[export] Instance pinned_dec d name t c : Decision (pinned d name t c).
Proof. unfold pinned. apply _. Defined.

Definition exec_ddl (s : ddl) : dbm unit := λ d,
  match s with
  | CreateTable n columns keys =>
      if decide (is_Some (db_tables d !! n) ∨ is_Some (db_indexes d !! n)) then (inl op_error, d)
      else (inr tt, put_table n (mk_table columns keys []) d)
  | CreateIndex if_not_exists n tn columns =>
      match db_tables d !! tn with
      | None => (inl op_error, d)
      | Some t =>
          if decide (is_Some (db_tables d !! n)) then (inl op_error, d)
          else match db_indexes d !! n with
          | Some _ => (if if_not_exists then inr tt else inl op_error, d)
          | None =>
              if forallb (has_column t) columns
              then (inr tt, mk_database (db_tables d) (<[n := (tn, columns)]> (db_indexes d)))
              else (inl op_error, d)
          end
      end
  | AddColumn tn c type =>
      match db_tables d !! tn with
      | None => (inl op_error, d)
      | Some t =>
          if has_column t c then (inl op_error, d)
          else (inr tt, put_table tn (mk_table (tb_columns t ++ [mk_column c type false false]) (tb_keys t)
                  ((λ r, r ++ [None]) <$> tb_rows t)) d)
      end
  | DropColumn tn c =>
      match db_tables d !! tn with
      | None => (inl op_error, d)
      | Some t =>
          if negb (has_column t c) || bool_decide (pinned d tn t c) || (length (tb_columns t) =? 1)%nat
          then (inl op_error, d)
          else
            let mask := (λ x, negb (bool_decide (col_name x = c))) <$> tb_columns t in
            (inr tt, put_table tn (mk_table (keep mask (tb_columns t)) (tb_keys t) (keep mask <$> tb_rows t)) d)
      end
  | DropTable n =>
      match db_tables d !! n with
      | None => (inl op_error, d)
      | Some _ => (inr tt, mk_database (delete n (db_tables d)) (filter (λ i, i.2.1 ≠ n) (db_indexes d)))
      end
  end.

Fixpoint exec_all (l : list ddl) : dbm unit :=
  match l with [] => mret tt | s :: l => exec_ddl s ;; exec_all l end.

(** ** [migrations/versions/0001_initial_schema.py] *)

Definition nn (name type : str) : column := mk_column name type true false.
Definition nullable (name type : str) : column := mk_column name type false false.
Definition pk (name type : str) : column := mk_column name type true true.
Definition VARCHAR : str := u "VARCHAR".
Definition TEXT : str := u "TEXT".
Definition DATETIME : str := u "DATETIME".
Definition BOOLEAN : str := u "BOOLEAN".

Definition V1_TABLES : list ddl :=
  [CreateTable (u "accounts")
     [pk (u "id") VARCHAR; nn (u "public_key") TEXT; nullable (u "contact") TEXT; nn (u "status") VARCHAR;
      nn (u "created_at") DATETIME] [];
   CreateTable (u "certificates")
     [pk (u "id") VARCHAR; nn (u "order_id") VARCHAR; nn (u "pem_chain") TEXT; nn (u "issued_at") DATETIME;
      nn (u "expires_at") DATETIME; nullable (u "serial") VARCHAR] [(u "order_id", (u "orders", u "id"))];
   CreateTable (u "nonces")
     [pk (u "value") VARCHAR; nn (u "used") BOOLEAN; nn (u "created_at") DATETIME] [];
   CreateTable (u "orders")
     [pk (u "id") VARCHAR; nn (u "account_id") VARCHAR; nn (u "status") VARCHAR; nn (u "identifiers") TEXT;
      nullable (u "le_order_url") TEXT; nullable (u "cert_id") VARCHAR; nullable (u "expires_at") DATETIME;
      nn (u "created_at") DATETIME; nullable (u "error") TEXT]
     [(u "account_id", (u "accounts", u "id")); (u "cert_id", (u "certificates", u "id"))];
   CreateTable (u "authorizations")
     [pk (u "id") VARCHAR; nn (u "order_id") VARCHAR; nn (u "identifier") VARCHAR; nn (u "status") VARCHAR;
      nullable (u "challenge_token") VARCHAR; nullable (u "le_authz_url") TEXT; nn (u "created_at") DATETIME]
     [(u "order_id", (u "orders", u "id"))]].

Definition V1_INDEXES : list ddl :=
  [CreateIndex false (u "ix_accounts_public_key") (u "accounts") [u "public_key"];
   CreateIndex false (u "ix_certificates_serial") (u "certificates") [u "serial"];
   CreateIndex false (u "ix_nonces_created_at") (u "nonces") [u "created_at"];
   CreateIndex false (u "ix_orders_account_id") (u "orders") [u "account_id"]].

Definition TABLE_NAMES : list str :=
  [u "authorizations"; u "orders"; u "nonces"; u "certificates"; u "accounts"].

Definition upgrade_0001 : dbm unit := exec_all V1_TABLES ;; exec_all V1_INDEXES.
Definition downgrade_0001 : dbm unit := exec_all (DropTable <$> TABLE_NAMES).

(** ** [migrations/versions/0002_authz_error.py] *)

Definition upgrade_0002 : dbm unit := exec_ddl (AddColumn (u "authorizations") (u "error") TEXT).
Definition downgrade_0002 : dbm unit := exec_ddl (DropColumn (u "authorizations") (u "error")).

Record revision := mk_revision {
  rev_id : str; rev_down : option str; rev_upgrade : dbm unit; rev_downgrade : dbm unit }.
Definition rev_0001 : revision := mk_revision (u "0001_initial") None upgrade_0001 downgrade_0001.
Definition rev_0002 : revision :=
  mk_revision (u "0002_authz_error") (Some (u "0001_initial")) upgrade_0002 downgrade_0002.
(** The scripts of the directory, ordered by [down_revision]. *)
Definition REVISIONS : list revision := [rev_0001; rev_0002].

(** ** The ORM's metadata *)

Inductive orm_type := OrmString | OrmText | OrmDateTime | OrmBoolean.
(** [Mapped[...]] with the arguments of [mapped_column]. *)
Record mapped := mk_mapped {
  mp_name : str; mp_type : orm_type; mp_optional : bool; mp_pk : bool; mp_fk : option (str * str); mp_index : bool }.
Definition attr (name : str) (type : orm_type) : mapped := mk_mapped name type false false None false.
Definition optional (name : str) (type : orm_type) : mapped := mk_mapped name type true false None false.
Definition key (name : str) : mapped := mk_mapped name OrmString false true None false.
Definition indexed (m : mapped) : mapped :=
  mk_mapped (mp_name m) (mp_type m) (mp_optional m) (mp_pk m) (mp_fk m) true.
Definition refers (m : mapped) (table column : str) : mapped :=
  mk_mapped (mp_name m) (mp_type m) (mp_optional m) (mp_pk m) (Some (table, column)) (mp_index m).

Definition METADATA : list (str * list mapped) :=
  [(u "accounts",
    [key (u "id"); indexed (attr (u "public_key") OrmText); optional (u "contact") OrmText;
     attr (u "status") OrmString; attr (u "created_at") OrmDateTime]);
   (u "orders",
    [key (u "id"); indexed (refers (attr (u "account_id") OrmString) (u "accounts") (u "id"));
     attr (u "status") OrmString; attr (u "identifiers") OrmText; optional (u "le_order_url") OrmText;
     refers (optional (u "cert_id") OrmString) (u "certificates") (u "id");
     optional (u "expires_at") OrmDateTime; attr (u "created_at") OrmDateTime; optional (u "error") OrmText]);
   (u "authorizations",
    [key (u "id"); refers (attr (u "order_id") OrmString) (u "orders") (u "id"); attr (u "identifier") OrmString;
     attr (u "status") OrmString; optional (u "challenge_token") OrmString; optional (u "le_authz_url") OrmText;
     attr (u "created_at") OrmDateTime; optional (u "error") OrmText]);
   (u "certificates",
    [key (u "id"); refers (attr (u "order_id") OrmString) (u "orders") (u "id"); attr (u "pem_chain") OrmText;
     attr (u "issued_at") OrmDateTime; attr (u "expires_at") OrmDateTime;
     indexed (optional (u "serial") OrmString)]);
   (u "nonces",
    [key (u "value"); attr (u "used") OrmBoolean; indexed (attr (u "created_at") OrmDateTime)])].

(** The statements SQLAlchemy writes for the metadata on SQLite. *)
Definition orm_sql_type (t : orm_type) : str :=
  match t with OrmString => VARCHAR | OrmText => TEXT | OrmDateTime => DATETIME | OrmBoolean => BOOLEAN end.
Definition orm_column (m : mapped) : column :=
  mk_column (mp_name m) (orm_sql_type (mp_type m)) (mp_pk m || negb (mp_optional m)) (mp_pk m).
Definition orm_key (m : mapped) : option (str * (str * str)) := (mp_name m,.) <$> mp_fk m.
Definition orm_table (t : str * list mapped) : ddl := CreateTable t.1 (orm_column <$> t.2) (omap orm_key t.2).
Definition orm_indexes (t : str * list mapped) : list ddl :=
  omap (λ m, if mp_index m
    then Some (CreateIndex false (u "ix_" ++ t.1 ++ u "_" ++ mp_name m) t.1 [mp_name m]) else None) t.2.
Definition orm_statements (metadata : list (str * list mapped)) : list ddl :=
  metadata ≫= λ t, orm_table t :: orm_indexes t.

(** ** Shapes *)

(** How SQLite stores a declared type. *)
Inductive affinity := AffInteger | AffText | AffBlob | AffReal | AffNumeric.
#[export] Instance affinity_eq_dec : EqDecision affinity.
Proof. solve_decision. Defined.
Definition type_affinity (t : str) : affinity :=
  if str_contains (u "INT") t then AffInteger
  else if str_contains (u "CHAR") t || str_contains (u "CLOB") t || str_contains (u "TEXT") t then AffText
  else if str_contains (u "BLOB") t || bool_decide (t = []) then AffBlob
  else if str_contains (u "REAL") t || str_contains (u "FLOA") t || str_contains (u "DOUB") t then AffReal
  else AffNumeric.

(** A schema without its rows, types by affinity. *)
Definition table_shape (t : table) : list (str * affinity * bool * bool) * list (str * (str * str)) :=
  ((λ c, (col_name c, type_affinity (col_type c), col_not_null c, col_pk c)) <$> tb_columns t, tb_keys t).
Definition shape (d : database) := (table_shape <$> db_tables d, db_indexes d).
