(* ===== verification/Engine.v ===== *)
(** * The database engine: [db/engine.py]

    Start-up of the database: Alembic migrations of a file, reconciliation of a
    database older than Alembic, and the ORM's metadata for one in memory.
    Alembic and SQLAlchemy are the class [DbTools]; [DbLaws] states the
    documented behaviour the code relies on. *)
From S2P Require Import Prelude PyStr Json External PyStd Models Config Schema.

(** [s.replace(old, new)] for a non-empty [old]. *)
Fixpoint replace_from (old new : str) (skip : nat) (s : str) : str :=
  match s with
  | [] => []
  | c :: r =>
      match skip with
      | S k => replace_from old new k r
      | O => if startswith s old then new ++ replace_from old new (length old - 1) r
             else c :: replace_from old new 0 r
      end
  end.
Definition replace (s old new : str) : str := replace_from old new 0 s.

(** ** Alembic's upgrades *)

Definition ALEMBIC_VERSION : str := u "alembic_version".
Definition version_table (v : option str) : table :=
  mk_table [pk (u "version_num") (u "VARCHAR(32)")] []
    (match v with Some v => [[Some v]] | None => [] end).

(** The revision a database is at; [None] before the first. *)
Definition current_version : dbm (option str) := λ d,
  match db_tables d !! ALEMBIC_VERSION with
  | None => (inr None, d)
  | Some t =>
      match tb_rows t with
      | [] => (inr None, d)
      | [[Some v]] => (inr (Some v), d)
      | _ => (inl (PyErr CommandError []), d)
      end
  end.

Fixpoint after (v : str) (l : list revision) : option (list revision) :=
  match l with
  | [] => None
  | r :: l => if decide (rev_id r = v) then Some l else after v l
  end.
Definition pending (v : option str) : res (list revision) :=
  match v with None => inr REVISIONS | Some v => or_raise (PyErr CommandError v) (after v REVISIONS) end.

Definition set_version (v : str) : dbm unit := λ d, (inr tt, put_table ALEMBIC_VERSION (version_table (Some v)) d).
Definition ensure_version_table : dbm unit := λ d,
  match db_tables d !! ALEMBIC_VERSION with
  | Some _ => (inr tt, d)
  | None => (inr tt, put_table ALEMBIC_VERSION (version_table None) d)
  end.
Fixpoint run_revisions (l : list revision) : dbm unit :=
  match l with [] => mret tt | r :: l => rev_upgrade r ;; set_version (rev_id r) ;; run_revisions l end.
(** Runs the pending revisions in order and records each when it is done. *)
Definition upgrade_to_head : dbm unit :=
  v ← current_version; revs ← dbm_lift (pending v); ensure_version_table ;; run_revisions revs.
(** Records a revision without running it. *)
Definition stamp_revision (v : str) : dbm unit := ensure_version_table ;; set_version v.

Class DbTools := {
  alembic_cfg : Type;
  new_config : alembic_cfg;                                        (** [Config()] *)
  set_main_option : str → str → alembic_cfg → res alembic_cfg;
  command_upgrade : alembic_cfg → str → dbm unit;
  command_stamp : alembic_cfg → str → dbm unit;
  create_sync_engine : str → res unit;                             (** [create_engine(url)] *)
  metadata_create_all : list (str * list mapped) → dbm unit;
  migrations_dir : str
}.

Section engine.
Context `{DbTools}.

(** ** Engines *)

Record async_engine := mk_async_engine { en_url : str; en_static_pool : bool }.
Definition in_memory (url : str) : bool := str_contains (u ":memory:") url.
Definition get_engine (cfg : Settings) : async_engine :=
  mk_async_engine (database_url cfg) (in_memory (database_url cfg)).

(** The session factory, and the module attributes made on demand. *)
Record sessionmaker := mk_sessionmaker { sm_engine : async_engine; sm_expire_on_commit : bool }.
Definition get_sessionmaker (cfg : Settings) : sessionmaker := mk_sessionmaker (get_engine cfg) false.
Definition module_getattr `{Ext} (cfg : Settings) (name : str) : res (async_engine + sessionmaker) :=
  if decide (name = u "engine") then inr (inl (get_engine cfg))
  else if decide (name = u "AsyncSessionLocal") then inr (inr (get_sessionmaker cfg))
  else inl (PyErr AttributeError (u "module 'jackdaw.db.engine' has no attribute " ++ repr_str name)).

(** ** Migrations *)

Definition PRE_ALEMBIC_COLUMNS : list (str * str * str) :=
  [(u "orders", u "error", TEXT); (u "certificates", u "serial", TEXT)].
Definition PRE_ALEMBIC_INDEXES : list ddl :=
  [CreateIndex true (u "ix_accounts_public_key") (u "accounts") [u "public_key"];
   CreateIndex true (u "ix_nonces_created_at") (u "nonces") [u "created_at"];
   CreateIndex true (u "ix_orders_account_id") (u "orders") [u "account_id"];
   CreateIndex true (u "ix_certificates_serial") (u "certificates") [u "serial"]].

Definition sync_url (async_url : str) : str := replace async_url (u "+aiosqlite") [].

Definition alembic_config (sync_url : str) : res alembic_cfg :=
  cfg ← set_main_option (u "script_location") migrations_dir new_config;
  set_main_option (u "sqlalchemy.url") sync_url cfg.

(** [PRAGMA table_info(t)]: the column names; none for a missing table. *)
Definition table_info (t : str) : dbm (list str) := λ d,
  (inr (match db_tables d !! t with Some tb => col_name <$> tb_columns tb | None => [] end), d).

Fixpoint reconcile_columns (l : list (str * str * str)) : dbm unit :=
  match l with
  | [] => mret tt
  | (t, c, ty) :: l =>
      cols ← table_info t;
      (if negb (bool_decide (cols = [])) && negb (bool_decide (c ∈ cols))
       then exec_ddl (AddColumn t c ty) else mret tt) ;;
      reconcile_columns l
  end.
Definition reconcile_pre_alembic : dbm unit :=
  reconcile_columns PRE_ALEMBIC_COLUMNS ;; exec_all PRE_ALEMBIC_INDEXES.

Definition table_names : dbm (gset str) := λ d, (inr (dom (db_tables d)), d).

Definition run_migrations (async_url : str) : dbm unit :=
  let sync_url := sync_url async_url in
  cfg ← dbm_lift (alembic_config sync_url);
  dbm_lift (create_sync_engine sync_url) ;;
  table_names ← table_names;
  if decide (ALEMBIC_VERSION ∈ table_names) then command_upgrade cfg (u "head")
  else if decide (u "accounts" ∈ table_names) then
    reconcile_pre_alembic ;; command_stamp cfg (u "0001_initial") ;; command_upgrade cfg (u "head")
  else command_upgrade cfg (u "head").

Definition init_db (cfg : Settings) : dbm unit :=
  let url := database_url cfg in
  if in_memory url then metadata_create_all METADATA else run_migrations url.

(** ** What the tools promise *)

(** A configuration without the interpolation character is accepted; [upgrade]
    to [head] and [stamp] act on the packaged scripts; [create_all] creates the
    tables of the metadata that are missing, here from nothing. *)
Class DbLaws := {
  set_main_option_plain name value cfg : (37 ∉ value) → ∃ cfg', set_main_option name value cfg = inr cfg';
  migrations_dir_plain : (37 ∉ migrations_dir);
  create_engine_sqlite url : u "sqlite:///" `prefix_of` url → create_sync_engine url = inr tt;
  upgrade_head url cfg d : u "sqlite:///" `prefix_of` url → alembic_config url = inr cfg →
    command_upgrade cfg (u "head") d = upgrade_to_head d;
  stamp_known url cfg v d : u "sqlite:///" `prefix_of` url → alembic_config url = inr cfg →
    v ∈ (rev_id <$> REVISIONS) → command_stamp cfg v d = stamp_revision v d;
  create_all_fresh metadata : metadata_create_all metadata no_tables = exec_all (orm_statements metadata) no_tables
}.
End engine.

(** ** The migration of a database *)

(** [run_migrations] where the tools keep their promises. *)
Definition migrate : dbm unit :=
  names ← table_names;
  if decide (ALEMBIC_VERSION ∈ names) then upgrade_to_head
  else if decide (u "accounts" ∈ names) then
    reconcile_pre_alembic ;; stamp_revision (u "0001_initial") ;; upgrade_to_head
  else upgrade_to_head.

Definition migratable (url : str) : Prop := (37 ∉ url) ∧ u "sqlite:///" `prefix_of` sync_url url.

Lemma replace_nil_subset old k s x : x ∈ replace_from old [] k s → x ∈ s.
Proof.
  revert k. induction s as [|c s IH]; intros k; [done|]. cbn [replace_from].
  destruct k as [|k]; [|by intros ?%IH; right].
  destruct (startswith _ _); [by intros ?%IH; right|].
  intros [->|?%IH]%elem_of_cons; [left|by right].
Qed.

Section migrate.
Context `{DbLaws}.

Lemma run_migrations_eq url d : migratable url → run_migrations url d = migrate d.
Proof.
  intros [Hp Hs]. unfold run_migrations, migrate.
  assert (∃ cfg, alembic_config (sync_url url) = inr cfg) as [cfg Hc].
  { unfold alembic_config.
    destruct (set_main_option_plain (u "script_location") migrations_dir new_config migrations_dir_plain) as [cfg1 E1].
    destruct (set_main_option_plain (u "sqlalchemy.url") (sync_url url) cfg1) as [cfg2 E2].
    { intros Hx. by apply replace_nil_subset in Hx. }
    exists cfg2. by rewrite E1. }
  rewrite Hc, create_engine_sqlite by done. cbv [mbind dbm_bind dbm_lift table_names].
  repeat case_decide; [by erewrite upgrade_head| |by erewrite upgrade_head].
  destruct (reconcile_pre_alembic d) as [[e|[]] d1]; [done|].
  erewrite stamp_known by (done || left).
  destruct (stamp_revision (u "0001_initial") d1) as [[e|[]] d2]; [done|]. by erewrite upgrade_head.
Qed.
End migrate.

(** Databases the program may find: empty; of a release before Alembic, where
    the late columns and indexes may be missing; at a revision.  [rows] are the
    rows of each table. *)
Record release := mk_release {
  rl_error : bool;                       (** [orders.error] *)
  rl_serial : option (str * bool);       (** the type of [certificates.serial], and its index *)
  rl_public_key : bool; rl_created_at : bool; rl_account_id : bool }.
Definition release_columns (r : release) (t : str) (cols : list column) : list column :=
  if decide (t = u "orders") then filter (λ c, rl_error r = true ∨ col_name c ≠ u "error") cols
  else if decide (t = u "certificates") then
    cols ≫= λ c, if decide (col_name c = u "serial") then
      match rl_serial r with Some (ty, _) => [nullable (u "serial") ty] | None => [] end else [c]
  else cols.
Definition release_tables (r : release) (rows : str → list (list cell)) : gmap str table :=
  list_to_map (omap (λ s, match s with
    | CreateTable n cols keys => Some (n, mk_table (release_columns r n cols) keys (rows n))
    | _ => None end) V1_TABLES).
Definition release_indexes (r : release) : gmap str (str * list str) :=
  list_to_map (
    (if rl_public_key r then [(u "ix_accounts_public_key", (u "accounts", [u "public_key"]))] else []) ++
    (if rl_created_at r then [(u "ix_nonces_created_at", (u "nonces", [u "created_at"]))] else []) ++
    (if rl_account_id r then [(u "ix_orders_account_id", (u "orders", [u "account_id"]))] else []) ++
    (match rl_serial r with Some (_, true) => [(u "ix_certificates_serial", (u "certificates", [u "serial"]))] | _ => [] end)).
Definition pre_alembic (r : release) (rows : str → list (list cell)) : database :=
  mk_database (release_tables r rows) (release_indexes r).
Definition baseline (serial_type : str) : release := mk_release true (Some (serial_type, true)) true true true.
Definition at_0001 (serial_type : str) (rows : str → list (list cell)) : database :=
  put_table ALEMBIC_VERSION (version_table (Some (u "0001_initial"))) (pre_alembic (baseline serial_type) rows).

Definition without_version (d : database) : database :=
  mk_database (delete ALEMBIC_VERSION (db_tables d)) (db_indexes d).
(** At the last revision, with the schema of the ORM. *)
Definition at_head (d : database) : Prop :=
  (current_version d).1 = inr (Some (u "0002_authz_error")) ∧
  shape (without_version d) = shape (exec_all (orm_statements METADATA) no_tables).2.

Inductive installed : database → Prop :=
| installed_fresh : installed no_tables
| installed_release error serial ix1 ix2 ix3 rows :
    (∀ ty b, serial = Some (ty, b) → ty = VARCHAR ∨ ty = TEXT) →
    installed (pre_alembic (mk_release error serial ix1 ix2 ix3) rows)
| installed_0001 ty rows : ty = VARCHAR ∨ ty = TEXT → installed (at_0001 ty rows)
| installed_head d : at_head d → installed d.

(** Rows are kept, new columns hold NULL. *)
Definition pad_rows (n : nat) (rows : list (list cell)) : list (list cell) :=
  match n with O => rows | _ => (λ r, r ++ replicate n None) <$> rows end.
Definition table_kept (n : str) (d d' : database) : Prop :=
  match db_tables d !! n, db_tables d' !! n with
  | Some t, Some t' =>
      tb_columns t `prefix_of` tb_columns t' ∧ tb_keys t' = tb_keys t ∧
      tb_rows t' = pad_rows (length (tb_columns t') - length (tb_columns t)) (tb_rows t)
  | Some _, None => False
  | None, _ => True
  end.
Definition data_kept (d d' : database) : Prop := Forall (λ n, table_kept n d d') TABLE_NAMES.

Lemma data_kept_refl d : data_kept d d.
Proof.
  apply Forall_forall. intros n _. unfold table_kept. destruct (db_tables d !! n) as [t|]; [|done].
  split_and!; [done|done|]. by rewrite Nat.sub_diag.
Qed.

Lemma current_version_pure d : (current_version d).2 = d.
Proof. unfold current_version. by repeat case_match. Qed.

(** Nothing is pending at the head. *)
Lemma head_done d : at_head d → migrate d = (inr tt, d).
Proof.
  intros [Hv _]. pose proof Hv as Ht. unfold current_version in Ht.
  destruct (db_tables d !! ALEMBIC_VERSION) as [t|] eqn:Et; [|done]. clear Ht.
  unfold migrate, upgrade_to_head. cbv [mbind dbm_bind table_names].
  rewrite decide_True by (apply elem_of_dom; eauto).
  pose proof (current_version_pure d) as Hp. destruct (current_version d) as [v d']. cbn [fst snd] in Hv, Hp. subst.
  cbv beta iota.
  assert (pending (Some (u "0002_authz_error")) = inr []) as -> by (vm_compute; reflexivity).
  unfold dbm_lift, ensure_version_table. by rewrite Et.
Qed.

Definition migrated (d : database) : Prop :=
  (migrate d).1 = inr tt ∧ at_head (migrate d).2 ∧ data_kept d (migrate d).2.

Lemma data_kept_intro d d' :
  table_kept (u "authorizations") d d' → table_kept (u "orders") d d' → table_kept (u "nonces") d d' →
  table_kept (u "certificates") d d' → table_kept (u "accounts") d d' → data_kept d d'.
Proof. intros. unfold data_kept. by repeat constructor. Qed.

(** Decides [migrated] where only rows are unknown. *)
Ltac migrate_compute :=
  split_and!; [vm_compute; reflexivity| |];
  [split; [vm_compute; reflexivity|apply (bool_decide_unpack _); vm_compute; exact I]
  |apply data_kept_intro; vm_compute; split_and?; solve [done|eexists; reflexivity]].

Lemma migrated_fresh : migrated no_tables.
Proof. migrate_compute. Qed.

Lemma migrated_0001 ty rows : ty = VARCHAR ∨ ty = TEXT → migrated (at_0001 ty rows).
Proof. intros [->| ->]; migrate_compute. Qed.

Lemma migrated_release error serial ix1 ix2 ix3 rows :
  (∀ ty b, serial = Some (ty, b) → ty = VARCHAR ∨ ty = TEXT) →
  migrated (pre_alembic (mk_release error serial ix1 ix2 ix3) rows).
Proof.
  intros Hty. destruct serial as [[ty b]|].
  - destruct (Hty ty b eq_refl) as [->| ->]; clear Hty; destruct error, b, ix1, ix2, ix3; migrate_compute.
  - clear Hty. destruct error, ix1, ix2, ix3; migrate_compute.
Qed.

Lemma migrated_installed d : installed d → migrated d ∧ migrate (migrate d).2 = (inr tt, (migrate d).2).
Proof.
  intros Hd. assert (migrated d) as Hm.
  { destruct Hd as [|error serial ix1 ix2 ix3 rows Hty|ty rows Hty|d Hd].
    - apply migrated_fresh.
    - by apply migrated_release.
    - by apply migrated_0001.
    - unfold migrated. rewrite head_done by done. split_and!; [done|done|apply data_kept_refl]. }
  split; [done|]. apply head_done, Hm.
Qed.

(** ** Undoing a revision *)

Lemma keep_all {A} (mask : list bool) (l : list A) (b : A) :
  length mask = length l → Forall (λ m, m = true) mask → keep (mask ++ [false]) (l ++ [b]) = l.
Proof.
  unfold keep. revert l. induction mask as [|m mask IH]; intros [|a l] Hl Hm; try done.
  apply Forall_cons in Hm as [-> Hm]. cbn [app zip_with]. rewrite filter_cons_True by done.
  cbn [fmap list_fmap snd]. f_equal.
  apply IH; [by injection Hl|done].
Qed.

(** A table that revision 0002 applies to. *)
Definition without_error (d : database) (t : table) : Prop :=
  has_column t (u "error") = false ∧ tb_columns t ≠ [] ∧
  Forall (λ r, length r = length (tb_columns t)) (tb_rows t) ∧
  (u "error" ∉ (tb_keys t).*1) ∧
  map_Forall (λ _ i, ¬ (i.1 = u "authorizations" ∧ u "error" ∈ i.2)) (db_indexes d).

Lemma column_mask (t : table) : has_column t (u "error") = false →
  Forall (λ m, m = true) ((λ x, negb (bool_decide (col_name x = u "error"))) <$> tb_columns t).
Proof.
  unfold has_column. intros He. apply Forall_fmap, Forall_forall.
  intros c Hc. change (negb (bool_decide (col_name c = u "error")) = true).
  destruct (bool_decide (col_name c = u "error")) eqn:E; [|done].
  exfalso. assert (existsb (λ x, bool_decide (col_name x = u "error")) (tb_columns t) = true) as Ht.
  { apply existsb_exists. exists c. split; [by apply list_elem_of_In|done]. }
  by rewrite Ht in He.
Qed.

Lemma undo_0002 d t : db_tables d !! u "authorizations" = Some t → without_error d t →
  (upgrade_0002 ;; downgrade_0002) d = (inr tt, d).
Proof.
  intros Ht (He & Hne & Hr & Hk & Hi). unfold upgrade_0002, downgrade_0002. cbv [mbind dbm_bind].
  unfold exec_ddl at 1. rewrite Ht, He. cbv beta iota. unfold exec_ddl, put_table; cbn [db_tables db_indexes].
  rewrite lookup_insert_eq. cbn [tb_columns tb_keys tb_rows].
  set (c := mk_column (u "error") TEXT false false). set (t' := mk_table (tb_columns t ++ [c]) _ _).
  set (mask := (λ x, negb (bool_decide (col_name x = u "error"))) <$> tb_columns t).
  assert ((λ x, negb (bool_decide (col_name x = u "error"))) <$> (tb_columns t ++ [c]) = mask ++ [false]) as Hmask
    by (by rewrite fmap_app).
  rewrite Hmask. pose proof (column_mask t He) as Hm. fold mask in Hm.
  assert (length mask = length (tb_columns t)) as Hl by apply length_fmap.
  assert (has_column t' (u "error") = true) as ->.
  { unfold has_column, t'. cbn [tb_columns]. rewrite existsb_app. by apply orb_true_intro; right. }
  rewrite bool_decide_eq_false_2.
  2:{ intros [Hx|[Hx|Hx]]; [|done|done]. unfold t' in Hx. cbn [tb_columns] in Hx.
    rewrite existsb_app in Hx. apply orb_prop in Hx as [Hx|Hx]; [|done].
    apply existsb_exists in Hx as (x & Hin & [Hx _]%andb_prop).
    assert (has_column t (u "error") = true) as Hc by (apply existsb_exists; eauto). by rewrite Hc in He. }
  assert ((length (tb_columns t ++ [c]) =? 1)%nat = false) as ->.
  { apply Nat.eqb_neq. rewrite length_app. destruct (tb_columns t); [done|]. cbn. lia. }
  cbn [negb orb]. rewrite insert_insert_eq, (keep_all mask _ c) by done.
  assert (keep (mask ++ [false]) <$> ((λ r : list cell, r ++ [None]) <$> tb_rows t) = tb_rows t) as Hrows.
  { rewrite <- list_fmap_compose. rewrite <- (list_fmap_id (tb_rows t)) at 2. apply list_fmap_ext.
    intros k r Hkr. cbn. apply keep_all; [|done]. rewrite Hl. symmetry.
    by apply (Forall_lookup_1 _ _ _ _ Hr Hkr). }
  rewrite Hrows. replace (mk_table (tb_columns t) (tb_keys t) (tb_rows t)) with t by (by destruct t).
  rewrite insert_id by done. by destruct d.
Qed.

(** ** Concrete tools *)

Module Tools.
#[export] Instance tools : DbTools := {|
  alembic_cfg := unit; new_config := tt;
  set_main_option := λ _ value _, if decide (37 ∈ value) then inl (PyErr ValueError []) else inr tt;
  command_upgrade := λ _ _, upgrade_to_head; command_stamp := λ _, stamp_revision;
  create_sync_engine := λ _, inr tt; metadata_create_all := λ m, exec_all (orm_statements m);
  migrations_dir := u "/usr/lib/jackdaw/migrations" |}.
#[export] Instance laws : DbLaws.
Proof.
  split; try done.
  - intros name value cfg Hv. exists tt. cbn. by rewrite decide_False.
  - apply (bool_decide_unpack _). vm_compute. exact I.
Qed.
Definition url : str := u "sqlite+aiosqlite:////data/relay.db".
Lemma url_migratable : migratable url.
Proof. split; apply (bool_decide_unpack _); vm_compute; exact I. Qed.
End Tools.
#[local] Existing Instance Tools.tools.
#[local] Existing Instance Tools.laws.

(** ** Properties *)

(** Start-up brings every database the program may find to the last revision:
    an empty one, one of any release before Alembic (with or without the late
    columns and indexes), one at the first revision or at the last.  The schema
    is then the ORM's (types by affinity), every row is kept, with NULL in new
    columns, and a second start changes nothing. *)
Theorem migrations_converge `{DbLaws} url d :
  migratable url → installed d →
  ∃ d', run_migrations url d = (inr tt, d') ∧ at_head d' ∧ data_kept d d' ∧
    run_migrations url d' = (inr tt, d').
Proof.
  intros Hu [(Hr & Hh & Hk) Hd]%migrated_installed. exists (migrate d).2.
  rewrite !run_migrations_eq by done. split_and!; [|done..].
  by destruct (migrate d) as [r d']; cbn in Hr; subst.
Qed.

(** An early release: no late column, one index, one account. *)
Definition early : database :=
  pre_alembic (mk_release false None true false false) (λ t,
    if decide (t = u "accounts") then [[Some (u "acct-1"); Some (u "{}"); None; Some (u "valid"); Some (u "2026")]] else []).
Lemma migrations_converge_witness :
  ∃ d', run_migrations Tools.url early = (inr tt, d') ∧ at_head d' ∧ data_kept early d' ∧
    run_migrations Tools.url d' = (inr tt, d').
Proof.
  apply (migrations_converge Tools.url early); [exact Tools.url_migratable|].
  unfold early. apply installed_release. intros ty b Hs. discriminate Hs.
Defined.

(** C38: the two ways of creating the schema agree: the migrations from an empty
    file and the ORM's metadata in memory give the same tables (columns in order,
    types, keys) and indexes. *)
Theorem init_db_same_schema `{DbLaws} cfg_file cfg_memory :
  in_memory (database_url cfg_memory) = true →
  in_memory (database_url cfg_file) = false → migratable (database_url cfg_file) →
  (init_db cfg_file no_tables).1 = inr tt ∧ (init_db cfg_memory no_tables).1 = inr tt ∧
  without_version (init_db cfg_file no_tables).2 = (init_db cfg_memory no_tables).2.
Proof.
  intros Hm Hf Hu. unfold init_db. rewrite Hm, Hf, create_all_fresh, run_migrations_eq by done.
  split_and!; [vm_compute; reflexivity..|].
  apply (bool_decide_unpack _). vm_compute. exact I.
Qed.

Definition file_settings : Settings := Settings_defaults (u "null") (u "relay.test") (u "a@relay.test").
Definition memory_settings : Settings :=
  let s := file_settings in
  mk_Settings (dns_provider s) (relay_domain s) (acme_email s) (le_directory s) (dns_propagation_wait s)
    (u "sqlite+aiosqlite:///:memory:") (le_account_key_path s) (ssl_dir s) (nonce_ttl s) (nonce_max s)
    (log_level s) (serve_tls s) (allowed_domains s) (le_verify_ssl s) (challenge_http_port s)
    (challenge_timeout s) (challenge_retries s) (challenge_retry_delay s) (dns_zone_overrides s)
    (order_rate_limit s) (order_rate_window s).
Lemma init_db_same_schema_witness :
  without_version (init_db file_settings no_tables).2 = (init_db memory_settings no_tables).2 ∧
  (init_db file_settings no_tables).1 = inr tt.
Proof.
  destruct (init_db_same_schema file_settings memory_settings) as (Hf & _ & Hs).
  - vm_compute. reflexivity.
  - vm_compute. reflexivity.
  - exact Tools.url_migratable.
  - split; [exact Hs|exact Hf].
Defined.

(** A downgrade undoes its upgrade: revision 0002 on every database whose
    [authorizations] table lacks the column, rows included, and revision 0001 on
    an empty one. *)
Theorem downgrade_undoes d t :
  db_tables d !! u "authorizations" = Some t → without_error d t →
  (upgrade_0002 ;; downgrade_0002) d = (inr tt, d) ∧
  (upgrade_0001 ;; downgrade_0001) no_tables = (inr tt, no_tables).
Proof.
  intros Ht He. split; [by apply (undo_0002 d t)|]. apply (bool_decide_unpack _). vm_compute. exact I.
Qed.

(** A database at the first revision, with one authorization. *)
Definition one_authz : database :=
  at_0001 VARCHAR (λ t, if decide (t = u "authorizations") then
    [[Some (u "authz-1"); Some (u "order-1"); Some (u "{}"); Some (u "pending"); None; None; Some (u "2026")]] else []).
Definition authz_table : table := default (mk_table [] [] []) (db_tables one_authz !! u "authorizations").
Lemma downgrade_undoes_witness :
  length (tb_rows authz_table) = 1%nat ∧ (upgrade_0002 ;; downgrade_0002) one_authz = (inr tt, one_authz).
Proof.
  split; [vm_compute; reflexivity|].
  assert (He : without_error one_authz authz_table).
  { split_and!; [vm_compute; reflexivity|discriminate|apply (bool_decide_unpack _); vm_compute; exact I..]. }
  assert (Ht : db_tables one_authz !! u "authorizations" = Some authz_table) by (vm_compute; reflexivity).
  exact (proj1 (downgrade_undoes one_authz authz_table Ht He)).
Defined.
