(* ===== verification/Upgrade.v ===== *)
(** * An interrupted start-up

    The process can be killed while it migrates.  SQLite's driver commits every
    definition statement by itself and Alembic the version with each revision,
    so what a crash leaves is the database after a prefix of those commits.
    The start-up is written out as its list of commits, shown to be the one of
    [db/engine.py], and every prefix is followed by the next start. *)
From S2P Require Import Prelude PyStr Config Models Schema Engine.

(** ** Commits *)

Inductive commit :=
| AddMissing (table column type : str)   (** [PRAGMA table_info], and the [ALTER] when it is missing *)
| Statement (s : ddl)
| EnsureVersionTable
| WriteVersion (v : str).

Definition commit_run (c : commit) : dbm unit :=
  match c with
  | AddMissing t c ty => reconcile_columns [(t, c, ty)]
  | Statement s => exec_ddl s
  | EnsureVersionTable => ensure_version_table
  | WriteVersion v => set_version v
  end.
Fixpoint commits_run (l : list commit) : dbm unit :=
  match l with [] => mret tt | c :: l => commit_run c ;; commits_run l end.

(** The statements of a revision, and its commits. *)
Definition revision_statements (r : revision) : list ddl :=
  if decide (rev_id r = u "0001_initial") then V1_TABLES ++ V1_INDEXES
  else if decide (rev_id r = u "0002_authz_error") then [AddColumn (u "authorizations") (u "error") TEXT]
  else [].
Definition revision_commits (r : revision) : list commit :=
  (Statement <$> revision_statements r) ++ [WriteVersion (rev_id r)].
Definition upgrade_commits (v : option str) : res (list commit) :=
  revs ← pending v; mret (EnsureVersionTable :: (revs ≫= revision_commits)).
Definition reconcile_commits : list commit :=
  ((λ c, AddMissing c.1.1 c.1.2 c.2) <$> PRE_ALEMBIC_COLUMNS) ++ (Statement <$> PRE_ALEMBIC_INDEXES).
Definition stamp_commits (v : str) : list commit := [EnsureVersionTable; WriteVersion v].

Definition startup_commits (d : database) : res (list commit) :=
  if decide (ALEMBIC_VERSION ∉ dom (db_tables d) ∧ u "accounts" ∈ dom (db_tables d)) then
    rest ← upgrade_commits (Some (u "0001_initial"));
    mret (reconcile_commits ++ stamp_commits (u "0001_initial") ++ rest)
  else v ← (current_version d).1; upgrade_commits v.

(** What a start killed after [k] commits leaves. *)
Definition crash_after (k : nat) (d : database) : database :=
  match startup_commits d with inl _ => d | inr l => (commits_run (take k l) d).2 end.

Lemma commits_run_app l l' d : commits_run (l ++ l') d = (commits_run l ;; commits_run l') d.
Proof.
  revert d. induction l as [|c l IH]; intros d; [done|]. cbn [app commits_run]. cbv [mbind dbm_bind].
  destruct (commit_run c d) as [[e|[]] d1]; [done|]. apply IH.
Qed.
Lemma statements_run l d : commits_run (Statement <$> l) d = exec_all l d.
Proof.
  revert d. induction l as [|s l IH]; intros d; [done|]. cbn. cbv [mbind dbm_bind].
  destruct (exec_ddl s d) as [[e|[]] d1]; [done|]. apply IH.
Qed.
Lemma exec_all_app l l' d : exec_all (l ++ l') d = (exec_all l ;; exec_all l') d.
Proof.
  revert d. induction l as [|s l IH]; intros d; [done|]. cbn [app exec_all]. cbv [mbind dbm_bind].
  destruct (exec_ddl s d) as [[e|[]] d1]; [done|]. apply IH.
Qed.

Lemma revisions_run l d : l ⊆ REVISIONS → commits_run (l ≫= revision_commits) d = run_revisions l d.
Proof.
  revert d. induction l as [|r l IH]; intros d Hl; [done|]. rewrite bind_cons, commits_run_app.
  assert (∀ d, exec_all (revision_statements r) d = rev_upgrade r d) as Hr.
  { assert (r ∈ REVISIONS) as Hin by (apply Hl; left). unfold REVISIONS in Hin.
    apply elem_of_cons in Hin as [->|[->|[]%elem_of_nil]%elem_of_cons]; intros d'.
    - change (revision_statements rev_0001) with (V1_TABLES ++ V1_INDEXES). apply exec_all_app.
    - change (revision_statements rev_0002) with [AddColumn (u "authorizations") (u "error") TEXT].
      cbn [exec_all]. cbv [mbind dbm_bind]. change (rev_upgrade rev_0002) with upgrade_0002. unfold upgrade_0002.
      by destruct (exec_ddl _ d') as [[e|[]] d1]. }
  unfold revision_commits. cbv [mbind dbm_bind]. rewrite commits_run_app. cbv [mbind dbm_bind].
  rewrite statements_run, Hr. cbn [run_revisions]. cbv [mbind dbm_bind].
  destruct (rev_upgrade r d) as [[e|[]] d1]; [done|]. cbn [commits_run commit_run]. cbv [mbind dbm_bind].
  destruct (set_version (rev_id r) d1) as [[e|[]] d2]; [done|]. cbn.
  apply IH. intros x Hx. apply Hl. by right.
Qed.

Lemma after_subset v l l' : after v l = Some l' → l' ⊆ l.
Proof.
  induction l as [|r l IH]; cbn; [done|]. case_decide; [intros [= ->]|intros Hl%IH]; set_solver.
Qed.
Lemma pending_subset v revs : pending v = inr revs → revs ⊆ REVISIONS.
Proof.
  unfold pending. destruct v as [v|]; [|by intros [= <-]].
  unfold or_raise. destruct (after v REVISIONS) as [l|] eqn:E; [intros [= <-]|done]. by eapply after_subset.
Qed.

Lemma upgrade_run d : upgrade_to_head d =
  match (v ← (current_version d).1; upgrade_commits v) with inl e => (inl e, d) | inr l => commits_run l d end.
Proof.
  unfold upgrade_to_head. cbv [mbind dbm_bind]. pose proof (current_version_pure d) as Hp.
  destruct (current_version d) as [[e|v] d']; cbn in Hp; subst; [done|]. cbn.
  unfold upgrade_commits, dbm_lift. destruct (pending v) as [e|revs] eqn:Hr; [done|]. cbn.
  cbv [mbind dbm_bind]. destruct (ensure_version_table d) as [[e|[]] d1]; [done|].
  symmetry. apply revisions_run. by eapply pending_subset.
Qed.

Lemma columns_run l d :
  commits_run ((λ c, AddMissing c.1.1 c.1.2 c.2) <$> l) d = reconcile_columns l d.
Proof.
  revert d. induction l as [|[[t c] ty] l IH]; intros d; [done|].
  cbn [fmap list_fmap fst snd commits_run commit_run reconcile_columns]. cbv [mbind dbm_bind table_info].
  destruct (negb _ && negb _); [|apply IH].
  destruct (exec_ddl (AddColumn t c ty) d) as [[e|[]] d1]; [done|]. apply IH.
Qed.
Lemma reconcile_run d : commits_run reconcile_commits d = reconcile_pre_alembic d.
Proof.
  unfold reconcile_commits, reconcile_pre_alembic. rewrite commits_run_app. cbv [mbind dbm_bind].
  rewrite columns_run. destruct (reconcile_columns _ d) as [[e|[]] d1]; [done|]. apply statements_run.
Qed.
Lemma stamp_run v d : commits_run (stamp_commits v) d = stamp_revision v d.
Proof. unfold stamp_revision. cbn. cbv [mbind dbm_bind]. by destruct (ensure_version_table d) as [[e|[]] d1]. Qed.

(** The commits are those of the start-up. *)
Lemma startup_run d :
  migrate d = match startup_commits d with inl e => (inl e, d) | inr l => commits_run l d end.
Proof.
  unfold migrate, startup_commits. cbv [mbind dbm_bind table_names].
  case_decide as Hv; [rewrite decide_False by tauto; apply upgrade_run|].
  case_decide as Ha; [|rewrite decide_False by tauto; apply upgrade_run].
  rewrite decide_True by done.
  destruct (upgrade_commits (Some (u "0001_initial"))) as [e|rest] eqn:Hr; [by vm_compute in Hr|].
  cbv [mbind res_bind mret res_ret]. rewrite commits_run_app. cbv [mbind dbm_bind]. rewrite reconcile_run.
  destruct (reconcile_pre_alembic d) as [[e|[]] d1]; [done|].
  rewrite commits_run_app. cbv [mbind dbm_bind]. rewrite stamp_run.
  destruct (stamp_revision (u "0001_initial") d1) as [[e|[]] d2] eqn:Hs; [done|].
  rewrite upgrade_run. assert ((current_version d2).1 = inr (Some (u "0001_initial"))) as Hc.
  { unfold stamp_revision in Hs. cbv [mbind dbm_bind ensure_version_table set_version] in Hs.
    unfold current_version. destruct (db_tables d1 !! ALEMBIC_VERSION); injection Hs as <-; cbn [put_table db_tables];
      by rewrite lookup_insert_eq. }
  rewrite Hc. change (v ← inr (Some (u "0001_initial")); upgrade_commits v) with (upgrade_commits (Some (u "0001_initial"))).
  by rewrite Hr.
Qed.

(** ** Data *)

Lemma pad_rows_add a b rows : pad_rows b (pad_rows a rows) = pad_rows (a + b) rows.
Proof.
  destruct a as [|a], b as [|b]; cbn [pad_rows Nat.add]; try done; [by rewrite Nat.add_0_r|].
  rewrite <- list_fmap_compose. apply list_fmap_ext. intros i r _. cbn.
  rewrite <- (assoc_L (++)). f_equal. symmetry. exact (replicate_add (S a) (S b) None).
Qed.
Lemma table_kept_trans n d d' d'' : table_kept n d d' → table_kept n d' d'' → table_kept n d d''.
Proof.
  unfold table_kept. destruct (db_tables d !! n) as [t|], (db_tables d' !! n) as [t'|],
    (db_tables d'' !! n) as [t''|]; try done.
  intros (Hc & Hk & Hr) (Hc' & Hk' & Hr'). split_and!; [by etrans|congruence|].
  rewrite Hr', Hr, pad_rows_add. f_equal.
  pose proof (prefix_length _ _ Hc). pose proof (prefix_length _ _ Hc'). lia.
Qed.
Lemma table_kept_same n d d' : db_tables d' !! n = db_tables d !! n → table_kept n d d'.
Proof.
  intros E. unfold table_kept. rewrite E. destruct (db_tables d !! n) as [t|]; [|done].
  split_and!; [done|done|]. by rewrite Nat.sub_diag.
Qed.

(** A statement that removes nothing. *)
Definition growing (s : ddl) : Prop :=
  match s with DropColumn _ _ | DropTable _ => False | _ => True end.
Definition commit_growing (c : commit) : Prop := match c with Statement s => growing s | _ => True end.

Lemma table_kept_new n n' t d : db_tables d !! n' = None → table_kept n d (put_table n' t d).
Proof.
  intros Hn. unfold table_kept, put_table. cbn. destruct (decide (n = n')) as [->|Hne]; [by rewrite Hn|].
  rewrite lookup_insert_ne by done. by apply table_kept_same.
Qed.
Lemma exec_kept n s d : growing s → table_kept n d (exec_ddl s d).2.
Proof.
  intros Hs. destruct s as [n' cols keys|ine n' t cols|t c ty|t c|t]; try done; cbn.
  - case_decide as Hd; [by apply table_kept_same|]. apply table_kept_new, eq_None_not_Some. tauto.
  - repeat case_match; try (by apply table_kept_same).
  - destruct (db_tables d !! t) as [tb|] eqn:Ht; [|by apply table_kept_same].
    destruct (has_column tb c); [by apply table_kept_same|]. cbn.
    destruct (decide (n = t)) as [->|Hne]; [|apply table_kept_same; cbn; by rewrite lookup_insert_ne].
    unfold table_kept. rewrite Ht. cbn. rewrite lookup_insert_eq. cbn. split_and!; [by eexists|done|].
    rewrite length_app, Nat.add_comm, Nat.add_sub. done.
Qed.
Lemma commit_kept n c d : n ≠ ALEMBIC_VERSION → commit_growing c → table_kept n d (commit_run c d).2.
Proof.
  intros Hn Hc. assert (∀ t d, table_kept n d (put_table ALEMBIC_VERSION t d)) as Hv.
  { intros t d'. apply table_kept_same. cbn. by rewrite lookup_insert_ne. }
  destruct c as [t c ty|s| |v]; cbn.
  - cbv [mbind dbm_bind table_info]. destruct (negb _ && negb _); [|by apply table_kept_same].
    pose proof (exec_kept n (AddColumn t c ty) d I) as Hk.
    by destruct (exec_ddl (AddColumn t c ty) d) as [[e|[]] d1].
  - by apply exec_kept.
  - unfold ensure_version_table. destruct (db_tables d !! ALEMBIC_VERSION); [by apply table_kept_same|apply Hv].
  - apply Hv.
Qed.
Lemma commits_kept n l d : n ≠ ALEMBIC_VERSION → Forall commit_growing l → table_kept n d (commits_run l d).2.
Proof.
  intros Hn Hl. revert d. induction Hl as [|c l Hc Hl IH]; intros d; [by apply table_kept_same|].
  cbn. cbv [mbind dbm_bind]. pose proof (commit_kept n c d Hn Hc) as Hk.
  destruct (commit_run c d) as [[e|[]] d1]; [done|]. eapply table_kept_trans; [exact Hk|apply IH].
Qed.

Lemma startup_growing d l : startup_commits d = inr l → Forall commit_growing l.
Proof.
  assert (∀ revs, revs ⊆ REVISIONS → Forall commit_growing (revs ≫= revision_commits)) as Hr.
  { intros revs Hs. apply Forall_bind, Forall_forall. intros r Hin%Hs. unfold REVISIONS in Hin.
    apply elem_of_cons in Hin as [->|[->|[]%elem_of_nil]%elem_of_cons]; vm_compute; by repeat constructor. }
  assert (∀ v l, upgrade_commits v = inr l → Forall commit_growing l) as Hu.
  { intros v l' Hl. unfold upgrade_commits in Hl. destruct (pending v) as [e|revs] eqn:E; [done|].
    injection Hl as <-. constructor; [done|]. by eapply Hr, pending_subset. }
  unfold startup_commits. case_decide.
  - destruct (upgrade_commits _) as [e|rest] eqn:E; [done|]. cbv [mbind res_bind mret res_ret].
    intros <-%(inj inr). apply Forall_app; split; [vm_compute; by repeat constructor|]. constructor; [done|]. constructor; [done|]. by eapply Hu.
  - destruct (current_version d).1 as [e|v]; [done|]. apply Hu.
Qed.

Lemma commits_data d l : Forall commit_growing l → data_kept d (commits_run l d).2.
Proof.
  intros Hl. apply Forall_forall. intros n Hn. apply commits_kept; [|done].
  intros ->. apply (bool_decide_eq_true_2 _) in Hn. by vm_compute in Hn.
Qed.
(** A start loses no row, complete or interrupted, in any database. *)
Lemma migrate_kept d : data_kept d (migrate d).2.
Proof.
  rewrite startup_run. destruct (startup_commits d) as [e|l] eqn:E; [apply data_kept_refl|].
  by eapply commits_data, startup_growing.
Qed.
Lemma crash_kept k d : data_kept d (crash_after k d).
Proof.
  unfold crash_after. destruct (startup_commits d) as [e|l] eqn:E; [apply data_kept_refl|].
  eapply commits_data, Forall_take, startup_growing, E.
Qed.
Lemma data_kept_trans d d' d'' : data_kept d d' → data_kept d' d'' → data_kept d d''.
Proof. unfold data_kept. rewrite !Forall_forall. intros H1 H2 n Hn. eapply table_kept_trans; eauto. Qed.

(** ** Torn databases *)

(** A revision whose effect is there and whose record is not. *)
Definition torn (d : database) : Prop :=
  ((current_version d).1 = inr None ∧ ALEMBIC_VERSION ∈ dom (db_tables d) ∧ u "accounts" ∈ dom (db_tables d)) ∨
  ((current_version d).1 = inr (Some (u "0001_initial")) ∧
   from_option (λ t, has_column t (u "error")) false (db_tables d !! u "authorizations") = true).
#[export] Instance torn_dec d : Decision (torn d).
Proof. unfold torn. apply _. Defined.

Lemma version_dom v d : (current_version d).1 = inr (Some v) → ALEMBIC_VERSION ∈ dom (db_tables d).
Proof. unfold current_version. rewrite elem_of_dom. destruct (_ !! _); [eauto|done]. Qed.
Lemma ensure_present d : ALEMBIC_VERSION ∈ dom (db_tables d) → ensure_version_table d = (inr tt, d).
Proof. intros [t Ht]%elem_of_dom. unfold ensure_version_table. by rewrite Ht. Qed.

Lemma startup_at v d : ALEMBIC_VERSION ∈ dom (db_tables d) → (current_version d).1 = inr v →
  startup_commits d = upgrade_commits v.
Proof. intros Hd Hv. unfold startup_commits. rewrite decide_False by tauto. by rewrite Hv. Qed.
Definition last_commits : list commit :=
  [EnsureVersionTable; Statement (AddColumn (u "authorizations") (u "error") TEXT); WriteVersion (u "0002_authz_error")].
Lemma commits_0001 : upgrade_commits (Some (u "0001_initial")) = inr last_commits.
Proof. vm_compute. reflexivity. Qed.

(** The first statement of its start-up fails. *)
Lemma torn_commits d : torn d → ∃ s rest, startup_commits d = inr (EnsureVersionTable :: Statement s :: rest) ∧
  ensure_version_table d = (inr tt, d) ∧ exec_ddl s d = (inl op_error, d).
Proof.
  intros [(Hv & Hd & Ha)|(Hv & He)].
  - do 2 eexists. rewrite (startup_at None) by done. split_and!; [reflexivity|by apply ensure_present|].
    unfold exec_ddl. by rewrite decide_True by (left; by apply elem_of_dom).
  - pose proof (version_dom _ _ Hv) as Hd. do 2 eexists.
    rewrite (startup_at _ _ Hd Hv), commits_0001. split_and!; [reflexivity|by apply ensure_present|].
    unfold exec_ddl. destruct (db_tables d !! u "authorizations") as [t|]; [|done].
    cbn [from_option] in He. by rewrite He.
Qed.
(** It stays as it is: every start fails, complete or interrupted. *)
Lemma torn_stuck d : torn d → migrate d = (inl op_error, d).
Proof.
  intros (s & rest & Hl & He & Hs)%torn_commits. rewrite startup_run, Hl.
  cbn [commits_run commit_run]. cbv [mbind dbm_bind]. by rewrite He, Hs.
Qed.
Lemma torn_crash k d : torn d → crash_after k d = d.
Proof.
  intros (s & rest & Hl & He & Hs)%torn_commits. unfold crash_after. rewrite Hl.
  destruct k as [|[|k]]; cbn [take commits_run commit_run]; cbv [mbind dbm_bind]; [done|by rewrite He|].
  by rewrite He, Hs.
Qed.

(** ** The moments of a start-up *)

(** An empty file, once the version table is there. *)
Definition ensured : database := put_table ALEMBIC_VERSION (version_table None) no_tables.
Definition sound (d : database) : Prop := installed d ∨ d = ensured.

(** The next start completes. *)
Definition recovers (d : database) : Prop := ∃ d', migrate d = (inr tt, d') ∧ at_head d'.
Lemma sound_recovers d : sound d → recovers d.
Proof.
  intros [Hd| ->].
  - apply migrated_installed in Hd as [(Hr & Hh & _) _]. exists (migrate d).2. split; [|done].
    by destruct (migrate d) as [r d']; cbn in Hr; subst.
  - assert ((migrate ensured).1 = inr tt ∧ at_head (migrate ensured).2) as [Hr Hh].
    { split; [vm_compute; reflexivity|]. apply (bool_decide_unpack _). vm_compute. exact I. }
    exists (migrate ensured).2. split; [|done]. by destruct (migrate ensured) as [r d']; cbn in Hr; subst.
Qed.

(** The rows of a table after a column was added to it. *)
Definition widened (n : str) (add : bool) (rows : str → list (list cell)) (t : str) : list (list cell) :=
  if decide (t = n) then if add then pad_rows 1 (rows t) else rows t else rows t.
Definition no_serial (serial : option (str * bool)) : bool := match serial with None => true | Some _ => false end.

(** While a release is reconciled it stays one. *)
Section reconcile.
Context (error : bool) (serial : option (str * bool)) (ix1 ix2 ix3 : bool) (rows : str → list (list cell)).

Lemma reconcile_error :
  commit_run (AddMissing (u "orders") (u "error") TEXT) (pre_alembic (mk_release error serial ix1 ix2 ix3) rows) =
  (inr tt, pre_alembic (mk_release true serial ix1 ix2 ix3) (widened (u "orders") (negb error) rows)).
Proof. destruct error; vm_compute; reflexivity. Qed.
Lemma reconcile_serial :
  commit_run (AddMissing (u "certificates") (u "serial") TEXT)
    (pre_alembic (mk_release true serial ix1 ix2 ix3) rows) =
  (inr tt, pre_alembic (mk_release true (Some (default (TEXT, false) serial)) ix1 ix2 ix3)
     (widened (u "certificates") (no_serial serial) rows)).
Proof. destruct serial as [[? ?]|]; vm_compute; reflexivity. Qed.
End reconcile.

(** An index commit touches the indexes only. *)
Lemma reconcile_index n tn cols r r' rows :
  release_tables r rows = release_tables r' rows →
  from_option (λ t, forallb (has_column t) cols) false (release_tables r rows !! tn) = true →
  release_tables r rows !! n = None →
  match release_indexes r !! n with
  | Some _ => release_indexes r | None => <[n := (tn, cols)]> (release_indexes r) end = release_indexes r' →
  commit_run (Statement (CreateIndex true n tn cols)) (pre_alembic r rows) = (inr tt, pre_alembic r' rows).
Proof.
  intros Ht Hc Hn Hi. cbn [commit_run exec_ddl pre_alembic db_tables db_indexes]. unfold pre_alembic.
  destruct (release_tables r rows !! tn) as [t|]; [|done]. cbn [from_option] in Hc.
  rewrite Hn, decide_False by (by intros [? ?]). rewrite <- Ht, <- Hi. cbn [db_tables db_indexes].
  destruct (release_indexes r !! n); [done|]. by rewrite Hc.
Qed.

Section reconcile_indexes.
Context (ty : str) (b ix1 ix2 ix3 : bool) (rows : str → list (list cell)).
Abbreviation release_at b ix1 ix2 ix3 := (pre_alembic (mk_release true (Some (ty, b)) ix1 ix2 ix3) rows).

#[local] Ltac index_step :=
  apply reconcile_index; [reflexivity|vm_compute; reflexivity..|];
  destruct b, ix1, ix2, ix3; apply (bool_decide_unpack _); vm_compute; exact I.

Lemma reconcile_public_key :
  commit_run (Statement (CreateIndex true (u "ix_accounts_public_key") (u "accounts") [u "public_key"]))
    (release_at b ix1 ix2 ix3) = (inr tt, release_at b true ix2 ix3).
Proof. index_step. Qed.
Lemma reconcile_created_at :
  commit_run (Statement (CreateIndex true (u "ix_nonces_created_at") (u "nonces") [u "created_at"]))
    (release_at b ix1 ix2 ix3) = (inr tt, release_at b ix1 true ix3).
Proof. index_step. Qed.
Lemma reconcile_account_id :
  commit_run (Statement (CreateIndex true (u "ix_orders_account_id") (u "orders") [u "account_id"]))
    (release_at b ix1 ix2 ix3) = (inr tt, release_at b ix1 ix2 true).
Proof. index_step. Qed.
Lemma reconcile_serial_index :
  commit_run (Statement (CreateIndex true (u "ix_certificates_serial") (u "certificates") [u "serial"]))
    (release_at b ix1 ix2 ix3) = (inr tt, release_at true ix1 ix2 ix3).
Proof. index_step. Qed.
End reconcile_indexes.

Definition typed_serial (r : release) : Prop := ∀ ty b, rl_serial r = Some (ty, b) → ty = VARCHAR ∨ ty = TEXT.

Lemma reconcile_moments k r rows : (k <= 6)%nat → typed_serial r → ∃ r' rows',
  commits_run (take k reconcile_commits) (pre_alembic r rows) = (inr tt, pre_alembic r' rows') ∧
  typed_serial r' ∧ (k = 6%nat → ∃ ty, (ty = VARCHAR ∨ ty = TEXT) ∧ r' = baseline ty).
Proof.
  intros Hk Hty. destruct r as [error serial ix1 ix2 ix3].
  assert (∃ ty b, default (TEXT, false) serial = (ty, b) ∧ (ty = VARCHAR ∨ ty = TEXT)) as (ty & b & Hd & Ht).
  { destruct serial as [[ty b]|]; [by exists ty, b; split; [|by eapply (Hty ty b)]|exists TEXT, false; auto]. }
  assert (∀ e b ix1 ix2 ix3, typed_serial (mk_release e (Some (ty, b)) ix1 ix2 ix3)) as Hser by by intros ????? ?? [= <- <-].
  unfold reconcile_commits, PRE_ALEMBIC_COLUMNS, PRE_ALEMBIC_INDEXES. cbn [fmap list_fmap app fst snd].
  destruct k as [|[|[|[|[|[|[|k]]]]]]]; [..|exfalso; lia]; clear Hk; cbn [take commits_run];
    repeat (cbv [mbind dbm_bind mret dbm_ret];
      first [rewrite reconcile_error|rewrite reconcile_serial, Hd|rewrite reconcile_public_key
            |rewrite reconcile_created_at|rewrite reconcile_account_id|rewrite reconcile_serial_index]);
    (eexists _, _; split_and!; [reflexivity|done|done]) || (eexists _, _; split_and!; [reflexivity|done|eauto]).
Qed.

(** A start that was not interrupted. *)
Lemma crash_done k l d : installed d → startup_commits d = inr l → (length l <= k)%nat → installed (crash_after k d).
Proof.
  intros Hd Hl Hk. unfold crash_after. rewrite Hl, take_ge by done.
  pose proof (startup_run d) as Hr. rewrite Hl in Hr. rewrite <- Hr.
  apply migrated_installed in Hd as [(_ & Hh & _) _]. by apply installed_head.
Qed.
Lemma crash_none d : crash_after 0 d = d.
Proof. unfold crash_after. by destruct (startup_commits d). Qed.

Lemma at_0001_version ty rows : ALEMBIC_VERSION ∈ dom (db_tables (at_0001 ty rows)) ∧
  (current_version (at_0001 ty rows)).1 = inr (Some (u "0001_initial")).
Proof.
  unfold at_0001, put_table, current_version. cbn [db_tables]. rewrite dom_insert, lookup_insert_eq.
  split; [set_solver|done].
Qed.

Lemma moments_0001 k ty rows : ty = VARCHAR ∨ ty = TEXT →
  torn (crash_after k (at_0001 ty rows)) ∨ installed (crash_after k (at_0001 ty rows)).
Proof.
  intros Hty. pose proof (installed_0001 ty rows Hty) as Hi. destruct (at_0001_version ty rows) as [Hd Hv].
  assert (startup_commits (at_0001 ty rows) = inr last_commits) as Hl
    by (rewrite (startup_at _ _ Hd Hv); apply commits_0001).
  destruct k as [|[|[|k]]]; [right; by rewrite crash_none| | |right; eapply crash_done; [done|done|cbn; lia]].
  - right. assert (crash_after 1 (at_0001 ty rows) = at_0001 ty rows) as ->.
    { unfold crash_after. rewrite Hl. cbn. cbv [mbind dbm_bind]. by rewrite ensure_present. }
    done.
  - left. unfold crash_after. rewrite Hl. cbn [take commits_run commit_run last_commits]. cbv [mbind dbm_bind].
    rewrite ensure_present by done. right.
    destruct Hty as [->| ->]; split; vm_compute; reflexivity.
Qed.

Lemma release_names r rows :
  db_tables (pre_alembic r rows) !! ALEMBIC_VERSION = None ∧ u "accounts" ∈ dom (db_tables (pre_alembic r rows)).
Proof.
  split; [vm_compute; reflexivity|]. apply elem_of_dom.
  apply mk_is_Some with (x := mk_table (release_columns r (u "accounts")
    (from_option (λ s, match s with CreateTable _ c _ => c | _ => [] end) [] (head V1_TABLES))) [] (rows (u "accounts"))).
  vm_compute. reflexivity.
Qed.
Lemma startup_release r rows :
  startup_commits (pre_alembic r rows) = inr (reconcile_commits ++ stamp_commits (u "0001_initial") ++ last_commits).
Proof.
  destruct (release_names r rows) as [Hn Ha]. unfold startup_commits.
  rewrite decide_True by (by rewrite not_elem_of_dom). by rewrite commits_0001.
Qed.

(** A release, reconciled and not yet stamped: the version table is made, and
    then the version written. *)
Lemma ensure_release r rows : ensure_version_table (pre_alembic r rows) =
  (inr tt, put_table ALEMBIC_VERSION (version_table None) (pre_alembic r rows)).
Proof. unfold ensure_version_table. by rewrite (proj1 (release_names r rows)). Qed.
Lemma stamp_release ty rows :
  commits_run (stamp_commits (u "0001_initial")) (pre_alembic (baseline ty) rows) = (inr tt, at_0001 ty rows).
Proof.
  cbn [commits_run stamp_commits commit_run]. cbv [mbind dbm_bind mret dbm_ret]. rewrite ensure_release.
  unfold set_version, at_0001, put_table. cbn [db_tables db_indexes]. by rewrite insert_insert_eq.
Qed.
Lemma torn_release r rows :
  torn (put_table ALEMBIC_VERSION (version_table None) (pre_alembic r rows)).
Proof.
  left. unfold put_table, current_version. cbn [db_tables]. rewrite lookup_insert_eq, dom_insert.
  pose proof (proj2 (release_names r rows)). set_solver.
Qed.

Lemma moments_release k r rows : typed_serial r →
  torn (crash_after k (pre_alembic r rows)) ∨ installed (crash_after k (pre_alembic r rows)).
Proof.
  intros Hty. unfold crash_after. rewrite startup_release, take_app, commits_run_app. cbv [mbind dbm_bind].
  change (length reconcile_commits) with 6%nat.
  destruct (decide (k <= 6)%nat) as [Hk|Hk].
  - replace (k - 6)%nat with 0%nat by lia. cbn [take commits_run].
    destruct (reconcile_moments k r rows Hk Hty) as (r' & rows' & -> & Hty' & _).
    right. destruct r'. by apply installed_release.
  - destruct (reconcile_moments 6 r rows) as (r' & rows' & Hr & _ & Hb); [lia|done|].
    rewrite take_ge in Hr |- * by (cbn; lia). rewrite Hr. destruct (Hb eq_refl) as (ty & Ht & ->).
    rewrite take_app, commits_run_app. cbv [mbind dbm_bind]. change (length (stamp_commits _)) with 2%nat.
    destruct (decide (k = 7%nat)) as [->|Hk7].
    + left. cbn [take Nat.sub commits_run stamp_commits commit_run]. cbv [mbind dbm_bind].
      rewrite ensure_release. apply torn_release.
    + rewrite (take_ge (stamp_commits _)) by (cbn; lia). rewrite stamp_release.
      destruct (at_0001_version ty rows') as [Hd Hv]. pose proof (moments_0001 (k - 6 - 2) ty rows' Ht) as Hm.
      unfold crash_after in Hm. by rewrite (startup_at _ _ Hd Hv), commits_0001 in Hm.
Qed.

Lemma moments_head k d : at_head d → crash_after k d = d.
Proof.
  intros Hh. pose proof (version_dom _ d (proj1 Hh)) as Hd. unfold crash_after.
  rewrite (startup_at _ _ Hd (proj1 Hh)).
  assert (upgrade_commits (Some (u "0002_authz_error")) = inr [EnsureVersionTable]) as -> by (vm_compute; reflexivity).
  destruct k as [|k]; [done|]. cbn. cbv [mbind dbm_bind]. rewrite ensure_present by done. by destruct k.
Qed.

(** An empty file: the moments at which it is torn, and what it is at the others. *)
Lemma fresh_moments :
  Forall (λ k, torn (crash_after k no_tables) ∨ crash_after k no_tables = no_tables ∨
    crash_after k no_tables = ensured ∨ crash_after k no_tables = at_0001 VARCHAR (λ _, [])) (seq 0 13) ∧
  filter (λ k, torn (crash_after k no_tables)) (seq 0 14) = [2; 3; 4; 5; 6; 7; 8; 9; 10; 12]%nat.
Proof. apply (bool_decide_unpack _). vm_compute. exact I. Qed.
Lemma moments_fresh k : torn (crash_after k no_tables) ∨ sound (crash_after k no_tables).
Proof.
  destruct (decide (k < 13)%nat) as [Hk|Hk].
  - destruct fresh_moments as [Hf _]. rewrite Forall_forall in Hf.
    destruct (Hf k) as [Ht|[-> |[-> | ->]]]; [apply elem_of_seq; lia|by left|right; left|right; by right|right; left].
    + apply installed_fresh.
    + apply installed_0001. by left.
  - right. left. eapply crash_done; [apply installed_fresh|vm_compute; reflexivity|cbn; lia].
Qed.
Lemma moments_ensured k : torn (crash_after k ensured) ∨ sound (crash_after k ensured).
Proof.
  destruct k as [|k]; [right; rewrite crash_none; by right|].
  assert (crash_after (S k) ensured = crash_after (S k) no_tables) as ->; [|apply moments_fresh].
  unfold crash_after. by replace (startup_commits ensured) with (startup_commits no_tables) by (vm_compute; reflexivity).
Qed.

Lemma moments_sound k d : sound d → torn (crash_after k d) ∨ sound (crash_after k d).
Proof.
  intros [[|error serial ix1 ix2 ix3 rows Hty|ty rows Hty|d' Hh]| ->].
  - apply moments_fresh.
  - destruct (moments_release k (mk_release error serial ix1 ix2 ix3) rows Hty); [by left|right; by left].
  - destruct (moments_0001 k ty rows Hty); [by left|right; by left].
  - right. left. rewrite moments_head by done. by apply installed_head.
  - apply moments_ensured.
Qed.

(** What any number of interrupted starts leaves of [d0]. *)
Inductive found (d0 : database) : database → Prop :=
| found_installed : installed d0 → found d0 d0
| found_crashed k d : found d0 d → found d0 (crash_after k d).

Lemma found_cases d0 d : found d0 d → data_kept d0 d ∧ (torn d ∨ sound d).
Proof.
  induction 1 as [Hd|k d _ [Hk Hd]]; [split; [apply data_kept_refl|right; by left]|]. split.
  - eapply data_kept_trans; [exact Hk|apply crash_kept].
  - destruct Hd as [Ht|Hs]; [left; by rewrite torn_crash|by apply moments_sound].
Qed.
(** A start that completes. *)
Lemma found_migrated d0 d d' : found d0 d → migrate d = (inr tt, d') → at_head d' ∧ data_kept d0 d'.
Proof.
  intros [Hk [Ht|Hs]]%found_cases Hm; [by rewrite torn_stuck in Hm|].
  apply sound_recovers in Hs as (d1 & Hr & Hh). rewrite Hm in Hr. injection Hr as <-. split; [done|].
  eapply data_kept_trans; [exact Hk|]. pose proof (migrate_kept d) as Hd. by rewrite Hm in Hd.
Qed.

#[local] Existing Instance Tools.tools.
#[local] Existing Instance Tools.laws.

(** C16: start-up of the database, after any number of starts that were killed at
    any moment.  On every database the program may find first (empty, of a release
    before Alembic with or without the late columns and indexes, at the first
    revision or at the last) and on everything such starts leave of it,
    [run_migrations] is a list of commits; every row is kept; and the start
    completes: the schema is then the ORM's, every row is there with NULL in new
    columns, and a further start changes nothing.  The only exception is a torn
    database, where a revision has taken effect and is not recorded: every start
    fails and leaves it as it is. *)
Theorem interrupted_start `{DbLaws} url d0 d :
  migratable url → found d0 d →
  (∃ l, startup_commits d = inr l ∧ run_migrations url d = commits_run l d) ∧
  data_kept d0 d ∧
  if decide (torn d) then run_migrations url d = (inl op_error, d) ∧ ∀ k, crash_after k d = d
  else ∃ d', run_migrations url d = (inr tt, d') ∧ at_head d' ∧ data_kept d0 d' ∧
    run_migrations url d' = (inr tt, d').
Proof.
  intros Hu Hf. rewrite !run_migrations_eq by done. pose proof (found_cases _ _ Hf) as [Hk Hd].
  split_and!; [|done|].
  - pose proof (startup_run d) as Hr. destruct (startup_commits d) as [e|l] eqn:El; [exfalso|eauto].
    destruct Hd as [(s & rest & Hl & _)%torn_commits|(d' & Hm & _)%sound_recovers]; congruence.
  - case_decide as Ht; [split; [by apply torn_stuck|intros k; by apply torn_crash]|].
    destruct Hd as [?|(d' & Hr & Hh)%sound_recovers]; [done|].
    exists d'. rewrite run_migrations_eq by done. split_and!; [done|done| |by apply head_done].
    by eapply found_migrated.
Qed.

(** The early release of one account: killed while it is reconciled, and then
    before its version is written. *)
Lemma interrupted_start_witness :
  (∃ d', run_migrations Tools.url (crash_after 3 early) = (inr tt, d') ∧ at_head d' ∧ data_kept early d' ∧
    run_migrations Tools.url d' = (inr tt, d')) ∧
  run_migrations Tools.url (crash_after 7 (crash_after 3 early)) = (inl op_error, crash_after 7 (crash_after 3 early)).
Proof.
  assert (H3 : found early (crash_after 3 early)).
  { apply found_crashed, found_installed. unfold early. apply installed_release. intros ty b Hs. discriminate Hs. }
  pose proof (interrupted_start Tools.url early (crash_after 3 early) Tools.url_migratable H3) as (_ & _ & T3).
  pose proof (interrupted_start Tools.url early (crash_after 7 (crash_after 3 early)) Tools.url_migratable
    (found_crashed _ 7 _ H3)) as (_ & _ & T7).
  rewrite decide_False in T3; [|apply (bool_decide_unpack _); vm_compute; exact I].
  rewrite decide_True in T7; [|apply (bool_decide_unpack _); vm_compute; exact I].
  exact (conj T3 (proj1 T7)).
Defined.
