(* ===== verification/Env.v ===== *)
(** * The Alembic environment: [migrations/env.py]

    The script every Alembic command runs: it connects to the database of the
    configuration, or writes SQL when it has none, and hands over to the
    migrations.  Alembic's configuration object, its context and SQLAlchemy's
    engines are the class [Alembic]; the interface [DbTools] that
    [db/engine.py] uses is implemented with the script, and its laws are proved
    from those of [Alembic]. *)
From S2P Require Import Prelude PyStr Models Config Schema Engine.

(** What a command asks for. *)
Inductive al_command := Upgrade (target : str) | Stamp (target : str).

Class Alembic := {
  al_config : Type;
  al_engine : Type;
  al_connection : Type;
  al_new : al_config;                                                (** [Config()] *)
  al_set_main_option : str → str → al_config → res al_config;
  al_get_main_option : str → al_config → option str;
  al_config_ini_section : al_config → str;
  al_get_section : str → al_config → gmap str str;                   (** [{}] when it is missing *)
  al_engine_from_config : gmap str str → str → res al_engine;        (** with [poolclass=NullPool] *)
  al_create_engine : str → res unit;
  al_connect : al_engine → res al_connection;
  al_script_dir : str
}.

(** The arguments of [context.configure]: a connection, or what stands for it. *)
Record configuration `{Alembic} := mk_configuration {
  cf_connection : option al_connection;
  cf_url : option str;
  cf_metadata : list (str * list mapped);
  cf_literal_binds : bool;
  cf_paramstyle : option str;
  cf_render_as_batch : bool }.
#[global] Arguments mk_configuration {_} _ _ _ _ _ _.
#[global] Arguments cf_connection {_} _.

(** What [context.run_migrations] does under a configuration. *)
Class AlembicContext `{Alembic} := {
  context_migrate : al_config → al_command → configuration → dbm unit;
  metadata_create : list (str * list mapped) → dbm unit
}.

Section env.
Context `{AlembicContext}.

Inductive env_event :=
| EvConnect (c : al_connection) | EvClose | EvConfigure (c : configuration)
| EvBegin | EvEnd | EvMigrate | EvDispose.

(** The script sees [context]: the configuration, the mode and the command. *)
Record env_context := mk_env_context { cx_config : al_config; cx_offline : bool; cx_command : al_command }.
Record env_state := mk_env_state { ev_db : database; ev_events : list env_event }.
Definition envm (A : Type) : Type := env_state → res A * env_state.
#[export] Instance envm_ret : MRet envm := λ A a s, (inr a, s).
#[export] Instance envm_bind : MBind envm := λ A B f m s,
  match m s with (inl e, s') => (inl e, s') | (inr a, s') => f a s' end.
Definition env_lift {A} (r : res A) : envm A := λ s, (r, s).
Definition emit (e : env_event) : envm unit := λ s, (inr tt, mk_env_state (ev_db s) (ev_events s ++ [e])).
(** [with]: the exit runs on every way out. *)
Definition env_with {A} (enter : envm unit) (exit : env_event) (body : envm A) : envm A := λ s,
  match enter s with
  | (inl e, s') => (inl e, s')
  | (inr _, s') => let '(r, s'') := body s' in (r, (emit exit s'').2)
  end.

Definition configure (c : configuration) : envm unit := emit (EvConfigure c).
Definition context_run_migrations (cx : env_context) (c : configuration) : envm unit := λ s,
  let '(r, d) := context_migrate (cx_config cx) (cx_command cx) c (ev_db s) in
  (r, mk_env_state d (ev_events s ++ [EvMigrate])).
Definition in_transaction {A} (body : envm A) : envm A := env_with (emit EvBegin) EvEnd body.

(** ** The script *)

Definition offline_configuration (cx : env_context) : configuration :=
  mk_configuration None (al_get_main_option (u "sqlalchemy.url") (cx_config cx)) METADATA true (Some (u "named")) true.
Definition run_migrations_offline (cx : env_context) : envm unit :=
  let c := offline_configuration cx in
  configure c ;; in_transaction (context_run_migrations cx c).

Definition online_configuration (connection : al_connection) : configuration :=
  mk_configuration (Some connection) None METADATA false None true.
Definition run_migrations_online (cx : env_context) : envm unit :=
  connectable ← env_lift (al_engine_from_config
    (al_get_section (al_config_ini_section (cx_config cx)) (cx_config cx)) (u "sqlalchemy."));
  connection ← env_lift (al_connect connectable);
  env_with (emit (EvConnect connection)) EvClose (
    let c := online_configuration connection in
    configure c ;; in_transaction (context_run_migrations cx c)) ;;
  emit EvDispose.

Definition env_script (cx : env_context) : envm unit :=
  if cx_offline cx then run_migrations_offline cx else run_migrations_online cx.

(** An Alembic command: the script in its context. *)
Definition run_command (cfg : al_config) (cmd : al_command) : dbm unit := λ d,
  let '(r, s) := env_script (mk_env_context cfg false cmd) (mk_env_state d []) in (r, ev_db s).
End env.

(** ** What Alembic promises *)

(** Values without the interpolation character are accepted; a main option is an
    option of the main section, and setting one changes only it; a new
    configuration has no option for the engine; a SQLite file can be opened, and
    the connection is to the file of the URL; with a connection, [head] and a known
    revision act on the packaged scripts; without one nothing reaches a database. *)
Class AlembicLaws `{AlembicContext} (connected_to : al_connection → str) := {
  al_set_plain name value cfg : (37 ∉ value) → ∃ cfg', al_set_main_option name value cfg = inr cfg';
  al_section_set name value cfg cfg' : al_set_main_option name value cfg = inr cfg' →
    al_get_section (al_config_ini_section cfg') cfg' =
    <[name := value]> (al_get_section (al_config_ini_section cfg) cfg);
  al_main_section name cfg :
    al_get_main_option name cfg = al_get_section (al_config_ini_section cfg) cfg !! name;
  al_new_section k : u "sqlalchemy." `prefix_of` k →
    al_get_section (al_config_ini_section al_new) al_new !! k = None;
  al_script_plain : (37 ∉ al_script_dir);
  al_create_sqlite url : u "sqlite:///" `prefix_of` url → al_create_engine url = inr tt;
  al_engine_sqlite section url :
    section !! u "sqlalchemy.url" = Some url → u "sqlite:///" `prefix_of` url →
    (∀ k, is_Some (section !! k) → u "sqlalchemy." `prefix_of` k → k = u "sqlalchemy.url") →
    ∃ e c, al_engine_from_config section (u "sqlalchemy.") = inr e ∧ al_connect e = inr c ∧ connected_to c = url;
  context_upgrade cfg c d : al_get_main_option (u "script_location") cfg = Some al_script_dir →
    is_Some (cf_connection c) → context_migrate cfg (Upgrade (u "head")) c d = upgrade_to_head d;
  context_stamp cfg v c d : al_get_main_option (u "script_location") cfg = Some al_script_dir →
    is_Some (cf_connection c) → v ∈ (rev_id <$> REVISIONS) → context_migrate cfg (Stamp v) c d = stamp_revision v d;
  context_offline cfg cmd c d : cf_connection c = None → (context_migrate cfg cmd c d).2 = d;
  metadata_create_fresh metadata :
    metadata_create metadata no_tables = exec_all (orm_statements metadata) no_tables
}.

Section script.
Context `{AlembicContext}.

(** The script with a connection: what the migrations do, between the calls of the script. *)
Lemma online_run cx s e c : cx_offline cx = false →
  al_engine_from_config (al_get_section (al_config_ini_section (cx_config cx)) (cx_config cx)) (u "sqlalchemy.") = inr e →
  al_connect e = inr c →
  let '(r, d) := context_migrate (cx_config cx) (cx_command cx) (online_configuration c) (ev_db s) in
  env_script cx s = (r, mk_env_state d (ev_events s ++
    [EvConnect c; EvConfigure (online_configuration c); EvBegin; EvMigrate; EvEnd; EvClose] ++
    if r is inr _ then [EvDispose] else [])).
Proof.
  intros Ho He Hc. destruct (context_migrate _ _ _ _) as [r d] eqn:Hm.
  unfold env_script, run_migrations_online. rewrite Ho. cbv [mbind envm_bind env_lift]. rewrite He, Hc.
  cbv [env_with in_transaction configure context_run_migrations emit envm_bind]. cbn [ev_db ev_events].
  rewrite Hm. destruct r as [x|[]]; cbn [ev_db ev_events fst snd]; by rewrite <- !(assoc_L (++)).
Qed.
Lemma offline_run cx s : cx_offline cx = true →
  let '(r, d) := context_migrate (cx_config cx) (cx_command cx) (offline_configuration cx) (ev_db s) in
  env_script cx s = (r, mk_env_state d (ev_events s ++
    [EvConfigure (offline_configuration cx); EvBegin; EvMigrate; EvEnd])).
Proof.
  intros Ho. destruct (context_migrate _ _ _ _) as [r d] eqn:Hm.
  unfold env_script, run_migrations_offline. rewrite Ho.
  cbv [mbind envm_bind env_with in_transaction configure context_run_migrations emit]. cbn [ev_db ev_events].
  rewrite Hm. cbn [ev_db ev_events fst snd]. by rewrite <- !(assoc_L (++)).
Qed.
End script.

(** ** The interface of the engine *)

Definition env_tools `{AlembicContext} : DbTools := {|
  alembic_cfg := al_config; new_config := al_new; set_main_option := al_set_main_option;
  command_upgrade := λ cfg target, run_command cfg (Upgrade target);
  command_stamp := λ cfg target, run_command cfg (Stamp target);
  create_sync_engine := al_create_engine; metadata_create_all := metadata_create;
  migrations_dir := al_script_dir |}.

Section tools.
Context `{Laws : AlembicLaws}.
#[local] Existing Instance env_tools.

(** The configuration [db/engine.py] builds. *)
Lemma engine_config url cfg : alembic_config url = inr cfg →
  let section := al_get_section (al_config_ini_section cfg) cfg in
  section !! u "script_location" = Some al_script_dir ∧ section !! u "sqlalchemy.url" = Some url ∧
  ∀ k, is_Some (section !! k) → u "sqlalchemy." `prefix_of` k → k = u "sqlalchemy.url".
Proof.
  unfold alembic_config. cbn [set_main_option new_config migrations_dir env_tools].
  destruct (al_set_main_option (u "script_location") al_script_dir al_new) as [e|cfg1] eqn:E1; [done|].
  intros E2. cbv [mbind res_bind] in E2. rewrite (al_section_set _ _ _ _ E2), (al_section_set _ _ _ _ E1).
  split_and!.
  - rewrite lookup_insert_ne by (apply (bool_decide_unpack _); vm_compute; exact I). apply lookup_insert_eq.
  - apply lookup_insert_eq.
  - intros k Hk Hp. destruct (decide (k = u "sqlalchemy.url")) as [|Hne]; [done|exfalso].
    rewrite lookup_insert_ne in Hk by done. destruct (decide (k = u "script_location")) as [->|Hne'].
    + revert Hp. apply (bool_decide_unpack _). vm_compute. exact I.
    + rewrite lookup_insert_ne in Hk by done. rewrite al_new_section in Hk by done. by destruct Hk.
Qed.

(** A command on the configuration of a SQLite file: one connection, to that file,
    closed whatever the migrations do. *)
Lemma command_run url cfg cmd d : u "sqlite:///" `prefix_of` url → alembic_config url = inr cfg →
  ∃ c, connected_to c = url ∧
    let '(r, d') := context_migrate cfg cmd (online_configuration c) d in
    run_command cfg cmd d = (r, d') ∧
    (env_script (mk_env_context cfg false cmd) (mk_env_state d [])).2 = mk_env_state d'
      ([EvConnect c; EvConfigure (online_configuration c); EvBegin; EvMigrate; EvEnd; EvClose] ++
       if r is inr _ then [EvDispose] else []).
Proof.
  intros Hu Hc. pose proof (engine_config url cfg Hc) as (_ & Hurl & Honly).
  destruct (al_engine_sqlite _ url Hurl Hu Honly) as (e & c & He & Hconn & Hto).
  exists c. split; [done|]. pose proof (online_run (mk_env_context cfg false cmd) (mk_env_state d []) e c eq_refl He Hconn) as Hr.
  unfold run_command. cbn [cx_config cx_command ev_db ev_events] in Hr.
  destruct (context_migrate _ _ _ _) as [r d']. by rewrite Hr.
Qed.

#[export] Instance env_laws : DbLaws (H := env_tools).
Proof.
  split; cbn [set_main_option migrations_dir create_sync_engine command_upgrade command_stamp metadata_create_all env_tools].
  - apply al_set_plain.
  - apply al_script_plain.
  - apply al_create_sqlite.
  - intros url cfg d Hu Hc. destruct (command_run url cfg (Upgrade (u "head")) d Hu Hc) as (c & _ & Hr).
    rewrite context_upgrade in Hr; [|by rewrite al_main_section; apply (engine_config url)|by eexists].
    destruct (upgrade_to_head d). apply Hr.
  - intros url cfg v d Hu Hc Hv. destruct (command_run url cfg (Stamp v) d Hu Hc) as (c & _ & Hr).
    rewrite context_stamp in Hr; [|by rewrite al_main_section; apply (engine_config url)|by eexists|done].
    destruct (stamp_revision v d). apply Hr.
  - apply metadata_create_fresh.
Qed.
End tools.

(** ** A concrete Alembic *)

Module Concrete.
#[export] Instance alembic : Alembic := {|
  al_config := gmap str str; al_engine := str; al_connection := str;
  al_new := ∅;
  al_set_main_option := λ name value cfg,
    if decide (37 ∈ value) then inl (PyErr ValueError []) else inr (<[name := value]> cfg);
  al_get_main_option := λ name cfg, cfg !! name;
  al_config_ini_section := λ _, u "alembic"; al_get_section := λ _ cfg, cfg;
  al_engine_from_config := λ section prefix, or_raise (PyErr KeyError (u "url")) (section !! (prefix ++ u "url"));
  al_create_engine := λ _, inr tt; al_connect := inr; al_script_dir := u "/usr/lib/jackdaw/migrations" |}.
#[export] Instance context : AlembicContext := {|
  context_migrate := λ cfg cmd c, match cf_connection c, cmd with
    | None, _ => mret tt
    | Some _, Upgrade _ => upgrade_to_head
    | Some _, Stamp v => stamp_revision v end;
  metadata_create := λ m, exec_all (orm_statements m) |}.
#[export] Instance laws : AlembicLaws (λ c, c).
Proof.
  split; try done.
  - intros name value cfg Hv. eexists. cbn. by rewrite decide_False.
  - intros name value cfg cfg'. cbn. case_decide; [done|]. by intros [= <-].
  - apply (bool_decide_unpack _). vm_compute. exact I.
  - intros section url Hs _ _. exists url, url. cbn [al_engine_from_config alembic].
    change (u "sqlalchemy." ++ u "url") with (u "sqlalchemy.url"). by rewrite Hs.
  - intros cfg c d _ [x Hx]. cbn. by rewrite Hx.
  - intros cfg v c d _ [x Hx] _. cbn. by rewrite Hx.
  - intros cfg cmd c d Hc. cbn. by rewrite Hc.
Qed.
End Concrete.

(** ** Property *)

(** C40: what [env.py] does with the configuration of [db/engine.py].  For a command
    the program runs, one connection, to the file of the URL itself, with the
    ORM's metadata and batch mode; the migrations act on that file; the
    transaction and the connection are closed on success and on error, and only
    then is the engine disposed of, on success.  Writing SQL instead opens no
    connection and leaves every database alone. *)
Theorem env_script_connects `{AlembicLaws} url cfg cmd s :
  u "sqlite:///" `prefix_of` url → alembic_config (H := env_tools) url = inr cfg →
  (∃ c, connected_to c = url ∧
    let conf := mk_configuration (Some c) None METADATA false None true in
    let '(r, d) := context_migrate cfg cmd conf (ev_db s) in
    env_script (mk_env_context cfg false cmd) s = (r, mk_env_state d (ev_events s ++
      [EvConnect c; EvConfigure conf; EvBegin; EvMigrate; EvEnd; EvClose] ++ if r is inr _ then [EvDispose] else []))) ∧
  (let conf := mk_configuration None (Some url) METADATA true (Some (u "named")) true in
   (env_script (mk_env_context cfg true cmd) s).2 =
   mk_env_state (ev_db s) (ev_events s ++ [EvConfigure conf; EvBegin; EvMigrate; EvEnd])).
Proof.
  intros Hu Hc. pose proof (engine_config url cfg Hc) as (_ & Hurl & Honly). split.
  - destruct (al_engine_sqlite _ url Hurl Hu Honly) as (e & c & He & Hconn & Hto).
    exists c. split; [done|]. by apply (online_run (mk_env_context cfg false cmd) s e c).
  - pose proof (offline_run (mk_env_context cfg true cmd) s eq_refl) as Hr.
    assert (offline_configuration (mk_env_context cfg true cmd) =
      mk_configuration None (Some url) METADATA true (Some (u "named")) true) as Hoff.
    { unfold offline_configuration. cbn [cx_config]. by rewrite al_main_section, Hurl. }
    rewrite Hoff in Hr. cbn [cx_config cx_command] in Hr.
    pose proof (context_offline cfg cmd (mk_configuration None (Some url) METADATA true (Some (u "named")) true)
      (ev_db s) eq_refl) as Hd.
    destruct (context_migrate _ _ _ _) as [r d]. cbn in Hd. subst. by rewrite Hr.
Qed.

#[local] Existing Instance Concrete.alembic.
#[local] Existing Instance Concrete.context.
#[local] Existing Instance Concrete.laws.

(** An empty file, migrated through the script. *)
Lemma env_script_connects_witness :
  ∃ cfg, alembic_config (H := env_tools) (u "sqlite:////data/relay.db") = inr cfg ∧
  ∃ c : al_connection, (c : str) = u "sqlite:////data/relay.db" ∧
    let conf := mk_configuration (Some c) None METADATA false None true in
    let '(r, d) := context_migrate cfg (Upgrade (u "head")) conf no_tables in
    env_script (mk_env_context cfg false (Upgrade (u "head"))) (mk_env_state no_tables []) =
    (r, mk_env_state d ([] ++ [EvConnect c; EvConfigure conf; EvBegin; EvMigrate; EvEnd; EvClose] ++
      if r is inr _ then [EvDispose] else [])).
Proof.
  eexists. split; [reflexivity|].
  refine (proj1 (env_script_connects (u "sqlite:////data/relay.db") _ (Upgrade (u "head"))
    (mk_env_state no_tables []) _ eq_refl)).
  apply (bool_decide_unpack _). vm_compute. exact I.
Defined.
