(* ===== verification/Lifespan.v ===== *)
(** * The application's life: [lifespan] of [main.py]

    Start-up (the TLS guard, the database, the recovery of interrupted orders,
    the DNS provider and the CA account), the background tasks, and their end.
    The rows of the tables are those of [Models]; the schema and the migrations
    are the database of [Engine]. *)
From ITree Require Import ITree.
From S2P Require Import Prelude PyStr Json External PyStd Models Config Xml Coro Prog Nonce Main Os RelayCert Net AcmeClient Loader Loops Serve Schema Engine Upgrade.

(** ** Effects on the schema and on the application object *)

(** A call of [Engine]. *)
Inductive schema_eff : Type → Type :=
| SchemaDo A (m : dbm A) : schema_eff (res A).
Arguments SchemaDo {A} m.
#[export] Instance schema_steps : Steps schema_eff database :=
  λ X e, match e in schema_eff X return database → X → database → Prop with
    SchemaDo m => λ d r d', m d = (r, d') end.
#[export, refine] Instance schema_runs : Runs schema_eff database unit := {|
  erun := λ X e, match e in schema_eff X return database → unit → X * database * unit with
    SchemaDo m => λ d s, (m d, s) end;
  can_run := λ _ _ _, True;
  supply_ok := λ _, True |}.
Proof. intros X [A m] d s x d' s' _ _ E. injection E as E <-. by split. Defined.

Inductive background := prune_task | renewal_task (relay_domain : str) (ssl_context : bool).
Inductive app_event :=
| AppState (provider : str)      (** [app.state.dns_provider], [app.state.le_client] *)
| TaskCreated (t : background)
| Serving                        (** [yield] *)
| TaskCancelled (t : background).
Inductive app_eff : Type → Type := App (e : app_event) : app_eff unit.
#[export] Instance app_steps : Steps app_eff (list app_event) :=
  λ X e, match e with App e => λ w _ w', w' = e :: w end.
#[export, refine] Instance app_runs : Runs app_eff (list app_event) unit := {|
  erun := λ X e, match e in app_eff X return list app_event → unit → X * list app_event * unit with
    | App e => λ w s, (tt, e :: w, s) end;
  can_run := λ _ _ _, True;
  supply_ok := λ _, True |}.
Proof. intros X [e] w s x w' s' _ _ [= <- <- <-]. done. Defined.

(** ** The code *)

Definition LE_PRODUCTION_URL : str := u "https://acme-v02.api.letsencrypt.org/directory".

Abbreviation life := (coro (eff ⊕ os ⊕ net ⊕ schema_eff ⊕ app_eff)).

Section lifespan.
Context `{Ext} `{TlsExt} `{KeyExt} `{XmlParser} `{DbTools} (env : environment) (cfg : Settings).

Definition appl (e : app_event) : life unit := perform (EffR (App e)).
Definition on_tables {A} (p : prog A) : life A := embed_l (embed_l (embed_l (embed_l p))).
Definition on_schema {A} (m : dbm A) : life A := perform_res (EffL (EffR (SchemaDo m))).
Definition on_account {A} (p : coro (os ⊕ net) A) : life A :=
  embed_l (embed_l (hoist (λ X e, match e with EffL e => EffL (EffR e) | EffR e => EffR e end) p)).

(** [_prune_loop] never returns. *)
Definition prune_loop : itree eff (res False) :=
  loop (λ _ : unit, perform (ESleep 60) ;; prune_round cfg ;; Ret (inl tt)) tt.

Definition lifespan_start (ssl_context : bool) : life unit :=
  lift (logging_level (log_level cfg)) ;;
  (if negb (le_verify_ssl cfg) && bool_decide (le_directory cfg = LE_PRODUCTION_URL)
   then Raise (PyErr RuntimeError (u
     "LE_VERIFY_SSL=false must not be used with the production Let's Encrypt directory. Set LE_DIRECTORY to the staging URL or re-enable TLS verification."))
   else Ret tt) ;;
  on_schema (init_db cfg) ;;
  on_tables reset_processing_orders ;;
  lift (get_provider env (dns_provider cfg)) ;;
  on_account (init_account cfg) ;;
  appl (AppState (dns_provider cfg)) ;;
  appl (TaskCreated prune_task) ;;
  appl (TaskCreated (renewal_task (relay_domain cfg) ssl_context)).
Definition lifespan_stop (ssl_context : bool) : life unit :=
  appl (TaskCancelled prune_task) ;;
  appl (TaskCancelled (renewal_task (relay_domain cfg) ssl_context)).
Definition lifespan (ssl_context : bool) : life unit :=
  lifespan_start ssl_context ;; appl Serving ;; lifespan_stop ssl_context.

(** ** Start-up, step by step *)

Context `{Outside}.
Abbreviation life_state := (world * os_state * net_state * database * list app_event)%type.
Abbreviation life_supply := (answers * os_supply * unit * unit * unit)%type.
Implicit Types (w : life_state) (s : life_supply).

Definition world_of w : world := w.1.1.1.1.
Definition tables_of w : db := w_db (world_of w).
Definition schema_of w : database := w.1.2.

(** What the start of the application establishes. *)
Definition started (ssl_context : bool) w w' : Prop :=
  (le_verify_ssl cfg = true ∨ le_directory cfg ≠ LE_PRODUCTION_URL) ∧
  init_db cfg (schema_of w) = (inr tt, schema_of w') ∧
  (∃ d, reset_stmt (tables_of w) = inr (tt, d) ∧ world_of w' = w_commit d (world_of w)) ∧
  w'.2 = [TaskCreated (renewal_task (relay_domain cfg) ssl_context); TaskCreated prune_task;
          AppState (dns_provider cfg)] ++ w.2.

Lemma run_appl e w s : run (appl e) w s = (inr tt, (w.1, e :: w.2), s).
Proof. by destruct w, s as [s []]. Qed.
Lemma run_on_schema {A} (m : dbm A) w s :
  run (on_schema m) w s = ((m (schema_of w)).1, (w.1.1, (m (schema_of w)).2, w.2), s).
Proof.
  destruct w as [[w d] l], s as [[s []] []]. unfold on_schema, perform_res. cbn.
  destruct (m d) as [r d']. by rewrite run_lift_alone.
Qed.
(** The account code leaves the tables, the schema and the application alone. *)
Lemma hoist_frame {A} (p : coro (os ⊕ net) A) (v : world * os_state * net_state) (s : answers * os_supply * unit) :
  (run (hoist (F:=eff ⊕ os ⊕ net)
    (λ X e, match e with EffL e => EffL (EffR e) | EffR e => EffR e end) p) v s).1.2.1.1 = v.1.1.
Proof.
  revert v s. induction p as [a|e|X e k IH]; intros [[v o] n] [[a' o'] []]; cbn [hoist run]; [done..|].
  destruct e as [e|e]; cbn.
  - destruct (run_os e o o') as [[x o1] s1]. by rewrite IH.
  - destruct (net_act e n) as [x n1]. by rewrite IH.
Qed.
Lemma on_account_frame {A} (p : coro (os ⊕ net) A) w s r w' s' :
  run (on_account p) w s = (r, w', s') →
  schema_of w' = schema_of w ∧ w'.2 = w.2 ∧ world_of w' = world_of w.
Proof.
  unfold on_account. rewrite !run_embed_l. pose proof (hoist_frame p w.1.1 s.1.1) as Hf.
  destruct (run (hoist _ _) _ _) as [[r1 v1] s1]. cbn in Hf. intros [= <- <- <-]. cbn. split_and!; [done..|].
  unfold world_of. cbn. by rewrite Hf.
Qed.
Lemma run_reset w s :
  ∃ d v', reset_stmt (tables_of w) = inr (tt, d) ∧ run (on_tables reset_processing_orders) w s = (inr tt, v', s) ∧
    world_of v' = w_commit d (world_of w) ∧ schema_of v' = schema_of w ∧ v'.2 = w.2.
Proof.
  destruct w as [[[[v o] n] d] l], s as [[[[a b] []] []] []]. unfold tables_of, world_of; cbn [fst snd].
  eexists _, (w_commit _ v, o, n, d, l). split; [reflexivity|]. split; [|done].
  unfold on_tables. rewrite !run_embed_l. reflexivity.
Qed.

Lemma lifespan_started ssl_context w s r w' s' :
  run (lifespan_start ssl_context) w s = (r, w', s') →
  match r with inr _ => started ssl_context w w' | inl _ => w'.2 = w.2 end.
Proof.
  unfold lifespan_start. rewrite run_bind, run_lift_alone. destruct (logging_level _) as [e|]; [by intros [= <- <- <-]|].
  rewrite run_bind. destruct (negb (le_verify_ssl cfg) && _) eqn:Eg; [by intros [= <- <- <-]|]. cbn [run].
  rewrite run_bind, run_on_schema. destruct (init_db cfg (schema_of w)) as [[e|[]] d'] eqn:Ed; [by intros [= <- <- <-]|].
  cbn [fst snd]. rewrite run_bind.
  destruct (run_reset (w.1.1, d', w.2) s) as (d & w1 & Hd & -> & Ht1 & Hs1 & Hl1). cbn in Hs1, Hl1.
  rewrite run_bind, run_lift_alone. destruct (get_provider _ _) as [e|]; [by intros [= <- <- <-]|].
  rewrite run_bind. destruct (run (on_account _) w1 s) as [[[e|c] w2] s2] eqn:Ea;
    apply on_account_frame in Ea as (Hs2 & Hl2 & Ht2); [by intros [= <- <- <-]; rewrite Hl2|].
  rewrite run_bind, run_appl, run_bind, run_appl, run_appl. intros [= <- <- <-].
  split_and!.
  - apply andb_false_iff in Eg as [Eg|Eg]; [left|right].
    + by apply negb_false_iff in Eg.
    + by apply bool_decide_eq_false in Eg.
  - unfold schema_of in *. cbn. by rewrite Hs2, Hs1, Ed.
  - exists d. split; [exact Hd|]. unfold world_of in *. cbn [fst snd] in *. by rewrite Ht2, Ht1.
  - cbn. by rewrite Hl2, Hl1.
Qed.

Lemma run_lifespan ssl_context w s :
  run (lifespan ssl_context) w s =
  let '(r, w', s') := run (lifespan_start ssl_context) w s in
  match r with
  | inl e => (inl e, w', s')
  | inr _ => (inr tt, (w'.1, [TaskCancelled (renewal_task (relay_domain cfg) ssl_context);
                              TaskCancelled prune_task; Serving] ++ w'.2), s')
  end.
Proof.
  unfold lifespan, lifespan_stop. rewrite run_bind. destruct (run (lifespan_start _) w s) as [[[e|[]] w1] s1]; [done|].
  by rewrite run_bind, run_appl, run_bind, !run_appl.
Qed.
End lifespan.

(** ** A concrete start *)

Module Life.
#[export] Existing Instance toy.
#[export] Existing Instance scripted.
#[export] Existing Instance Boot.no_xml.
#[export] Existing Instance Tools.tools.
#[export] Existing Instance Tools.laws.
(** A new installation. *)
Definition fresh_start : world * os_state * net_state * database * list app_event :=
  (mk_world empty_db ∅ [], Relay.disk, mk_net _ (mk_script [] [] []) ∅ ∅ [], no_tables, []).
Definition supply : answers * os_supply * unit * unit * unit :=
  (mk_answers [] [] [] [] [] [] [], mk_os_supply [] [] [], tt, tt, tt).
End Life.
#[local] Existing Instance toy.
#[local] Existing Instance scripted.
#[local] Existing Instance Boot.no_xml.
#[local] Existing Instance Tools.tools.
#[local] Existing Instance Tools.laws.

(** ** Properties *)


