(* ===== verification/Dns01.v ===== *)
(** * DNS-01 against a zone

    What a DNS provider promises to the Let's Encrypt client, as an interface:
    [set_txt] publishes a record and [delete_txt] removes the records of its
    name (where the provider's API lets one deletion do it), and neither touches
    other names.  The client's challenge hooks are proved against it, and the
    Namecheap provider is shown to keep it; the other providers have a file each. *)
From S2P Require Import Prelude PyStr Json Xml Models Coro LeClient Net AcmeClient DnsJson Namecheap.

(** Two names no operation of one may disturb the records of the other: different
    as DNS names (case aside), and in different apex domains or under one. *)
Definition separate (d n d' n' : str) : Prop :=
  lower n ≠ lower n' ∧ (d ≠ d' ∨ ((46 :: d) `suffix_of` n ∧ (46 :: d) `suffix_of` n')).
Lemma separate_names d n d' n' : separate d n d' n' → n ≠ n'.
Proof. intros [Hn _] ->. done. Qed.

Class ZoneProvider `{DP : DNSProvider} `{O : Outside} := {
  txt_values : outside → str → str → list str;   (** the TXT values of a name in an apex domain *)
  clearable : outside → str → str → Prop;        (** a deletion that reports success removes them all *)
  set_txt_publishes d n v w w' : play (set_txt d n v) w = (inr tt, w') →
    txt_values (n_out w') d n = txt_values (n_out w) d n ++ [v];
  set_txt_spares d n v d' n' w r w' : play (set_txt d n v) w = (r, w') → separate d n d' n' →
    txt_values (n_out w') d' n' = txt_values (n_out w) d' n';
  delete_txt_removes d n w w' : clearable (n_out w) d n → play (delete_txt d n) w = (inr tt, w') →
    txt_values (n_out w') d n = [];
  delete_txt_spares d n d' n' w r w' : play (delete_txt d n) w = (r, w') → separate d n d' n' →
    txt_values (n_out w') d' n' = txt_values (n_out w) d' n'
}.

(** ** The client *)

Section client.
Context `{Gufo} `{ZoneProvider}.

Lemma propagated_out wait w : n_out (propagated wait w) = n_out w.
Proof. unfold propagated. by destruct (wait =? 0). Qed.

Lemma fulfilled wait zones domain ch w w1 :
  play (fulfill_dns_01 wait zones domain ch) w = (inr true, w1) →
  ∃ w', play (set_txt (apex_domain domain zones) (challenge_name domain)
               (dns01_txt_value (get_key_authorization (ac_token ch)))) w = (inr tt, w') ∧
    n_out w1 = n_out w'.
Proof.
  rewrite fulfill_play. destruct (play _ w) as [[e|[]] w']; [done|]. intros [= <-].
  exists w'. split; [done|]. apply propagated_out.
Qed.
End client.

(** ** Namecheap *)

Section namecheap.
Context `{XmlParser} `{Outside} (s : namecheap_settings) (zone : outside → str * str → list host).
Context `{!HostService s zone}.
#[local] Existing Instance NamecheapDNSProvider.

Lemma play_with_lock {A} d (p : coro net A) w :
  play (with_lock d p) w =
  let '(r, w1) := play p (net_act (NAcquire d) w).2 in (r, (net_act (NRelease d) w1).2).
Proof.
  unfold with_lock. rewrite play_bind, play_perform, play_bind, play_catch.
  destruct (play p _) as [[e|a] w1]; [by rewrite play_bind, play_perform|].
  by rewrite play_bind, play_perform.
Qed.

(** Reading the hosts. *)
Lemma play_get_hosts k w r w' : play (get_hosts s k.1 k.2) w = (r, w') →
  (∀ k', zone (n_out w') k' = zone (n_out w) k') ∧ ∀ hosts, r = inr hosts → hosts = zone (n_out w) k.
Proof.
  destruct (get_hosts_vis s k.1 k.2) as (f & -> & Hf). rewrite play_vis, Hf, play_lift. cbn [net_act].
  destruct (o_http (get_hosts_rq s k.1 k.2) (n_out w)) as [rp out'] eqn:Eo. intros [= <- <-]. cbn.
  destruct (hs_get k _ _ _ Eo) as [Hz Hr]. split; [done|]. intros hosts Hh.
  pose proof (read_reply_spec rp) as Hs. destruct (accepted rp) as [root|]; [|destruct Hs as [e Hs]; by rewrite Hs in Hh].
  rewrite Hs in Hh. injection Hh as <-. by apply Hr.
Qed.

(** Writing them. *)
Lemma play_set_hosts k hosts w r w' : play (set_hosts s k.1 k.2 hosts) w = (r, w') →
  (∀ k', k' ≠ k → zone (n_out w') k' = zone (n_out w) k') ∧
  (zone (n_out w') k = hosts ∨ (∃ e, r = inl e) ∧ zone (n_out w') k = zone (n_out w) k).
Proof.
  destruct (set_hosts_vis s k.1 k.2 hosts) as (f & -> & Hf). rewrite play_vis, Hf, play_lift. cbn [net_act].
  destruct (o_http (set_hosts_rq s k.1 k.2 hosts) (n_out w)) as [rp out'] eqn:Eo. intros [= <- <-]. cbn.
  destruct (hs_set k hosts _ _ _ Eo) as [Hz [Hk|[Ha Hk]]]; (split; [done|]); [by left|right].
  pose proof (write_reply_spec rp) as Hs. by rewrite Ha in Hs.
Qed.

(** An operation on the host list of one domain: nothing, or its change. *)
Lemma play_operation op w r w' : play (op_code s op) w = (r, w') →
  match op_key op with
  | None => w' = w ∧ ∃ e, r = inl e
  | Some k =>
      (∀ k', k' ≠ k → zone (n_out w') k' = zone (n_out w) k') ∧
      (zone (n_out w') k = op_apply op (zone (n_out w) k) ∨
       (∃ e, r = inl e) ∧ zone (n_out w') k = zone (n_out w) k)
  end.
Proof.
  assert (∀ (f : list host → coro net unit) k w r w',
    (∀ hosts, f hosts = set_hosts s k.1 k.2 (op_apply op hosts) ∨ (op_apply op hosts = hosts ∧ f hosts = Ret tt)) →
    play (with_lock (op_domain op) (get_hosts s k.1 k.2 ≫= f)) w = (r, w') →
    (∀ k', k' ≠ k → zone (n_out w') k' = zone (n_out w) k') ∧
    (zone (n_out w') k = op_apply op (zone (n_out w) k) ∨ (∃ e, r = inl e) ∧ zone (n_out w') k = zone (n_out w) k))
    as Hop.
  { clear w r w'. intros f k w r w' Hf. rewrite play_with_lock, play_bind.
    destruct (play (get_hosts _ _ _) _) as [r1 w1] eqn:Eg. apply play_get_hosts in Eg as [Hg Hh].
    cbn [net_act n_with_locks snd n_out] in Hg, Hh.
    destruct r1 as [e|hosts]; [intros [= <- <-]; cbn; split; [auto|right; eauto]|].
    specialize (Hh hosts eq_refl) as ->.
    destruct (Hf (zone (n_out w) k)) as [->|[Hid ->]].
    - destruct (play (set_hosts _ _ _ _) w1) as [r2 w2] eqn:Es. apply play_set_hosts in Es as [Hs Hk].
      intros [= <- <-]. cbn. rewrite <- !Hg. split; [intros k' Hk'; by rewrite Hs|].
      destruct Hk as [Hk|[He Hk]]; [left|right]; [by rewrite Hk, !Hg|by split].
    - rewrite play_ret. intros [= <- <-]. cbn. split; [auto|left]. by rewrite Hid, Hg. }
  destruct op as [d n v|d n]; cbn [op_code set_txt delete_txt NamecheapDNSProvider];
    [unfold namecheap_set_txt|unfold namecheap_delete_txt]; rewrite play_bind, play_lift; unfold op_key; cbn [op_domain];
    (destruct (split_domain d) as [e|[sld tld]]; [intros [= <- <-]; eauto|]).
  - apply (Hop _ (sld, tld)). intros hosts. by left.
  - apply (Hop _ (sld, tld)). intros hosts. cbv zeta. destruct (_ <? _)%nat eqn:Hl; [by left|right].
    split; [by apply drop_txt_id|done].
Qed.

(** The TXT values of a name, in the host list of its domain. *)
Definition host_values (rel : str) (hosts : list host) : list str := h_address <$> filter (is_txt rel) hosts.
Definition nc_values (out : outside) (d n : str) : list str :=
  match split_domain d with inr k => host_values (relative_name d n) (zone out k) | inl _ => [] end.

Lemma add_txt_values rel rel' v hosts :
  host_values rel' (add_txt rel v hosts) = host_values rel' hosts ++ (if decide (rel = rel') then [v] else []).
Proof.
  unfold host_values, add_txt. rewrite filter_app, fmap_app. f_equal. case_decide as E.
  - by rewrite filter_cons_True by (split; [done|exact E]).
  - rewrite filter_cons_False; [done|]. by intros [_ Hn].
Qed.
Lemma drop_txt_values rel rel' hosts :
  host_values rel' (drop_txt rel hosts) = if decide (rel = rel') then [] else host_values rel' hosts.
Proof.
  unfold host_values, drop_txt. rewrite list_filter_filter. case_decide as E.
  - subst. rewrite (list_filter_iff _ (λ _, False)) by (intros h; tauto).
    induction hosts; [done|]. by rewrite filter_cons_False by tauto.
  - f_equal. apply list_filter_iff. intros h. split; [tauto|]. intros Ht. split; [done|]. intros [_ Hr].
    destruct Ht as [_ Hr']. congruence.
Qed.

Lemma relative_name_inj d n n' : (46 :: d) `suffix_of` n → (46 :: d) `suffix_of` n' →
  relative_name d n = relative_name d n' → n = n'.
Proof. intros [a ->] [b ->]. unfold relative_name. rewrite !removesuffix_app. by intros ->. Qed.

(** The records of another name. *)
Lemma operation_spares op n d' n' w r w' :
  relative_name (op_domain op) n = match op with AddTxt d n _ | DropTxt d n => relative_name d n end →
  play (op_code s op) w = (r, w') → separate (op_domain op) n d' n' →
  nc_values (n_out w') d' n' = nc_values (n_out w) d' n'.
Proof.
  intros Hn Hp%play_operation Hsep. unfold op_key in Hp. unfold nc_values.
  destruct (split_domain (op_domain op)) as [e|k] eqn:Ek; [by destruct Hp as [-> _]|].
  destruct (split_domain d') as [e|k'] eqn:Ek'; [done|]. destruct Hp as [Hother Hk].
  destruct (decide (k' = k)) as [->|Hne]; [|by rewrite Hother].
  assert (d' = op_domain op) as -> by (by rewrite (split_domain_inv _ _ Ek), (split_domain_inv _ _ Ek')).
  pose proof (separate_names _ _ _ _ Hsep) as Hnn. destruct Hsep as [_ [?|(Hs & Hs')]]; [done|].
  assert (relative_name (op_domain op) n ≠ relative_name (op_domain op) n') as Hrel
    by (intros E; by apply relative_name_inj in E).
  destruct Hk as [->|[_ ->]]; [|done]. destruct op as [d m v|d m]; cbn [op_apply op_domain] in *; rewrite Hn in Hrel.
  - by rewrite add_txt_values, decide_False, app_nil_r.
  - by rewrite drop_txt_values, decide_False.
Qed.

#[export] Instance namecheap_zone : @ZoneProvider (NamecheapDNSProvider s) _.
Proof.
  refine (Build_ZoneProvider _ _ nc_values (λ _ _ _, True) _ _ _ _).
  - intros d n v w w' Hp. apply (play_operation (AddTxt d n v)) in Hp. unfold op_key in Hp. cbn [op_domain op_apply] in Hp.
    unfold nc_values. destruct (split_domain d) as [e|k]; [by destruct Hp as [_ [? ?]]|].
    destruct Hp as [_ [->|[[? ?] _]]]; [|done]. by rewrite add_txt_values, decide_True.
  - intros d n v d' n' w r w'. by apply (operation_spares (AddTxt d n v)).
  - intros d n w w' _ Hp. apply (play_operation (DropTxt d n)) in Hp. unfold op_key in Hp. cbn [op_domain op_apply] in Hp.
    unfold nc_values. destruct (split_domain d) as [e|k]; [done|].
    destruct Hp as [_ [->|[[? ?] _]]]; [|done]. by rewrite drop_txt_values, decide_True.
  - intros d n d' n' w r w'. by apply (operation_spares (DropTxt d n)).
Defined.
End namecheap.

(** ** Publication *)

(** For every provider that keeps the interface: what a fulfilled challenge and its
    clearing leave in the zone. *)
Lemma published `{Gufo} `{ZoneProvider} wait zones domain ch w w1 :
  let apex := apex_domain domain zones in let name := challenge_name domain in
  let value := dns01_txt_value (get_key_authorization (ac_token ch)) in
  play (fulfill_dns_01 wait zones domain ch) w = (inr true, w1) →
  txt_values (n_out w1) apex name = txt_values (n_out w) apex name ++ [value] ∧
  (∀ d n, separate apex name d n → txt_values (n_out w1) d n = txt_values (n_out w) d n) ∧
  ∃ w2, play (clear_dns_01 zones domain) w1 = (inr tt, w2) ∧
    (clearable (n_out w1) apex name →
     txt_values (n_out w2) apex name = [] ∨ ∃ e, (play (delete_txt apex name) w1).1 = inl e) ∧
    (∀ d n, separate apex name d n → txt_values (n_out w2) d n = txt_values (n_out w1) d n).
Proof.
  intros apex name value (w' & Hs & Ho)%fulfilled. rewrite Ho. split_and!.
  - by eapply set_txt_publishes.
  - intros d n. by eapply set_txt_spares.
  - exists (play (delete_txt apex name) w1).2. split; [by rewrite clear_play|].
    destruct (play (delete_txt apex name) w1) as [r w2] eqn:Ed. cbn [fst snd]. split.
    + rewrite <- Ho. intros Hl. destruct r as [e|[]]; [right; eauto|left]. by eapply delete_txt_removes.
    + intros d n. rewrite <- Ho. by eapply delete_txt_spares.
Qed.

(** gufo-acme and a client key for executions. *)
Definition toy_gufo : Gufo := {|
  domain_to_identifiers := λ d, []; get_order_status := λ _, inr []; pem_to_der := inr;
  encode_b64jose := λ b, b; get_key_authorization := λ t, t ++ u ".thumbprint" |}.
