(* ===== verification/DnsStore.v ===== *)
(** * Records behind ids

    What the services share that store DNS records under ids and delete them one
    by one (Cloudflare, Porkbun): a record as stored, the records of a name, the
    deletion loop against a service that may refuse, and a concrete store for the
    witnesses. *)
From S2P Require Import Prelude PyStr Json External PyStd Models Schemas Jws Coro Net DnsJson.

Record dns_record := mk_dns_record { dr_id : str; dr_name : str; dr_content : str }.
Abbreviation named n l := (filter (λ r, dr_name r = n) l).
Abbreviation ids_of l := (dr_id <$> l).

(** The answer did not arrive or is no success. *)
Definition refused (r : res http_reply) : Prop := match r with inr rp => is_success rp = false | inl _ => True end.

(** A request sent: the answer the outside gives, and what is raised for it. *)
Lemma send_http `{Outside} rq w r w' : play (send rq) w = (r, w') → ∃ r0,
  o_http rq (n_out w) = (r0, n_out w') ∧
  match r with inr rp => r0 = inr rp ∧ is_success rp = true | inl _ => refused r0 end.
Proof.
  unfold send. rewrite play_bind, play_perform_res. cbn [net_act]. unfold n_answer.
  destruct (o_http rq (n_out w)) as [[e|rp] out'] eqn:E; cbn [fst snd].
  - intros [= <- <-]. by exists (inl e).
  - rewrite play_bind, play_lift. unfold raise_for_status. destruct (is_success rp) eqn:Es; intros [= <- <-]; by exists (inr rp).
Qed.

(** ** The records of a name *)

Lemma NoDup_fmap_eq {A B} (f : A → B) l x y : NoDup (f <$> l) → x ∈ l → y ∈ l → f x = f y → x = y.
Proof.
  intros Hnd [i Hi]%list_elem_of_lookup [j Hj]%list_elem_of_lookup Hf.
  assert (i = j) as ->; [|congruence].
  eapply NoDup_lookup; [exact Hnd|by rewrite list_lookup_fmap, Hi|by rewrite list_lookup_fmap, Hj, Hf].
Qed.
Lemma named_gone n n' gone (l : list dns_record) : NoDup (ids_of l) → n ≠ n' → gone ⊆ ids_of (named n l) →
  named n' (filter (λ r, dr_id r ∉ gone) l) = named n' l.
Proof.
  intros Hnd Hn Hg.
  assert (named n' (filter (λ r, dr_id r ∉ gone) l) = filter (λ r, dr_id r ∉ gone) (named n' l)) as ->
    by (rewrite !list_filter_filter; apply list_filter_iff; tauto).
  apply filter_every. intros x (Hx & Hxl)%list_elem_of_filter Hin.
  apply Hg, list_elem_of_fmap in Hin as (y & Hid & (Hy & Hyl)%list_elem_of_filter).
  apply Hn. rewrite <- Hx, <- Hy. f_equal. by eapply NoDup_fmap_eq.
Qed.
Lemma named_all_gone n (l : list dns_record) : named n (filter (λ r, dr_id r ∉ ids_of (named n l)) l) = [].
Proof.
  rewrite list_filter_filter. apply filter_none. intros x Hx [Hn Hid]. apply Hid.
  by apply list_elem_of_fmap_2, list_elem_of_filter.
Qed.
Lemma page_left p (l : list dns_record) : NoDup (ids_of l) →
  filter (λ r, dr_id r ∉ take p (ids_of l)) l = drop p l.
Proof.
  intros Hnd. rewrite <- (take_drop p l), fmap_app in Hnd. apply NoDup_app in Hnd as (_ & Hdisj & _).
  transitivity (filter (λ r, dr_id r ∉ take p (ids_of l)) (take p l ++ drop p l)); [by rewrite take_drop|].
  rewrite filter_app, <- fmap_take.
  rewrite filter_none, filter_every; [done| |].
  - intros r Hr Hin. apply (Hdisj _ Hin). by apply list_elem_of_fmap_2.
  - intros r Hr Hn. apply Hn. by apply list_elem_of_fmap_2.
Qed.
Lemma named_created n n' id v (l : list dns_record) :
  dr_content <$> named n' (l ++ [mk_dns_record id n v]) =
  (dr_content <$> named n' l) ++ (if decide (n = n') then [v] else []).
Proof.
  rewrite filter_app, fmap_app. f_equal. case_decide as E; [by rewrite filter_cons_True|by rewrite filter_cons_False].
Qed.

(** ** The deletions *)

Section deletions.
Context `{Ext} `{Outside} {K : Type} (records : outside → K → list dns_record).
Context (call : http_request → coro net http_reply) (rq : str → http_request) (z : K).
(** States from which a deletion that reports no error has been done. *)
Context (sure : outside → Prop).

(** A deletion leaves the other zones alone, and removes the record of the id or
    changes nothing. *)
Definition deletes_one : Prop := ∀ id w r w', play (call (rq id)) w = (r, w') →
  (∀ z', z' ≠ z → records (n_out w') z' = records (n_out w) z') ∧
  (records (n_out w') z = filter (λ r, dr_id r ≠ id) (records (n_out w) z) ∨
   records (n_out w') z = records (n_out w) z ∧ (sure (n_out w) → ∃ e, r = inl e)) ∧
  (sure (n_out w) → sure (n_out w')).

(** The loop: some of the ids are removed; all of them, on success from a sure state. *)
Lemma deletions_play rs ids w r w' : deletes_one → record_ids rs = inr ids →
  play (for_each rs (λ record, id ← lift (record_id record); call (rq id) ;; Ret tt)) w = (r, w') →
  (∀ z', z' ≠ z → records (n_out w') z' = records (n_out w) z') ∧
  ∃ gone, gone ⊆ ids ∧ (sure (n_out w) → r = inr tt → gone = ids) ∧
    records (n_out w') z = filter (λ r, dr_id r ∉ gone) (records (n_out w) z).
Proof.
  intros Hone. revert ids w. induction rs as [|x rs IH]; intros ids w; cbn [record_ids for_each].
  - intros [= <-]. rewrite play_ret. intros [= <- <-]. split; [done|]. exists []. split_and!; [done|done|].
    symmetry. apply filter_every. set_solver.
  - destruct (record_id x) as [e|id] eqn:Ex; [done|]. intros Hids0. cbn in Hids0. apply res_bind_inr in Hids0 as (ids' & Hids & [= <-]).
    rewrite play_bind, play_bind, play_lift, play_bind.
    destruct (play (call (rq id)) w) as [r1 w1] eqn:Es. apply Hone in Es as (Hother & Hthis & Hsure).
    destruct r1 as [e|rp]; [|rewrite play_ret]; intros Hp.
    + injection Hp as <- <-. split; [done|]. destruct Hthis as [->|[-> _]].
      * exists [id]. split_and!; [set_solver|done|]. apply list_filter_iff. set_solver.
      * exists []. split_and!; [set_solver|done|]. symmetry. apply filter_every. set_solver.
    + destruct (IH ids' w1 Hids Hp) as (Hother' & gone & Hsub & Hall & Hrec). split.
      { intros z' Hz'. by rewrite Hother', Hother. }
      destruct Hthis as [Hthis|[Hthis Hno]].
      * exists (id :: gone). split_and!; [set_solver|intros Hs Hr'; by rewrite Hall by auto|].
        rewrite Hrec, Hthis, list_filter_filter. apply list_filter_iff. set_solver.
      * exists gone. split_and!; [set_solver|intros Hs _; by destruct (Hno Hs)|by rewrite Hrec, Hthis].
Qed.
End deletions.

(** ** A concrete store *)

(** The record in slot [i] has [i + 1] ones as its id; a deletion empties its slot. *)
Module Slots.
Abbreviation slots := (list (option (str * str))).
Definition slot_id (i : nat) : str := replicate (S i) 49.
Fixpoint entries (i : nat) (l : slots) : list dns_record :=
  match l with
  | [] => []
  | Some (n, v) :: l => mk_dns_record (slot_id i) n v :: entries (S i) l
  | None :: l => entries (S i) l
  end.

#[export] Instance http_body_eq_dec : EqDecision http_body.
Proof. solve_decision. Defined.
#[export] Instance http_request_eq_dec : EqDecision http_request.
Proof. solve_decision. Defined.

(** The store after the request [rq], where [delete_rq] deletes an id. *)
Definition without (delete_rq : str → http_request) (rq : http_request) (out : slots) : slots :=
  imap (λ i x, if decide (rq = delete_rq (slot_id i)) then None else x) out.

(** An answer in JSON, as the client will read it: a list of ids under a key. *)
Definition answer `{Ext} (j : json) : http_reply :=
  let rp := mk_http_reply 200 [] (dumps false [] j) in
  if decide (reply_json rp = inr j) then rp else mk_http_reply 500 [] [].
Definition id_list (key : str) (ids : list str) : json :=
  JObj [(key, JArr ((λ id, JObj [(u "id", JStr id)]) <$> ids))].

Lemma answer_read `{Ext} j rp : inr rp = @inr exn _ (answer j) → is_success rp = true → reply_json rp = inr j.
Proof. intros [= ->]. unfold answer. case_decide; [done|by intros ?]. Qed.
Lemma id_list_read `{Ext} key ids rp rs : reply_json rp = inr (id_list key ids) →
  json_list key rp ≫= py_iter = inr rs → record_ids rs = inr ids.
Proof.
  intros Hr Hj. unfold json_list in Hj. rewrite Hr in Hj. cbn in Hj. rewrite decide_True in Hj by done.
  cbn in Hj. injection Hj as <-. clear. induction ids as [|id ids IH]; [done|]. cbn. cbn in IH. by rewrite IH.
Qed.

Lemma entries_ids i l r : r ∈ entries i l → ∃ k, dr_id r = slot_id k ∧ (i <= k)%nat.
Proof.
  revert i. induction l as [|[[n v]|] l IH]; intros i; cbn; [by intros ?%elem_of_nil|intros [->|Hr]%elem_of_cons|intros Hr].
  - by exists i.
  - destruct (IH _ Hr) as (k & -> & Hk). exists k. split; [done|lia].
  - destruct (IH _ Hr) as (k & -> & Hk). exists k. split; [done|lia].
Qed.
Lemma slot_id_inj i k : slot_id i = slot_id k → i = k.
Proof. intros E%(f_equal length). unfold slot_id in E. rewrite !length_replicate in E. lia. Qed.
Lemma entries_unique i l : NoDup (ids_of (entries i l)).
Proof.
  revert i. induction l as [|[[n v]|] l IH]; intros i; cbn; [constructor| |apply IH].
  constructor; [|apply IH]. intros (r & Hid & Hr)%list_elem_of_fmap.
  apply entries_ids in Hr as (k & Hk & Hle). rewrite Hk in Hid. apply slot_id_inj in Hid. lia.
Qed.
Lemma entries_app i l l' : entries i (l ++ l') = entries i l ++ entries (i + length l) l'.
Proof.
  revert i. induction l as [|[[n v]|] l IH]; intros i; cbn; [by rewrite Nat.add_0_r| |];
    rewrite IH; by replace (S i + length l)%nat with (i + S (length l))%nat by lia.
Qed.
Lemma entries_without_from (delete_rq : str → http_request) (rq : http_request) i l :
  entries i (imap (λ j x, if decide (rq = delete_rq (slot_id (i + j))) then None else x) l) =
  filter (λ r, rq ≠ delete_rq (dr_id r)) (entries i l).
Proof.
  revert i. induction l as [|x l IH]; intros i; [done|]. rewrite imap_cons, Nat.add_0_r.
  assert (imap ((λ j x, if decide (rq = delete_rq (slot_id (i + j))) then None else x) ∘ S) l =
    imap (λ j x, if decide (rq = delete_rq (slot_id (S i + j))) then None else x) l) as ->.
  { apply imap_ext. intros j y _. cbn. by rewrite Nat.add_succ_r. }
  case_decide as Hd; destruct x as [[n v]|]; cbn [entries]; rewrite IH; [|done| |done].
  - rewrite filter_cons_False; [done|]. cbn. tauto.
  - by rewrite filter_cons_True.
Qed.
(** The deletion of one id. *)
Lemma entries_without (delete_rq : str → http_request) id l : (∀ id', delete_rq id = delete_rq id' → id = id') →
  entries 0 (without delete_rq (delete_rq id) l) = filter (λ r, dr_id r ≠ id) (entries 0 l).
Proof.
  intros Hinj. etrans; [exact (entries_without_from delete_rq (delete_rq id) 0 l)|]. apply list_filter_iff. intros r.
  split; intros Hr Hid; apply Hr; [by rewrite Hid|by apply Hinj in Hid].
Qed.
Lemma without_none (delete_rq : str → http_request) rq l : (∀ i, rq ≠ delete_rq (slot_id i)) → without delete_rq rq l = l.
Proof.
  intros Hn. unfold without. trans (imap (λ _ x, x) l).
  - apply imap_ext. intros i x _. by rewrite decide_False.
  - clear Hn. induction l as [|x l IH]; [done|]. rewrite imap_cons. f_equal. exact IH.
Qed.
End Slots.
