(* ===== verification/CloudflareZone.v ===== *)
(** * DNS-01 against Cloudflare

    The provider of [dns/providers/cloudflare.py] keeps the interface
    [ZoneProvider], for every service that stores records under ids: what
    Cloudflare documents of the four requests is the class [RecordService].  A
    listing shows one page, so a name with more records than a page is not
    emptied by one deletion. *)
From S2P Require Import Prelude PyStr Json External PyStd Models Schemas Jws Coro Net LeClient AcmeClient DnsJson DnsStore Dns01.

Section service.
Context `{Ext} `{Outside} (token : str).

Definition cloudflare_zone_rq (domain : str) : http_request :=
  cloudflare_rq token (u "GET") (u "/zones") [(u "name", domain); (u "status", u "active")] NoBody.
Definition cloudflare_create_rq (zone_id name value : str) : http_request :=
  cloudflare_rq token (u "POST") (u "/zones/" ++ zone_id ++ u "/dns_records") []
    (JsonBody (JObj [(u "type", JStr (u "TXT")); (u "name", JStr name); (u "content", JStr value); (u "ttl", JInt 120)])).

(** A domain has one zone.  Requests about a zone leave the others alone; a lookup
    or a listing changes nothing; a record is created under a new id; a listing
    shows the first [page] records of the name; a deletion removes the record of
    the id.  A request that is refused may still have been served, when its
    answer was lost. *)
Class RecordService (page : nat) (zone_of : str → option str) (records : outside → str → list dns_record) := {
  rs_zone_inj d d' z : zone_of d = Some z → zone_of d' = Some z → d = d';
  rs_unique out z : NoDup (ids_of (records out z));
  rs_zone d out r out' : o_http (cloudflare_zone_rq d) out = (r, out') →
    records out' = records out ∧
    ∀ rp zones id, r = inr rp → is_success rp = true → json_list (u "result") rp = inr zones →
      py_truthy zones = true → first_id zones = inr id → zone_of d = Some (py_format id);
  rs_create d z n v out r out' : zone_of d = Some z → o_http (cloudflare_create_rq z n v) out = (r, out') →
    (∀ z', z' ≠ z → records out' z' = records out z') ∧
    ((∃ id, records out' z = records out z ++ [mk_dns_record id n v]) ∨ (refused r ∧ records out' z = records out z));
  rs_list d z n out r out' : zone_of d = Some z → o_http (cloudflare_list_rq token z n) out = (r, out') →
    records out' = records out ∧
    ∀ rp rs, r = inr rp → is_success rp = true → json_list (u "result") rp ≫= py_iter = inr rs →
      record_ids rs = inr (take page (ids_of (named n (records out z))));
  rs_delete d z id out r out' : zone_of d = Some z → o_http (cloudflare_delete_rq token z id) out = (r, out') →
    (∀ z', z' ≠ z → records out' z' = records out z') ∧
    (records out' z = filter (λ r, dr_id r ≠ id) (records out z) ∨ (refused r ∧ records out' z = records out z))
}.
End service.
Arguments rs_zone {_ _ _ _ _ _ _} d out r out'.
Arguments rs_create {_ _ _ _ _ _ _} d z n v out r out'.
Arguments rs_list {_ _ _ _ _ _ _} d z n out r out'.
Arguments rs_delete {_ _ _ _ _ _ _} d z id out r out'.

Section cloudflare.
Context `{Ext} `{Outside} (token : str) (page : nat) (zone_of : str → option str).
Context (records : outside → str → list dns_record) `{RS : !RecordService token page zone_of records}.
#[local] Existing Instance CloudflareDNSProvider.

Lemma zone_play d w r w' : play (get_zone_id token d) w = (r, w') →
  records (n_out w') = records (n_out w) ∧ ∀ z, r = inr z → zone_of d = Some z.
Proof.
  unfold get_zone_id. rewrite play_bind. fold (cloudflare_zone_rq token d).
  destruct (play (send _) w) as [[e|rp] w1] eqn:Es; apply send_http in Es as (r0 & Eh & Hr);
    destruct (rs_zone d _ _ _ Eh) as [Hsame Hz]; [by intros [= <- <-]|]. destruct Hr as [-> Hs].
  rewrite play_bind, play_lift. destruct (json_list _ rp) as [e|zones] eqn:Ej; [by intros [= <- <-]|].
  destruct (py_truthy zones) eqn:Et; cbn [negb]; [|by intros [= <- <-]].
  rewrite play_bind, play_lift. destruct (first_id zones) as [e|id] eqn:Ei; intros [= <- <-]; (split; [done|]); [done|].
  intros z [= <-]. by eapply Hz.
Qed.

Lemma deletes_one_cloudflare d z : zone_of d = Some z →
  deletes_one records send (cloudflare_delete_rq token z) z (λ _, True).
Proof.
  intros Hz id w r w' (r0 & Eh & Hr)%send_http. destruct (rs_delete d z id _ _ _ Hz Eh) as [Hother Hthis].
  split_and!; [done| |done]. destruct Hthis as [|[Href Hsame]]; [by left|right]. split; [done|intros _].
  destruct r as [e|rp]; [eauto|]. destruct Hr as [-> Hs]. cbn in Href. congruence.
Qed.

Lemma cloudflare_set_play d n v w r w' : play (cloudflare_set_txt token d n v) w = (r, w') →
  records (n_out w') = records (n_out w) ∧ r ≠ inr tt ∨
  ∃ z, zone_of d = Some z ∧ (∀ z', z' ≠ z → records (n_out w') z' = records (n_out w) z') ∧
    ((∃ id, records (n_out w') z = records (n_out w) z ++ [mk_dns_record id n v]) ∨
     r ≠ inr tt ∧ records (n_out w') z = records (n_out w) z).
Proof.
  unfold cloudflare_set_txt. rewrite play_bind.
  destruct (play (get_zone_id token d) w) as [[e|z] w1] eqn:Ez; apply zone_play in Ez as [Hsame Hz];
    [intros [= <- <-]; by left|intros Hp; right; revert Hp].
  specialize (Hz z eq_refl). intros Hp. exists z. revert Hp. fold (cloudflare_create_rq token z n v). rewrite <- Hsame.
  rewrite play_bind. destruct (play (send _) w1) as [r1 w2] eqn:Es. apply send_http in Es as (r0 & Eh & Hr).
  destruct (rs_create d z n v _ _ _ Hz Eh) as [Hother Hthis].
  destruct r1 as [e|rp]; [|rewrite play_ret]; intros [= <- <-]; (split_and!; [done|done|]).
  - destruct Hthis as [|[_ ->]]; [by left|by right].
  - destruct Hr as [-> Hs]. left. destruct Hthis as [|[Href _]]; [done|]. cbn in Href. congruence.
Qed.

Lemma cloudflare_delete_play d n w r w' : play (cloudflare_delete_txt token d n) w = (r, w') →
  records (n_out w') = records (n_out w) ∧ r ≠ inr tt ∨
  ∃ z gone, zone_of d = Some z ∧ (∀ z', z' ≠ z → records (n_out w') z' = records (n_out w) z') ∧
    gone ⊆ ids_of (named n (records (n_out w) z)) ∧
    records (n_out w') z = filter (λ r, dr_id r ∉ gone) (records (n_out w) z) ∧
    (r = inr tt → gone = take page (ids_of (named n (records (n_out w) z)))).
Proof.
  unfold cloudflare_delete_txt. rewrite play_bind.
  destruct (play (get_zone_id token d) w) as [[e|z] w1] eqn:Ez; apply zone_play in Ez as [Hsame Hz];
    [intros [= <- <-]; by left|].
  specialize (Hz z eq_refl). fold (cloudflare_list_rq token z n). rewrite play_bind.
  destruct (play (send _) w1) as [r1 w2] eqn:El. apply send_http in El as (r0 & Eh & Hr).
  destruct (rs_list d z n _ _ _ Hz Eh) as [Hsame' Hl].
  assert (records (n_out w2) = records (n_out w)) as Hw2 by congruence.
  destruct r1 as [e|rp]; [intros [= <- <-]; by left|]. destruct Hr as [-> Hs].
  rewrite play_bind, play_lift. destruct (_ ≫= _) as [e|rs] eqn:Ej; [intros [= <- <-]; by left|].
  intros Hp. right. specialize (Hl rp rs eq_refl Hs Ej).
  destruct (deletions_play _ _ _ _ _ rs _ w2 r w' (deletes_one_cloudflare d z Hz) Hl Hp) as (Hother & gone & Hsub & Hall & Hrec).
  exists z, gone. rewrite Hw2 in *. rewrite Hsame in *. split_and!; [done|done| |done|auto].
  etrans; [exact Hsub|]. intros i. apply subseteq_take.
Qed.

(** The TXT values of a name, in the zone of its domain. *)
Definition cf_values (out : outside) (d n : str) : list str :=
  match zone_of d with Some z => dr_content <$> named n (records out z) | None => [] end.

(** Records of other names are in another zone, or have other ids. *)
Lemma cf_values_other d n d' n' (l l' : str → list dns_record) z :
  separate d n d' n' → zone_of d = Some z → (∀ z', z' ≠ z → l z' = l' z') →
  (n ≠ n' → dr_content <$> named n' (l z) = dr_content <$> named n' (l' z)) →
  match zone_of d' with Some z' => dr_content <$> named n' (l z') | None => [] end =
  match zone_of d' with Some z' => dr_content <$> named n' (l' z') | None => [] end.
Proof.
  intros Hsep Hz Hother Hthis. destruct (zone_of d') as [z'|] eqn:Hz'; [|done].
  destruct (decide (z' = z)) as [->|Hne]; [|by rewrite Hother]. by eapply Hthis, separate_names.
Qed.
#[export] Instance cloudflare_zone : @ZoneProvider (CloudflareDNSProvider token) _.
Proof.
  refine (Build_ZoneProvider _ _ cf_values
    (λ out d n, ∀ z, zone_of d = Some z → (length (named n (records out z)) <= page)%nat) _ _ _ _);
    cbn [set_txt delete_txt CloudflareDNSProvider]; unfold cf_values.
  - intros d n v w w' [[_ ?]|(z & Hz & _ & [[id Hr]|[? _]])]%cloudflare_set_play; [done| |done].
    by rewrite Hz, Hr, named_created, decide_True.
  - intros d n v d' n' w r w' [[-> _]|(z & Hz & Hother & Hthis)]%cloudflare_set_play Hsep; [done|].
    apply (cf_values_other d n d' n' _ _ z); [done..|]. intros Hn. destruct Hthis as [[id ->]|[_ ->]]; [|done].
    by rewrite named_created, decide_False, app_nil_r.
  - intros d n w w' Hl [[_ ?]|(z & gone & Hz & _ & _ & Hr & Hall)]%cloudflare_delete_play; [done|].
    rewrite Hz, Hr, Hall, take_ge by (rewrite ?length_fmap; auto). by rewrite named_all_gone.
  - intros d n d' n' w r w' [[-> _]|(z & gone & Hz & Hother & Hg & Hr & _)]%cloudflare_delete_play Hsep; [done|].
    apply (cf_values_other d n d' n' _ _ z); [done..|]. intros Hn. rewrite Hr.
    f_equal. apply (named_gone n); [apply (@rs_unique _ _ _ _ _ _ RS)|done..].
Defined.
End cloudflare.

(** ** A concrete service *)

(** One zone, [z1] of [example.com], with its records in slots. *)
Module Records.
Import Slots.
#[local] Existing Instance toy.
Definition token : str := u "secret".
Definition z1 : str := u "z1".
Definition the_zone (d : str) : option str := if decide (d = u "example.com") then Some z1 else None.
Definition stored (out : slots) (z : str) : list dns_record := if decide (z = z1) then entries 0 out else [].

Definition serve (rq : http_request) (out : slots) : res http_reply * slots :=
  if decide (rq_method rq = u "DELETE") then (inr (answer JNull), without (cloudflare_delete_rq token z1) rq out)
  else match rq_body rq, rq_params rq with
  | JsonBody (JObj [_; (_, JStr n); (_, JStr v); _]), _ => (inr (answer JNull), out ++ [Some (n, v)])
  | _, [(k, x); (_, y)] =>
      if decide (k = u "name") then (inr (answer (id_list (u "result") (option_list (the_zone x)))), out)
      else (inr (answer (id_list (u "result") (take 100 (ids_of (named y (entries 0 out)))))), out)
  | _, _ => (inr (answer JNull), out)
  end.
#[export] Instance service : Outside := {|
  outside := slots; o_http := serve;
  o_post := λ _ _ s, (inl (PyErr RuntimeError []), s); o_new_order := λ s, (inr [], s);
  o_bound := λ _, inr tt; o_new_account := λ _ s, (inr tt, s); o_clock := λ s, (0, s) |}.

Lemma the_zone_inv d z : the_zone d = Some z → d = u "example.com" ∧ z = z1.
Proof. unfold the_zone. case_decide; [by intros [= <-]|done]. Qed.
Lemma delete_rq_inj id id' : cloudflare_delete_rq token z1 id = cloudflare_delete_rq token z1 id' → id = id'.
Proof. intros E%(f_equal rq_url). by simplify_list_eq. Qed.
#[export] Instance records : RecordService token 100 the_zone stored.
Proof.
  split.
  - by intros d d' z [-> ->]%the_zone_inv [-> _]%the_zone_inv.
  - intros out z. unfold stored. case_decide; [apply entries_unique|constructor].
  - intros d out r out' E. change (serve (cloudflare_zone_rq token d) out = (r, out')) in E.
    unfold serve in E. rewrite decide_False in E by done. cbn [rq_body rq_params cloudflare_zone_rq cloudflare_rq] in E.
    rewrite decide_True in E by done. injection E as <- <-. split; [done|].
    intros rp zones id Hr Hs Hj Ht Hid. symmetry in Hr. pose proof (answer_read _ _ Hr Hs) as Hrp.
    unfold json_list in Hj. rewrite Hrp in Hj. cbn in Hj. injection Hj as <-.
    destruct (the_zone d); [|done]. cbn in Hid. by injection Hid as <-.
  - intros d z n v out r out' [-> ->]%the_zone_inv E.
    change (serve (cloudflare_create_rq token z1 n v) out = (r, out')) in E.
    unfold serve in E. rewrite decide_False in E by done. cbn [rq_body cloudflare_create_rq cloudflare_rq] in E.
    injection E as <- <-. unfold stored. split; [intros z' Hz; by rewrite !decide_False|].
    left. exists (slot_id (length out)). by rewrite !decide_True, entries_app.
  - intros d z n out r out' [-> ->]%the_zone_inv E.
    change (serve (cloudflare_list_rq token z1 n) out = (r, out')) in E.
    unfold serve in E. rewrite decide_False in E by done. cbn [rq_body rq_params cloudflare_list_rq cloudflare_rq] in E.
    rewrite decide_False in E by done. injection E as <- <-. split; [done|].
    intros rp rs Hr Hs Hj. symmetry in Hr. pose proof (answer_read _ _ Hr Hs) as Hrp.
    unfold stored. rewrite decide_True by done. by eapply id_list_read.
  - intros d z id out r out' [-> ->]%the_zone_inv E.
    change (serve (cloudflare_delete_rq token z1 id) out = (r, out')) in E.
    unfold serve in E. rewrite decide_True in E by done. injection E as <- <-. unfold stored.
    split; [intros z' Hz; by rewrite !decide_False|left]. rewrite !decide_True by done.
    apply (entries_without (cloudflare_delete_rq token z1) id). apply delete_rq_inj.
Qed.
End Records.

(** ** What a deletion leaves *)

(** What Cloudflare's [delete_txt] leaves when it succeeds, for any service that
    stores records under ids: of the records of the name, those the first page of
    the listing does not show; every other record of the zone, and every other
    zone, is as it was. *)
Theorem delete_txt_page `{Ext} `{Outside} token page zone_of records `{!RecordService token page zone_of records}
    d z n w w' :
  zone_of d = Some z → play (cloudflare_delete_txt token d n) w = (inr tt, w') →
  named n (records (n_out w') z) = drop page (named n (records (n_out w) z)) ∧
  (∀ n', n' ≠ n → named n' (records (n_out w') z) = named n' (records (n_out w) z)) ∧
  ∀ z', z' ≠ z → records (n_out w') z' = records (n_out w) z'.
Proof.
  intros Hz [[_ ?]|(z' & gone & Hz' & Hother & Hg & Hr & Hall)]%(cloudflare_delete_play _ page zone_of records); [done|].
  rewrite Hz in Hz'. injection Hz' as <-. specialize (Hall eq_refl) as ->. rewrite Hr.
  pose proof (@rs_unique _ _ _ _ _ _ RecordService0 (n_out w) z) as Hnd. split_and!; [|intros n' Hn|done].
  - assert (named n (filter (λ r, dr_id r ∉ take page (ids_of (named n (records (n_out w) z)))) (records (n_out w) z)) =
      filter (λ r, dr_id r ∉ take page (ids_of (named n (records (n_out w) z)))) (named n (records (n_out w) z))) as ->
      by (rewrite !list_filter_filter; apply list_filter_iff; tauto).
    apply page_left. eapply sublist_NoDup; [exact Hnd|]. apply fmap_sublist, sublist_filter.
  - by apply (named_gone n).
Qed.

#[local] Existing Instance toy.
#[local] Existing Instance Records.service.
#[local] Existing Instance Records.records.

(** 101 records of the name: one is left. *)
Definition crowded : net_state := mk_net Records.service (replicate 101 (Some (u "n", u "v"))) ∅ ∅ [].
Lemma delete_txt_page_witness :
  length (named (u "n") (Records.stored (n_out (play (cloudflare_delete_txt Records.token (u "example.com") (u "n")) crowded).2)
    Records.z1)) = 1%nat.
Proof.
  assert (Hp : play (cloudflare_delete_txt Records.token (u "example.com") (u "n")) crowded =
    (inr tt, (play (cloudflare_delete_txt Records.token (u "example.com") (u "n")) crowded).2)).
  { assert ((play (cloudflare_delete_txt Records.token (u "example.com") (u "n")) crowded).1 = inr tt) as E
      by (vm_compute; reflexivity).
    revert E. destruct (play _ _) as [r w]. cbn. by intros ->. }
  destruct (@delete_txt_page toy Records.service Records.token 100 Records.the_zone Records.stored Records.records
    (u "example.com") Records.z1 (u "n") crowded _ eq_refl Hp) as [Hl _].
  rewrite Hl. vm_compute. reflexivity.
Defined.
