(* ===== verification/Route53Zone.v ===== *)
(** * DNS-01 against Route 53

    The provider of [dns/providers/route53.py] keeps the interface
    [ZoneProvider], for every service that stores one record set per name and
    type: what Route 53 documents of the four requests is the class
    [RecordSetService].  [CREATE] is refused when the name has a record set
    already, so a challenge record that was left behind blocks the next one. *)
From S2P Require Import Prelude PyStr Json External PyStd Xml Models Coro Net LeClient AcmeClient DnsJson DnsStore Route53 Dns01.

(** The text the provider puts between quotes. *)
Definition bare (v : str) : str := removelast (tail v).
Definition quoted (v : str) : str := [34] ++ v ++ [34].
Lemma bare_quoted v : bare (quoted v) = v.
Proof. unfold bare, quoted. cbn [app tail]. by rewrite removelast_last. Qed.

Section service.
Context `{XmlParser} `{Outside}.

Definition r53_get (path query : str) (headers : list (str * str)) : http_request :=
  mk_http_request (u "GET") (R53_BASE ++ path ++ u "?" ++ query) [] headers NoBody.
Definition r53_post (path body : str) (headers : list (str * str)) : http_request :=
  mk_http_request (u "POST") (R53_BASE ++ path) [] headers (TextBody body).
Definition zones_path : str := u "/2013-04-01/hostedzonesbyname".

(** The document of an answer that is a success. *)
Definition document (r : res http_reply) : option element :=
  match r with inr rp => if is_success rp then fromstring (rp_text rp) else None | inl _ => None end.
(** The id of the first hosted zone listed. *)
Definition first_zone (root : element) : option str :=
  after_last_slash <$> (head (findall_deep2 (qualified R53_NS (u "HostedZone")) (qualified R53_NS (u "Id")) root) ≫= e_text).

(** [zone_of d] is the zone listed first for [d] (the zones come in order of their
    names, from [d] on: another zone when there is none of that name);
    [sets out z k] are the values of the TXT record set of the name [k], in lower
    case, of the zone [z] ([[]] when there is none).  A lookup or a listing
    changes nothing, and a change no other record set.  A listing from a name and
    type shows that record set first if it exists.  A set is created only where
    there is none, and deleted only with the values it has.  A change that is
    refused may have been made, when its answer was lost. *)
Class RecordSetService (zone_of : str → option str) (sets : outside → str → str → list str) := {
  r5_clock out : sets (o_clock out).2 = sets out;
  r5_zone d q hs out r out' : canonical_qs (zones_params d) = inr q →
    o_http (r53_get zones_path q hs) out = (r, out') →
    sets out' = sets out ∧ ∀ root, document r = Some root → first_zone root = zone_of d;
  r5_list d z n q hs out r out' : zone_of d = Some z → canonical_qs (list_params n) = inr q →
    o_http (r53_get (rrset_path z) q hs) out = (r, out') →
    sets out' = sets out ∧ ∀ root, document r = Some root →
      matching_values n root = if decide (sets out z (lower n) = []) then None else Some (sets out z (lower n));
  r5_create d z n v hs out r out' : zone_of d = Some z →
    o_http (r53_post (rrset_path z) (change_xml (u "CREATE") n [v]) hs) out = (r, out') →
    (∀ z' k, z' ≠ z ∨ k ≠ lower n → sets out' z' k = sets out z' k) ∧
    ((sets out z (lower n) = [] ∧ sets out' z (lower n) = [v]) ∨
     (refused r ∧ sets out' z (lower n) = sets out z (lower n)));
  r5_delete d z n values hs out r out' : zone_of d = Some z →
    o_http (r53_post (rrset_path z) (change_xml (u "DELETE") n values) hs) out = (r, out') →
    (∀ z' k, z' ≠ z ∨ k ≠ lower n → sets out' z' k = sets out z' k) ∧
    ((sets out z (lower n) = values ∧ sets out' z (lower n) = []) ∨
     (refused r ∧ sets out' z (lower n) = sets out z (lower n)))
}.
End service.
Arguments r5_zone {_ _ _ _ _} d q hs out r out'.
Arguments r5_list {_ _ _ _ _} d z n q hs out r out'.
Arguments r5_create {_ _ _ _ _} d z n v hs out r out'.
Arguments r5_delete {_ _ _ _ _} d z n values hs out r out'.

Section route53.
Context `{Ext} `{XmlParser} `{Outside} (s : route53_settings) (zone_of : str → option str).
Context (sets : outside → str → str → list str) `{RS : !RecordSetService zone_of sets}.

(** Reading: a document of an answer the service gave, in a state with the same sets. *)
Lemma aws_auth_play m p q b w r w' : play (aws_auth s m p q b) w = (r, w') → sets (n_out w') = sets (n_out w).
Proof.
  unfold aws_auth, sigv4_headers. rewrite play_bind, play_perform, play_lift. intros [= _ <-]. cbn. apply r5_clock.
Qed.
Lemma aws_get_play path q w r w' : play (aws_get s path q) w = (r, w') →
  sets (n_out w') = sets (n_out w) ∧ (∃ e, r = inl e) ∨
  ∃ hs out r0, sets out = sets (n_out w) ∧ o_http (r53_get path q hs) out = (r0, n_out w') ∧
    ∀ root, r = inr root → document r0 = Some root.
Proof.
  unfold aws_get. rewrite play_bind. destruct (play (aws_auth _ _ _ _ _) w) as [[e|hs] w1] eqn:Ea;
    apply aws_auth_play in Ea; [intros [= <- <-]; left; eauto|].
  intros Hp. right. revert Hp. fold (r53_get path q hs). rewrite play_bind.
  destruct (play (send _) w1) as [[e|rp] w2] eqn:Es; apply send_http in Es as (r0 & Eh & Hr);
    [intros [= <- <-]; by exists hs, (n_out w1), r0|].
  rewrite play_lift. destruct Hr as [-> Hs]. intros [= <- <-]. exists hs, (n_out w1), (inr rp).
  split_and!; [done|done|]. cbn. rewrite Hs. destruct (fromstring _); cbn; intros root [= <-]; done.
Qed.
(** Writing. *)
Lemma aws_post_play path b w r w' : play (aws_post s path b) w = (r, w') →
  sets (n_out w') = sets (n_out w) ∧ (∃ e, r = inl e) ∨
  ∃ hs out r0, sets out = sets (n_out w) ∧ o_http (r53_post path b hs) out = (r0, n_out w') ∧
    (refused r0 → ∃ e, r = inl e).
Proof.
  unfold aws_post. rewrite play_bind. destruct (play (aws_auth _ _ _ _ _) w) as [[e|hs] w1] eqn:Ea;
    apply aws_auth_play in Ea; [intros [= <- <-]; left; eauto|].
  intros Hp. right. exists (hs ++ [(u "Content-Type", u "text/xml")]), (n_out w1).
  revert Hp. fold (r53_post path b (hs ++ [(u "Content-Type", u "text/xml")])). rewrite play_bind.
  destruct (play (send _) w1) as [[e|rp] w2] eqn:Es; apply send_http in Es as (r0 & Eh & Hr);
    [intros [= <- <-]; exists r0; eauto|].
  rewrite play_ret. destruct Hr as [-> Hs]. intros [= <- <-]. exists (inr rp). split_and!; [done|done|].
  cbn. congruence.
Qed.

Lemma zone_id_play d w r w' : play (zone_id s d) w = (r, w') →
  sets (n_out w') = sets (n_out w) ∧ ∀ z, r = inr z → zone_of d = Some z.
Proof.
  unfold zone_id. rewrite play_bind, play_lift.
  destruct (canonical_qs _) as [e|q] eqn:Eq; [by intros [= <- <-]|]. rewrite play_bind. fold zones_path.
  destruct (play (aws_get _ _ _) w) as [r1 w1] eqn:Eg.
  apply aws_get_play in Eg as [[Hs [e ->]]|(hs & out & r0 & Hs & Eh & Hd)]; [by intros [= <- <-]|].
  destruct (r5_zone d q hs _ _ _ Eq Eh) as [Hsame Hz]. destruct r1 as [e|root]; [intros [= <- <-]; split; [congruence|done]|].
  specialize (Hz root (Hd root eq_refl)). unfold first_zone in Hz. intros Hp.
  destruct (head _) as [el|]; [destruct (e_text el) as [t|] eqn:Et|]; injection Hp as <- <-; (split; [congruence|]); try done.
  intros z [= <-]. rewrite <- Hz. cbn. by rewrite Et.
Qed.

(** A change of one record set: what became of it. *)
Definition changed (z k : str) (now : list str) (w w' : net_state) (r : res unit) : Prop :=
  (∀ z' k', z' ≠ z ∨ k' ≠ k → sets (n_out w') z' k' = sets (n_out w) z' k') ∧
  (sets (n_out w') z k = now ∨ (∃ e, r = inl e) ∧ sets (n_out w') z k = sets (n_out w) z k).

Lemma route53_set_play d n v w r w' : play (route53_set_txt s d n v) w = (r, w') →
  sets (n_out w') = sets (n_out w) ∧ (∃ e, r = inl e) ∨
  ∃ z, zone_of d = Some z ∧ changed z (lower n) [quoted v] w w' r ∧
    (sets (n_out w) z (lower n) = [] ∨ (∃ e, r = inl e) ∧ sets (n_out w') z (lower n) = sets (n_out w) z (lower n)).
Proof.
  unfold route53_set_txt. rewrite play_bind. destruct (play (zone_id s d) w) as [r1 w1] eqn:Ez.
  apply zone_id_play in Ez as [Hs Hz]. destruct r1 as [e|z]; [intros [= <- <-]; eauto|]. specialize (Hz z eq_refl).
  change ([34] ++ v ++ [34]) with (quoted v).
  intros [[Hs1 He]|(hs & out & r0 & Hs1 & Eh & Hr)]%aws_post_play; [left; split; [congruence|done]|].
  right. exists z. destruct (r5_create d z n (quoted v) hs _ _ _ Hz Eh) as [Hother Hthis].
  assert (sets out = sets (n_out w)) as Ho by congruence. rewrite Ho in Hother, Hthis. unfold changed.
  destruct Hthis as [[Hnone ->]|[Href Hsame]]; [by auto 7|]. apply Hr in Href as [e ->].
  split_and!; [done|done|right; eauto|right; eauto].
Qed.

Lemma route53_delete_play d n w r w' : play (route53_delete_txt s d n) w = (r, w') →
  sets (n_out w') = sets (n_out w) ∧ (∃ e, r = inl e) ∨
  ∃ z, zone_of d = Some z ∧ changed z (lower n) [] w w' r.
Proof.
  unfold route53_delete_txt. rewrite play_bind. destruct (play (zone_id s d) w) as [r1 w1] eqn:Ez.
  apply zone_id_play in Ez as [Hs Hz]. destruct r1 as [e|z]; [intros [= <- <-]; eauto|]. specialize (Hz z eq_refl).
  rewrite play_bind, play_lift. destruct (canonical_qs _) as [e|q] eqn:Eq; [intros [= <- <-]; eauto|].
  rewrite play_bind. destruct (play (aws_get _ _ _) w1) as [r2 w2] eqn:Eg.
  apply aws_get_play in Eg as [[Hs2 [e ->]]|(hs & out & r0 & Hs2 & Eh & Hd)]; [intros [= <- <-]; left; split; [congruence|eauto]|].
  destruct (r5_list d z n q hs _ _ _ Hz Eq Eh) as [Hsame Hm].
  assert (sets (n_out w2) = sets (n_out w)) as Hw2 by congruence.
  destruct r2 as [e|root]; [intros [= <- <-]; left; eauto|].
  rewrite (Hm root (Hd root eq_refl)). rewrite Hs2, Hs. destruct (decide (sets (n_out w) z (lower n) = [])) as [Hnone|Hnone].
  - rewrite play_ret. intros [= <- <-]. right. exists z. unfold changed. rewrite Hw2. auto.
  - intros [[Hs3 He]|(hs' & out' & r3 & Hs3 & Eh' & Hr)]%aws_post_play; [left; split; [congruence|done]|].
    right. exists z. destruct (r5_delete d z n _ hs' _ _ _ Hz Eh') as [Hother Hthis].
    assert (sets out' = sets (n_out w)) as Ho by congruence. rewrite Ho in Hother, Hthis. unfold changed.
    destruct Hthis as [[_ ->]|[Href Hkept]]; [by auto 7|]. apply Hr in Href as [e ->]. split_and!; eauto.
Qed.

(** The TXT values of a name, without their quotes. *)
Definition r53_values (out : outside) (d n : str) : list str :=
  match zone_of d with Some z => bare <$> sets out z (lower n) | None => [] end.
Lemma changed_spares z n now w w' r d n' d' : changed z (lower n) now w w' r → separate d n d' n' →
  r53_values (n_out w') d' n' = r53_values (n_out w) d' n'.
Proof. intros [Hother _] [Hn _]. unfold r53_values. destruct (zone_of d') as [z'|]; [|done]. by rewrite Hother by auto. Qed.
Lemma same_values w w' d n : sets (n_out w') = sets (n_out w) → r53_values (n_out w') d n = r53_values (n_out w) d n.
Proof. unfold r53_values. by intros ->. Qed.

#[export] Instance route53_zone : @ZoneProvider (Route53DNSProvider s) _.
Proof.
  refine (Build_ZoneProvider _ _ r53_values (λ _ _ _, True) _ _ _ _); cbn [set_txt delete_txt Route53DNSProvider].
  - intros d n v w w' [[_ [e ?]]|(z & Hz & [_ [Hnow|[[e ?] _]]] & [Hnone|[[e2 ?] _]])]%route53_set_play; try done.
    unfold r53_values. rewrite Hz, Hnow, Hnone. change (bare <$> [quoted v]) with [bare (quoted v)]. by rewrite bare_quoted.
  - intros d n v d' n' w r w' [[Hs _]|(z & Hz & Hc & _)]%route53_set_play Hsep; [by apply same_values|by eapply changed_spares].
  - intros d n w w' _ [[_ [e ?]]|(z & Hz & _ & [Hnow|[[e ?] _]])]%route53_delete_play; [done| |done].
    unfold r53_values. by rewrite Hz, Hnow.
  - intros d n d' n' w r w' [[Hs _]|(z & Hz & Hc)]%route53_delete_play Hsep; [by apply same_values|by eapply changed_spares].
Defined.

(** A record that is there already (left by a deletion that failed, or by a
    process killed before it) blocks the next challenge of the name: [set_txt]
    raises and changes nothing, until the record is removed. *)
Theorem set_txt_blocked d z n v w : zone_of d = Some z → sets (n_out w) z (lower n) ≠ [] →
  let '(r, w') := play (route53_set_txt s d n v) w in
  (∃ e, r = inl e) ∧ ∀ z' k, sets (n_out w') z' k = sets (n_out w) z' k.
Proof.
  intros Hz Hs. destruct (play _ w) as [r w'] eqn:Ep.
  apply route53_set_play in Ep as [[-> He]|(z' & Hz' & [Hother _] & [Hnone|[He Hsame]])]; [done| |].
  - rewrite Hz in Hz'. injection Hz' as <-. done.
  - rewrite Hz in Hz'. injection Hz' as <-. split; [done|]. intros z' k.
    destruct (decide (z' = z ∧ k = lower n)) as [[-> ->]|Hd]; [done|]. apply Hother.
    destruct (decide (z' = z)); [right|by left]. naive_solver.
Qed.

(** So a lingering record is not harmless: no challenge of the domain can be
    fulfilled while it is there. *)
Theorem lingering_record `{Gufo} wait zones domain ch z w :
  zone_of (apex_domain domain zones) = Some z → sets (n_out w) z (lower (challenge_name domain)) ≠ [] →
  (play (@fulfill_dns_01 _ (Route53DNSProvider s) wait zones domain ch) w).1 = inr false.
Proof.
  intros Hz Hs. rewrite fulfill_play. cbn [set_txt Route53DNSProvider].
  pose proof (set_txt_blocked _ _ _ (dns01_txt_value (get_key_authorization (ac_token ch))) w Hz Hs) as Hb.
  by destruct (play (route53_set_txt _ _ _ _) w) as [r w'], Hb as [[e ->] _].
Qed.
End route53.

(** ** A concrete service *)

(** One zone, of every name, with the record sets by name. *)
Module Sets.
Definition z1 : str := u "Z1".
Abbreviation table := (gmap str (list str)).
(** Names the service takes: texts that do not end with a dot. *)
Definition valid (k : str) : Prop := forallb is_scalar k = true ∧ last k ≠ Some 46.
#[export] Instance valid_dec k : Decision (valid k).
Proof. unfold valid. apply _. Defined.
Definition stored (out : table) (z k : str) : list str :=
  if decide (z = z1 ∧ valid k) then default [] (out !! k) else [].

(** An answer is written as one number: the zones, or the record set found. *)
Definition el (tag : str) (text : option str) (children : list element) : element :=
  Element (qualified R53_NS tag) [] text children.
Definition zones_doc : element :=
  el (u "Response") None [el (u "HostedZones") None [el (u "HostedZone") None 
    [el (u "Id") (Some (u "/hostedzone/Z1")) []; el (u "Name") (Some (u "example.com.")) []]]].
Definition set_doc (k : str) (values : list str) : element :=
  el (u "Response") None
    (match values with [] => [] | _ =>
      [el (u "ResourceRecordSet") None
        [el (u "Name") (Some (k ++ u ".")) [];
         el (u "ResourceRecords") None
           ((λ v, el (u "ResourceRecord") None [el (u "Value") (Some v) []]) <$> values)]] end).
Definition found : Type := option (str * list str).
Definition written (f : found) : http_reply := mk_http_reply 200 [Zpos (countable.encode f)] [].
Definition read_text (s : str) : option element :=
  match s with
  | [Zpos p] =>
      (λ f : found, match f with None => zones_doc | Some (k, values) => set_doc k values end) <$> countable.decode p
  | _ => None
  end.
#[export] Instance parser : XmlParser := {| fromstring := read_text |}.

#[export] Instance token_eq_dec : EqDecision token.
Proof. solve_decision. Defined.
Fixpoint read_values (l : list token) : list str :=
  match l with
  | [] => []
  | t :: l =>
      if decide (t = Tag (u "Value")) then (match l with Chars v :: _ => v | _ => [] end) :: read_values l
      else read_values l
  end.
Definition refuse (out : table) : res http_reply * table := (inr (mk_http_reply 400 [] []), out).
Definition accept (out : table) : res http_reply * table := (inr (mk_http_reply 200 [] []), out).
Definition apply_change (action k : str) (values : list str) (out : table) : res http_reply * table :=
  if decide (valid k) then
    if decide (action = u "CREATE" ∧ stored out z1 k = []) then accept (<[k := values]> out)
    else if decide (action = u "DELETE" ∧ stored out z1 k = values) then accept (delete k out)
    else refuse out
  else refuse out.
Definition list_prefix : str := R53_BASE ++ rrset_path z1 ++ u "?".
Definition serve (rq : http_request) (out : table) : res http_reply * table :=
  match rq_body rq with
  | TextBody body =>
      match xml_tokens body with
      | Some (_ :: _ :: _ :: _ :: _ :: _ :: Chars action :: _ :: _ :: _ :: Chars name :: rest) =>
          apply_change action (lower (removelast name)) (read_values rest) out
      | _ => refuse out
      end
  | _ =>
      if decide (list_prefix `prefix_of` rq_url rq) then
        match parse_qs (drop (length list_prefix) (rq_url rq)) with
        | Some [_; (_, n); _] => (inr (written (Some (lower n, stored out z1 (lower n)))), out)
        | _ => refuse out
        end
      else (inr (written None), out)
  end.
#[export] Instance service : Outside := {|
  outside := table; o_http := serve;
  o_post := λ _ _ s, (inl (PyErr RuntimeError []), s); o_new_order := λ s, (inr [], s);
  o_bound := λ _, inr tt; o_new_account := λ _ s, (inr tt, s); o_clock := λ s, (0, s) |}.

Lemma lower_char c : let c' := if (65 <=? c) && (c <=? 90) then c + 32 else c in
  (if (65 <=? c') && (c' <=? 90) then c' + 32 else c') = c' ∧ is_scalar c' = is_scalar c.
Proof.
  cbv zeta. unfold is_scalar. destruct ((65 <=? c) && (c <=? 90)) eqn:E; bool_to_prop; [|by rewrite E].
  assert ((65 <=? c + 32) && (c + 32 <=? 90) = false) as -> by (apply andb_false_iff; rewrite !Z.leb_gt; lia).
  split; [done|]. rewrite !(proj2 (Z.leb_le 0 _)), !(proj2 (Z.ltb_lt _ 1114112)), !(proj2 (Z.leb_gt 55296 _)) by lia. done.
Qed.
Lemma lower_idem s : lower (lower s) = lower s.
Proof. unfold lower. rewrite <- list_fmap_compose. apply list_fmap_ext. intros i c _. apply (lower_char c). Qed.
Lemma lower_scalar s : forallb is_scalar (lower s) = forallb is_scalar s.
Proof. induction s as [|c s IH]; [done|]. cbn. f_equal; [apply (lower_char c)|exact IH]. Qed.

Lemma read_values_tokens values rest :
  read_values ((values ≫= value_tokens) ++ rest) = values ++ read_values rest.
Proof.
  induction values as [|v values IH]; [done|].
  change ((v :: values) ≫= value_tokens) with (value_tokens v ++ (values ≫= value_tokens)).
  rewrite <- (assoc_L (++)). unfold value_tokens at 1. by destruct v; cbn; rewrite IH.
Qed.

Lemma read_values_skip pre l : Forall (λ t, t ≠ Tag (u "Value")) pre → read_values (pre ++ l) = read_values l.
Proof. induction 1 as [|t pre Ht _ IH]; [done|]. cbn [app read_values]. by rewrite decide_False. Qed.

Lemma serve_change action n values hs out :
  action = u "CREATE" ∨ action = u "DELETE" →
  serve (r53_post (rrset_path z1) (change_xml action n values) hs) out = apply_change action (lower n) values out.
Proof.
  intros Ha. unfold serve. cbn [rq_body r53_post]. rewrite change_xml_tokens by (by destruct Ha as [->| ->]).
  set (pre := [Tag (u "/Name"); Tag (u "Type"); Chars (u "TXT"); Tag (u "/Type"); Tag (u "TTL"); Chars (u "120");
    Tag (u "/TTL"); Tag (u "ResourceRecords")]).
  set (suf := [Tag (u "/ResourceRecords"); Tag (u "/ResourceRecordSet"); Tag (u "/Change"); Tag (u "/Changes");
    Tag (u "/ChangeBatch"); Tag (u "/ChangeResourceRecordSetsRequest")]).
  trans (apply_change action (lower (removelast (n ++ u "."))) (read_values (pre ++ (values ≫= value_tokens) ++ suf)) out);
    [by destruct Ha as [->| ->]|].
  rewrite read_values_skip, read_values_tokens by (apply (bool_decide_unpack _); vm_compute; exact I).
  change (read_values suf) with (@nil str). change (u ".") with [46].
  by rewrite app_nil_r, removelast_last.
Qed.

Lemma lower_name k : last k ≠ Some 46 → rstrip (k ++ u ".") (u ".") = k.
Proof.
  intros Hk. unfold rstrip. rewrite rstrip_by_app_all; [|by repeat constructor].
  apply rstrip_by_id. intros c Hc. apply bool_decide_eq_false. change (u ".") with [46].
  intros ->%list_elem_of_singleton. done.
Qed.

Lemma apply_change_spec action k values out r out' : apply_change action k values out = (r, out') →
  (∀ z' k', z' ≠ z1 ∨ k' ≠ k → stored out' z' k' = stored out z' k') ∧
  ((action = u "CREATE" ∧ stored out z1 k = [] ∧ stored out' z1 k = values) ∨
   (action = u "DELETE" ∧ stored out z1 k = values ∧ stored out' z1 k = []) ∨
   (refused r ∧ stored out' z1 k = stored out z1 k)).
Proof.
  assert (∀ out' : table, (∀ k', k' ≠ k → out' !! k' = out !! k') →
    ∀ z' k', z' ≠ z1 ∨ k' ≠ k → stored out' z' k' = stored out z' k') as Hother.
  { intros out1 Ho z' k' Hd. unfold stored. case_decide as Hz; [|done]. rewrite Ho; [done|]. destruct Hd; naive_solver. }
  assert (∀ (r : res http_reply) (out' : table), refuse out = (r, out') → (∀ z' k', z' ≠ z1 ∨ k' ≠ k → stored out' z' k' = stored out z' k') ∧
    refused r ∧ stored out' z1 k = stored out z1 k) as Href by (by intros ? ? [= <- <-]).
  unfold apply_change. case_decide as Hv; [|intros E%Href; naive_solver].
  destruct (decide (action = u "CREATE" ∧ _)) as [[Ha Hn]|_].
  { intros [= <- <-]. split; [apply Hother; intros; by rewrite lookup_insert_ne|left]. split_and!; [done..|].
    unfold stored. by rewrite decide_True, lookup_insert_eq. }
  destruct (decide (action = u "DELETE" ∧ _)) as [[Ha Hn]|_]; [|intros E%Href; naive_solver].
  intros [= <- <-]. split; [apply Hother; intros; by rewrite lookup_delete_ne|right; left]. split_and!; [done..|].
  unfold stored. by rewrite decide_True, lookup_delete_eq.
Qed.

Lemma read_written f : read_text (rp_text (written f)) =
  Some (match f with None => zones_doc | Some (k, values) => set_doc k values end).
Proof. cbn. by rewrite decode_encode. Qed.

(** The listing of a record set shows its values under its name. *)
Definition record_el (v : str) : element := el (u "ResourceRecord") None [el (u "Value") (Some v) []].
Lemma tagged_cons tag e l : tagged tag (e :: l) = if decide (e_tag e = tag) then e :: tagged tag l else tagged tag l.
Proof. done. Qed.
Lemma record_values values :
  (λ e, default [] (e_text e)) <$> (tagged (qualified R53_NS (u "ResourceRecord"))
    ((record_el <$> values) ≫= (λ x, x :: descendants x)) ≫= λ e, tagged (qualified R53_NS (u "Value")) (e_children e)) = values.
Proof.
  induction values as [|v values IH]; [done|]. rewrite fmap_cons.
  change ((record_el v :: (record_el <$> values)) ≫= (λ x, x :: descendants x)) with
    (record_el v :: el (u "Value") (Some v) [] :: ((record_el <$> values) ≫= (λ x, x :: descendants x))).
  rewrite tagged_cons, decide_True by done. rewrite tagged_cons, decide_False by (by vm_compute).
  rewrite bind_cons, fmap_app, IH. done.
Qed.
Lemma matching_set_doc n k values : last k ≠ Some 46 → values ≠ [] →
  matching_values n (set_doc k values) = if decide (lower k = lower n) then Some values else None.
Proof.
  intros Hk Hv. destruct values as [|v0 values0]; [done|]. set (values := v0 :: values0).
  set (rrs := el (u "ResourceRecordSet") None
    [el (u "Name") (Some (k ++ u ".")) []; el (u "ResourceRecords") None (record_el <$> values)]).
  change (set_doc k values) with (el (u "Response") None [rrs]). unfold matching_values.
  change (head (findall_deep (qualified R53_NS (u "ResourceRecordSet")) (el (u "Response") None [rrs]))) with (Some rrs).
  cbv beta iota zeta.
  change (default [] (head (tagged (qualified R53_NS (u "Name")) (e_children rrs)) ≫= e_text)) with (k ++ u ".").
  rewrite lower_name by done. case_decide; [|done]. f_equal. unfold findall_deep2, findall_deep. 
  assert (tagged (qualified R53_NS (u "ResourceRecord")) (descendants rrs) =
    tagged (qualified R53_NS (u "ResourceRecord")) ((record_el <$> values) ≫= (λ x, x :: descendants x))) as ->.
  { change (descendants rrs) with (el (u "Name") (Some (k ++ u ".")) [] ::
      el (u "ResourceRecords") None (record_el <$> values) ::
      (((record_el <$> values) ≫= λ x, x :: descendants x) ++ [])).
    rewrite app_nil_r, !tagged_cons, !decide_False by (by vm_compute). done. }
  apply record_values.
Qed.
Lemma stored_valid out k : stored out z1 k ≠ [] → valid k.
Proof. unfold stored. case_decide as Hv; [by destruct Hv|done]. Qed.
Lemma document_shown (f : found) : document (inr (written f)) =
  Some (match f with None => zones_doc | Some (k, values) => set_doc k values end).
Proof. unfold document. change (is_success (written f)) with true. cbv iota. exact (read_written f). Qed.

(** A listing: the name in the request is read back from its query string. *)
Lemma serve_list n q hs out r out' : canonical_qs (list_params n) = inr q →
  serve (r53_get (rrset_path z1) q hs) out = (r, out') →
  out' = out ∧ ∀ root, document r = Some root →
    ∃ n', root = set_doc (lower n') (stored out z1 (lower n')) ∧ (forallb is_scalar n = true → n' = n).
Proof.
  intros Hq. unfold serve. cbn [rq_body rq_url r53_get].
  assert (R53_BASE ++ rrset_path z1 ++ u "?" ++ q = list_prefix ++ q) as -> by done.
  rewrite decide_True by (by exists q). rewrite drop_app_length.
  assert (forallb is_scalar n = true → parse_qs q = Some (list_params n)) as Hp.
  { intros Hn. destruct (canonical_qs_parse (list_params n)) as (q' & Hq' & Hp); [done|by repeat constructor|].
    rewrite Hq in Hq'. injection Hq' as <-. rewrite Hp. done. }
  destruct (parse_qs q) as [[|i0 [|[i1 n'] [|i2 [|i3 rest]]]]|] eqn:Eq; try by (intros [= <- <-]).
  intros [= <- <-]. split; [done|]. rewrite document_shown. intros root [= <-]. exists n'. split; [done|].
  intros Hn%Hp. by injection Hn as _ _ ->.
Qed.

#[export] Instance record_sets : RecordSetService (λ _, Some z1) stored.
Proof.
  split.
  - done.
  - intros d q hs out r out' _ E.
    change (serve (r53_get zones_path q hs) out = (r, out')) in E.
    unfold serve in E. cbn [rq_body rq_url r53_get] in E. rewrite decide_False in E.
    + injection E as <- <-. split; [done|]. rewrite document_shown. intros root [= <-]. vm_compute. done.
    + intros [l El]. apply (f_equal (λ s, nth 57 s 0)) in El. vm_compute in El. done.
  - intros d z n q hs out r out' [= <-] Hq E.
    destruct (serve_list n q hs out r out' Hq E) as [-> Hd]. split; [done|].
    intros root (n' & -> & Hn)%Hd. destruct (decide (stored out z1 (lower n') = [])) as [Hnone|Hsome].
    + rewrite Hnone. case_decide as Hs; [done|]. apply stored_valid in Hs as Hv. destruct Hv as [Hv _].
      rewrite lower_scalar in Hv. by rewrite Hn in Hnone.
    + destruct (stored_valid _ _ Hsome) as [Hv Hl]. rewrite matching_set_doc, lower_idem by done.
      destruct (decide (lower n' = lower n)) as [Heq|Hne]; [rewrite Heq in *; by rewrite decide_False|].
      rewrite decide_True; [done|]. destruct (decide (stored out z1 (lower n) = [])) as [|Hs]; [done|].
      apply stored_valid in Hs as [Hs _]. rewrite lower_scalar in Hs. by rewrite Hn in Hne.
  - intros d z n v hs out r out' [= <-] E.
    change (serve (r53_post (rrset_path z1) (change_xml (u "CREATE") n [v]) hs) out = (r, out')) in E.
    rewrite serve_change in E by auto. apply apply_change_spec in E as [Ho [(_ & Hn & Hs)|[(? & _)|Href]]]; [|done|]; eauto.
  - intros d z n values hs out r out' [= <-] E.
    change (serve (r53_post (rrset_path z1) (change_xml (u "DELETE") n values) hs) out = (r, out')) in E.
    rewrite serve_change in E by auto. apply apply_change_spec in E as [Ho [(? & _)|[(_ & Hn & Hs)|Href]]]; [done| |]; eauto.
Qed.
End Sets.

(** ** Executions *)

#[local] Existing Instance toy.
#[local] Existing Instance Sets.parser.
#[local] Existing Instance Sets.service.
#[local] Existing Instance Sets.record_sets.

Definition creds : route53_settings := mk_route53_settings (u "AKID") (u "secret") [].
Definition fresh : net_state := mk_net Sets.service ∅ ∅ ∅ [].
Definition challenge : str := u "_acme-challenge.Host.example.com".
Definition values_in (w : net_state) : list str :=
  r53_values (λ _, Some Sets.z1) Sets.stored (n_out w) (u "example.com") challenge.

(** A record is set, blocks a second one, and is deleted. *)
Lemma set_set_delete :
  let w1 := (play (route53_set_txt creds (u "example.com") challenge (u "one")) fresh).2 in
  let '(r2, w2) := play (route53_set_txt creds (u "example.com") challenge (u "two")) w1 in
  let '(r3, w3) := play (route53_delete_txt creds (u "example.com") challenge) w2 in
  values_in w1 = [u "one"] ∧ r2 = inl (PyErr HTTPStatusError (u "400")) ∧ values_in w2 = [u "one"] ∧
  r3 = inr tt ∧ values_in w3 = [].
Proof. vm_compute. done. Qed.

(** The zone is taken for any name it is listed first for: its own name is not
    looked at. *)
Lemma zone_id_any_name : (play (zone_id creds (u "alpha.com")) fresh).1 = inr Sets.z1.
Proof. vm_compute. done. Qed.
