(* ===== verification/PorkbunZone.v ===== *)
(** * DNS-01 against Porkbun

    The provider of [dns/providers/porkbun.py] keeps the interface
    [ZoneProvider], for every service that stores records under ids: what Porkbun
    documents of the three requests is the class [PorkbunService].  The statuses
    of the deletions are not looked at, so only where the service refuses none
    does a deletion that returns leave no record. *)
From S2P Require Import Prelude PyStr Json External PyStd Models Schemas Jws Coro Net LeClient AcmeClient DnsJson DnsStore Dns01.

Section service.
Context `{Ext} `{Outside} (s : porkbun_settings).

Definition porkbun_create_rq (domain sub value : str) : http_request :=
  porkbun_post s (u "/dns/create/" ++ domain)
    [(u "name", JStr sub); (u "type", JStr (u "TXT")); (u "content", JStr value); (u "ttl", JInt 120)].
Definition porkbun_list_rq (domain sub : str) : http_request :=
  porkbun_post s (u "/dns/retrieveByNameType/" ++ domain ++ u "/TXT/" ++ sub) [].
Definition porkbun_delete_rq (domain id : str) : http_request :=
  porkbun_post s (u "/dns/delete/" ++ domain ++ u "/" ++ id) [].

(** The records of a domain, by their names relative to it, and whether the service
    is [willing]: from there on, a deletion whose answer arrives has been done.  A
    listing changes nothing and shows every record of the name; a record is
    created under a new id; a deletion removes the record of the id or does
    nothing. *)
Class PorkbunService (records : outside → str → list dns_record) (willing : outside → Prop) := {
  pb_unique out d : NoDup (ids_of (records out d));
  pb_create d n v out r out' : o_http (porkbun_create_rq d n v) out = (r, out') →
    (∀ d', d' ≠ d → records out' d' = records out d') ∧
    ((∃ id, records out' d = records out d ++ [mk_dns_record id n v]) ∨ (refused r ∧ records out' d = records out d));
  pb_list d n out r out' : o_http (porkbun_list_rq d n) out = (r, out') →
    records out' = records out ∧ (willing out → willing out') ∧
    ∀ rp rs, r = inr rp → is_success rp = true → json_list (u "records") rp ≫= py_iter = inr rs →
      record_ids rs = inr (ids_of (named n (records out d)));
  pb_delete d id out r out' : o_http (porkbun_delete_rq d id) out = (r, out') →
    (∀ d', d' ≠ d → records out' d' = records out d') ∧
    (records out' d = filter (λ r, dr_id r ≠ id) (records out d) ∨
     records out' d = records out d ∧ (willing out → ∃ e, r = inl e)) ∧
    (willing out → willing out')
}.
End service.
Arguments pb_create {_ _ _ _ _ _} d n v out r out'.
Arguments pb_list {_ _ _ _ _ _} d n out r out'.
Arguments pb_delete {_ _ _ _ _ _} d id out r out'.

Section porkbun.
Context `{Ext} `{Outside} (s : porkbun_settings) (records : outside → str → list dns_record) (willing : outside → Prop).
Context `{PS : !PorkbunService s records willing}.

Lemma porkbun_set_play d n v w r w' : play (porkbun_set_txt s d n v) w = (r, w') →
  (∀ d', d' ≠ d → records (n_out w') d' = records (n_out w) d') ∧
  ((∃ id, records (n_out w') d = records (n_out w) d ++ [mk_dns_record id (relative_name d n) v]) ∨
   r ≠ inr tt ∧ records (n_out w') d = records (n_out w) d).
Proof.
  unfold porkbun_set_txt. cbv zeta. fold (porkbun_create_rq s d (relative_name d n) v). rewrite play_bind.
  destruct (play (send _) w) as [r1 w1] eqn:Es. apply send_http in Es as (r0 & Eh & Hr).
  destruct (pb_create d _ v _ _ _ Eh) as [Hother Hthis].
  destruct r1 as [e|rp]; [|rewrite play_ret]; intros [= <- <-]; (split; [done|]).
  - destruct Hthis as [|[_ ->]]; [by left|by right].
  - destruct Hr as [-> Hs]. left. destruct Hthis as [|[Href _]]; [done|]. cbn in Href. congruence.
Qed.

Lemma deletes_one_porkbun d :
  deletes_one records (λ rq, perform_res (NHttp rq)) (porkbun_delete_rq s d) d willing.
Proof.
  intros id w r w'. rewrite play_perform_res. cbn [net_act]. unfold n_answer.
  destruct (o_http _ _) as [r0 out'] eqn:Eh. intros [= <- <-]. exact (pb_delete d id _ _ _ Eh).
Qed.

Lemma porkbun_delete_play d n w r w' : play (porkbun_delete_txt s d n) w = (r, w') →
  (∀ d', d' ≠ d → records (n_out w') d' = records (n_out w) d') ∧
  ∃ gone, gone ⊆ ids_of (named (relative_name d n) (records (n_out w) d)) ∧
    records (n_out w') d = filter (λ r, dr_id r ∉ gone) (records (n_out w) d) ∧
    (willing (n_out w) → r = inr tt → gone = ids_of (named (relative_name d n) (records (n_out w) d))).
Proof.
  unfold porkbun_delete_txt. cbv zeta. fold (porkbun_list_rq s d (relative_name d n)). rewrite play_bind.
  destruct (play (send _) w) as [r1 w1] eqn:Es. apply send_http in Es as (r0 & Eh & Hr).
  destruct (pb_list d _ _ _ _ Eh) as (Hsame & Hw & Hl).
  assert (∀ e : exn, r = inl e → w' = w1 → (∀ d', d' ≠ d → records (n_out w') d' = records (n_out w) d') ∧
    ∃ gone, gone ⊆ ids_of (named (relative_name d n) (records (n_out w) d)) ∧
      records (n_out w') d = filter (λ r, dr_id r ∉ gone) (records (n_out w) d) ∧
      (willing (n_out w) → r = inr tt → gone = ids_of (named (relative_name d n) (records (n_out w) d)))) as Hfail.
  { intros e -> ->. rewrite Hsame. split; [done|]. exists []. split_and!; [apply list_subseteq_nil| |done].
    symmetry. apply filter_every. intros x _. apply not_elem_of_nil. }
  destruct r1 as [e|rp]; [intros [= ? ?]; by eapply Hfail|]. destruct Hr as [-> Hs].
  rewrite play_bind, play_lift. destruct (_ ≫= _) as [e|rs] eqn:Ej; [intros [= ? ?]; by eapply Hfail|].
  specialize (Hl rp rs eq_refl Hs Ej). intros Hp.
  destruct (deletions_play records (λ rq, perform_res (NHttp rq)) _ _ _ rs _ w1 r w' (deletes_one_porkbun d) Hl Hp)
    as (Hother & gone & Hsub & Hall & Hrec).
  rewrite Hsame in Hother, Hrec. split; [done|]. exists gone. split_and!; [done..|]. intros Hwill. by apply Hall, Hw.
Qed.

(** The TXT values of a name, in its domain. *)
Definition pb_values (out : outside) (d n : str) : list str :=
  dr_content <$> named (relative_name d n) (records out d).
Lemma pb_values_other d n d' n' w w' :
  separate d n d' n' → (∀ d', d' ≠ d → records (n_out w') d' = records (n_out w) d') →
  (relative_name d n ≠ relative_name d n' →
   dr_content <$> named (relative_name d n') (records (n_out w') d) =
   dr_content <$> named (relative_name d n') (records (n_out w) d)) →
  pb_values (n_out w') d' n' = pb_values (n_out w) d' n'.
Proof.
  intros Hsep Hother Hthis. unfold pb_values. destruct (decide (d' = d)) as [->|Hne]; [|by rewrite Hother].
  apply Hthis. pose proof (separate_names _ _ _ _ Hsep) as Hn. destruct Hsep as [_ [?|[Hs Hs']]]; [done|].
  intros E. by apply relative_name_inj in E.
Qed.

#[export] Instance porkbun_zone : @ZoneProvider (PorkbunDNSProvider s) _.
Proof.
  refine (Build_ZoneProvider _ _ pb_values (λ out _ _, willing out) _ _ _ _); cbn [set_txt delete_txt PorkbunDNSProvider].
  - intros d n v w w' [_ [[id Hr]|[? _]]]%porkbun_set_play; [|done]. unfold pb_values.
    by rewrite Hr, named_created, decide_True.
  - intros d n v d' n' w r w' [Hother Hthis]%porkbun_set_play Hsep. eapply pb_values_other; [done..|]. intros Hn.
    destruct Hthis as [[id ->]|[_ ->]]; [|done]. by rewrite named_created, decide_False, app_nil_r.
  - intros d n w w' Hw (_ & gone & _ & Hr & Hall)%porkbun_delete_play. unfold pb_values. rewrite Hr, Hall by done.
    by rewrite named_all_gone.
  - intros d n d' n' w r w' (Hother & gone & Hg & Hr & _)%porkbun_delete_play Hsep. eapply pb_values_other; [done..|].
    intros Hn. rewrite Hr. f_equal. by apply (named_gone (relative_name d n)); [apply (@pb_unique _ _ _ _ _ PS)|..].
Defined.
End porkbun.

(** ** A concrete service *)

(** One domain, [example.com], with its records in slots. *)
Module Records.
Import Slots.
#[local] Existing Instance toy.
Definition creds : porkbun_settings := mk_porkbun_settings (u "pk") (u "sk").
Definition d0 : str := u "example.com".
Definition stored (out : slots) (d : str) : list dns_record := if decide (d = d0) then entries 0 out else [].
Definition list_prefix : str := porkbun_url ++ u "/dns/retrieveByNameType/" ++ d0 ++ u "/TXT/".
Definition refuse (out : slots) : res http_reply * slots := (inr (mk_http_reply 400 [] []), out).

Definition serve (rq : http_request) (out : slots) : res http_reply * slots :=
  match rq_body rq with
  | JsonBody (JObj [_; _; (_, JStr n); _; (_, JStr v); _]) =>
      if decide (rq_url rq = porkbun_url ++ u "/dns/create/" ++ d0) then (inr (answer JNull), out ++ [Some (n, v)])
      else refuse out
  | _ =>
      if decide (list_prefix `prefix_of` rq_url rq) then
        let sub := drop (length list_prefix) (rq_url rq) in
        if decide (47 ∈ sub) then refuse out
        else (inr (answer (id_list (u "records") (ids_of (named sub (entries 0 out))))), out)
      else if decide ((porkbun_url ++ u "/dns/delete/") `prefix_of` rq_url rq) then
        (inr (answer JNull), without (porkbun_delete_rq creds d0) rq out)
      else refuse out
  end.
#[export] Instance service : Outside := {|
  outside := slots; o_http := serve;
  o_post := λ _ _ s, (inl (PyErr RuntimeError []), s); o_new_order := λ s, (inr [], s);
  o_bound := λ _, inr tt; o_new_account := λ _ s, (inr tt, s); o_clock := λ s, (0, s) |}.

(** Paths name one domain. *)
Lemma split_d0 : split 47 d0 = [d0].
Proof. by vm_compute. Qed.
(** A text with one segment before some others is that segment. *)
Lemma one_segment d x ws vs : split 47 d ++ ws = x :: vs → length ws = length vs → d = x ∧ ws = vs.
Proof.
  intros E Hl. pose proof (split_nonempty 47 d) as Hd. pose proof (join_split 47 d) as Hj.
  destruct (split 47 d) as [|y [|z l]]; [done| |apply (f_equal length) in E; cbn in E; rewrite length_app in E; lia].
  cbn in E, Hj. injection E as -> ->. by rewrite <- Hj.
Qed.
Lemma list_path_inj d n sub : 47 ∉ sub → d ++ u "/TXT/" ++ n = d0 ++ u "/TXT/" ++ sub → d = d0 ∧ n = sub.
Proof.
  intros Hs. change (u "/TXT/" ++ ?x) with (47 :: u "TXT" ++ 47 :: x). intros E%(f_equal (split 47)).
  rewrite !split_app_sep, split_d0, (split_no_sep 47 sub) in E by done. change (split 47 (u "TXT")) with [u "TXT"] in E.
  pose proof (split_nonempty 47 d) as Hd. pose proof (split_nonempty 47 n) as Hn.
  pose proof (f_equal length E) as El. rewrite !length_app in El. cbn in El.
  assert (length (split 47 n) = 1%nat) as Hl1 by (destruct (split 47 d), (split 47 n); cbn in *; lia || done).
  apply one_segment in E as [-> E]; [|by cbn; rewrite Hl1]. split; [done|]. injection E as E.
  rewrite <- (join_split 47 n). by rewrite E.
Qed.
Lemma delete_path_inj d id i : d ++ u "/" ++ id = d0 ++ u "/" ++ slot_id i → d = d0 ∧ id = slot_id i.
Proof.
  assert (47 ∉ slot_id i) as Hi by (intros [? _]%elem_of_replicate; done).
  change (u "/" ++ ?x) with (47 :: x). intros E%(f_equal (split 47)).
  rewrite !split_app_sep, split_d0, (split_no_sep 47 (slot_id i)) in E by done.
  pose proof (split_nonempty 47 d) as Hd. pose proof (split_nonempty 47 id) as Hn.
  pose proof (f_equal length E) as El. rewrite !length_app in El. cbn in El.
  assert (length (split 47 id) = 1%nat) as Hl1 by (destruct (split 47 d), (split 47 id); cbn in *; lia || done).
  apply one_segment in E as [-> E]; [|by rewrite Hl1]. split; [done|].
  rewrite <- (join_split 47 id). by rewrite E.
Qed.

Lemma serve_delete d id out : serve (porkbun_delete_rq creds d id) out =
  (inr (answer JNull), without (porkbun_delete_rq creds d0) (porkbun_delete_rq creds d id) out).
Proof. done. Qed.
Lemma serve_listing d n out r out' : serve (porkbun_list_rq creds d n) out = (r, out') →
  out' = out ∧ ∀ rp, r = inr rp → is_success rp = true →
    d = d0 ∧ reply_json rp = inr (id_list (u "records") (ids_of (named n (entries 0 out)))).
Proof.
  unfold serve. cbn [rq_body rq_url porkbun_list_rq porkbun_post porkbun_auth app].
  destruct (decide (list_prefix `prefix_of` _)) as [[sub Hsub]|_].
  - rewrite Hsub, drop_app_length. case_decide as Hs; intros [= <- <-]; (split; [done|]); intros rp Hr Hok;
      [by injection Hr as <-|].
    unfold list_prefix in Hsub. rewrite <- !(assoc_L (++)) in Hsub. do 2 apply app_inv_head in Hsub.
    apply list_path_inj in Hsub as [-> ->]; [|done]. split; [done|]. by apply answer_read.
  - rewrite decide_False by (intros [l El]; apply (f_equal (λ s, nth 40 s 0)) in El; vm_compute in El; done).
    intros [= <- <-]. split; [done|]. by intros rp [= <-].
Qed.

#[export] Instance records : PorkbunService creds stored (λ _, True).
Proof.
  split.
  - intros out d. unfold stored. case_decide; [apply entries_unique|constructor].
  - intros d n v out r out' E. change (serve (porkbun_create_rq creds d n v) out = (r, out')) in E.
    unfold serve in E. cbn [rq_body rq_url porkbun_create_rq porkbun_post porkbun_auth app] in E.
    case_decide as Hd; injection E as <- <-.
    + do 2 apply app_inv_head in Hd. subst d. unfold stored. split; [intros d' Hd'; by rewrite !decide_False|left].
      exists (slot_id (length out)). by rewrite !decide_True, entries_app.
    + split; [done|right]. done.
  - intros d n out r out' E. change (serve (porkbun_list_rq creds d n) out = (r, out')) in E.
    apply serve_listing in E as [-> Hl]. split_and!; [done|done|]. intros rp rs Hr Hs Hj.
    destruct (Hl rp Hr Hs) as [-> Hrp]. unfold stored. rewrite decide_True by done. by eapply id_list_read.
  - intros d id out r out' E. change (serve (porkbun_delete_rq creds d id) out = (r, out')) in E.
    rewrite serve_delete in E. injection E as <- <-.
    destruct (decide (d = d0)) as [->|Hd]; unfold stored.
    + rewrite !decide_True by done. split_and!; [intros d' Hd'; by rewrite !decide_False|left|done].
      apply (entries_without (porkbun_delete_rq creds d0) id).
      intros id' E%(f_equal rq_url). cbn [rq_url porkbun_delete_rq porkbun_post] in E. by do 4 apply app_inv_head in E.
    + rewrite without_none; [split_and!; [done|left; by rewrite !decide_False|done]|].
      intros i E%(f_equal rq_url). cbn [rq_url porkbun_delete_rq porkbun_post] in E. do 2 apply app_inv_head in E.
      by apply delete_path_inj in E as [? _].
Qed.
End Records.

(** ** An execution *)

#[local] Existing Instance toy.
#[local] Existing Instance Records.service.
#[local] Existing Instance Records.records.

(** Two records of a name beside another one are deleted. *)
Lemma delete_two :
  let w := mk_net Records.service [Some (u "_acme-challenge", u "a"); Some (u "www", u "b"); Some (u "_acme-challenge", u "c")] ∅ ∅ [] in
  let '(r, w') := play (porkbun_delete_txt Records.creds (u "example.com") (u "_acme-challenge.example.com")) w in
  r = inr tt ∧ n_out w' = [None; Some (u "www", u "b"); None].
Proof. vm_compute. done. Qed.
