(* ===== verification/Providers.v ===== *)
(** * The configured provider

    From the name in [DNS_PROVIDER] to the record in the zone: the loader of
    [dns/loader.py], the provider it makes from its credentials, the interface
    that provider keeps and the client's challenge hooks, composed. *)
From S2P Require Import Prelude PyStr Json External PyStd Xml Models Config Coro LeClient Net AcmeClient DnsJson Namecheap.
From S2P Require Import Route53 Loader Dns01 DnsStore CloudflareZone Route53Zone PorkbunZone.

(** The DNS services, each with what it stores: Porkbun's records by domain and
    whether it refuses deletions, Cloudflare's page size, zones and records,
    Route 53's zones and record sets, Namecheap's hosts. *)
Record dns_world `{Outside} := mk_dns_world {
  dw_porkbun : outside → str → list dns_record; dw_willing : outside → Prop;
  dw_page : nat; dw_cloudflare_zone : str → option str; dw_cloudflare : outside → str → list dns_record;
  dw_route53_zone : str → option str; dw_route53 : outside → str → str → list str;
  dw_namecheap : outside → str * str → list host }.

(** They behave as documented towards the credentials of the environment. *)
Class DnsWorld `{Ext} `{XmlParser} `{Outside} (env : environment) (dw : dns_world) := {
  dw_porkbun_ok s : env_porkbun env = Some s → PorkbunService s (dw_porkbun dw) (dw_willing dw);
  dw_cloudflare_ok t : env_cloudflare env = Some t →
    RecordService t (dw_page dw) (dw_cloudflare_zone dw) (dw_cloudflare dw);
  dw_route53_ok : is_Some (env_route53 env) → RecordSetService (dw_route53_zone dw) (dw_route53 dw);
  dw_namecheap_ok s : env_namecheap env = Some s → HostService s (dw_namecheap dw)
}.

Section providers.
Context `{Ext} `{XmlParser} `{Outside} (env : environment) (dw : dns_world) `{DW : !DnsWorld env dw}.

(** The TXT values of a name where the provider of a name writes them, and when one
    deletion clears them. *)
Definition zone_values (name : str) : outside → str → str → list str :=
  if decide (name = u "porkbun") then pb_values (dw_porkbun dw)
  else if decide (name = u "cloudflare") then cf_values (dw_cloudflare_zone dw) (dw_cloudflare dw)
  else if decide (name = u "route53") then r53_values (dw_route53_zone dw) (dw_route53 dw)
  else nc_values (dw_namecheap dw).
Definition zone_clears (name : str) (out : outside) (d n : str) : Prop :=
  if decide (name = u "porkbun") then dw_willing dw out
  else if decide (name = u "cloudflare") then
    ∀ z, dw_cloudflare_zone dw d = Some z → (length (named n (dw_cloudflare dw out z)) <= dw_page dw)%nat
  else True.

(** Every registered provider but [null] keeps the interface, with these values. *)
Lemma loaded_zone name P : get_provider env name = inr P → name ≠ u "null" →
  ∃ Z : @ZoneProvider P _, @txt_values _ _ Z = zone_values name ∧ @clearable _ _ Z = zone_clears name.
Proof.
  rewrite get_provider_spec. unfold zone_values, zone_clears. intros Hp Hnull.
  destruct (decide (name = u "porkbun")).
  { destruct (env_porkbun env) as [s|] eqn:E; [|done]. injection Hp as <-.
    exists (porkbun_zone s _ _ (PS := dw_porkbun_ok s E)). done. }
  destruct (decide (name = u "cloudflare")).
  { destruct (env_cloudflare env) as [[|c t]|] eqn:E; [done| |done]. injection Hp as <-.
    exists (cloudflare_zone (c :: t) _ _ _ (RS := dw_cloudflare_ok _ E)). done. }
  destruct (decide (name = u "route53")).
  { destruct (env_route53 env) as [s|] eqn:E; [|done]. injection Hp as <-.
    exists (route53_zone s _ _ (RS := dw_route53_ok (mk_is_Some _ _ E))). done. }
  destruct (decide (name = u "namecheap")); [|by rewrite decide_False in Hp].
  destruct (env_namecheap env) as [s|] eqn:E; [|done]. injection Hp as <-.
  pose proof (dw_namecheap_ok s E) as Hs. by exists (namecheap_zone s _).
Qed.
End providers.

(** ** Properties *)


#[local] Existing Instance toy.
#[local] Existing Instance toy_gufo.
#[local] Existing Instance Sets.parser.
#[local] Existing Instance Sets.service.
#[local] Existing Instance Sets.record_sets.

(** A relay with credentials of Route 53 alone. *)
Definition route53_env : environment := mk_environment None None (Some creds) None.
Definition route53_world : dns_world :=
  mk_dns_world _ (λ _ _, []) (λ _, True) 0 (λ _, None) (λ _ _, []) (λ _, Some Sets.z1) Sets.stored (λ _ _, []).
#[export] Instance route53_world_ok : DnsWorld route53_env route53_world.
Proof. split; [done..|intros _; exact Sets.record_sets|done]. Qed.

