(* ===== verification/Renewal.v ===== *)
(** * The renewal loop runs for ever

    The rounds of [renewal_loop] composed: no round waits for a lock, and the
    loop ends only when the live TLS context cannot be reloaded after a completed
    renewal. *)
From ITree Require Import ITree ITreeFacts.
From S2P Require Import Prelude PyStr Json External PyStd Models Config Coro Crash Prog LeClient Os RelayCert Loops Serve.

(** ** Waiting *)

Section unblocked.
Context {E W U} `{RE : Runs E W U}.

Lemma unblocked_bind {A B} (p : coro E A) (f : A → coro E B) w s :
  unblocked (p ≫= f) w s ↔
  unblocked p w s ∧ match run p w s with (inr a, w', s') => unblocked (f a) w' s' | (inl _, _, _) => True end.
Proof.
  revert w s. induction p as [a|e|X e k IH]; intros w s; unfold mbind, coro_mbind in *; cbn; [tauto..|].
  destruct (erun e w s) as [[x w1] s1]. rewrite IH. tauto.
Qed.
Lemma unblocked_catch {A} (p : coro E A) h w s :
  unblocked (catch p h) w s ↔
  unblocked p w s ∧ match run p w s with (inl e, w', s') => unblocked (h e) w' s' | (inr _, _, _) => True end.
Proof.
  revert w s. induction p as [a|e|X e k IH]; intros w s; cbn; [tauto..|].
  destruct (erun e w s) as [[x w1] s1]. rewrite IH. tauto.
Qed.
Lemma unblocked_lift {A} (r : res A) w s : unblocked (lift r) w s.
Proof. by destruct r. Qed.
(** What is left of the supply has the documented shape. *)
Lemma run_supply {A} (p : coro E A) w s r w' s' :
  unblocked p w s → supply_ok s → run p w s = (r, w', s') → supply_ok s'.
Proof.
  revert w s. induction p as [a|e|X e k IH]; intros w s; cbn [run unblocked]; [by intros _ ? [= _ _ <-]..|].
  destruct (erun e w s) as [[x w1] s1] eqn:E1. intros [Hl Hu] Hs Hr.
  destruct (erun_step e w s x w1 s1 Hl Hs E1) as [_ Hs1]. by eapply IH.
Qed.
End unblocked.

Section embed.
Context {E F W V U U'} `{RE : Runs E W U} `{RF : Runs F V U'}.
Lemma unblocked_embed_l {A} (p : coro E A) (w : W * V) (s : U * U') :
  unblocked p w.1 s.1 → unblocked (embed_l (F:=F) p) w s.
Proof.
  revert w s. induction p as [a|e|X e k IH]; intros [w v] [s s']; cbn; [done..|].
  destruct (erun e w s) as [[x w1] s1]. intros [Hc Hu]. split; [done|]. by apply IH.
Qed.
Lemma unblocked_embed_r {A} (p : coro F A) (w : W * V) (s : U * U') :
  unblocked p w.2 s.2 → unblocked (embed_r (E:=E) p) w s.
Proof.
  revert w s. induction p as [a|e|X e k IH]; intros [w v] [s s']; cbn; [done..|].
  destruct (erun e v s') as [[x w1] s1]. intros [Hc Hu]. split; [done|]. by apply IH.
Qed.
End embed.

Lemma os_unblocked `{TlsExt} {A} (p : coro os A) w s : unblocked p w s.
Proof.
  revert w s. induction p as [a|e|X e k IH]; intros w s; cbn; [done..|]. split; [done|].
  destruct (run_os e w s) as [[x w1] s1]. apply IH.
Qed.

(** ** A round waits for no one *)

Section round.
Context `{Ext} `{TlsExt} `{KeyExt} (cfg : Settings).
Implicit Types (w : world * os_state) (s : answers * os_supply).
#[local] Arguments write_relay_cert : simpl never.
#[local] Arguments order_cert : simpl never.
#[local] Arguments relay_cert_days_remaining : simpl never.
#[local] Arguments issue_relay_cert : simpl never.

Lemma order_cert_free domain csr (w : world) (s : answers) : w_locks w = ∅ →
  unblocked (order_cert domain csr) w s ∧ w_locks (run (order_cert domain csr) w s).1.2 = ∅.
Proof.
  intros Hw. unfold order_cert. rewrite unblocked_bind, run_bind, run_lift_alone.
  destruct (or_raise _ _) as [e|pem]; [done|]. cbn. destruct s as [c i t d h g v].
  rewrite Hw. assert (({[domain]} ∪ ∅ : gset str) ∖ {[domain]} = ∅) as Hl by set_solver.
  destruct (next no_answer g) as [e|result]; cbn; rewrite Hl.
  - split_and!; [set_solver|done..].
  - split; [split_and!; [set_solver|done..|apply unblocked_lift]|]. by rewrite run_lift_alone.
Qed.

Lemma issue_free domain w s : w_locks w.1 = ∅ →
  unblocked (issue_relay_cert cfg domain) w s ∧ w_locks (run (issue_relay_cert cfg domain) w s).1.2.1 = ∅.
Proof.
  intros Hw. unfold issue_relay_cert. rewrite unblocked_bind, run_bind. destruct w as [w v], s as [a o]. cbn [fst] in Hw.
  cbn. rewrite unblocked_bind, run_bind, run_lift_alone. destruct (or_raise _ _) as [e|csr]; [done|].
  rewrite unblocked_bind, run_bind, run_embed_l. cbn [fst snd].
  pose proof (order_cert_free domain csr w a Hw) as [Hu Hf].
  destruct (run (order_cert domain csr) w a) as [[[e|pem] w1] a1]; cbn [fst snd] in *.
  - split; [|done]. split_and!; [done..|by apply unblocked_embed_l|done].
  - rewrite run_embed_r. destruct (run (write_relay_cert _ _ _ _) _ _) as [[r2 v2] o2]. cbn. split; [|done].
    split_and!; [done..|by apply unblocked_embed_l|apply unblocked_embed_r, os_unblocked].
Qed.

Lemma round_never_waits domain ssl w s : w_locks w.1 = ∅ →
  unblocked (renewal_round cfg domain ssl) w s ∧ w_locks (run (renewal_round cfg domain ssl) w s).1.2.1 = ∅.
Proof.
  intros Hw. unfold renewal_round. rewrite unblocked_bind, run_bind. destruct w as [w v], s as [a o]. cbn [fst] in Hw.
  cbn. rewrite unblocked_bind, run_bind, run_embed_r. cbn [fst snd].
  pose proof (unblocked_embed_r (E:=eff) (relay_cert_days_remaining cfg) (w, v) (a, o) (os_unblocked _ _ _)) as Hd.
  destruct (run (relay_cert_days_remaining cfg) v o) as [[[e|[left|]] v1] o1]; [done| |done].
  destruct (_ <=? left); [done|].
  rewrite unblocked_bind, run_bind, unblocked_catch, run_catch, unblocked_bind, run_bind.
  pose proof (issue_free domain (w, v1) (a, o1) Hw) as [Hu Hf].
  destruct (run (issue_relay_cert cfg domain) (w, v1) (a, o1)) as [[[e|[]] [w2 v2]] [a2 o2]]; cbn [fst snd] in *.
  - done.
  - cbn. destruct ssl; [|done]. cbn. destruct (attempt _ v2 o2) as [[x v3] o3]. split.
    + split; [done|]. split; [done|]. split; [done|]. split; [done|]. apply unblocked_lift.
    + by rewrite run_lift_alone.
Qed.
End round.

(** ** The loop *)

Section forever.
Context `{Ext} `{TlsExt} `{KeyLaws} (cfg : Settings) (domain : str) (ssl : bool).
Implicit Types (w : world * os_state) (s : answers * os_supply).
#[local] Arguments renewal_round : simpl never.

Definition round_body (_ : unit) : coro (eff ⊕ os) (unit + False) :=
  renewal_round cfg domain ssl ;; Ret (inl tt).
(** No lock is held, and the supply has the documented shape. *)
Definition idle w s : Prop := w_locks w.1 = ∅ ∧ supply_ok (E:=eff ⊕ os) (W:=world * os_state) s.

Lemma body_run w s : idle w s →
  ∃ w1 s1, idle w1 s1 ∧
    (run (round_body tt) w s = (inr (inl tt), w1, s1) ∨
     ∃ m, run (round_body tt) w s = (inl (OSErr m), w1, s1) ∧ ssl = true ∧ renewed cfg w1.2).
Proof.
  intros [Hw Hs]. unfold round_body. rewrite run_bind.
  destruct (round_never_waits cfg domain ssl w s Hw) as [Hu Hf].
  destruct (run (renewal_round cfg domain ssl) w s) as [[r w1] s1] eqn:Er. cbn [fst snd] in Hf.
  assert (execs frame_l (renewal_round cfg domain ssl) w r w1) as He.
  { apply (execs_rely (=)); [by intros ?? ->|]. by apply (run_execs _ _ s r w1 s1). }
  apply (wpc_execs _ _ _ _ _ _ _ (renewal_round_wpc cfg domain ssl w)) in He.
  exists w1, s1. split; [split; [done|by eapply run_supply]|].
  destruct r as [e|[]]; [right|by left]. destruct He as (Hssl & Hn & m & ->). by exists m.
Qed.

Lemma rounds_idle n w s i w1 s1 : idle w s →
  rounds round_body n tt w s = Some (i, w1, s1) → i = tt ∧ idle w1 s1.
Proof.
  revert i w s. induction n as [|n IH]; intros i w s Hi; cbn [rounds]; [by intros [= <- <- <-]|].
  destruct (body_run w s Hi) as (w2 & s2 & Hi2 & [->|(m & -> & _)]); cbn [outcome]; [by apply IH|done].
Qed.

Lemma renewal_loop_returns w s w' s' r : idle w s →
  behaviour (renewal_loop cfg domain ssl) w s ≈ ITreeDefinition.Ret ((w', s'), r) →
  ssl = true ∧ renewed cfg w'.2 ∧ ∃ m, r = inl (OSErr m).
Proof.
  intros Hi (n & i & w1 & s1 & r1 & Hn & Hr & Ho)%(loop_returns round_body).
  destruct (rounds_idle _ _ _ _ _ _ Hi Hn) as [-> Hi1].
  destruct (body_run w1 s1 Hi1) as (w2 & s2 & _ & [Hb|(m & Hb & Hssl & Hd)]); rewrite Hr in Hb;
    injection Hb as -> -> ->; cbn in Ho; [done|]. injection Ho as <-. eauto.
Qed.

Lemma renewal_loop_spins w s : idle w s → ssl = false →
  behaviour (renewal_loop cfg domain ssl) w s ≈ ITree.spin.
Proof.
  intros Hi Hssl. apply (loop_spins round_body). intros n.
  induction n as [|n [[[i w1] s1] En]]; [by eexists|].
  rewrite (rounds_snoc _ _ _ _ _ _ _ _ En). destruct (rounds_idle _ _ _ _ _ _ Hi En) as [-> Hi1].
  cbn [rounds]. destruct (body_run w1 s1 Hi1) as (w2 & s2 & _ & [->|(m & _ & Ht & _)]); [by eexists|congruence].
Qed.
End forever.

(** ** Properties *)
#[local] Existing Instance toy.


