(* ===== verification/Rows.v ===== *)
(** * Rows and schema

    The rows of the tables as the handlers see them ([Models]), written out by
    column, against the schema the migrations leave ([Engine]). *)
From S2P Require Import Prelude PyStr Json Models Config Schema Engine.

(** What the ORM writes into a column. *)
Inductive value := VText (s : str) | VTime (t : Z) | VBool (b : bool) | VNull.
Definition or_null {A} (f : A → value) (o : option A) : value := match o with Some a => f a | None => VNull end.

Definition account_row (id : str) (a : Account) : list (str * value) :=
  [(u "id", VText id); (u "public_key", VText (account_public_key a)); (u "contact", or_null VText (account_contact a));
   (u "status", VText (account_status a)); (u "created_at", VTime (account_created_at a))].
Definition order_row (id : str) (o : Order) : list (str * value) :=
  [(u "id", VText id); (u "account_id", VText (order_account_id o)); (u "status", VText (status_str (order_status o)));
   (u "identifiers", VText (order_identifiers o)); (u "le_order_url", or_null VText (order_le_order_url o));
   (u "cert_id", or_null VText (order_cert_id o)); (u "expires_at", or_null VTime (order_expires_at o));
   (u "created_at", VTime (order_created_at o)); (u "error", or_null VText (order_error o))].
Definition authz_row (id : str) (a : Authorization) : list (str * value) :=
  [(u "id", VText id); (u "order_id", VText (authz_order_id a)); (u "identifier", VText (authz_identifier a));
   (u "status", VText (status_str (authz_status a))); (u "challenge_token", or_null VText (authz_challenge_token a));
   (u "le_authz_url", or_null VText (authz_le_authz_url a)); (u "created_at", VTime (authz_created_at a));
   (u "error", or_null VText (authz_error a))].
Definition cert_row (id : str) (c : Certificate) : list (str * value) :=
  [(u "id", VText id); (u "order_id", VText (cert_order_id c)); (u "pem_chain", VText (cert_pem_chain c));
   (u "issued_at", VTime (cert_issued_at c)); (u "expires_at", VTime (cert_expires_at c));
   (u "serial", or_null VText (cert_serial c))].
Definition nonce_row (v : str) (n : Nonce) : list (str * value) :=
  [(u "value", VText v); (u "used", VBool (nonce_used n)); (u "created_at", VTime (nonce_created_at n))].

Definition rows_of {A} (f : str → A → list (str * value)) (m : gmap str A) : list (list (str * value)) :=
  (λ kr, f kr.1 kr.2) <$> map_to_list m.
(** The rows of a table, by its name. *)
Definition table_rows (d : db) (t : str) : list (list (str * value)) :=
  if decide (t = u "accounts") then rows_of account_row (accounts d)
  else if decide (t = u "orders") then rows_of order_row (orders d)
  else if decide (t = u "authorizations") then rows_of authz_row (authzs d)
  else if decide (t = u "certificates") then rows_of cert_row (certs d)
  else if decide (t = u "nonces") then rows_of nonce_row (nonces d)
  else [].

(** A value for a column: of its name, NULL only where allowed, and stored as
    the column's affinity says. *)
Definition fits (c : column) (x : str * value) : Prop :=
  x.1 = col_name c ∧
  match x.2 with
  | VNull => col_not_null c = false
  | VText _ => type_affinity (col_type c) = AffText
  | VTime _ | VBool _ => type_affinity (col_type c) = AffNumeric
  end.

(** ** Lemmas *)

Definition orm_schema : database := (exec_all (orm_statements METADATA) no_tables).2.

(** Fitting depends on the shape of the columns only. *)
Definition fits_shape (c : str * affinity * bool * bool) (x : str * value) : Prop :=
  let '(name, aff, not_null, _) := c in
  x.1 = name ∧
  match x.2 with
  | VNull => not_null = false
  | VText _ => aff = AffText
  | VTime _ | VBool _ => aff = AffNumeric
  end.
Lemma fits_by_shape t row : Forall2 fits_shape (table_shape t).1 row → Forall2 fits (tb_columns t) row.
Proof. unfold table_shape. cbn. rewrite Forall2_fmap_l. intros Hf. by eapply Forall2_impl. Qed.

(** At the head, the tables have the ORM's shape. *)
Lemma head_shape d n : at_head d → n ≠ ALEMBIC_VERSION →
  table_shape <$> db_tables d !! n = (table_shape <$> db_tables orm_schema) !! n.
Proof.
  intros [_ Hs] Hn. pose proof (f_equal fst Hs) as Ht.
  change (fst (shape (exec_all (orm_statements METADATA) no_tables).2)) with (table_shape <$> db_tables orm_schema) in Ht.
  rewrite <- Ht. unfold shape, without_version. cbn [fst db_tables]. by rewrite lookup_fmap, lookup_delete_ne by done.
Qed.

Lemma rows_of_Forall {A} (f : str → A → list (str * value)) m cols :
  (∀ k a, Forall2 fits_shape cols (f k a)) → Forall (Forall2 fits_shape cols) (rows_of f m).
Proof. intros Hf. apply Forall_fmap, Forall_forall. intros [k a] _. apply Hf. Qed.

(** The columns of one table. *)
Definition shape_of (n : str) : list (str * affinity * bool * bool) :=
  match (table_shape <$> db_tables orm_schema) !! n with Some s => s.1 | None => [] end.

(** Every row of a table of known columns, value by value. *)
Ltac typed_table :=
  lazymatch goal with |- context [shape_of ?n] =>
    let s := eval vm_compute in (shape_of n) in
    replace (shape_of n) with s by (vm_compute; reflexivity)
  end;
  apply rows_of_Forall; intros k a; destruct a;
  repeat (constructor; [split; [reflexivity|cbn; unfold or_null; by repeat case_match]|]); constructor.

Lemma typed_rows d n : Forall (Forall2 fits_shape (shape_of n)) (table_rows d n).
Proof. unfold table_rows. repeat case_decide; subst; [typed_table..|constructor]. Qed.

(** The ORM maps every table. *)
Lemma orm_has_table n : n ∈ TABLE_NAMES →
  n ≠ ALEMBIC_VERSION ∧ is_Some ((table_shape <$> db_tables orm_schema) !! n).
Proof. revert n. apply Forall_forall, (bool_decide_unpack _). vm_compute. exact I. Qed.

(** ** Properties *)


(** An order in a database created by the migrations. *)
Definition one_order : db :=
  set_orders {[u "order-1" := mk_Order (u "acct-1") Ready (u "[]") None None (Some 0) 0 None]} empty_db.
